(* ===== verification/_CoqProject ===== *)
-Q . S2P
Prelude.v
SoftFp.v
FpFlags.v
SoftFpSpec.v
SoftFpRound.v
SoftFpArith.v
SoftFpCmp.v
SoftFpIeee.v
FpProps.v
Riscv.v
CpuState.v
Cutils.v
IoMem.v
Mmu.v
Csr.v
Trap.v
IntArith.v
Insn.v
Exec.v
FpExec.v
IntProps.v
ImmProps.v
Interp.v
Invariant.v
WorldInv.v
InterpInv.v
TrapProps.v
PmpProps.v
CsrProps.v
MmuProps.v
TlbProps.v
IoMemProps.v
Uart.v
UartProps.v
Machine.v
MachineProps.v
Fdt.v
FdtProps.v
VirtMachine.v
VirtProps.v
Virtio.v
VirtioBlock.v
VirtioDevs.v
VirtioQueue.v
VirtioProps.v
VirtioDisk.v
LiveCache.v
LiveCacheProps.v
InterpProps.v
Cosim.v
CosimProps.v
Checkpoint.v
CheckpointProps.v
Json.v
JsonProps.v
Config.v
ConfigProps.v
Pci.v
PciProps.v
Virtio9P.v
Virtio9PProps.v
VirtioPci.v
