(* ===== verification/Prelude.v ===== *)
(** * Verification of the dromajo reference core

    OpenExSys_CoherentCache is a coherent cache in SystemVerilog; the program in
    it is src/utils/dromajo, a RISC-V RV64GC emulator in C++ that serves as the
    reference core of its test bench.  This library models the emulator as
    executable Rocq functions, one definition for each function, macro or opcode
    of the source and under its name, and proves what the parts promise.  Paths
    below are relative to src/utils/dromajo.

    ** How the program fits together

    The interpreter ([riscv_cpu_interp64], include/dromajo_template.h) runs a
    hart ([RISCVCPUState]) for a number of cycles: it fetches through a code TLB,
    decodes, executes, and leaves its loop through labels (exception, illegal
    instruction, done).  Loads and stores go through software TLBs, page walk,
    PMP and debug triggers to the physical memory map, whose ranges are host
    memory or devices with callbacks.  CSR accesses and traps change the hart
    and flush the TLBs.  The machine (src/riscv_machine.cpp) owns the harts, the
    CLINT, the PLIC, UARTs and virtio devices, builds the memory map, the boot
    ROM and the device tree, and loads the software.  A test bench drives the
    emulator one instruction at a time through src/dromajo_cosim.cpp.

    In Rocq the hart's code acts on a [World] (Mmu.v): the hart, the memory map,
    host memory (a finite map of bytes) and the state of the devices, of a type
    [D] with the device callbacks as the class [DeviceIO D] and the CSR hooks of
    an embedding program as [MachineHooks D].  Machine.v instantiates [D] with
    [Board], the whole machine seen from one hart.  Other function pointers are
    classes too: [UartEnv], [VirtioOps], [BlockDevice], [EthernetDevice],
    [CharWriter], [FSDevice], [PciEnv].  Machine integers are [Z] with wrap-around
    written out ([u64], [s32], ...), a failed C assertion, an abort or behaviour C
    leaves undefined is [None] or a constructor of its own.

    ** The files

    The prelude (this file): machine integers, bit operators, wrapping, lemmas
    on lists and bits, the tactics and hint databases.

    Floating point.  SoftFp.v: softfp_template.h, softfp_template_icvt.h and
    softfp.cpp at 32, 64 and 128 bits ([FloatFmt]).  FpFlags.v: the flags stay in
    five bits.  SoftFpSpec.v: IEEE-754 rounding of an exact rational, written
    independently of the code.  SoftFpRound.v, SoftFpArith.v, SoftFpCmp.v and
    SoftFpIeee.v build up to FpProps.v: addition, multiplication, division and
    comparison are IEEE-754's on every pair of bit patterns, flags included.

    The hart.  Riscv.v: constants of riscv.h.  CpuState.v: struct RISCVCPUState
    and its accessors.  Cutils.v: byte order (cutils.h).  IoMem.v: the physical
    memory map (iomem.cpp).  Mmu.v: PMP, triggers, page walk, TLBs, memory access
    (src/riscv_cpu.cpp).  Csr.v, Trap.v: CSRs, traps, returns, interrupts, reset
    (src/riscv_cpu.cpp).  IntArith.v, Insn.v, Exec.v, FpExec.v: multiplication and
    division, instruction fields and the monad of the loop body, the opcodes
    (dromajo_template.h, dromajo_fp_template.h).  Interp.v: fetch, loop and exit
    labels.

    Their properties.  Invariant.v, WorldInv.v, InterpInv.v: the type invariant
    [wf_cpu] and its preservation by every operation, up to
    [riscv_cpu_interp_total] in InterpProps.v: the interpreter always returns,
    aborts nowhere and keeps the hart well formed.  IntProps.v and ImmProps.v:
    multiply and divide against exact arithmetic, immediates against the
    encodings.  PmpProps.v: the unpacked PMP entries mean what the CSRs say, and
    locked ones stay.  CsrProps.v: supervisor CSR writes are confined to their
    fields, CSR writes read back legalised.  MmuProps.v: translation is the
    architecture's page walk.  TlbProps.v: when the fast path equals the slow
    path, and what breaks that.  IoMemProps.v: a load reads what was stored.
    TrapProps.v: trap entry, return and interrupt selection.

    The machine.  Uart.v / UartProps.v: src/dw_apb_uart.cpp and the SiFive UART;
    the receive queue and the interrupt line.  Machine.v / MachineProps.v: CLINT,
    PLIC, timer, how device accesses reach them; the claim protocol, well-formed
    machines, the accesses that stop the emulator.  Fdt.v / FdtProps.v: the
    device tree writer; a reader gets back what was written, the buffers are not
    overrun.  VirtMachine.v / VirtProps.v: memory layout, boot ROM, ELF and binary
    loading (src/riscv_machine.cpp, src/elf64.cpp); the boot ROM brings every
    hart to the firmware.

    virtio (src/virtio.cpp, the disk image of src/dromajo_main.cpp).  Virtio.v:
    chains, rings, MMIO and PCI registers.  VirtioBlock.v, VirtioDevs.v: block,
    network, console and input devices.  VirtioQueue.v: a transfer over a chain
    is a slice of the guest bytes the chain names.  VirtioProps.v: registers stay
    in their types, the notification loop serves every pending request and
    returns, unless the guest ties a chain into a cycle.  VirtioDisk.v: the
    block device is a disk of sectors.  Virtio9P.v / Virtio9PProps.v: the 9P
    device over any file system; only open files are used, none leaks or is closed
    twice.  VirtioPci.v: the devices on the PCI bus.

    LiveCache.v / LiveCacheProps.v (src/LiveCache.cpp, include/LiveCacheCore.h):
    the cache model refines an LRU list, which it lists oldest first.  Cosim.v /
    CosimProps.v (src/dromajo_cosim.cpp): a device under test that behaves as the
    emulator is followed and never reported.

    Checkpoint.v / CheckpointProps.v (create_boot_rom, riscv_cpu_serialize and
    riscv_cpu_deserialize of src/riscv_cpu.cpp): the recovery ROM always fits, a
    snapshot restores the memory, and a reset hart that runs the ROM has the saved
    registers back.  Json.v / JsonProps.v (src/json.cpp): the parser returns on
    every text and reads every text of the grammar as the value it stands for.
    Config.v / ConfigProps.v (src/machine.cpp): configuration files; the numbered
    tables of drives, file systems and interfaces.  Pci.v / PciProps.v
    (src/pci.cpp): the PCI bus and its bridge; the mappings follow the
    configuration space whatever the guest writes.

    ** Configuration

    XLEN, FLEN and MLEN are 64 and HAVE_INT128 is defined, misaligned accesses
    trap, A/D bits are left to software, TLBs have 256 entries, the host is
    little-endian; GOLDMEM_INORDER and SIMPOINT_BB are off, and LIVECACHE is off
    outside LiveCache.v, so the tracking hooks change nothing.

    ** Fuel and bounds

    The interpreter loop takes n + 1 turns of fuel for n cycles, which
    [riscv_cpu_interp_total] proves enough.  Chain walks and the notification
    loop of virtio take a fuel argument because a guest can make them endless:
    running out is a result of its own, the totality theorem bounds the fuel that
    suffices for chains without a cycle, and [cyclic_chain_hangs] shows that none
    does for one with.  A co-simulation step takes fuel for the same reason
    ([step_never_returns]).  Other fuel is a length the source bounds:
    [hex_digits] 16 digits of a 64-bit number, [log2_loop] 32 doublings of a
    32-bit number, [merge_sort] the length of the array, [find_string] the
    length of the string table, [decimal_loop] 20 digits, [numbered] one more
    than a table's bound.  The JSON parser recurses with fuel of twice the text's
    length, which [json_parse_total] proves enough.

    ** Not modelled

    The host file systems behind the 9P device (src/fs*.cpp); the command line,
    the terminal and the dump functions (the rest of src/dromajo_main.cpp): input
    and output of the host; the text file of registers a checkpoint also writes,
    which nothing reads; the lookup of ELF symbols, used by the command line; golden memory checking (gold/), compiled out;
    the formatting library in external/, third-party; allocation wrappers
    (src/cutils.cpp), as values here are immutable.  The SystemVerilog is not
    C. *)

From Stdlib Require Export ZArith Lia Bool.
From stdpp Require Export base tactics list gmap.

#[export] Set Default Goal Selector "!".
Global Open Scope Z_scope.
#[global] Arguments Z.pow : simpl never.
#[global] Arguments Z.shiftl : simpl never.
#[global] Arguments Z.shiftr : simpl never.
#[global] Arguments Z.land : simpl never.
#[global] Arguments Z.lor : simpl never.
#[global] Arguments Z.lxor : simpl never.
#[global] Arguments Z.lnot : simpl never.
#[global] Arguments Z.modulo : simpl never.
#[global] Arguments Z.div : simpl never.
#[global] Arguments Z.mul : simpl never.
#[global] Arguments Z.add : simpl never.
#[global] Arguments Z.sub : simpl never.

(** ** Notations for the C bit operators *)

Declare Scope mach_scope.
Delimit Scope mach_scope with mach.
Notation "a << n" := (Z.shiftl a n) (at level 45, left associativity) : mach_scope.
Notation "a >> n" := (Z.shiftr a n) (at level 45, left associativity) : mach_scope.
Notation "a .& b" := (Z.land a b) (at level 46, left associativity) : mach_scope.
Notation "a .^ b" := (Z.lxor a b) (at level 47, left associativity) : mach_scope.
Notation "a .| b" := (Z.lor a b) (at level 48, left associativity) : mach_scope.
Notation "'~~' a" := (Z.lnot a) (at level 35, right associativity) : mach_scope.
Global Open Scope mach_scope.

(** C truth values: the integer of a comparison, and the test of an integer. *)
Definition b2z (b : bool) : Z := if b then 1 else 0.
Definition tst (x : Z) : bool := negb (x =? 0).

(** ** Machine integers: a [w]-bit unsigned integer is a [Z] in [0, 2^w),
    conversion to it is reduction modulo 2^w, conversion to the signed type
    is the representative in [-2^(w-1), 2^(w-1)). *)

Definition uN (w x : Z) : Z := x mod 2 ^ w.
Definition sN (w x : Z) : Z := (x + 2 ^ (w - 1)) mod 2 ^ w - 2 ^ (w - 1).

Abbreviation u8 := (uN 8).
Abbreviation u16 := (uN 16).
Abbreviation u32 := (uN 32).
Abbreviation u64 := (uN 64).
Abbreviation u128 := (uN 128).
Abbreviation s8 := (sN 8).
Abbreviation s16 := (sN 16).
Abbreviation s32 := (sN 32).
Abbreviation s64 := (sN 64).
Abbreviation s128 := (sN 128).

Definition in_u (w x : Z) : Prop := 0 <= x < 2 ^ w.
Definition in_s (w x : Z) : Prop := - 2 ^ (w - 1) <= x < 2 ^ (w - 1).

#[export] Instance in_u_dec w x : Decision (in_u w x).
Proof. unfold in_u. apply _. Defined.
#[export] Instance in_s_dec w x : Decision (in_s w x).
Proof. unfold in_s. apply _. Defined.

Create HintDb mach.

Lemma pow2_pos w : 0 <= w -> 0 < 2 ^ w.
Proof. intros. apply Z.pow_pos_nonneg; lia. Qed.

Lemma pow2_split a b : 0 <= b <= a -> 2 ^ a = 2 ^ b * 2 ^ (a - b).
Proof. intros. rewrite <- Z.pow_add_r by lia. f_equal. lia. Qed.

Lemma pow2_succ w : 0 <= w -> 2 ^ (w + 1) = 2 * 2 ^ w.
Proof. intros. rewrite Z.pow_add_r by lia. lia. Qed.

Lemma pow2_half w : 1 <= w -> 2 ^ w = 2 * 2 ^ (w - 1).
Proof. intros. rewrite <- pow2_succ by lia. f_equal. lia. Qed.

Lemma uN_range w x : 0 <= w -> in_u w (uN w x).
Proof. intros. apply Z.mod_pos_bound, pow2_pos; lia. Qed.

Lemma uN_small w x : in_u w x -> uN w x = x.
Proof. apply Z.mod_small. Qed.

Lemma uN_idem w x : 0 <= w -> uN w (uN w x) = uN w x.
Proof. intros. apply uN_small, uN_range; done. Qed.

Lemma sN_range w x : 1 <= w -> in_s w (sN w x).
Proof.
  intros. unfold in_s, sN. rewrite (pow2_half w) by lia.
  pose proof (pow2_pos (w - 1) ltac:(lia)).
  pose proof (Z.mod_pos_bound (x + 2 ^ (w - 1)) (2 * 2 ^ (w - 1))). lia.
Qed.

Lemma sN_small w x : 1 <= w -> in_s w x -> sN w x = x.
Proof.
  unfold in_s, sN. intros. rewrite Z.mod_small; [lia|].
  rewrite (pow2_half w) by lia. lia.
Qed.

(** The two readings of the same word: they differ by a multiple of [2^w]. *)
Lemma sN_eq w x : 1 <= w -> in_u w x ->
  sN w x = if x <? 2 ^ (w - 1) then x else x - 2 ^ w.
Proof.
  unfold in_u. intros Hw Hx. destruct (Z.ltb_spec x (2 ^ (w - 1))).
  - apply sN_small; [done|]. unfold in_s.
    pose proof (pow2_pos (w - 1) ltac:(lia)). lia.
  - unfold sN.
    replace (x + 2 ^ (w - 1)) with (x - 2 ^ (w - 1) + 1 * 2 ^ w)
      by (rewrite (pow2_half w) by lia; lia).
    rewrite (pow2_half w) in * by lia.
    rewrite Z.mod_add by lia. rewrite Z.mod_small by lia. lia.
Qed.

Lemma uN_sN w x : 1 <= w -> uN w (sN w x) = uN w x.
Proof.
  intros. unfold uN, sN. rewrite Zminus_mod_idemp_l. f_equal. lia.
Qed.

Lemma sN_uN w x : 1 <= w -> sN w (uN w x) = sN w x.
Proof. intros. unfold uN, sN. by rewrite Zplus_mod_idemp_l. Qed.

Lemma sN_congr w x : 1 <= w -> exists k, sN w x = x + k * 2 ^ w.
Proof.
  intros. unfold sN. exists (- ((x + 2 ^ (w - 1)) / 2 ^ w)).
  pose proof (Z.div_mod (x + 2 ^ (w - 1)) (2 ^ w) ltac:(pose proof (pow2_pos w); lia)).
  lia.
Qed.

#[export] Hint Resolve uN_range sN_range : mach.
#[export] Hint Extern 1 (_ <= _) => lia : mach.
#[export] Hint Extern 1 (_ < _) => lia : mach.

(** Equations between products of powers of two whose exponents are sums. *)
Ltac pow2_ring :=
  repeat match goal with
  | |- context [2 ^ (?a + ?b)] => rewrite (Z.pow_add_r 2 a b) by lia
  end; ring.

(** ** Bits *)

Lemma testbit_uN w x i : 0 <= w -> 0 <= i ->
  Z.testbit (uN w x) i = (i <? w) && Z.testbit x i.
Proof.
  intros. unfold uN. destruct (Z.ltb_spec i w).
  - by rewrite Z.mod_pow2_bits_low by lia.
  - by rewrite Z.mod_pow2_bits_high by lia.
Qed.

Lemma testbit_ones' n i : 0 <= n -> 0 <= i -> Z.testbit (Z.ones n) i = (i <? n).
Proof. intros. by apply Z.testbit_ones_nonneg. Qed.

Lemma testbit_pow2 n i : 0 <= n -> 0 <= i -> Z.testbit (2 ^ n) i = (i =? n).
Proof.
  intros. destruct (Z.eqb_spec i n) as [->|].
  - by apply Z.pow2_bits_true.
  - by apply Z.pow2_bits_false.
Qed.

Lemma testbit_high w x i : 0 <= w -> in_u w x -> w <= i -> Z.testbit x i = false.
Proof.
  intros Hw Hx Hi. rewrite <- (uN_small w x) by done.
  rewrite testbit_uN by lia. destruct (Z.ltb_spec i w); [lia|done].
Qed.

Lemma testbit_b2z b i : 0 <= i -> Z.testbit (b2z b) i = (i =? 0) && b.
Proof.
  intros. destruct b; simpl.
  - rewrite andb_true_r. change 1 with (2 ^ 0). by apply testbit_pow2.
  - by rewrite andb_false_r, Z.testbit_0_l.
Qed.

Create Rewrite HintDb zbits.
#[export] Hint Rewrite Z.land_spec Z.lor_spec Z.lxor_spec Z.ldiff_spec Z.testbit_0_l : zbits.
#[export] Hint Rewrite Z.lnot_spec Z.shiftr_spec Z.shiftl_spec testbit_uN
  testbit_ones' testbit_pow2 testbit_b2z using lia : zbits.

(** the bits of a sign-extended value: the sign bit repeats *)
Lemma testbit_sN n x i : 1 <= n -> 0 <= i -> Z.testbit (sN n x) i = Z.testbit x (Z.min i (n - 1)).
Proof.
  intros Hn Hi. destruct (Z.lt_ge_cases i n) as [Hin|Hin].
  - rewrite Z.min_l by lia.
    transitivity (Z.testbit (uN n (sN n x)) i); [|rewrite uN_sN by done];
      rewrite testbit_uN by lia; by destruct (Z.ltb_spec i n); [|lia].
  - rewrite Z.min_r by lia. rewrite <- (sN_uN n x) by done.
    pose proof (uN_range n x ltac:(lia)) as Hy. rewrite (sN_eq n _ Hn Hy).
    transitivity (Z.testbit (uN n x) (n - 1));
      [|rewrite testbit_uN by lia; by destruct (Z.ltb_spec (n - 1) n); [|lia]].
    revert Hy. generalize (uN n x). intros y Hy. pose proof (pow2_half n Hn) as Hp.
    pose proof (pow2_pos (n - 1) ltac:(lia)). unfold in_u in Hy. rewrite !Z.testbit_odd.
    rewrite !Z.shiftr_div_pow2 by lia. rewrite (pow2_split i n) by lia.
    pose proof (pow2_pos (i - n) ltac:(lia)).
    destruct (Z.ltb_spec y (2 ^ (n - 1))).
    + rewrite (Z.div_small y (2 ^ (n - 1))) by lia. rewrite Z.div_small by nia. done.
    + rewrite <- Z.div_div by lia.
      replace ((y - 2 ^ n) / 2 ^ n) with (-1)
        by (apply Z.div_unique with y; lia).
      replace (-1 / 2 ^ (i - n)) with (-1) by (apply Z.div_unique with (2 ^ (i - n) - 1); lia).
      replace (y / 2 ^ (n - 1)) with 1 by (apply Z.div_unique with (y - 2 ^ (n - 1)); lia). done.
Qed.
#[export] Hint Rewrite testbit_sN using lia : zbits.

(** equality of two words bit by bit, the positions being enumerated *)
Lemma uN_bits_eq w a b :
  0 <= w -> Forall (fun i => Z.testbit a i = Z.testbit b i) (seqZ 0 w) -> uN w a = uN w b.
Proof.
  intros Hw Hf. apply Z.bits_inj'. intros i Hi. rewrite !testbit_uN by lia.
  destruct (Z.ltb_spec i w); [|done]. simpl. rewrite Forall_forall in Hf. apply Hf.
  rewrite elem_of_seqZ. lia.
Qed.

(** evaluate the bits of closed words at closed positions *)
Ltac is_closed_Z x := lazymatch x with
  | Z0 => idtac | Z.pos _ => idtac | Z.neg _ => idtac
  | Z.sub ?a ?b => is_closed_Z a; is_closed_Z b
  | Z.add ?a ?b => is_closed_Z a; is_closed_Z b
  | Z.min ?a ?b => is_closed_Z a; is_closed_Z b
  | Z.shiftl ?a ?b => is_closed_Z a; is_closed_Z b
  | Z.ones ?a => is_closed_Z a
  | _ => fail
  end.
Ltac eval_testbit :=
  repeat match goal with
  | |- context [Z.testbit ?x (Z.neg ?i)] => change (Z.testbit x (Z.neg i)) with false
  | |- context [Z.testbit ?x ?i] =>
      is_closed_Z x; is_closed_Z i; let b := eval vm_compute in (Z.testbit x i) in
      change (Z.testbit x i) with b
  end.

(** normalise the positions, and the conditions on positions *)
Ltac norm_index :=
  repeat match goal with
  | |- context [Z.testbit ?x ?i] =>
      is_closed_Z i; let j := eval vm_compute in i in
      assert_fails (idtac; constr_eq i j); change (Z.testbit x i) with (Z.testbit x j)
  | |- context [?i <? ?j] =>
      is_closed_Z i; is_closed_Z j; let b := eval vm_compute in (i <? j) in change (i <? j) with b
  | |- context [?i =? ?j] =>
      is_closed_Z i; is_closed_Z j; let b := eval vm_compute in (i =? j) in change (i =? j) with b
  | |- context [if ?c then ?a else ?b] =>
      let c' := eval vm_compute in c in
      lazymatch c' with
      | true => change (if c then a else b) with a
      | false => change (if c then a else b) with b
      end
  end.

(** one round of rewriting of a bit at a closed position *)
Ltac bit_step :=
  progress (autorewrite with zbits; norm_index; eval_testbit; cbn [andb orb negb];
    rewrite ?andb_true_r, ?andb_false_r, ?orb_false_r, ?orb_false_l).

(** [Forall] over the positions: each by [bit_step]s, then [tac] *)
Ltac enum_bits_with tac :=
  match goal with |- Forall _ ?l => let l' := eval vm_compute in l in change l with l' end;
  repeat (apply List.Forall_cons); [..|apply List.Forall_nil];
  cbv beta; repeat bit_step; first [reflexivity | solve [tac] | idtac].

(** [zbits] proves equalities between bit expressions position by position. *)
Ltac zbits_case :=
  match goal with
  | |- context [?a <? ?b] => destruct (Z.ltb_spec a b); try lia
  | |- context [?a =? ?b] => destruct (Z.eqb_spec a b); try lia
  | |- context [?a <=? ?b] => destruct (Z.leb_spec a b); try lia
  end.
Ltac zbits_step :=
  autorewrite with zbits; repeat zbits_case; simpl;
  try (rewrite !Z.testbit_neg_r by lia); try done.
Ltac zbits :=
  apply Z.bits_inj'; intros ?i ?Hi; zbits_step; try (progress zbits_step);
  rewrite ?orb_false_r, ?andb_false_r, ?andb_true_r; try done; try (f_equal; lia).

Lemma land_ones_uN w x : 0 <= w -> x .& Z.ones w = uN w x.
Proof. intros. by rewrite Z.land_ones. Qed.

Lemma land_pow2m1 w x : 0 <= w -> x .& (2 ^ w - 1) = uN w x.
Proof.
  intros. rewrite <- land_ones_uN by done. by rewrite Z.ones_equiv.
Qed.

Lemma shiftr_div w x : 0 <= w -> x >> w = x / 2 ^ w.
Proof. intros. by apply Z.shiftr_div_pow2. Qed.

Lemma shiftl_mul w x : 0 <= w -> x << w = x * 2 ^ w.
Proof. intros. by apply Z.shiftl_mul_pow2. Qed.

(** Disjoint bits: or is addition. *)
Lemma lor_disjoint_add a b n : 0 <= n -> in_u n b -> a << n .| b = a * 2 ^ n + b.
Proof.
  intros Hn Hb. rewrite <- shiftl_mul by done. symmetry. apply Z.add_nocarry_lor.
  zbits. destruct (Z.ltb_spec i n).
  - rewrite Z.testbit_neg_r by lia. done.
  - rewrite (testbit_high n b) by (done || lia). by rewrite andb_false_r.
Qed.

Lemma land_in_u_l w a b : 0 <= w -> in_u w a -> in_u w (a .& b).
Proof.
  intros Hw Ha. rewrite <- (uN_small w a) by done.
  replace (uN w a .& b) with (uN w (a .& b)); [by apply uN_range|]. zbits.
Qed.

Lemma land_in_u_r w a b : 0 <= w -> in_u w b -> in_u w (a .& b).
Proof. intros. rewrite Z.land_comm. by apply land_in_u_l. Qed.

Lemma lor_in_u w a b : 0 <= w -> in_u w a -> in_u w b -> in_u w (a .| b).
Proof.
  intros Hw Ha Hb. rewrite <- (uN_small w a), <- (uN_small w b) by done.
  replace (uN w a .| uN w b) with (uN w (a .| b)); [by apply uN_range|]. zbits.
Qed.

Lemma lxor_in_u w a b : 0 <= w -> in_u w a -> in_u w b -> in_u w (a .^ b).
Proof.
  intros Hw Ha Hb. rewrite <- (uN_small w a), <- (uN_small w b) by done.
  replace (uN w a .^ uN w b) with (uN w (a .^ b)); [by apply uN_range|]. zbits.
Qed.

Lemma shiftr_in_u w n a : 0 <= n <= w -> in_u w a -> in_u (w - n) (a >> n).
Proof.
  intros Hn Ha. unfold in_u in *. rewrite shiftr_div by lia.
  pose proof (pow2_pos n ltac:(lia)).
  split; [apply Z.div_pos; lia|].
  apply Z.div_lt_upper_bound; [lia|]. rewrite <- pow2_split by lia. lia.
Qed.

Lemma in_u_weaken w w' a : 0 <= w <= w' -> in_u w a -> in_u w' a.
Proof.
  unfold in_u. intros. pose proof (Z.pow_le_mono_r 2 w w'). lia.
Qed.

Lemma log2_in_u w a : 0 < a -> in_u w a -> Z.log2 a < w.
Proof. unfold in_u. intros. apply Z.log2_lt_pow2; lia. Qed.

(** A word as its top bit and the rest, and its left shift by one. *)
Lemma top_bit w x : 1 <= w -> in_u w x ->
  exists t x', (t = 0 \/ t = 1) /\ 0 <= x' < 2 ^ (w - 1) /\ x = t * 2 ^ (w - 1) + x'
    /\ x >> (w - 1) = t /\ uN w (x << 1) = 2 * x'.
Proof.
  intros Hw Hx. unfold in_u in Hx. rewrite (pow2_half w) in Hx by lia.
  pose proof (pow2_pos (w - 1) ltac:(lia)) as Hp.
  pose proof (Z_div_mod_eq_full x (2 ^ (w - 1))) as Hdm.
  pose proof (Z.mod_pos_bound x (2 ^ (w - 1)) Hp) as Hm.
  assert (0 <= x / 2 ^ (w - 1) < 2) as Hd by (split; [apply Z.div_pos|apply Z.div_lt_upper_bound]; lia).
  exists (x / 2 ^ (w - 1)), (x mod 2 ^ (w - 1)).
  rewrite shiftr_div, shiftl_mul by lia. split; [lia|]. split; [done|]. split; [lia|]. split; [done|].
  set (t := x / 2 ^ (w - 1)) in *. set (x' := x mod 2 ^ (w - 1)) in *. clearbody t x'.
  unfold uN. change (2 ^ 1) with 2. rewrite (pow2_half w) by lia.
  symmetry. apply Z.mod_unique with t; lia.
Qed.

(** ** Arrays as lists indexed by [Z]

    An index is always a masked field or a loop counter; [rd] gives 0 outside
    the array and [wr] leaves it unchanged (the model's out-of-range convention;
    the code never indexes out of range). *)
Definition rd (l : list Z) (i : Z) : Z := nth (Z.to_nat i) l 0.
Definition wr (l : list Z) (i v : Z) : list Z := <[Z.to_nat i := v]> l.

Lemma rd_lookup l i : rd l i = default 0 (l !! Z.to_nat i).
Proof. unfold rd. by rewrite nth_lookup. Qed.

Lemma length_wr l i v : length (wr l i v) = length l.
Proof. apply length_insert. Qed.

Lemma rd_wr_eq l i v : 0 <= i < Z.of_nat (length l) -> rd (wr l i v) i = v.
Proof.
  intros. unfold wr. rewrite rd_lookup, list_lookup_insert_eq by lia. done.
Qed.

Lemma rd_wr_ne l i j v : 0 <= i -> 0 <= j -> i <> j -> rd (wr l i v) j = rd l j.
Proof.
  intros. unfold wr. rewrite !rd_lookup, list_lookup_insert_ne by lia. done.
Qed.

(** ** Schoolbook double-word multiplication

    Multiplying two words by their halves in base [H], carry by carry, gives
    the double-word product. *)
Lemma half_mul H a0 a1 b0 b1 : 0 < H ->
  let c := a0 * b0 / H + a0 * b1 mod H + a1 * b0 mod H in
  let d := c / H + a0 * b1 / H + a1 * b0 / H + a1 * b1 mod H in
  ((d / H + a1 * b1 / H) * H + d mod H) * (H * H) + (c mod H * H + a0 * b0 mod H)
  = (a1 * H + a0) * (b1 * H + b0).
Proof.
  intros HH c d.
  pose proof (Z.div_mod (a0 * b0) H ltac:(lia)) as E00.
  pose proof (Z.div_mod (a0 * b1) H ltac:(lia)) as E01.
  pose proof (Z.div_mod (a1 * b0) H ltac:(lia)) as E10.
  pose proof (Z.div_mod (a1 * b1) H ltac:(lia)) as E11.
  pose proof (Z.div_mod c H ltac:(lia)) as Ec.
  pose proof (Z.div_mod d H ltac:(lia)) as Ed.
  unfold c in Ec at 1. unfold d in Ed at 1.
  assert (forall x y z, x = y + z -> z = x - y) as Hm by (intros; lia).
  apply Hm in Ec, Ed. rewrite Ec, Ed.
  replace ((a1 * H + a0) * (b1 * H + b0))
    with (a1 * b1 * (H * H) + (a0 * b1 + a1 * b0) * H + a0 * b0) by ring.
  apply Hm in E00, E01, E10, E11. rewrite E00, E01, E10, E11. ring.
Qed.

(** The carries and the high half stay within two half words. *)
Lemma half_mul_bounds H a0 a1 b0 b1 : 1 < H ->
  0 <= a0 < H -> 0 <= a1 < H -> 0 <= b0 < H -> 0 <= b1 < H ->
  let c := a0 * b0 / H + a0 * b1 mod H + a1 * b0 mod H in
  let d := c / H + a0 * b1 / H + a1 * b0 / H + a1 * b1 mod H in
  0 <= c < 3 * H /\ 0 <= d < 4 * H /\ 0 <= d / H + a1 * b1 / H < H.
Proof.
  intros HH Ha0 Ha1 Hb0 Hb1 c d.
  assert (forall x y, 0 <= x < H -> 0 <= y < H -> 0 <= x * y / H < H) as Hq.
  { intros x y Hx Hy. split; [apply Z.div_pos; nia|apply Z.div_lt_upper_bound; nia]. }
  assert (forall x, 0 <= x mod H < H) as Hr by (intros; apply Z.mod_pos_bound; lia).
  pose proof (Hq a0 b0 Ha0 Hb0). pose proof (Hq a0 b1 Ha0 Hb1). pose proof (Hq a1 b0 Ha1 Hb0).
  pose proof (Hq a1 b1 Ha1 Hb1).
  pose proof (Hr (a0 * b1)). pose proof (Hr (a1 * b0)). pose proof (Hr (a1 * b1)).
  assert (0 <= c < 3 * H) as Hc by (unfold c; lia).
  assert (0 <= c / H < 3).
  { split; [apply Z.div_pos; lia|apply Z.div_lt_upper_bound; lia]. }
  assert (0 <= d < 4 * H) as Hd by (unfold d; lia).
  assert (0 <= d / H) by (apply Z.div_pos; lia).
  split; [done|]. split; [done|]. split; [lia|].
  pose proof (half_mul H a0 a1 b0 b1 ltac:(lia)) as Hm. cbv zeta in Hm. fold c in Hm. fold d in Hm.
  pose proof (Hr d). pose proof (Hr c). pose proof (Hr (a0 * b0)).
  assert (forall x y, 0 <= x < H -> 0 <= y < H -> 0 <= x * H + y < H * H) as Hw
    by (clear; intros; nia).
  assert ((a1 * H + a0) * (b1 * H + b0) < (H * H) * (H * H)) as Hlt
    by (apply Z.mul_lt_mono_nonneg; apply Hw; done).
  rewrite <- Hm in Hlt. set (t := d / H + a1 * b1 / H) in *.
  assert (0 <= c mod H * H + a0 * b0 mod H) by (apply Hw; done).
  assert (t * H + d mod H < H * H) as Ht.
  { apply (Z.mul_lt_mono_pos_r (H * H)); [clear - HH; nia|lia]. }
  assert (t * H < H * H) as Ht2 by lia. by apply (Z.mul_lt_mono_pos_r H) in Ht2; lia.
Qed.

(** ** Ranges of words and of arrays of words *)

Lemma in_u_0 w : 0 <= w -> in_u w 0.
Proof. intros. pose proof (pow2_pos w). unfold in_u. lia. Qed.

Lemma in_u_b2z w b : 1 <= w -> in_u w (b2z b).
Proof.
  intros. unfold in_u. rewrite (pow2_half w) by done. pose proof (pow2_pos (w - 1)).
  destruct b; simpl; lia.
Qed.

Lemma shiftr_in_u' w n a : 0 <= w -> 0 <= n -> in_u w a -> in_u w (a >> n).
Proof.
  unfold in_u. intros Hw Hn Ha. rewrite shiftr_div by lia. pose proof (pow2_pos n Hn).
  split; [apply Z.div_pos; lia|]. apply Z.div_lt_upper_bound; [lia|]. nia.
Qed.

Lemma rd_in_u w l i : 0 <= w -> Forall (in_u w) l -> in_u w (rd l i).
Proof.
  intros Hw Hl. rewrite rd_lookup. destruct (l !! Z.to_nat i) eqn:E; simpl.
  - eapply Forall_lookup_1; eauto.
  - by apply in_u_0.
Qed.

Lemma wr_Forall (P : Z -> Prop) l i v : Forall P l -> P v -> Forall P (wr l i v).
Proof. intros. by apply Forall_insert. Qed.

#[export] Hint Resolve in_u_0 in_u_b2z rd_in_u wr_Forall lor_in_u land_in_u_l lxor_in_u : mach.

Lemma in_u_b2z_shiftl w b n : 0 <= n < w -> in_u w (b2z b << n).
Proof.
  intros Hn. destruct b; simpl.
  - unfold in_u. rewrite shiftl_mul, Z.mul_1_l by lia. split; [apply Z.pow_nonneg; lia|].
    apply Z.pow_lt_mono_r; lia.
  - rewrite Z.shiftl_0_l. apply in_u_0. lia.
Qed.

Lemma foldl_inv {A B} (P : A -> Prop) (f : A -> B -> A) l a :
  P a -> (forall a x, P a -> x ∈ l -> P (f a x)) -> P (foldl f a l).
Proof.
  revert a. induction l as [|x l IH]; intros a Ha Hf; simpl; [done|].
  apply IH; [|intros; apply Hf; set_solver]. apply Hf; set_solver.
Qed.

Lemma shiftl_in_u w n m a : 0 <= w -> 0 <= n -> w + n <= m -> in_u w a -> in_u m (a << n).
Proof.
  intros Hw Hn Hm Ha. unfold in_u in *. rewrite shiftl_mul by lia.
  pose proof (pow2_pos n Hn). split; [nia|].
  apply (Z.lt_le_trans _ (2 ^ (w + n))); [|apply Z.pow_le_mono_r; lia].
  rewrite Z.pow_add_r by lia. nia.
Qed.

(** ** Flags and fields of a word *)

Lemma tst_land_pow2 x k : 0 <= k -> tst (x .& 2 ^ k) = Z.testbit x k.
Proof.
  intros Hk. unfold tst. destruct (Z.testbit x k) eqn:E.
  - assert (Z.testbit (x .& 2 ^ k) k = true) as Hb by (rewrite Z.land_spec, E, testbit_pow2, Z.eqb_refl by lia; done).
    destruct (Z.eqb_spec (x .& 2 ^ k) 0) as [H0|]; [|done]. by rewrite H0, Z.testbit_0_l in Hb.
  - destruct (Z.eqb_spec (x .& 2 ^ k) 0) as [|H0]; [done|]. exfalso. apply H0. apply Z.bits_inj'. intros i Hi.
    rewrite Z.land_spec, testbit_pow2, Z.testbit_0_l by lia.
    destruct (Z.eqb_spec i k) as [->|]; [by rewrite E|by rewrite andb_false_r].
Qed.

Lemma testbit_bit k i : 0 <= k -> 0 <= i -> Z.testbit (1 << k) i = (i =? k).
Proof. intros. rewrite Z.shiftl_mul_pow2, Z.mul_1_l by lia. by apply testbit_pow2. Qed.

(** an [n]-bit value shifted to position [k], and the mask of that field *)
Lemma testbit_shifted n p k i : 0 <= n -> 0 <= k -> 0 <= i -> in_u n p ->
  Z.testbit (p << k) i = ((k <=? i) && (i <? k + n)) && Z.testbit p (i - k).
Proof.
  intros Hn Hk Hi Hp. rewrite Z.shiftl_spec by lia. destruct (Z.leb_spec k i).
  - destruct (Z.ltb_spec i (k + n)); [done|]. simpl. apply (testbit_high n); (done || lia).
  - by rewrite Z.testbit_neg_r by lia.
Qed.

Lemma testbit_mask n k i : 0 <= n -> 0 <= k -> 0 <= i ->
  Z.testbit (Z.ones n << k) i = (k <=? i) && (i <? k + n).
Proof.
  intros Hn Hk Hi. rewrite Z.shiftl_spec by lia. destruct (Z.leb_spec k i).
  - rewrite testbit_ones' by lia. destruct (Z.ltb_spec (i - k) n), (Z.ltb_spec i (k + n)); try lia; done.
  - by rewrite Z.testbit_neg_r by lia.
Qed.

Lemma tst_bit x i : 0 <= i -> tst ((x >> i) .& 1) = Z.testbit x i.
Proof.
  intros Hi. change 1 with (2 ^ 0). rewrite tst_land_pow2, Z.shiftr_spec by lia. done.
Qed.

(** clearing the low [j] bits rounds down to a multiple of [2^j] *)
Lemma land_lnot_pow2 x j : 0 <= j -> x .& ~~ ((1 << j) - 1) = x / 2 ^ j * 2 ^ j.
Proof.
  intros Hj. rewrite <- Z.ldiff_land, Z.shiftl_mul_pow2, Z.mul_1_l by done.
  replace (2 ^ j - 1) with (Z.ones j) by (by rewrite Z.ones_equiv).
  rewrite Z.ldiff_ones_r, Z.shiftl_mul_pow2, Z.shiftr_div_pow2 by done. done.
Qed.

(** [in_u_tac] proves that a word expression fits its width. *)

Ltac closed_goal := assert_fails (idtac; match goal with |- context [?v] => is_var v end).
Ltac in_u_const := first [ assumption | (closed_goal; apply (bool_decide_unpack _); vm_compute; exact I) ].
Ltac in_u_tac :=
  lazymatch goal with
  | |- in_u _ (uN _ _) => apply uN_range; lia
  | |- in_u ?w (uN ?w' _) => apply (in_u_weaken w'); [lia|apply uN_range; lia]
  | |- in_u _ (Z.lor _ _) => apply lor_in_u; [lia|in_u_tac|in_u_tac]
  | |- in_u _ (Z.lxor _ _) => apply lxor_in_u; [lia|in_u_tac|in_u_tac]
  | |- in_u _ (Z.land _ _) =>
      first [ apply land_in_u_l; [lia|in_u_tac; fail] | apply land_in_u_r; [lia|in_u_tac; fail] ]
  | |- in_u _ (Z.shiftr _ _) => apply shiftr_in_u'; [lia|lia|in_u_tac]
  | |- in_u _ (Z.shiftl (b2z _) _) => apply in_u_b2z_shiftl; vm_compute; split; congruence
  | |- in_u _ (b2z _) => apply in_u_b2z; lia
  | |- in_u _ (rd _ _) => first [assumption | (apply rd_in_u; [lia|assumption])]
  | |- in_u _ (if ?c then _ else _) => destruct c; in_u_tac
  | |- _ => in_u_const
  end.
