(* ===== verification/SoftFp.v ===== *)
(** * Software floating point (softfp.h, softfp.cpp, softfp_template.h,
    softfp_template_icvt.h)

    The template is instantiated for [F_SIZE] = 32, 64 and 128; here the three
    formats are instances of the class [FloatFmt] and every template function
    is one definition over it.  [F_UINT] values are [Z] in [0, 2^F_SIZE) and
    arithmetic that can wrap is wrapped by [uF]; exponents are C [int]s that
    stay far below 2^31 and are plain [Z].  A function with an in/out
    [uint32_t *pfflags] takes the flags and returns the updated ones.  The
    build has [HAVE_INT128], so [F_ULONG] exists for 32 and 64 bits and the
    half-word routines are used for 128 bits. *)

From S2P Require Import Prelude.

(** ** softfp.h *)

Inductive RoundingModeEnum := RM_RNE | RM_RTZ | RM_RDN | RM_RUP | RM_RMM.

#[export] Instance RoundingModeEnum_eq_dec : EqDecision RoundingModeEnum.
Proof. solve_decision. Defined.

(** The enumerator's integer value, and the cast [(RoundingModeEnum)rm]. *)
Definition rm_code (rm : RoundingModeEnum) : Z :=
  match rm with RM_RNE => 0 | RM_RTZ => 1 | RM_RDN => 2 | RM_RUP => 3 | RM_RMM => 4 end.
Definition rm_of_code (n : Z) : RoundingModeEnum :=
  match n with 0 => RM_RNE | 1 => RM_RTZ | 2 => RM_RDN | 3 => RM_RUP | _ => RM_RMM end.

Definition FFLAG_INVALID_OP := 16.
Definition FFLAG_DIVIDE_ZERO := 8.
Definition FFLAG_OVERFLOW := 4.
Definition FFLAG_UNDERFLOW := 2.
Definition FFLAG_INEXACT := 1.

Definition FCLASS_NINF := 1.
Definition FCLASS_NNORMAL := 2.
Definition FCLASS_NSUBNORMAL := 4.
Definition FCLASS_NZERO := 8.
Definition FCLASS_PZERO := 16.
Definition FCLASS_PSUBNORMAL := 32.
Definition FCLASS_PNORMAL := 64.
Definition FCLASS_PINF := 128.
Definition FCLASS_SNAN := 256.
Definition FCLASS_QNAN := 512.

(** [1 << 31] is an [int]: it sign-extends when it meets a 64-bit operand *)
Definition FSIGN_MASK32 := s32 (1 << 31).
Definition FSIGN_MASK64 := 1 << 63.

(** ** softfp.cpp: count leading zeros

    [__builtin_clz(a)] is 31 minus the position of the top bit of [a]. *)
Definition builtin_clz (w a : Z) : Z := w - 1 - Z.log2 a.
Definition clz32 (a : Z) : Z := if a =? 0 then 32 else builtin_clz 32 a.
Definition clz64 (a : Z) : Z := if a =? 0 then 64 else builtin_clz 64 a.
Definition clz128 (a : Z) : Z :=
  if a =? 0 then 128
  else
    let ah := u64 (a >> 64) in
    let al := u64 a in
    if tst ah then builtin_clz 64 ah else builtin_clz 64 al + 64.
Definition clz_size (w a : Z) : Z :=
  match w with 32 => clz32 a | 64 => clz64 a | _ => clz128 a end.

(** ** softfp_template.h: the format parameters *)

Class FloatFmt := { F_SIZE : Z; MANT_SIZE : Z; EXP_SIZE : Z }.
Definition sf32 : FloatFmt := {| F_SIZE := 32; MANT_SIZE := 23; EXP_SIZE := 8 |}.
Definition sf64 : FloatFmt := {| F_SIZE := 64; MANT_SIZE := 52; EXP_SIZE := 11 |}.
Definition sf128 : FloatFmt := {| F_SIZE := 128; MANT_SIZE := 112; EXP_SIZE := 15 |}.

Section Template.
Context {fmt : FloatFmt}.

Definition uF (x : Z) : Z := uN F_SIZE x.
Definition EXP_MASK : Z := (1 << EXP_SIZE) - 1.
Definition MANT_MASK : Z := (1 << MANT_SIZE) - 1.
Definition SIGN_MASK : Z := 1 << (F_SIZE - 1).
Definition IMANT_SIZE : Z := F_SIZE - 2.
Definition RND_SIZE : Z := IMANT_SIZE - MANT_SIZE.
Definition QNAN_MASK : Z := 1 << (MANT_SIZE - 1).
Definition F_QNAN : Z := (EXP_MASK << MANT_SIZE) .| (1 << (MANT_SIZE - 1)).
Definition clz (a : Z) : Z := clz_size F_SIZE a.

Definition pack_sf (a_sign a_exp a_mant : Z) : Z :=
  uF (a_sign << (F_SIZE - 1)) .| uF (a_exp << MANT_SIZE) .| (a_mant .& MANT_MASK).

(** sign, exponent and mantissa fields *)
Definition unpack_sf (a : Z) : Z * Z * Z :=
  (a >> (F_SIZE - 1), (a >> MANT_SIZE) .& EXP_MASK, a .& MANT_MASK).

Definition rshift_rnd (a d : Z) : Z :=
  if d =? 0 then a
  else if F_SIZE <=? d then b2z (tst a)
  else
    let mask := (1 << d) - 1 in
    (a >> d) .| b2z (tst (a .& mask)).

(** the rounding addend of [round_pack_sf] and of the integer conversions *)
Definition rnd_addend (a_sign : Z) (rm : RoundingModeEnum) : Z :=
  match rm with
  | RM_RNE | RM_RMM => 1 << (RND_SIZE - 1)
  | RM_RTZ => 0
  | RM_RDN | RM_RUP =>
      if tst (a_sign .^ (rm_code rm .& 1)) then (1 << RND_SIZE) - 1 else 0
  end.

Definition round_pack_sf (a_sign a_exp a_mant : Z) (rm : RoundingModeEnum) (pfflags : Z) : Z * Z :=
  let addend := rnd_addend a_sign rm in
  let '(a_exp, a_mant, rnd_bits, pfflags) :=
    if a_exp <=? 0 then
      let is_subnormal := (a_exp <? 0) || (uF (a_mant + addend) <? 1 << (F_SIZE - 1)) in
      let diff := 1 - a_exp in
      let a_mant := rshift_rnd a_mant diff in
      let rnd_bits := a_mant .& ((1 << RND_SIZE) - 1) in
      let pfflags := if is_subnormal && tst rnd_bits
                     then pfflags .| FFLAG_UNDERFLOW else pfflags in
      (1, a_mant, rnd_bits, pfflags)
    else (a_exp, a_mant, a_mant .& ((1 << RND_SIZE) - 1), pfflags) in
  let pfflags := if tst rnd_bits then pfflags .| FFLAG_INEXACT else pfflags in
  let a_mant := uF (a_mant + addend) >> RND_SIZE in
  let a_mant := if bool_decide (rm = RM_RNE) && (rnd_bits =? 1 << (RND_SIZE - 1))
                then a_mant .& ~~ 1 else a_mant in
  let a_exp := a_exp + (a_mant >> (MANT_SIZE + 1)) in
  if a_mant <=? MANT_MASK then (pack_sf a_sign 0 a_mant, pfflags)
  else if EXP_MASK <=? a_exp then
    let pfflags := pfflags .| (FFLAG_OVERFLOW .| FFLAG_INEXACT) in
    if addend =? 0 then (pack_sf a_sign (EXP_MASK - 1) MANT_MASK, pfflags)
    else (pack_sf a_sign EXP_MASK 0, pfflags)
  else (pack_sf a_sign a_exp a_mant, pfflags).

Definition normalize_sf (a_sign a_exp a_mant : Z) (rm : RoundingModeEnum) (pfflags : Z) : Z * Z :=
  let shift := clz a_mant - (F_SIZE - 1 - IMANT_SIZE) in
  round_pack_sf a_sign (a_exp - shift) (uF (a_mant << shift)) rm pfflags.

Definition normalize2_sf (a_sign a_exp a_mant1 a_mant0 : Z) (rm : RoundingModeEnum)
    (pfflags : Z) : Z * Z :=
  let l := if a_mant1 =? 0 then F_SIZE + clz a_mant0 else clz a_mant1 in
  let shift := l - (F_SIZE - 1 - IMANT_SIZE) in
  let a_exp := a_exp - shift in
  let a_mant1 :=
    if shift =? 0 then a_mant1 .| b2z (tst a_mant0)
    else if shift <? F_SIZE then
      (uF (a_mant1 << shift) .| (a_mant0 >> (F_SIZE - shift)))
        .| b2z (tst (uF (a_mant0 << shift)))
    else uF (a_mant0 << (shift - F_SIZE)) in
  round_pack_sf a_sign a_exp a_mant1 rm pfflags.

Definition issignan_sf (a : Z) : bool :=
  let a_exp1 := (a >> (MANT_SIZE - 1)) .& ((1 << (EXP_SIZE + 1)) - 1) in
  let a_mant := a .& MANT_MASK in
  (a_exp1 =? 2 * EXP_MASK) && tst a_mant.

Definition isnan_sf (a : Z) : bool :=
  let a_exp := (a >> MANT_SIZE) .& EXP_MASK in
  let a_mant := a .& MANT_MASK in
  (a_exp =? EXP_MASK) && tst a_mant.

(** [*pfflags |= FFLAG_INVALID_OP] under a condition *)
Definition raise_invalid (c : bool) (pfflags : Z) : Z :=
  if c then pfflags .| FFLAG_INVALID_OP else pfflags.

Definition add_sf (a b : Z) (rm : RoundingModeEnum) (pfflags : Z) : Z * Z :=
  let '(a, b) := if (a .& (~~ SIGN_MASK)) <? (b .& (~~ SIGN_MASK)) then (b, a) else (a, b) in
  let a_sign := a >> (F_SIZE - 1) in
  let b_sign := b >> (F_SIZE - 1) in
  let a_exp := (a >> MANT_SIZE) .& EXP_MASK in
  let b_exp := (b >> MANT_SIZE) .& EXP_MASK in
  let a_mant := uF ((a .& MANT_MASK) << 3) in
  let b_mant := uF ((b .& MANT_MASK) << 3) in
  if a_exp =? EXP_MASK then
    if tst a_mant then
      (F_QNAN, raise_invalid (negb (tst (a_mant .& (QNAN_MASK << 3))) || issignan_sf b) pfflags)
    else if (b_exp =? EXP_MASK) && negb (a_sign =? b_sign) then
      (F_QNAN, pfflags .| FFLAG_INVALID_OP)
    else (a, pfflags)
  else
    let '(a_exp, a_mant) :=
      if a_exp =? 0 then (1, a_mant) else (a_exp, a_mant .| (1 << (MANT_SIZE + 3))) in
    let '(b_exp, b_mant) :=
      if b_exp =? 0 then (1, b_mant) else (b_exp, b_mant .| (1 << (MANT_SIZE + 3))) in
    let b_mant := rshift_rnd b_mant (a_exp - b_exp) in
    let '(a_sign, a_mant) :=
      if a_sign =? b_sign then (a_sign, uF (a_mant + b_mant))
      else
        let a_mant := uF (a_mant - b_mant) in
        (if a_mant =? 0 then b2z (bool_decide (rm = RM_RDN)) else a_sign, a_mant) in
    normalize_sf a_sign (a_exp + (RND_SIZE - 3)) a_mant rm pfflags.

Definition sub_sf (a b : Z) (rm : RoundingModeEnum) (pfflags : Z) : Z * Z :=
  add_sf a (b .^ SIGN_MASK) rm pfflags.

(** the new [*pa_exp] and the shifted mantissa *)
Definition normalize_subnormal_sf (a_mant : Z) : Z * Z :=
  let shift := MANT_SIZE - (F_SIZE - 1 - clz a_mant) in
  (1 - shift, uF (a_mant << shift)).

(** *** Double-word product: high word and low word *)

Definition mul_u_wide (a b : Z) : Z * Z :=
  let r := uN (2 * F_SIZE) (a * b) in
  (uF (r >> F_SIZE), uF r).

Definition FH_SIZE : Z := F_SIZE / 2.
Definition uH (x : Z) : Z := uN FH_SIZE x.

Definition mul_u_half (a b : Z) : Z * Z :=
  let a0 := uH a in
  let a1 := uH (a >> FH_SIZE) in
  let b0 := uH b in
  let b1 := uH (b >> FH_SIZE) in
  let r00 := uF (a0 * b0) in
  let r01 := uF (a0 * b1) in
  let r10 := uF (a1 * b0) in
  let r11 := uF (a1 * b1) in
  let r0 := uH r00 in
  let c := uF ((r00 >> FH_SIZE) + uH r01 + uH r10) in
  let r1 := uH c in
  let c := uF ((c >> FH_SIZE) + (r01 >> FH_SIZE) + (r10 >> FH_SIZE) + uH r11) in
  let r2 := uH c in
  let r3 := uH ((c >> FH_SIZE) + (r11 >> FH_SIZE)) in
  (uF (r3 << FH_SIZE) .| r2, uF (r1 << FH_SIZE) .| r0).

Definition mul_u (a b : Z) : Z * Z :=
  if F_SIZE <=? 64 then mul_u_wide a b else mul_u_half a b.

Definition mul_sf (a b : Z) (rm : RoundingModeEnum) (pfflags : Z) : Z * Z :=
  let a_sign := a >> (F_SIZE - 1) in
  let b_sign := b >> (F_SIZE - 1) in
  let r_sign := a_sign .^ b_sign in
  let a_exp := (a >> MANT_SIZE) .& EXP_MASK in
  let b_exp := (b >> MANT_SIZE) .& EXP_MASK in
  let a_mant := a .& MANT_MASK in
  let b_mant := b .& MANT_MASK in
  if (a_exp =? EXP_MASK) || (b_exp =? EXP_MASK) then
    if isnan_sf a || isnan_sf b then
      (F_QNAN, raise_invalid (issignan_sf a || issignan_sf b) pfflags)
    else if ((a_exp =? EXP_MASK) && ((b_exp =? 0) && (b_mant =? 0)))
            || ((b_exp =? EXP_MASK) && ((a_exp =? 0) && (a_mant =? 0))) then
      (F_QNAN, pfflags .| FFLAG_INVALID_OP)
    else (pack_sf r_sign EXP_MASK 0, pfflags)
  else if (a_exp =? 0) && (a_mant =? 0) then (pack_sf r_sign 0 0, pfflags)
  else
    let '(a_exp, a_mant) :=
      if a_exp =? 0 then normalize_subnormal_sf a_mant
      else (a_exp, a_mant .| (1 << MANT_SIZE)) in
    if (b_exp =? 0) && (b_mant =? 0) then (pack_sf r_sign 0 0, pfflags)
    else
      let '(b_exp, b_mant) :=
        if b_exp =? 0 then normalize_subnormal_sf b_mant
        else (b_exp, b_mant .| (1 << MANT_SIZE)) in
      let r_exp := a_exp + b_exp - (1 << (EXP_SIZE - 1)) + 2 in
      let '(r_mant, r_mant_low) :=
        mul_u (uF (a_mant << RND_SIZE)) (uF (b_mant << (RND_SIZE + 1))) in
      let r_mant := r_mant .| b2z (tst r_mant_low) in
      normalize_sf r_sign r_exp r_mant rm pfflags.

(** The alignment shift of the addend inside [fma_sf]. *)
Definition fma_align (c_mant1 c_mant0 shift : Z) : Z * Z :=
  if 2 * F_SIZE <=? shift then (0, b2z (tst (c_mant0 .| c_mant1)))
  else if F_SIZE + 1 <=? shift then (0, rshift_rnd c_mant1 (shift - F_SIZE))
  else if shift =? F_SIZE then (0, c_mant1 .| b2z (tst c_mant0))
  else if tst shift then
    let mask := (1 << shift) - 1 in
    (c_mant1 >> shift,
     (uF (c_mant1 << (F_SIZE - shift)) .| (c_mant0 >> shift)) .| b2z (tst (c_mant0 .& mask)))
  else (c_mant1, c_mant0).

(** The add-or-subtract and final normalisation of [fma_sf]. *)
Definition fma_combine (r_sign c_sign r_exp r_mant1 r_mant0 c_mant1 c_mant0 : Z)
    (rm : RoundingModeEnum) (pfflags : Z) : Z * Z :=
  let '(r_sign, r_mant1, r_mant0) :=
    if r_sign =? c_sign then
      let r_mant0 := uF (r_mant0 + c_mant0) in
      (r_sign, uF (r_mant1 + uF (c_mant1 + b2z (r_mant0 <? c_mant0))), r_mant0)
    else
      let tmp := r_mant0 in
      let r_mant0 := uF (r_mant0 - c_mant0) in
      let r_mant1 := uF (r_mant1 - c_mant1 - b2z (tmp <? r_mant0)) in
      (if (r_mant0 .| r_mant1) =? 0 then b2z (bool_decide (rm = RM_RDN)) else r_sign,
       r_mant1, r_mant0) in
  normalize2_sf r_sign r_exp r_mant1 r_mant0 rm pfflags.

(** From the nonzero product on: multiply, normalise, align, add. *)
Definition fma_finite (a_sign b_sign c_sign a_exp b_exp c_exp a_mant b_mant c_mant : Z)
    (rm : RoundingModeEnum) (pfflags : Z) : Z * Z :=
  let r_sign := a_sign .^ b_sign in
  let r_exp := a_exp + b_exp - (1 << (EXP_SIZE - 1)) + 3 in
  let '(r_mant1, r_mant0) := mul_u (uF (a_mant << RND_SIZE)) (uF (b_mant << RND_SIZE)) in
  let '(r_exp, r_mant1, r_mant0) :=
    if r_mant1 <? 1 << (F_SIZE - 3) then
      (r_exp - 1, uF (r_mant1 << 1) .| (r_mant0 >> (F_SIZE - 1)), uF (r_mant0 << 1))
    else (r_exp, r_mant1, r_mant0) in
  if (c_exp =? 0) && (c_mant =? 0) then
    normalize_sf r_sign r_exp (r_mant1 .| b2z (tst r_mant0)) rm pfflags
  else
    let '(c_exp, c_mant) :=
      if c_exp =? 0 then normalize_subnormal_sf c_mant
      else (c_exp, c_mant .| (1 << MANT_SIZE)) in
    let c_exp := c_exp + 1 in
    let c_mant1 := uF (c_mant << (RND_SIZE - 1)) in
    let c_mant0 := 0 in
    if negb ((c_exp <? r_exp) || ((r_exp =? c_exp) && (c_mant1 <=? r_mant1))) then
      let '(r_mant1', r_mant0') := fma_align r_mant1 r_mant0 (c_exp - r_exp) in
      fma_combine c_sign r_sign c_exp c_mant1 c_mant0 r_mant1' r_mant0' rm pfflags
    else
      let '(c_mant1', c_mant0') := fma_align c_mant1 c_mant0 (r_exp - c_exp) in
      fma_combine r_sign c_sign r_exp r_mant1 r_mant0 c_mant1' c_mant0' rm pfflags.

Definition fma_sf (a b c : Z) (rm : RoundingModeEnum) (pfflags : Z) : Z * Z :=
  let a_sign := a >> (F_SIZE - 1) in
  let b_sign := b >> (F_SIZE - 1) in
  let c_sign := c >> (F_SIZE - 1) in
  let r_sign := a_sign .^ b_sign in
  let a_exp := (a >> MANT_SIZE) .& EXP_MASK in
  let b_exp := (b >> MANT_SIZE) .& EXP_MASK in
  let c_exp := (c >> MANT_SIZE) .& EXP_MASK in
  let a_mant := a .& MANT_MASK in
  let b_mant := b .& MANT_MASK in
  let c_mant := c .& MANT_MASK in
  let zero_times_inf :=
    ((a_exp =? 0) && (a_mant =? 0) && (b_exp =? EXP_MASK) && (b_mant =? 0))
    || ((b_exp =? 0) && (b_mant =? 0) && (a_exp =? EXP_MASK) && (a_mant =? 0)) in
  if (a_exp =? EXP_MASK) || (b_exp =? EXP_MASK) || (c_exp =? EXP_MASK) then
    if zero_times_inf then (F_QNAN, pfflags .| FFLAG_INVALID_OP)
    else if isnan_sf a || isnan_sf b || isnan_sf c then
      (F_QNAN, raise_invalid (issignan_sf a || issignan_sf b || issignan_sf c) pfflags)
    else if ((a_exp =? EXP_MASK) && ((b_exp =? 0) && (b_mant =? 0)))
            || ((b_exp =? EXP_MASK) && ((a_exp =? 0) && (a_mant =? 0)))
            || (((a_exp =? EXP_MASK) || (b_exp =? EXP_MASK))
                && ((c_exp =? EXP_MASK) && negb (r_sign =? c_sign))) then
      (F_QNAN, pfflags .| FFLAG_INVALID_OP)
    else if c_exp =? EXP_MASK then (pack_sf c_sign EXP_MASK 0, pfflags)
    else (pack_sf r_sign EXP_MASK 0, pfflags)
  else if ((a_exp =? 0) && (a_mant =? 0)) || ((b_exp =? 0) && (b_mant =? 0)) then
    (* mul_zero: *)
    if (c_exp =? 0) && (c_mant =? 0) then
      let r_sign := if c_sign =? r_sign then r_sign else b2z (bool_decide (rm = RM_RDN)) in
      (pack_sf r_sign 0 0, pfflags)
    else (c, pfflags)
  else
    let '(a_exp, a_mant) :=
      if a_exp =? 0 then normalize_subnormal_sf a_mant
      else (a_exp, a_mant .| (1 << MANT_SIZE)) in
    let '(b_exp, b_mant) :=
      if b_exp =? 0 then normalize_subnormal_sf b_mant
      else (b_exp, b_mant .| (1 << MANT_SIZE)) in
    fma_finite a_sign b_sign c_sign a_exp b_exp c_exp a_mant b_mant c_mant rm pfflags.

(** *** Double-word division: remainder and quotient *)

Definition divrem_u_wide (ah al b : Z) : Z * Z :=
  let a := uN (2 * F_SIZE) (ah << F_SIZE) .| al in
  (uF (a mod b), uF (a / b)).

(** one turn of the restoring-division loop on [(a1, a0)] *)
Definition divrem_step (b : Z) (a : Z * Z) : Z * Z :=
  let '(a1, a0) := a in
  let ab := a1 >> (F_SIZE - 1) in
  let a1 := uF (a1 << 1) .| (a0 >> (F_SIZE - 1)) in
  let '(a1, qb) := if tst ab || (b <=? a1) then (uF (a1 - b), 1) else (a1, 0) in
  (a1, uF (a0 << 1) .| qb).

Definition divrem_u_bits (a1 a0 b : Z) : Z * Z :=
  Nat.iter (Z.to_nat F_SIZE) (divrem_step b) (a1, a0).

Definition divrem_u (ah al b : Z) : Z * Z :=
  if F_SIZE <=? 64 then divrem_u_wide ah al b else divrem_u_bits ah al b.

Definition div_sf (a b : Z) (rm : RoundingModeEnum) (pfflags : Z) : Z * Z :=
  let a_sign := a >> (F_SIZE - 1) in
  let b_sign := b >> (F_SIZE - 1) in
  let r_sign := a_sign .^ b_sign in
  let a_exp := (a >> MANT_SIZE) .& EXP_MASK in
  let b_exp := (b >> MANT_SIZE) .& EXP_MASK in
  let a_mant := a .& MANT_MASK in
  let b_mant := b .& MANT_MASK in
  if a_exp =? EXP_MASK then
    if tst a_mant || isnan_sf b then
      (F_QNAN, raise_invalid (issignan_sf a || issignan_sf b) pfflags)
    else if b_exp =? EXP_MASK then (F_QNAN, pfflags .| FFLAG_INVALID_OP)
    else (pack_sf r_sign EXP_MASK 0, pfflags)
  else if b_exp =? EXP_MASK then
    if tst b_mant then (F_QNAN, raise_invalid (issignan_sf a || issignan_sf b) pfflags)
    else (pack_sf r_sign 0 0, pfflags)
  else if (b_exp =? 0) && (b_mant =? 0) then
    if (a_exp =? 0) && (a_mant =? 0) then (F_QNAN, pfflags .| FFLAG_INVALID_OP)
    else (pack_sf r_sign EXP_MASK 0, pfflags .| FFLAG_DIVIDE_ZERO)
  else
    let '(b_exp, b_mant) :=
      if b_exp =? 0 then normalize_subnormal_sf b_mant
      else (b_exp, b_mant .| (1 << MANT_SIZE)) in
    if (a_exp =? 0) && (a_mant =? 0) then (pack_sf r_sign 0 0, pfflags)
    else
      let '(a_exp, a_mant) :=
        if a_exp =? 0 then normalize_subnormal_sf a_mant
        else (a_exp, a_mant .| (1 << MANT_SIZE)) in
      let r_exp := a_exp - b_exp + (1 << (EXP_SIZE - 1)) - 1 in
      let '(r, r_mant) := divrem_u a_mant 0 (uF (b_mant << 2)) in
      let r_mant := if tst r then r_mant .| 1 else r_mant in
      normalize_sf r_sign r_exp r_mant rm pfflags.

(** *** Double-word square root: inexact flag and root *)

(** the exponent [l] with [a <= 2^l], from the two words of [a]; only used for [a <> 0] *)
Definition sqrtrem_log (ah al : Z) : Z :=
  if tst ah then 2 * F_SIZE - clz (uF (ah - 1)) else F_SIZE - clz (uF (al - 1)).

(** Newton's loop from [u]; [quot s] is the double-word quotient of the operand by [s].
    [None] only if the fuel runs out. *)
Fixpoint sqrt_loop (fuel : nat) (quot : Z -> Z) (u : Z) : option Z :=
  match fuel with
  | O => None
  | S fuel =>
      let s := u in
      let u := (quot s + s) / 2 in
      if s <=? u then Some s else sqrt_loop fuel quot u
  end.

Definition sqrtrem_u_wide (ah al : Z) : bool * Z :=
  if negb (tst ah) && (al =? 0) then (false, 0)
  else
    let l := sqrtrem_log ah al in
    let a := uN (2 * F_SIZE) (ah << F_SIZE) .| al in
    match sqrt_loop (Z.to_nat (2 * F_SIZE)) (fun s => a / s) (1 << ((l + 1) / 2)) with
    | Some s => (tst (a - s * s), s)
    | None => (false, 0)
    end.

Definition sqrtrem_u_half (a1 a0 : Z) : bool * Z :=
  if negb (tst a1) && (a0 =? 0) then (false, 0)
  else
    let l := sqrtrem_log a1 a0 in
    match sqrt_loop (Z.to_nat (2 * F_SIZE)) (fun s => (divrem_u a1 a0 s).2)
            (uF (1 << ((l + 1) / 2))) with
    | Some s =>
        let '(sq1, sq0) := mul_u s s in
        (negb (sq0 =? a0) || negb (sq1 =? a1), s)
    | None => (false, 0)
    end.

Definition sqrtrem_u (ah al : Z) : bool * Z :=
  if F_SIZE <=? 64 then sqrtrem_u_wide ah al else sqrtrem_u_half ah al.

Definition sqrt_sf (a : Z) (rm : RoundingModeEnum) (pfflags : Z) : Z * Z :=
  let a_sign := a >> (F_SIZE - 1) in
  let a_exp := (a >> MANT_SIZE) .& EXP_MASK in
  let a_mant := a .& MANT_MASK in
  if (a_exp =? EXP_MASK) && tst a_mant then
    (F_QNAN, raise_invalid (issignan_sf a) pfflags)
  else if (a_exp =? EXP_MASK) && negb (tst a_sign) then (a, pfflags)
  else if tst a_sign then
    if (a_exp =? 0) && (a_mant =? 0) then (a, pfflags)
    else (* neg_error: *) (F_QNAN, pfflags .| FFLAG_INVALID_OP)
  else if (a_exp =? 0) && (a_mant =? 0) then (pack_sf 0 0 0, pfflags)
  else
    let '(a_exp, a_mant) :=
      if a_exp =? 0 then normalize_subnormal_sf a_mant
      else (a_exp, a_mant .| (1 << MANT_SIZE)) in
    let a_exp := a_exp - EXP_MASK / 2 in
    let '(a_exp, a_mant) :=
      if tst (a_exp .& 1) then (a_exp - 1, uF (a_mant << 1)) else (a_exp, a_mant) in
    let a_exp := (a_exp >> 1) + EXP_MASK / 2 in
    let a_mant := uF (a_mant << (F_SIZE - 4 - MANT_SIZE)) in
    let '(inexact, a_mant) := sqrtrem_u a_mant 0 in
    let a_mant := uF a_mant in
    let a_mant := if inexact then a_mant .| 1 else a_mant in
    normalize_sf a_sign a_exp a_mant rm pfflags.

(** *** Comparisons *)

Definition min_sf (a b : Z) (pfflags : Z) : Z * Z :=
  if isnan_sf a || isnan_sf b then
    let pfflags := raise_invalid (issignan_sf a || issignan_sf b) pfflags in
    if isnan_sf a then (if isnan_sf b then F_QNAN else b, pfflags) else (a, pfflags)
  else
    let a_sign := a >> (F_SIZE - 1) in
    let b_sign := b >> (F_SIZE - 1) in
    if negb (a_sign =? b_sign) then (if tst a_sign then a else b, pfflags)
    else (if tst (b2z (a <? b) .^ a_sign) then a else b, pfflags).

Definition max_sf (a b : Z) (pfflags : Z) : Z * Z :=
  if isnan_sf a || isnan_sf b then
    let pfflags := raise_invalid (issignan_sf a || issignan_sf b) pfflags in
    if isnan_sf a then (if isnan_sf b then F_QNAN else b, pfflags) else (a, pfflags)
  else
    let a_sign := a >> (F_SIZE - 1) in
    let b_sign := b >> (F_SIZE - 1) in
    if negb (a_sign =? b_sign) then (if tst a_sign then b else a, pfflags)
    else (if tst (b2z (a <? b) .^ a_sign) then b else a, pfflags).

Definition eq_quiet_sf (a b : Z) (pfflags : Z) : Z * Z :=
  if isnan_sf a || isnan_sf b then
    (0, raise_invalid (issignan_sf a || issignan_sf b) pfflags)
  else if uF ((a .| b) << 1) =? 0 then (1, pfflags)
  else (b2z (a =? b), pfflags).

Definition le_sf (a b : Z) (pfflags : Z) : Z * Z :=
  if isnan_sf a || isnan_sf b then (0, pfflags .| FFLAG_INVALID_OP)
  else
    let a_sign := a >> (F_SIZE - 1) in
    let b_sign := b >> (F_SIZE - 1) in
    if negb (a_sign =? b_sign) then
      (b2z (tst a_sign || (uF ((a .| b) << 1) =? 0)), pfflags)
    else if tst a_sign then (b2z (b <=? a), pfflags) else (b2z (a <=? b), pfflags).

Definition lt_sf (a b : Z) (pfflags : Z) : Z * Z :=
  if isnan_sf a || isnan_sf b then (0, pfflags .| FFLAG_INVALID_OP)
  else
    let a_sign := a >> (F_SIZE - 1) in
    let b_sign := b >> (F_SIZE - 1) in
    if negb (a_sign =? b_sign) then
      (b2z (tst a_sign && negb (uF ((a .| b) << 1) =? 0)), pfflags)
    else if tst a_sign then (b2z (b <? a), pfflags) else (b2z (a <? b), pfflags).

Definition fclass_sf (a : Z) : Z :=
  let a_sign := a >> (F_SIZE - 1) in
  let a_exp := (a >> MANT_SIZE) .& EXP_MASK in
  let a_mant := a .& MANT_MASK in
  if a_exp =? EXP_MASK then
    if tst a_mant then if tst (a_mant .& QNAN_MASK) then FCLASS_QNAN else FCLASS_SNAN
    else if tst a_sign then FCLASS_NINF else FCLASS_PINF
  else if a_exp =? 0 then
    if a_mant =? 0 then if tst a_sign then FCLASS_NZERO else FCLASS_PZERO
    else if tst a_sign then FCLASS_NSUBNORMAL else FCLASS_PSUBNORMAL
  else if tst a_sign then FCLASS_NNORMAL else FCLASS_PNORMAL.

(** ** softfp_template_icvt.h: conversions with an [n]-bit integer type *)

(** [internal_cvt_sf_i]: the float [a] as an [n]-bit integer *)
Definition internal_cvt_sf_i (n a : Z) (rm : RoundingModeEnum) (pfflags : Z)
    (is_unsigned : bool) : Z * Z :=
  let a_sign := a >> (F_SIZE - 1) in
  let a_exp := (a >> MANT_SIZE) .& EXP_MASK in
  let a_mant := a .& MANT_MASK in
  let a_sign := if (a_exp =? EXP_MASK) && tst a_mant then 0 else a_sign in
  let '(a_exp, a_mant) :=
    if a_exp =? 0 then (1, a_mant) else (a_exp, a_mant .| (1 << MANT_SIZE)) in
  let a_mant := uF (a_mant << RND_SIZE) in
  let a_exp := a_exp - EXP_MASK / 2 - MANT_SIZE in
  let r_max := if is_unsigned then uN n (a_sign - 1)
               else uN n ((1 << (n - 1)) - (a_sign .^ 1)) in
  let overflow := (sN n r_max, pfflags .| FFLAG_INVALID_OP) in
  let finish r pfflags := (sN n (if tst a_sign then uN n (- r) else r), pfflags) in
  if 0 <=? a_exp then
    if a_exp <=? n - 1 - MANT_SIZE then
      let r := uN n (uN n (a_mant >> RND_SIZE) << a_exp) in
      if r_max <? r then overflow else finish r pfflags
    else overflow
  else
    let a_mant := rshift_rnd a_mant (- a_exp) in
    let addend := rnd_addend a_sign rm in
    let rnd_bits := a_mant .& ((1 << RND_SIZE) - 1) in
    let a_mant := uF (a_mant + addend) >> RND_SIZE in
    let a_mant := if bool_decide (rm = RM_RNE) && (rnd_bits =? 1 << (RND_SIZE - 1))
                  then a_mant .& ~~ 1 else a_mant in
    if r_max <? a_mant then overflow
    else
      finish (uN n a_mant) (if tst rnd_bits then pfflags .| FFLAG_INEXACT else pfflags).

Definition cvt_sf_i (n a : Z) (rm : RoundingModeEnum) (pfflags : Z) : Z * Z :=
  internal_cvt_sf_i n a rm pfflags false.

Definition cvt_sf_u (n a : Z) (rm : RoundingModeEnum) (pfflags : Z) : Z * Z :=
  let '(r, pfflags) := internal_cvt_sf_i n a rm pfflags true in (uN n r, pfflags).

(** [internal_cvt_i_sf]: the [n]-bit integer [a] (signed reading) as a float *)
Definition internal_cvt_i_sf (n a : Z) (rm : RoundingModeEnum) (pfflags : Z)
    (is_unsigned : bool) : Z * Z :=
  let '(a_sign, r) :=
    if negb is_unsigned && (a <? 0) then (1, uN n (- a)) else (0, uN n a) in
  let a_exp := EXP_MASK / 2 + F_SIZE - 2 in
  let l := n - clz_size n r - (F_SIZE - 1) in
  let '(r, a_exp) :=
    if 0 <? l then
      let mask := r .& ((1 << l) - 1) in
      ((r >> l) .| b2z (tst (r .& mask)), a_exp + l)
    else (r, a_exp) in
  normalize_sf a_sign a_exp (uF r) rm pfflags.

Definition cvt_i_sf (n a : Z) (rm : RoundingModeEnum) (pfflags : Z) : Z * Z :=
  internal_cvt_i_sf n (sN n a) rm pfflags false.

Definition cvt_u_sf (n a : Z) (rm : RoundingModeEnum) (pfflags : Z) : Z * Z :=
  internal_cvt_i_sf n (sN n a) rm pfflags true.

End Template.

(** ** Conversions between formats *)

(** [cvt_sf32_sf64] and [cvt_sf32_sf128]: widening from [sf32] to [fmt] *)
Definition cvt_sf32_sf (fmt : FloatFmt) (a : Z) (pfflags : Z) : Z * Z :=
  let '(a_sign, a_exp, a_mant) := unpack_sf (fmt := sf32) a in
  if a_exp =? 0xff then
    if tst a_mant then
      (F_QNAN (fmt := fmt), raise_invalid (issignan_sf (fmt := sf32) a) pfflags)
    else (pack_sf (fmt := fmt) a_sign (EXP_MASK (fmt := fmt)) 0, pfflags)
  else if (a_exp =? 0) && (a_mant =? 0) then (pack_sf (fmt := fmt) a_sign 0 0, pfflags)
  else
    let '(a_exp, a_mant) :=
      if a_exp =? 0 then normalize_subnormal_sf (fmt := sf32) a_mant else (a_exp, a_mant) in
    let a_exp := a_exp - 0x7f + EXP_MASK (fmt := fmt) / 2 in
    let a_mant := uF (fmt := fmt) (a_mant << (MANT_SIZE (FloatFmt := fmt) - 23)) in
    (pack_sf (fmt := fmt) a_sign a_exp a_mant, pfflags).

(** [cvt_sf64_sf32] and [cvt_sf128_sf32]: narrowing from [fmt] to [sf32] *)
Definition cvt_sf_sf32 (fmt : FloatFmt) (a : Z) (rm : RoundingModeEnum) (pfflags : Z) : Z * Z :=
  let '(a_sign, a_exp, a_mant) := unpack_sf (fmt := fmt) a in
  if a_exp =? EXP_MASK (fmt := fmt) then
    if tst a_mant then
      (F_QNAN (fmt := sf32), raise_invalid (issignan_sf (fmt := fmt) a) pfflags)
    else (pack_sf (fmt := sf32) a_sign 0xff 0, pfflags)
  else if (a_exp =? 0) && (a_mant =? 0) then (pack_sf (fmt := sf32) a_sign 0 0, pfflags)
  else
    let '(a_exp, a_mant) :=
      if a_exp =? 0 then ((normalize_subnormal_sf (fmt := fmt) a_mant).1, a_mant)
      else (a_exp, a_mant .| (1 << MANT_SIZE (FloatFmt := fmt))) in
    let a_exp := a_exp - EXP_MASK (fmt := fmt) / 2 + 0x7f in
    let a_mant := rshift_rnd (fmt := fmt) a_mant (MANT_SIZE (FloatFmt := fmt) - (32 - 2)) in
    normalize_sf (fmt := sf32) a_sign a_exp (u32 a_mant) rm pfflags.
