(* ===== verification/FpFlags.v ===== *)
(** * The accrued exception flags stay in their five bits

    Every softfloat entry point takes the flags and returns them with bits
    set; none of them can leave the five bits of [fflags]. *)

From S2P Require Import Prelude SoftFp.

(** a softfloat call with its flag argument left open *)
Definition flags_ok {A} (op : Z -> A * Z) : Prop := forall fl, in_u 5 fl -> in_u 5 (op fl).2.

(** case analysis over the paths of an operation, then the flags of each *)
Ltac flags_tac :=
  intros fl Hfl; cbv zeta;
  repeat (case_match; simplify_eq); simplify_eq; cbn [fst snd]; try in_u_tac; auto.

Section Flags.
Context {fmt : FloatFmt}.

Lemma raise_invalid_flags c fl : in_u 5 fl -> in_u 5 (raise_invalid c fl).
Proof. intros. unfold raise_invalid. in_u_tac. Qed.

Lemma round_pack_flags s e m rm : flags_ok (round_pack_sf s e m rm).
Proof. unfold flags_ok, round_pack_sf. flags_tac. Qed.

Lemma normalize_flags s e m rm : flags_ok (normalize_sf s e m rm).
Proof. intros fl Hfl. by apply round_pack_flags. Qed.

Lemma normalize2_flags s e m1 m0 rm : flags_ok (normalize2_sf s e m1 m0 rm).
Proof. intros fl Hfl. by apply round_pack_flags. Qed.

#[local] Ltac op_tac :=
  flags_tac;
  first [ by apply raise_invalid_flags | by apply normalize_flags | by apply normalize2_flags ].

Lemma add_flags a b rm : flags_ok (add_sf a b rm).
Proof. unfold flags_ok, add_sf. op_tac. Qed.

Lemma sub_flags a b rm : flags_ok (sub_sf a b rm).
Proof. apply add_flags. Qed.

Lemma mul_flags a b rm : flags_ok (mul_sf a b rm).
Proof. unfold flags_ok, mul_sf. op_tac. Qed.

Lemma div_flags a b rm : flags_ok (div_sf a b rm).
Proof. unfold flags_ok, div_sf. op_tac. Qed.

Lemma sqrt_flags a rm : flags_ok (sqrt_sf a rm).
Proof. unfold flags_ok, sqrt_sf. op_tac. Qed.

Lemma fma_combine_flags s c e r1 r0 c1 c0 rm : flags_ok (fma_combine s c e r1 r0 c1 c0 rm).
Proof. unfold flags_ok, fma_combine. op_tac. Qed.

Lemma fma_finite_flags sa sb sc ea eb ec ma mb mc rm :
  flags_ok (fma_finite sa sb sc ea eb ec ma mb mc rm).
Proof.
  unfold flags_ok, fma_finite. flags_tac;
    first [by apply normalize_flags | by apply fma_combine_flags].
Qed.

Lemma fma_flags a b c rm : flags_ok (fma_sf a b c rm).
Proof.
  unfold flags_ok, fma_sf. flags_tac; first [by apply raise_invalid_flags | by apply fma_finite_flags].
Qed.

Lemma min_flags a b : flags_ok (min_sf a b).
Proof. unfold flags_ok, min_sf. op_tac. Qed.
Lemma max_flags a b : flags_ok (max_sf a b).
Proof. unfold flags_ok, max_sf. op_tac. Qed.
Lemma eq_quiet_flags a b : flags_ok (eq_quiet_sf a b).
Proof. unfold flags_ok, eq_quiet_sf. op_tac. Qed.
Lemma le_flags a b : flags_ok (le_sf a b).
Proof. unfold flags_ok, le_sf. op_tac. Qed.
Lemma lt_flags a b : flags_ok (lt_sf a b).
Proof. unfold flags_ok, lt_sf. op_tac. Qed.

Lemma internal_cvt_sf_i_flags n a rm u : flags_ok (fun fl => internal_cvt_sf_i n a rm fl u).
Proof. unfold flags_ok, internal_cvt_sf_i. flags_tac. Qed.

Lemma cvt_sf_i_flags n a rm : flags_ok (cvt_sf_i n a rm).
Proof. apply internal_cvt_sf_i_flags. Qed.

Lemma cvt_sf_u_flags n a rm : flags_ok (cvt_sf_u n a rm).
Proof.
  intros fl Hfl. unfold cvt_sf_u. pose proof (internal_cvt_sf_i_flags n a rm true fl Hfl) as H.
  cbn beta in H.
  by destruct (internal_cvt_sf_i n a rm fl true).
Qed.

Lemma cvt_i_sf_flags n a rm : flags_ok (cvt_i_sf n a rm).
Proof. unfold flags_ok, cvt_i_sf, internal_cvt_i_sf. op_tac. Qed.
Lemma cvt_u_sf_flags n a rm : flags_ok (cvt_u_sf n a rm).
Proof. unfold flags_ok, cvt_u_sf, internal_cvt_i_sf. op_tac. Qed.

End Flags.

Lemma cvt_sf32_sf_flags fmt a : flags_ok (cvt_sf32_sf fmt a).
Proof. unfold flags_ok, cvt_sf32_sf. flags_tac; by apply raise_invalid_flags. Qed.

Lemma cvt_sf_sf32_flags fmt a rm : flags_ok (cvt_sf_sf32 fmt a rm).
Proof.
  unfold flags_ok, cvt_sf_sf32. flags_tac;
    first [by apply raise_invalid_flags | by apply (normalize_flags (fmt := sf32))].
Qed.

#[export] Hint Resolve add_flags sub_flags mul_flags div_flags sqrt_flags fma_flags min_flags
  max_flags eq_quiet_flags le_flags lt_flags cvt_sf_i_flags cvt_sf_u_flags cvt_i_sf_flags
  cvt_u_sf_flags cvt_sf32_sf_flags cvt_sf_sf32_flags : mach.
