(* ===== verification/SoftFpSpec.v ===== *)
(** * What IEEE-754 rounding means, independently of the code

    [fint] is the value of a finite float as an integer multiple of the
    smallest subnormal; [rdiv] rounds a quotient to an integer in each mode;
    [round_q] rounds an exact rational value [N/D * 2^E] to the format, with
    the exception flags.  [st] is rounding to odd, the algebra behind the
    guard and sticky bits of the code. *)

From S2P Require Import Prelude SoftFp.

(** ** Rounding a quotient to an integer *)

Definition rdiv (rm : RoundingModeEnum) (s N D : Z) : Z :=
  let q := N / D in
  let r := N mod D in
  match rm with
  | RM_RNE => if 2 * r <? D then q else if D <? 2 * r then q + 1 else q + q mod 2
  | RM_RMM => if 2 * r <? D then q else q + 1
  | RM_RTZ => q
  | RM_RDN => if (r =? 0) || (s =? 0) then q else q + 1
  | RM_RUP => if (r =? 0) || negb (s =? 0) then q else q + 1
  end.

(** Rounding to odd: exact quotients are kept, others go to the odd neighbour. *)
Definition st (N D : Z) : Z := (N / D) .| b2z (negb (N mod D =? 0)).

(** position of the top bit of [N / D] *)
Definition qlog2 (N D : Z) : Z :=
  let k := Z.log2 D + 1 in Z.log2 (N * 2 ^ k / D) - k.

(** ** Values and rounding in a format *)

Section Format.
Context {fmt : FloatFmt}.

Definition bias : Z := 2 ^ (EXP_SIZE - 1) - 1.
(** exponent of the smallest normal, and of the smallest subnormal *)
Definition emin : Z := 1 - bias.
Definition qmin : Z := emin - MANT_SIZE.

Definition fsign (a : Z) : Z := a >> (F_SIZE - 1).
Definition fexp (a : Z) : Z := (a >> MANT_SIZE) .& EXP_MASK.
Definition fmant (a : Z) : Z := a .& MANT_MASK.
Definition is_float (a : Z) : Prop := in_u F_SIZE a.
Definition finite (a : Z) : Prop := is_float a /\ fexp a <> EXP_MASK.

(** significand with the hidden bit, and absolute value in units of [2^qmin] *)
Definition fsig (a : Z) : Z := if fexp a =? 0 then fmant a else fmant a + 2 ^ MANT_SIZE.
Definition fabs (a : Z) : Z := fsig a * 2 ^ (Z.max (fexp a) 1 - 1).
Definition fint (a : Z) : Z := if fsign a =? 0 then fabs a else - fabs a.

(** the value rounds away from zero when it overflows *)
Definition overflow_to_inf (rm : RoundingModeEnum) (s : Z) : bool :=
  match rm with
  | RM_RNE | RM_RMM => true
  | RM_RTZ => false
  | RM_RDN => negb (s =? 0)
  | RM_RUP => s =? 0
  end.

(** the float with sign [s] and value [m * 2^q], [m] having at most
    [MANT_SIZE + 1] bits and all of them when [q > qmin] *)
Definition encode (s m q : Z) : Z :=
  if m <? 2 ^ MANT_SIZE then pack_sf s 0 m else pack_sf s (q - qmin + 1) m.

Definition round_q (rm : RoundingModeEnum) (s N D E fl : Z) : Z * Z :=
  if N =? 0 then (pack_sf s 0 0, fl)
  else
    let e := qlog2 N D + E in
    let q := Z.max (e - MANT_SIZE) qmin in
    let num x := N * 2 ^ Z.max 0 (E - x) in
    let den x := D * 2 ^ Z.max 0 (x - E) in
    let m := rdiv rm s (num q) (den q) in
    let inexact := negb (num q mod den q =? 0) in
    let m1 := rdiv rm s (num (e - MANT_SIZE)) (den (e - MANT_SIZE)) in
    let tiny := (e <? emin) && (m1 <? 2 ^ (emin - e + MANT_SIZE)) in
    let fl := if tiny && inexact then fl .| FFLAG_UNDERFLOW else fl in
    let fl := if inexact then fl .| FFLAG_INEXACT else fl in
    let '(m, q) := if m =? 2 ^ (MANT_SIZE + 1) then (2 ^ MANT_SIZE, q + 1) else (m, q) in
    if (2 ^ MANT_SIZE <=? m) && (bias <? q + MANT_SIZE) then
      let fl := fl .| (FFLAG_OVERFLOW .| FFLAG_INEXACT) in
      if overflow_to_inf rm s then (pack_sf s EXP_MASK 0, fl)
      else (pack_sf s (EXP_MASK - 1) MANT_MASK, fl)
    else (encode s m q, fl).

End Format.

(** The formats the code instantiates. *)
Class FloatFmtOk (fmt : FloatFmt) : Prop := {
  fmt_cases : fmt = sf32 \/ fmt = sf64 \/ fmt = sf128
}.
#[export] Instance sf32_ok : FloatFmtOk sf32 := {| fmt_cases := or_introl eq_refl |}.
#[export] Instance sf64_ok : FloatFmtOk sf64 := {| fmt_cases := or_intror (or_introl eq_refl) |}.
#[export] Instance sf128_ok : FloatFmtOk sf128 := {| fmt_cases := or_intror (or_intror eq_refl) |}.

(** ** Rounding to odd *)

Lemma testbit_1 i : 0 <= i -> Z.testbit 1 i = (i =? 0).
Proof. intros. change 1 with (2 ^ 0). by apply testbit_pow2. Qed.

Lemma lor_1_odd n : n .| 1 = if Z.odd n then n else n + 1.
Proof.
  destruct (Z.odd n) eqn:E; [|symmetry; apply Z.add_nocarry_lor]; rewrite <- Z.bit0_odd in E;
    apply Z.bits_inj'; intros i Hi; autorewrite with zbits; rewrite testbit_1 by done;
    destruct (Z.eqb_spec i 0) as [->|]; rewrite ?E, ?orb_false_r, ?andb_false_r; done.
Qed.

Lemma st_spec N D : 0 < D ->
  (N mod D = 0 /\ N = D * st N D) \/
  (N mod D <> 0 /\ exists j, st N D = 2 * j + 1 /\ D * (2 * j) < N < D * (2 * j + 2)).
Proof.
  intros HD. unfold st. pose proof (Z.div_mod N D ltac:(lia)) as Hdm.
  pose proof (Z.mod_pos_bound N D HD).
  destruct (Z.eqb_spec (N mod D) 0) as [Hz|Hz]; simpl.
  - left. rewrite Z.lor_0_r. lia.
  - right. split; [done|]. rewrite lor_1_odd.
    pose proof (Z.div2_odd (N / D)) as Hod.
    destruct (Z.odd (N / D)); simpl Z.b2z in Hod;
      exists (Z.div2 (N / D)); split; [lia|nia|lia|nia].
Qed.

Lemma st_unique N D s : 0 < D ->
  N = D * s \/ (exists j, s = 2 * j + 1 /\ D * (2 * j) < N < D * (2 * j + 2)) ->
  st N D = s.
Proof.
  intros HD [->|(j & -> & Hj)];
    destruct (st_spec (D * s) D HD) as [[_ Heq]|[Hne _]] || destruct (st_spec N D HD) as [[_ Heq]|[_ (k & -> & Hk)]].
  - nia.
  - rewrite Z.mul_comm, Z.mod_mul in Hne; lia.
  - rewrite Heq in Hj. assert (st N D = 2 * j + 1) by nia. done.
  - assert (k = j) by nia. lia.
Qed.

Lemma st_exact N D : 0 < D -> N mod D = 0 -> st N D = N / D.
Proof.
  intros. apply st_unique; [done|]. left. pose proof (Z.div_mod N D). lia.
Qed.

Lemma st_1 N : st N 1 = N.
Proof. apply st_unique; [lia|]. left. lia. Qed.

Lemma st_nonneg N D : 0 < D -> 0 <= N -> 0 <= st N D.
Proof. intros HD HN. destruct (st_spec N D HD) as [[_ H]|[_ (j & -> & Hj)]]; nia. Qed.

Lemma st_pos N D : 0 < D -> 0 < N -> 0 < st N D.
Proof. intros HD HN. destruct (st_spec N D HD) as [[_ H]|[_ (j & -> & Hj)]]; nia. Qed.

Lemma st_opp N D : 0 < D -> st (- N) D = - st N D.
Proof.
  intros HD. apply st_unique; [done|].
  destruct (st_spec N D HD) as [[_ H]|[_ (j & Hj & HN)]]; [left; lia|].
  right. exists (- j - 1). split; lia.
Qed.

(** Adding an even multiple of the divisor commutes with rounding to odd. *)
Lemma st_add_even N D a : 0 < D -> st (D * (2 * a) + N) D = 2 * a + st N D.
Proof.
  intros HD. apply st_unique; [done|].
  destruct (st_spec N D HD) as [[_ H]|[_ (j & Hj & HN)]]; [left; nia|].
  right. exists (a + j). split; [lia|nia].
Qed.

(** Rounding to odd composes over an even divisor. *)
Lemma st_st N D D2 : 0 < D -> 0 < D2 -> st (st N D) (2 * D2) = st N (D * (2 * D2)).
Proof.
  intros HD HD2. symmetry. apply st_unique; [nia|].
  destruct (st_spec (st N D) (2 * D2) ltac:(lia)) as [[_ H1]|[_ (k & Hk & HN2)]];
    destruct (st_spec N D HD) as [[_ H]|[_ (j & Hj & HN)]].
  - left. rewrite H at 1. rewrite H1 at 1. ring.
  - exfalso. lia.
  - right. exists k. split; [lia|]. rewrite H. nia.
  - right. exists k. split; [lia|]. rewrite Hj in HN2. nia.
Qed.

(** With at least two bits to spare, rounding sees no difference. *)
Lemma rdiv_st rm s N D K : 0 < D -> 2 <= K ->
  rdiv rm s (st N D) (2 ^ K) = rdiv rm s N (D * 2 ^ K) /\
  (st N D mod 2 ^ K =? 0) = (N mod (D * 2 ^ K) =? 0).
Proof.
  intros HD HK.
  assert (exists H, 0 < H /\ 2 ^ K = 4 * H) as (H & HH & ->).
  { exists (2 ^ (K - 2)). split; [apply pow2_pos; lia|].
    rewrite (pow2_split K 2) by lia. done. }
  set (X := st N D).
  pose proof (Z.div_mod X (4 * H) ltac:(lia)) as HX.
  pose proof (Z.mod_pos_bound X (4 * H) ltac:(lia)) as HXb.
  pose proof (Z.div_mod N (D * (4 * H)) ltac:(nia)) as HN.
  pose proof (Z.mod_pos_bound N (D * (4 * H)) ltac:(nia)) as HNb.
  set (q := X / (4 * H)) in *. set (r := X mod (4 * H)) in *.
  set (Q := N / (D * (4 * H))) in *. set (R := N mod (D * (4 * H))) in *.
  assert (q = Q /\ (R = D * r \/ exists j, r = 2 * j + 1 /\ D * (2 * j) < R < D * (2 * j + 2)))
    as [Hq Hr].
  { destruct (st_spec N D HD) as [[_ H1]|[_ (j & Hj & HNj)]]; fold X in H1 || fold X in Hj.
    - assert (q = Q) by nia. split; [done|]. left. nia.
    - assert (exists j', r = 2 * j' + 1) as [j' Hj'].
      { exists (j - 2 * H * q). lia. }
      assert (q = Q) by nia. split; [done|]. right. exists j'. split; [done|]. nia. }
  split.
  - unfold rdiv. fold q r Q R. rewrite <- Hq.
    destruct rm; try done;
      repeat match goal with
      | |- context [?a <? ?b] => destruct (Z.ltb_spec a b)
      | |- context [?a =? 0] => destruct (Z.eqb_spec a 0)
      end; simpl; try lia; exfalso;
      destruct Hr as [->|(j & -> & Hj)]; nia.
  - destruct (Z.eqb_spec r 0), (Z.eqb_spec R 0); try done; exfalso;
      destruct Hr as [->|(j & -> & Hj)]; nia.
Qed.
