(* ===== verification/SoftFpRound.v ===== *)
(** * The rounding core of the template refines the specification

    [normalize_sf] and [normalize2_sf] (through [round_pack_sf]) produce exactly
    the float and the flags that [round_q] assigns to the value their
    arguments stand for. *)

From S2P Require Import Prelude SoftFp SoftFpSpec.

Lemma land_lnot_1 n : n .& ~~ 1 = n - n mod 2.
Proof.
  change 2 with (2 ^ 1). fold (uN 1 n). rewrite <- land_ones_uN by lia.
  change (Z.ones 1) with 1.
  rewrite <- Z.ldiff_land. rewrite <- (Z.lor_ldiff_and n 1) at 2.
  rewrite <- Z.add_nocarry_lor; [lia|].
  zbits. rewrite testbit_1 by done. zbits_case; by rewrite ?andb_false_r.
Qed.

Section Fmt.
Context {fmt : FloatFmt} {Hok : FloatFmtOk fmt}.

(** ** Arithmetic of the format parameters *)

Lemma fmt_sizes :
  F_SIZE = 1 + EXP_SIZE + MANT_SIZE /\ 8 <= EXP_SIZE <= 15 /\ EXP_SIZE + 15 <= MANT_SIZE
  /\ MANT_SIZE <= 112 /\ RND_SIZE = EXP_SIZE - 1 /\ IMANT_SIZE = F_SIZE - 2.
Proof. destruct fmt_cases as [-> | [-> | -> ] ]; cbv; repeat split; discriminate. Qed.

Ltac fmt := pose proof fmt_sizes as (HFS & HES & HMS & HMS2 & HRS & HIS).

Lemma EXP_MASK_eq : EXP_MASK = 2 ^ EXP_SIZE - 1.
Proof. fmt. unfold EXP_MASK. rewrite shiftl_mul by lia. lia. Qed.
Lemma MANT_MASK_eq : MANT_MASK = 2 ^ MANT_SIZE - 1.
Proof. fmt. unfold MANT_MASK. rewrite shiftl_mul by lia. lia. Qed.
Lemma SIGN_MASK_eq : SIGN_MASK = 2 ^ (F_SIZE - 1).
Proof. fmt. unfold SIGN_MASK. rewrite shiftl_mul by lia. lia. Qed.
Lemma bias_eq : bias = EXP_MASK / 2.
Proof.
  fmt. rewrite EXP_MASK_eq. unfold bias. rewrite (pow2_half EXP_SIZE) by lia.
  apply Z.div_unique with 1; lia.
Qed.
Lemma bias_pos : 100 <= bias /\ EXP_MASK = 2 * bias + 1.
Proof.
  fmt. rewrite EXP_MASK_eq. unfold bias. rewrite (pow2_half EXP_SIZE) by lia.
  assert (2 ^ 7 <= 2 ^ (EXP_SIZE - 1)) by (apply Z.pow_le_mono_r; lia). lia.
Qed.

Lemma pow2_F : 2 ^ F_SIZE = 2 * 2 ^ (F_SIZE - 1) /\ 2 ^ (F_SIZE - 1) = 2 * 2 ^ (F_SIZE - 2)
  /\ 2 ^ (F_SIZE - 1) = 2 ^ (MANT_SIZE + 1) * 2 ^ RND_SIZE
  /\ 2 ^ (F_SIZE - 2) = 2 ^ MANT_SIZE * 2 ^ RND_SIZE
  /\ 2 ^ (MANT_SIZE + 1) = 2 * 2 ^ MANT_SIZE
  /\ 2 ^ RND_SIZE = 2 * 2 ^ (RND_SIZE - 1)
  /\ 2 ^ (F_SIZE - 1) = 2 ^ EXP_SIZE * 2 ^ MANT_SIZE.
Proof.
  fmt. rewrite <- !Z.pow_add_r by lia.
  assert (forall a b, 1 <= a -> b = a - 1 -> 2 ^ a = 2 * 2 ^ b) as Hh
    by (intros a b ? ->; by apply pow2_half).
  repeat split; first [apply Hh; lia | f_equal; lia].
Qed.

Ltac fmtp :=
  fmt; pose proof pow2_F as (HpF & HpF1 & HpF1' & HpF2 & HpM & HpR & HpE);
  assert (0 < 2 ^ MANT_SIZE) by (apply pow2_pos; lia);
  assert (0 < 2 ^ (RND_SIZE - 1)) by (apply pow2_pos; lia);
  assert (0 < 2 ^ EXP_SIZE) by (apply pow2_pos; lia).

Lemma uF_range x : in_u F_SIZE (uF x).
Proof. fmt. apply uN_range. lia. Qed.
Lemma uF_small x : in_u F_SIZE x -> uF x = x.
Proof. apply uN_small. Qed.

Lemma clz_spec a : 0 < a -> in_u F_SIZE a -> clz a = F_SIZE - 1 - Z.log2 a.
Proof.
  intros Ha Hr. pose proof (log2_in_u _ _ Ha Hr). unfold clz.
  destruct fmt_cases as [Hf | [Hf | Hf] ]; rewrite Hf in *; simpl in *.
  1,2: unfold clz_size, clz32, clz64, builtin_clz; destruct (Z.eqb_spec a 0); lia.
  unfold clz_size, clz128, builtin_clz. destruct (Z.eqb_spec a 0); [lia|].
  assert (a >> 64 = a / 2 ^ 64) as Hsh by (apply shiftr_div; lia).
  assert (u64 (a >> 64) = a / 2 ^ 64) as ->.
  { rewrite Hsh. apply uN_small. unfold in_u in *. split; [apply Z.div_pos; lia|].
    apply Z.div_lt_upper_bound; lia. }
  unfold tst. destruct (Z.eqb_spec (a / 2 ^ 64) 0) as [Hz|Hz]; simpl.
  - assert (u64 a = a) as ->; [|lia]. apply uN_small.
    apply Z.div_small_iff in Hz; [|lia]. unfold in_u. lia.
  - rewrite <- Hsh, Z.log2_shiftr by lia.
    assert (64 <= Z.log2 a); [|lia].
    apply Z.log2_le_pow2; [lia|]. destruct (Z_lt_le_dec a (2 ^ 64)); [|done].
    exfalso. apply Hz. apply Z.div_small. lia.
Qed.

Lemma clz_0 : clz 0 = F_SIZE.
Proof. unfold clz. destruct fmt_cases as [-> | [-> | -> ] ]; reflexivity. Qed.

(** ** The pieces of [round_pack_sf] *)

Lemma rshift_rnd_st a d : in_u F_SIZE a -> 0 <= d -> rshift_rnd a d = st a (2 ^ d).
Proof.
  intros Ha Hd. unfold rshift_rnd. destruct (Z.eqb_spec d 0) as [->|].
  { by rewrite Z.pow_0_r, st_1. }
  pose proof (pow2_pos d Hd). unfold st.
  destruct (Z.leb_spec F_SIZE d).
  - assert (in_u d a) as Hd' by (fmt; apply (in_u_weaken F_SIZE); [lia|done]).
    unfold in_u in Hd'. rewrite Z.div_small, Z.mod_small by lia. done.
  - rewrite shiftl_mul, Z.mul_1_l, land_pow2m1, shiftr_div by lia. done.
Qed.

Lemma tst_true x : tst x = true <-> x <> 0.
Proof. unfold tst. destruct (Z.eqb_spec x 0); simpl; split; congruence. Qed.
Lemma tst_false x : tst x = false <-> x = 0.
Proof. unfold tst. destruct (Z.eqb_spec x 0); simpl; split; congruence. Qed.

Lemma rnd_addend_cases s rm : s = 0 \/ s = 1 ->
  rnd_addend s rm =
    match rm with
    | RM_RNE | RM_RMM => 2 ^ (RND_SIZE - 1)
    | RM_RTZ => 0
    | RM_RDN => if s =? 0 then 0 else 2 ^ RND_SIZE - 1
    | RM_RUP => if s =? 0 then 2 ^ RND_SIZE - 1 else 0
    end.
Proof.
  fmt. unfold rnd_addend. rewrite !shiftl_mul, !Z.mul_1_l by lia.
  intros [-> | ->]; destruct rm; done.
Qed.

Lemma rnd_addend_range s rm : s = 0 \/ s = 1 -> 0 <= rnd_addend s rm < 2 ^ RND_SIZE.
Proof.
  intros Hs. rewrite rnd_addend_cases by done. fmtp.
  destruct rm, Hs as [-> | ->]; simpl; lia.
Qed.

Lemma rnd_addend_0 s rm : s = 0 \/ s = 1 ->
  (rnd_addend s rm =? 0) = negb (overflow_to_inf rm s).
Proof.
  intros Hs. rewrite rnd_addend_cases by done. fmtp.
  destruct rm, Hs as [-> | ->]; simpl; try done; apply Z.eqb_neq; lia.
Qed.

(** add the addend, shift, and fix the half-way case: rounding to an integer *)
Lemma round_step rm s M : s = 0 \/ s = 1 -> 0 <= M < 2 ^ (F_SIZE - 1) ->
  (let m := uF (M + rnd_addend s rm) >> RND_SIZE in
   if bool_decide (rm = RM_RNE) && (M .& ((1 << RND_SIZE) - 1) =? 1 << (RND_SIZE - 1))
   then m .& ~~ 1 else m) = rdiv rm s M (2 ^ RND_SIZE).
Proof.
  intros Hs HM. cbv zeta. pose proof (rnd_addend_range s rm Hs) as Hb. fmtp.
  assert (2 ^ RND_SIZE <= 2 ^ (F_SIZE - 1)) by (apply Z.pow_le_mono_r; lia).
  rewrite uF_small by (unfold in_u; lia).
  rewrite !shiftl_mul, !Z.mul_1_l, land_pow2m1, shiftr_div, land_lnot_1 by lia.
  rewrite rnd_addend_cases in * by done. clear Hb.
  unfold uN, rdiv.
  pose proof (Z_div_mod_eq_full M (2 ^ RND_SIZE)) as Hdm.
  assert (0 <= M mod 2 ^ RND_SIZE < 2 ^ RND_SIZE) as Hmb by (apply Z.mod_pos_bound; lia).
  set (q := M / 2 ^ RND_SIZE) in *. set (r := M mod 2 ^ RND_SIZE) in *.
  set (H' := 2 ^ (RND_SIZE - 1)) in *. set (D := 2 ^ RND_SIZE) in *.
  assert (forall x t, M + x = D * (q + 1) + t -> 0 <= t < D -> (M + x) / D = q + 1) as Hup
    by (intros; symmetry; apply Z.div_unique with t; lia).
  assert (forall x t, M + x = D * q + t -> 0 <= t < D -> (M + x) / D = q) as Hdn
    by (intros; symmetry; apply Z.div_unique with t; lia).
  assert (forall x, (if r <? D - x then M + x = D * q + (r + x) else M + x = D * (q + 1) + (r + x - D)))
    as Hx by (intros x; destruct (r <? D - x); lia).
  destruct rm; cbn [bool_decide]; simpl bool_decide; simpl.
  - (* RNE *)
    specialize (Hx H'). destruct (Z.ltb_spec r (D - H')); destruct (Z.ltb_spec (2 * r) D); try lia.
    + rewrite (Hdn _ _ Hx) by lia. destruct (Z.eqb_spec r H'); [lia|done].
    + rewrite (Hup _ _ Hx) by lia. destruct (Z.ltb_spec D (2 * r)).
      * destruct (Z.eqb_spec r H'); [lia|done].
      * destruct (Z.eqb_spec r H'); [|lia].
        pose proof (Z.mod_pos_bound q 2 ltac:(lia)). pose proof (Z.div_mod q 2 ltac:(lia)).
        assert ((q + 1) mod 2 = 1 - q mod 2); [|lia].
        symmetry. apply Z.mod_unique with (q / 2 + q mod 2); lia.
  - specialize (Hx 0). destruct (Z.ltb_spec r (D - 0)); [|lia]. rewrite (Hdn _ _ Hx) by lia; done.
  - destruct Hs as [-> | ->]; simpl; rewrite ?orb_true_r, ?orb_false_r.
    + specialize (Hx 0). destruct (Z.ltb_spec r (D - 0)); [|lia]. rewrite (Hdn _ _ Hx) by lia; done.
    + specialize (Hx (D - 1)). destruct (Z.ltb_spec r (D - (D - 1))), (Z.eqb_spec r 0); try lia.
      * rewrite (Hdn _ _ Hx) by lia; done.
      * rewrite (Hup _ _ Hx) by lia; done.
  - destruct Hs as [-> | ->]; simpl; rewrite ?orb_true_r, ?orb_false_r.
    + specialize (Hx (D - 1)). destruct (Z.ltb_spec r (D - (D - 1))), (Z.eqb_spec r 0); try lia.
      * rewrite (Hdn _ _ Hx) by lia; done.
      * rewrite (Hup _ _ Hx) by lia; done.
    + specialize (Hx 0). destruct (Z.ltb_spec r (D - 0)); [|lia]. rewrite (Hdn _ _ Hx) by lia; done.
  - specialize (Hx H'). destruct (Z.ltb_spec r (D - H')); destruct (Z.ltb_spec (2 * r) D); try lia.
    + rewrite (Hdn _ _ Hx) by lia; done.
    + rewrite (Hup _ _ Hx) by lia; done.
Qed.

Lemma pack_sf_mask s e m : pack_sf s e m = pack_sf s e (uN MANT_SIZE m).
Proof.
  fmt. unfold pack_sf. rewrite MANT_MASK_eq, !land_pow2m1 by lia. by rewrite uN_idem by lia.
Qed.

Lemma qlog2_1 M : 0 < M -> qlog2 M 1 = Z.log2 M.
Proof.
  intros. unfold qlog2. simpl Z.log2 at 1. simpl. rewrite Z.div_1_r.
  change (2 ^ (0 + 1)) with 2. rewrite Z.mul_comm, Z.log2_double by lia. lia.
Qed.

Lemma rdiv_le rm s N D b : 0 < D -> N < b * D -> rdiv rm s N D <= b.
Proof.
  intros HD HN. assert (N / D < b) by (apply Z.div_lt_upper_bound; lia).
  pose proof (Z.mod_pos_bound (N / D) 2 ltac:(lia)).
  unfold rdiv. destruct rm; repeat case_match; lia.
Qed.

Lemma rdiv_nonneg rm s N D : 0 < D -> 0 <= N -> 0 <= rdiv rm s N D.
Proof.
  intros HD HN. assert (0 <= N / D) by (apply Z.div_pos; lia).
  pose proof (Z.mod_pos_bound (N / D) 2 ltac:(lia)).
  unfold rdiv. destruct rm; repeat case_match; lia.
Qed.

Lemma rdiv_ge rm s N D b : 0 < D -> b * D <= N -> b <= rdiv rm s N D.
Proof.
  intros HD HN. assert (b <= N / D) by (apply Z.div_le_lower_bound; lia).
  pose proof (Z.mod_pos_bound (N / D) 2 ltac:(lia)).
  unfold rdiv. destruct rm; repeat case_match; lia.
Qed.

(** The end of [round_pack_sf] once the mantissa is rounded to [m]. *)
Lemma finish_spec rm s m q fl : s = 0 \/ s = 1 -> 0 <= m <= 2 ^ (MANT_SIZE + 1) -> qmin <= q ->
  (q = qmin \/ 2 ^ MANT_SIZE <= m) ->
  (let a_exp := q - qmin + 1 + (m >> (MANT_SIZE + 1)) in
   if m <=? MANT_MASK then (pack_sf s 0 m, fl)
   else if EXP_MASK <=? a_exp then
     if rnd_addend s rm =? 0
     then (pack_sf s (EXP_MASK - 1) MANT_MASK, fl .| (FFLAG_OVERFLOW .| FFLAG_INEXACT))
     else (pack_sf s EXP_MASK 0, fl .| (FFLAG_OVERFLOW .| FFLAG_INEXACT))
   else (pack_sf s a_exp m, fl)) =
  (let '(m, q) := if m =? 2 ^ (MANT_SIZE + 1) then (2 ^ MANT_SIZE, q + 1) else (m, q) in
   if (2 ^ MANT_SIZE <=? m) && (bias <? q + MANT_SIZE) then
     if overflow_to_inf rm s then (pack_sf s EXP_MASK 0, fl .| (FFLAG_OVERFLOW .| FFLAG_INEXACT))
     else (pack_sf s (EXP_MASK - 1) MANT_MASK, fl .| (FFLAG_OVERFLOW .| FFLAG_INEXACT))
   else (encode s m q, fl)).
Proof.
  intros Hs Hm Hq Hnorm. cbv zeta. rewrite rnd_addend_0 by done.
  pose proof bias_pos as [Hb1 Hb2]. pose proof MANT_MASK_eq as HMM. fmtp.
  assert (qmin = 1 - bias - MANT_SIZE) as Hqm by done.
  rewrite shiftr_div by lia.
  destruct (Z.eqb_spec m (2 ^ (MANT_SIZE + 1))) as [->|Hne].
  - rewrite Z.div_same by lia.
    destruct (Z.leb_spec (2 ^ (MANT_SIZE + 1)) MANT_MASK); [lia|].
    destruct (Z.leb_spec (2 ^ MANT_SIZE) (2 ^ MANT_SIZE)); [|lia]. simpl.
    destruct (Z.leb_spec EXP_MASK (q - qmin + 1 + 1)), (Z.ltb_spec bias (q + 1 + MANT_SIZE));
      try lia.
    + by destruct (overflow_to_inf rm s).
    + unfold encode. destruct (Z.ltb_spec (2 ^ MANT_SIZE) (2 ^ MANT_SIZE)); [lia|].
      rewrite pack_sf_mask, (pack_sf_mask s _ (2 ^ MANT_SIZE)). unfold uN.
      rewrite HpM, Z.mod_mul, Z.mod_same by lia. do 3 f_equal. lia.
  - rewrite Z.div_small, Z.add_0_r by lia.
    destruct (Z.leb_spec m MANT_MASK), (Z.leb_spec (2 ^ MANT_SIZE) m); try lia; simpl.
    + unfold encode. destruct (Z.ltb_spec m (2 ^ MANT_SIZE)); [done|lia].
    + destruct (Z.leb_spec EXP_MASK (q - qmin + 1)), (Z.ltb_spec bias (q + MANT_SIZE)); try lia.
      * by destruct (overflow_to_inf rm s).
      * unfold encode. destruct (Z.ltb_spec m (2 ^ MANT_SIZE)); [lia|done].
Qed.

(** the rounded mantissa and quantum packed, with the overflow handling of [round_q] *)
Definition deliver (rm : RoundingModeEnum) (s m q fl : Z) : Z * Z :=
  let '(m, q) := if m =? 2 ^ (MANT_SIZE + 1) then (2 ^ MANT_SIZE, q + 1) else (m, q) in
  if (2 ^ MANT_SIZE <=? m) && (bias <? q + MANT_SIZE) then
    let fl := fl .| (FFLAG_OVERFLOW .| FFLAG_INEXACT) in
    if overflow_to_inf rm s then (pack_sf s EXP_MASK 0, fl)
    else (pack_sf s (EXP_MASK - 1) MANT_MASK, fl)
  else (encode s m q, fl).

(** [round_pack_sf] after the subnormal adjustment, on a nonnegative exponent. *)
Lemma round_tail rm s e M fl : s = 0 \/ s = 1 -> 1 <= e -> 0 <= M < 2 ^ (F_SIZE - 1) ->
  (e = 1 \/ 2 ^ (F_SIZE - 2) <= M) ->
  (let rnd_bits := M .& ((1 << RND_SIZE) - 1) in
   let pfflags := if tst rnd_bits then fl .| FFLAG_INEXACT else fl in
   let a_mant := uF (M + rnd_addend s rm) >> RND_SIZE in
   let a_mant := if bool_decide (rm = RM_RNE) && (rnd_bits =? 1 << (RND_SIZE - 1))
                 then a_mant .& ~~ 1 else a_mant in
   let a_exp := e + (a_mant >> (MANT_SIZE + 1)) in
   if a_mant <=? MANT_MASK then (pack_sf s 0 a_mant, pfflags)
   else if EXP_MASK <=? a_exp then
     let pfflags := pfflags .| (FFLAG_OVERFLOW .| FFLAG_INEXACT) in
     if rnd_addend s rm =? 0 then (pack_sf s (EXP_MASK - 1) MANT_MASK, pfflags)
     else (pack_sf s EXP_MASK 0, pfflags)
   else (pack_sf s a_exp a_mant, pfflags)) =
  deliver rm s (rdiv rm s M (2 ^ RND_SIZE)) (e + qmin - 1)
    (if negb (M mod 2 ^ RND_SIZE =? 0) then fl .| FFLAG_INEXACT else fl).
Proof.
  intros Hs He HM Hn. pose proof (round_step rm s M Hs HM) as Hr. cbv zeta in Hr |- *.
  rewrite !Hr. clear Hr.
  fmtp. rewrite shiftl_mul, Z.mul_1_l, land_pow2m1 by lia. unfold tst, uN.
  unfold deliver. cbv zeta.
  rewrite <- finish_spec; [|done| |lia|].
  - cbv zeta. by replace (e + qmin - 1 - qmin + 1) with e by lia.
  - split; [apply rdiv_nonneg; lia|]. apply rdiv_le; [lia|]. lia.
  - destruct Hn; [left; lia|right]. apply rdiv_ge; lia.
Qed.

(** the value [M * 2^(E)] of the mantissa [M] under the biased exponent [e] *)
Definition scale (e : Z) : Z := e - bias - (F_SIZE - 2).

Lemma tiny_spec rm s e M : s = 0 \/ s = 1 -> e <= 0 -> 0 <= M < 2 ^ (F_SIZE - 1) ->
  (e <? 0) || (uF (M + rnd_addend s rm) <? 1 << (F_SIZE - 1)) =
  (e - bias <? emin) && (rdiv rm s M (2 ^ RND_SIZE) <? 2 ^ (emin - (e - bias) + MANT_SIZE)).
Proof.
  intros Hs He HM. unfold emin. pose proof (round_step rm s M Hs HM) as Hr.
  cbv zeta in Hr. rewrite <- Hr. pose proof (rnd_addend_range s rm Hs) as Ha.
  assert (rdiv rm s M (2 ^ RND_SIZE) <= 2 ^ (MANT_SIZE + 1)) as Hle.
  { fmtp. apply rdiv_le; [lia|]. lia. }
  rewrite <- Hr in Hle. clear Hr. fmtp.
  assert (2 ^ RND_SIZE <= 2 ^ (F_SIZE - 1)) by (apply Z.pow_le_mono_r; lia).
  rewrite uF_small in * by (unfold in_u; lia).
  rewrite !shiftl_mul, !Z.mul_1_l, shiftr_div, land_lnot_1 in * by lia.
  set (A := M + rnd_addend s rm) in *.
  destruct (Z.ltb_spec (e - bias) (1 - bias)); [|lia]. simpl andb.
  destruct (Z.ltb_spec e 0); simpl.
  - symmetry. apply Z.ltb_lt. eapply Z.le_lt_trans; [exact Hle|].
    apply Z.pow_lt_mono_r; lia.
  - replace (1 - bias - (e - bias) + MANT_SIZE) with (MANT_SIZE + 1) by lia.
    set (Q := A / 2 ^ RND_SIZE) in *.
    assert (A < 2 ^ (F_SIZE - 1) <-> Q < 2 ^ (MANT_SIZE + 1)) as Hiff.
    { unfold Q. rewrite HpF1', (Z.mul_comm (2 ^ (MANT_SIZE + 1))). split; intros.
      - apply Z.div_lt_upper_bound; lia.
      - apply Z.lt_nge; intros Hge. apply Z.div_le_lower_bound in Hge; lia. }
    assert (Q <= 2 ^ (MANT_SIZE + 1)) as HQ.
    { unfold Q. apply Z.lt_succ_r, Z.div_lt_upper_bound; [lia|].
      unfold A, Z.succ. rewrite Z.mul_add_distr_l. lia. }
    pose proof (Z.mod_pos_bound Q 2 ltac:(lia)) as HQ1. pose proof (Z_div_mod_eq_full Q 2) as HQ2.
    clear - Hiff HQ HQ1 HQ2 HpM.
    destruct (_ && _); destruct (Z.ltb_spec A (2 ^ (F_SIZE - 1)));
      symmetry; (apply Z.ltb_lt || apply Z.ltb_ge); lia.
Qed.

Theorem round_pack_spec rm s e M fl : s = 0 \/ s = 1 ->
  2 ^ (F_SIZE - 2) <= M < 2 ^ (F_SIZE - 1) ->
  round_pack_sf s e M rm fl = round_q rm s M 1 (scale e) fl.
Proof.
  intros Hs HM. assert (0 <= M < 2 ^ (F_SIZE - 1)) as HM0 by (fmtp; lia).
  assert (Z.log2 M = F_SIZE - 2) as Hlog.
  { fmt. apply Z.log2_unique; [lia|]. by replace (Z.succ (F_SIZE - 2)) with (F_SIZE - 1) by lia. }
  assert (0 < M) as HMpos by (fmtp; lia).
  unfold round_q. destruct (Z.eqb_spec M 0); [lia|].
  rewrite qlog2_1, Hlog by done. unfold scale.
  replace (F_SIZE - 2 + (e - bias - (F_SIZE - 2))) with (e - bias) by lia.
  unfold round_pack_sf.
  assert (forall x y : Z, x <= y -> 2 ^ Z.max 0 (x - y) = 1) as Hz
    by (intros; rewrite Z.max_l by lia; done).
  destruct (Z.leb_spec e 0).
  - pose proof (tiny_spec rm s e M Hs ltac:(done) HM0) as Ht.
    fmtp. rewrite rshift_rnd_st by (unfold in_u; lia).
    assert (Z.max (e - bias - MANT_SIZE) qmin = qmin) as -> by (unfold qmin, emin; lia).
    rewrite (Hz (e - bias - (F_SIZE - 2)) qmin), (Hz (e - bias - (F_SIZE - 2)) (e - bias - MANT_SIZE)),
      !Z.mul_1_r, !Z.mul_1_l by (unfold qmin, emin; lia).
    replace (Z.max 0 (e - bias - MANT_SIZE - (e - bias - (F_SIZE - 2)))) with RND_SIZE by lia.
    replace (Z.max 0 (qmin - (e - bias - (F_SIZE - 2)))) with (1 - e + RND_SIZE)
      by (unfold qmin, emin; lia).
    cbv zeta. rewrite <- Ht. clear Ht.
    rewrite (Z.pow_add_r 2 (1 - e)) by lia.
    assert (0 < 2 ^ (1 - e)) by (apply pow2_pos; lia).
    destruct (rdiv_st rm s M (2 ^ (1 - e)) RND_SIZE ltac:(done)) as [<- <-]; [lia|].
    pose proof (round_tail rm s 1 (st M (2 ^ (1 - e)))
      (if ((e <? 0) || (uF (M + rnd_addend s rm) <? 1 << (F_SIZE - 1)))
            && tst (st M (2 ^ (1 - e)) .& ((1 << RND_SIZE) - 1))
       then fl .| FFLAG_UNDERFLOW else fl) Hs ltac:(lia)) as Hrt.
    cbv zeta in Hrt. rewrite Hrt.
    + unfold deliver. replace (1 + qmin - 1) with qmin by lia.
      rewrite (shiftl_mul RND_SIZE), (Z.mul_1_l (2 ^ RND_SIZE)), land_pow2m1 by lia. reflexivity.
    + split; [apply st_nonneg; lia|].
      assert (2 <= 2 ^ (1 - e)) as HD by (rewrite (pow2_half (1 - e)) by lia;
        pose proof (pow2_pos (1 - e - 1) ltac:(lia)); lia).
      clear - HD HM0 HpF1 HMpos. generalize dependent (2 ^ (1 - e)); intros D HD.
      destruct (st_spec M D ltac:(lia)) as [[_ Heq]|[_ (j & -> & Hj)]]; nia.
    + by left.
  - assert (Z.max (e - bias - MANT_SIZE) qmin = e - bias - MANT_SIZE) as ->
      by (unfold qmin, emin; lia).
    fmtp. rewrite !Hz, Z.mul_1_r, !Z.mul_1_l by lia.
    replace (Z.max 0 (e - bias - MANT_SIZE - (e - bias - (F_SIZE - 2)))) with RND_SIZE by lia.
    destruct (Z.ltb_spec (e - bias) emin) as [Hlt|_]; [unfold emin in Hlt; lia|].
    rewrite andb_false_l.
    pose proof (round_tail rm s e M fl Hs ltac:(lia) HM0 ltac:(right; lia)) as Hrt.
    cbv zeta in Hrt |- *. rewrite Hrt. unfold deliver.
    replace (e + qmin - 1) with (e - bias - MANT_SIZE) by (unfold qmin, emin; lia). reflexivity.
Qed.

(** ** The position of the leading bit of a quotient *)

(** [D * 2^l <= N < D * 2^(l+1)], on a common scale [j] *)
Definition at_log (N D l j : Z) : Prop :=
  0 <= j /\ 0 <= l + j /\ D * 2 ^ (l + j) <= N * 2 ^ j < D * 2 ^ (l + j + 1).

Lemma at_log_unique N D l j l' j' : 0 < D -> at_log N D l j -> at_log N D l' j' -> l = l'.
Proof.
  assert (forall l j l' j', 0 < D -> at_log N D l j -> at_log N D l' j' -> ~ l < l') as Hn.
  { clear. intros l j l' j' HD (Hj & Hlj & H) (Hj' & Hlj' & H') Hlt.
    assert (D * 2 ^ (l' + j') * 2 ^ j < D * 2 ^ (l + j + 1) * 2 ^ j') as Hc.
    { pose proof (pow2_pos j Hj). pose proof (pow2_pos j' Hj'). nia. }
    rewrite <- !Z.mul_assoc, <- !Z.pow_add_r in Hc by lia.
    apply Z.mul_lt_mono_pos_l in Hc; [|done]. apply Z.pow_lt_mono_r_iff in Hc; lia. }
  intros HD H H'. pose proof (Hn _ _ _ _ HD H H'). pose proof (Hn _ _ _ _ HD H' H). lia.
Qed.

Lemma qlog2_at N D : 0 < N -> 0 < D -> at_log N D (qlog2 N D) (Z.log2 D + 1).
Proof.
  intros HN HD. unfold qlog2. set (k := Z.log2 D + 1).
  pose proof (Z.log2_nonneg D). pose proof (Z.log2_spec D HD) as [_ HDk].
  change (Z.succ (Z.log2 D)) with k in HDk.
  assert (1 <= N * 2 ^ k / D) as HA by (apply Z.div_le_lower_bound; nia).
  pose proof (Z.log2_spec (N * 2 ^ k / D) ltac:(lia)) as HL.
  pose proof (Z.log2_nonneg (N * 2 ^ k / D)).
  pose proof (Z_div_mod_eq_full (N * 2 ^ k) D). pose proof (Z.mod_pos_bound (N * 2 ^ k) D HD).
  set (A := N * 2 ^ k / D) in *. unfold Z.succ in HL.
  replace (Z.log2 A - k + k) with (Z.log2 A) by lia.
  split; [lia|]. rewrite Z.sub_add. split; [lia|]. nia.
Qed.

Lemma qlog2_unique N D l j : 0 < N -> 0 < D -> at_log N D l j -> qlog2 N D = l.
Proof. intros HN HD H. apply (at_log_unique N D _ (Z.log2 D + 1) _ j); [done| |done]. by apply qlog2_at. Qed.

Lemma qlog2_shift N D i : 0 < N -> 0 < D -> 0 <= i -> qlog2 (N * 2 ^ i) D = qlog2 N D + i.
Proof.
  intros HN HD Hi. pose proof (qlog2_at N D HN HD) as (Hj & Hlj & H).
  pose proof (pow2_pos i Hi).
  apply (qlog2_unique _ _ _ (Z.log2 D + 1)); [nia|done|].
  split; [lia|]. split; [lia|].
  replace (qlog2 N D + i + (Z.log2 D + 1)) with (qlog2 N D + (Z.log2 D + 1) + i) by lia.
  replace (qlog2 N D + (Z.log2 D + 1) + i + 1) with (qlog2 N D + (Z.log2 D + 1) + 1 + i) by lia.
  rewrite !(Z.pow_add_r 2 _ i) by lia. nia.
Qed.

Lemma qlog2_scale c N D : 0 < c -> 0 < N -> 0 < D -> qlog2 (c * N) (c * D) = qlog2 N D.
Proof.
  intros Hc HN HD. pose proof (qlog2_at N D HN HD) as (Hj & Hlj & H).
  apply (qlog2_unique _ _ _ (Z.log2 D + 1)); [nia|nia|].
  split; [done|]. split; [done|]. rewrite <- !Z.mul_assoc. nia.
Qed.

Lemma qlog2_st N D : 0 < D -> 1 <= Z.log2 (st N D) -> qlog2 N D = Z.log2 (st N D).
Proof.
  intros HD Hl. set (L := Z.log2 (st N D)) in *.
  assert (0 < st N D) as HX by (destruct (Z.lt_ge_cases 0 (st N D)); [done|];
    pose proof (Z.log2_nonpos (st N D)); lia).
  pose proof (Z.log2_spec _ HX) as HL. fold L in HL. unfold Z.succ in HL.
  assert (2 ^ (L + 1) = 4 * 2 ^ (L - 1) /\ 2 ^ L = 2 * 2 ^ (L - 1)) as [E1 E2].
  { rewrite (pow2_half (L + 1)), (pow2_half (L + 1 - 1)), (pow2_half L) by lia.
    replace (L + 1 - 1 - 1) with (L - 1) by lia. lia. }
  apply (qlog2_unique _ _ _ 0); [|done|].
  - destruct (st_spec N D HD) as [[_ Heq]|[_ (j & Hj & HN)]]; nia.
  - split; [done|]. split; [lia|]. rewrite !Z.add_0_r, Z.pow_0_r, Z.mul_1_r, E1, E2.
    rewrite E1, E2 in HL. clear E1 E2. set (P := 2 ^ (L - 1)) in *. clearbody P.
    destruct (st_spec N D HD) as [[_ Heq]|[_ (j & Hj & HN)]]; [rewrite Heq; nia|].
    rewrite Hj in HL. nia.
Qed.

(** ** [round_q] depends only on the value it rounds *)

Lemma ltb_scale c a b : 0 < c -> (c * a <? c * b) = (a <? b).
Proof.
  intros Hc. pose proof (Z.mul_lt_mono_pos_l c a b Hc).
  destruct (Z.ltb_spec (c * a) (c * b)), (Z.ltb_spec a b); tauto || lia.
Qed.
Lemma eqb0_scale c a : 0 < c -> (c * a =? 0) = (a =? 0).
Proof.
  intros Hc. pose proof (Z.eq_mul_0_r c a).
  destruct (Z.eqb_spec a 0) as [Ha|Ha]; destruct (Z.eqb_spec (c * a) 0); [done|rewrite Ha in *; lia|lia|done].
Qed.

Lemma rdiv_scale c rm s N D : 0 < c -> 0 < D -> rdiv rm s (c * N) (c * D) = rdiv rm s N D.
Proof.
  intros Hc HD. unfold rdiv. rewrite Z.div_mul_cancel_l, Z.mul_mod_distr_l by lia.
  rewrite (Z.mul_assoc 2 c), (Z.mul_comm 2 c), <- (Z.mul_assoc c 2).
  by rewrite !ltb_scale, eqb0_scale by done.
Qed.

Lemma mod0_scale c N D : 0 < c -> 0 < D -> (c * N mod (c * D) =? 0) = (N mod D =? 0).
Proof. intros Hc HD. rewrite Z.mul_mod_distr_l by lia. by apply eqb0_scale. Qed.

(** Two presentations of a value whose quotients agree at every quantum round alike. *)
Lemma round_q_ext rm s N D E N' D' E' fl :
  N <> 0 -> N' <> 0 -> qlog2 N D + E = qlog2 N' D' + E' ->
  (forall q, qlog2 N D + E - MANT_SIZE <= q ->
     let f N D E := (rdiv rm s (N * 2 ^ Z.max 0 (E - q)) (D * 2 ^ Z.max 0 (q - E)),
                     (N * 2 ^ Z.max 0 (E - q)) mod (D * 2 ^ Z.max 0 (q - E)) =? 0) in
     f N D E = f N' D' E') ->
  round_q rm s N D E fl = round_q rm s N' D' E' fl.
Proof.
  intros HN HN' He H. unfold round_q.
  destruct (Z.eqb_spec N 0); [done|]. destruct (Z.eqb_spec N' 0); [done|].
  rewrite <- He.
  pose proof (H (Z.max (qlog2 N D + E - MANT_SIZE) qmin) (Z.le_max_l _ _)) as H1.
  pose proof (H (qlog2 N D + E - MANT_SIZE) (Z.le_refl _)) as H2.
  cbv zeta in *. injection H1 as H1a H1b. injection H2 as H2a _.
  by rewrite H1a, H1b, H2a.
Qed.

Lemma round_q_scale rm s c N D E fl : 0 < c -> 0 < D -> 0 <= N ->
  round_q rm s (c * N) (c * D) E fl = round_q rm s N D E fl.
Proof.
  intros Hc HD HN. destruct (Z.eq_dec N 0) as [->|].
  { by rewrite Z.mul_0_r. }
  apply round_q_ext; [nia|done|by rewrite qlog2_scale by lia|].
  intros q _. cbv beta zeta. rewrite <- !Z.mul_assoc.
  pose proof (pow2_pos (Z.max 0 (q - E)) ltac:(lia)).
  rewrite rdiv_scale, mod0_scale by lia. done.
Qed.

Lemma round_q_shift rm s N D E k fl : 0 <= k -> 0 < D -> 0 <= N ->
  round_q rm s (N * 2 ^ k) D (E - k) fl = round_q rm s N D E fl.
Proof.
  intros Hk HD HN. destruct (Z.eq_dec N 0) as [->|].
  { by rewrite Z.mul_0_l. }
  pose proof (pow2_pos k Hk).
  apply round_q_ext; [nia|done|rewrite qlog2_shift by lia; lia|].
  intros q _. cbv beta zeta.
  set (a := Z.max 0 (E - k - q)). set (b := Z.max 0 (q - (E - k))).
  set (a' := Z.max 0 (E - q)). set (b' := Z.max 0 (q - E)).
  assert (k + a = (b - b') + a') as Hab by lia.
  assert (b = b' + (b - b')) as Hb by lia.
  rewrite <- Z.mul_assoc, <- Z.pow_add_r, Hab, Hb, !Z.pow_add_r by lia.
  replace (b' + (b - b') - b') with (b - b') by lia.
  pose proof (pow2_pos (b - b') ltac:(lia)). pose proof (pow2_pos b' ltac:(lia)).
  rewrite (Z.mul_comm (2 ^ b') _), !(Z.mul_assoc _ (2 ^ (b - b'))), !(Z.mul_comm _ (2 ^ (b - b'))),
    <- !(Z.mul_assoc (2 ^ (b - b'))), rdiv_scale, mod0_scale by nia.
  done.
Qed.

(** Rounding to odd with two spare bits first does not change the result. *)
Lemma round_q_st rm s N D E fl : 0 < D -> 0 <= N ->
  N mod D = 0 \/ MANT_SIZE + 2 <= Z.log2 (st N D) ->
  round_q rm s N D E fl = round_q rm s (st N D) 1 E fl.
Proof.
  intros HD HN [Hex|Hl].
  { destruct (st_spec N D HD) as [[_ Heq]|[Hne _]]; [|done].
    rewrite <- (round_q_scale rm s D (st N D) 1 E fl) by (lia || by apply st_nonneg).
    by rewrite Z.mul_1_r, <- Heq. }
  fmt. assert (N <> 0).
  { intros ->. unfold st in Hl. rewrite Z.div_0_l, Z.mod_0_l in Hl by lia. simpl in Hl. lia. }
  pose proof (st_pos N D HD ltac:(lia)).
  apply round_q_ext; [done|lia|rewrite qlog2_st, qlog2_1 by lia; done|].
  rewrite qlog2_st by lia. intros q Hq. cbv beta zeta.
  rewrite !(Z.max_l 0 (E - q)), Z.pow_0_r, !Z.mul_1_r, Z.mul_1_l by lia.
  rewrite Z.max_r by lia.
  destruct (rdiv_st rm s N D (q - E)) as [<- <-]; [lia..|done].
Qed.

(** ** Normalisation *)

Lemma round_pack_0 rm s e fl : s = 0 \/ s = 1 -> round_pack_sf s e 0 rm fl = (pack_sf s 0 0, fl).
Proof.
  intros Hs. pose proof (rnd_addend_range s rm Hs) as Ha. fmtp.
  assert (2 ^ RND_SIZE <= 2 ^ (F_SIZE - 1)) by (apply Z.pow_le_mono_r; lia).
  assert (uF (0 + rnd_addend s rm) >> RND_SIZE = 0) as Hr.
  { rewrite uF_small by (unfold in_u; lia). rewrite shiftr_div, Z.div_small by lia. done. }
  assert (forall d, rshift_rnd 0 d = 0) as Hsh.
  { intros d. unfold rshift_rnd. rewrite Z.land_0_l, Z.shiftr_0_l. destruct (d =? 0), (F_SIZE <=? d); done. }
  assert ((0 <=? MANT_MASK) = true) as HM by (rewrite MANT_MASK_eq; lia).
  unfold round_pack_sf. destruct (e <=? 0); rewrite ?Hsh, Hr, !Z.land_0_l;
    rewrite andb_false_r || idtac; cbv zeta; change (tst 0) with false; rewrite ?andb_false_r;
    destruct (bool_decide (rm = RM_RNE) && (0 =? 1 << (RND_SIZE - 1))); by rewrite ?Z.land_0_l, HM.
Qed.

(** *** [normalize_sf] rounds the value of its mantissa *)
Lemma normalize_sf_round rm s e M fl : s = 0 \/ s = 1 -> 0 <= M < 2 ^ (F_SIZE - 1) ->
  normalize_sf s e M rm fl = round_q rm s M 1 (scale e) fl.
Proof.
  intros Hs HM. unfold normalize_sf. destruct (Z.eq_dec M 0) as [->|].
  { rewrite Z.shiftl_0_l, (uF_small 0) by (fmtp; unfold in_u; lia). by apply round_pack_0. }
  fmtp. rewrite clz_spec by (unfold in_u; lia). rewrite HIS.
  set (k := F_SIZE - 1 - Z.log2 M - (F_SIZE - 1 - (F_SIZE - 2))).
  assert (Z.log2 M < F_SIZE - 1) by (apply Z.log2_lt_pow2; lia).
  pose proof (Z.log2_spec M ltac:(lia)) as HL. pose proof (Z.log2_nonneg M).
  assert (0 < 2 ^ k) by (apply pow2_pos; lia).
  assert (2 ^ Z.log2 M * 2 ^ k = 2 ^ (F_SIZE - 2)) as E1
    by (rewrite <- Z.pow_add_r by lia; f_equal; lia).
  assert (2 ^ Z.succ (Z.log2 M) * 2 ^ k = 2 ^ (F_SIZE - 1)) as E2
    by (rewrite <- Z.pow_add_r by lia; f_equal; lia).
  assert (2 ^ (F_SIZE - 2) <= M * 2 ^ k < 2 ^ (F_SIZE - 1)) as HMk.
  { clear - HL E1 E2 H4. rewrite <- E1, <- E2. split; [apply Z.mul_le_mono_nonneg_r|apply Z.mul_lt_mono_pos_r]; lia. }
  rewrite shiftl_mul, uF_small by (unfold in_u; lia).
  rewrite round_pack_spec by done.
  unfold scale. replace (e - k - bias - (F_SIZE - 2)) with (e - bias - (F_SIZE - 2) - k) by lia.
  apply round_q_shift; lia.
Qed.

End Fmt.

(** The format facts, for the files that build on this one. *)
Ltac fmt := pose proof fmt_sizes as (HFS & HES & HMS & HMS2 & HRS & HIS).
Ltac fmtp :=
  fmt; pose proof pow2_F as (HpF & HpF1 & HpF1' & HpF2 & HpM & HpR & HpE);
  assert (0 < 2 ^ MANT_SIZE) by (apply pow2_pos; lia);
  assert (0 < 2 ^ (RND_SIZE - 1)) by (apply pow2_pos; lia);
  assert (0 < 2 ^ EXP_SIZE) by (apply pow2_pos; lia).
