(* ===== verification/SoftFpArith.v ===== *)
(** * Addition, multiplication and division are correctly rounded

    On finite operands [add_sf], [sub_sf], [mul_sf] and [div_sf] return exactly
    the rounding of the real result, in every rounding mode and with the
    exact exception flags; the special operands follow IEEE-754. *)

From S2P Require Import Prelude SoftFp SoftFpSpec SoftFpRound.

Section Fmt.
Context {fmt : FloatFmt} {Hok : FloatFmtOk fmt}.

(** ** The fields of a float *)

(** the bits below the sign *)
Definition mag (a : Z) : Z := uN (F_SIZE - 1) a.

Lemma fsign_cases a : is_float a -> fsign a = 0 \/ fsign a = 1.
Proof.
  intros Ha. fmtp. unfold is_float, in_u, fsign in *. rewrite shiftr_div by lia.
  assert (0 <= a / 2 ^ (F_SIZE - 1)) by (apply Z.div_pos; lia).
  assert (a / 2 ^ (F_SIZE - 1) < 2) by (apply Z.div_lt_upper_bound; lia). lia.
Qed.

Lemma fsign_mag a : is_float a -> a = fsign a * 2 ^ (F_SIZE - 1) + mag a.
Proof.
  intros _. fmt. unfold fsign, mag, uN. rewrite shiftr_div by lia.
  rewrite (Z_div_mod_eq_full a (2 ^ (F_SIZE - 1))) at 1. lia.
Qed.

Lemma fmant_eq a : fmant a = uN MANT_SIZE a.
Proof. fmt. unfold fmant. by rewrite MANT_MASK_eq, land_pow2m1 by lia. Qed.
Lemma fmant_range a : 0 <= fmant a < 2 ^ MANT_SIZE.
Proof. fmt. rewrite fmant_eq. apply uN_range. lia. Qed.
Lemma fexp_eq a : fexp a = uN EXP_SIZE (a >> MANT_SIZE).
Proof. fmt. unfold fexp. by rewrite EXP_MASK_eq, land_pow2m1 by lia. Qed.
Lemma fexp_range a : 0 <= fexp a <= EXP_MASK.
Proof. fmt. rewrite fexp_eq, EXP_MASK_eq. pose proof (uN_range EXP_SIZE (a >> MANT_SIZE)). unfold in_u in *. lia. Qed.

Lemma mag_fields a : mag a = fexp a * 2 ^ MANT_SIZE + fmant a.
Proof.
  fmt. rewrite fexp_eq, fmant_eq. unfold mag.
  rewrite <- lor_disjoint_add by (lia || apply uN_range; lia).
  zbits. by rewrite (Z.testbit_neg_r _ (i - MANT_SIZE)) by lia.
Qed.

Lemma fsig_range a : 0 <= fsig a < 2 ^ (MANT_SIZE + 1).
Proof. fmtp. pose proof (fmant_range a). unfold fsig. destruct (fexp a =? 0); lia. Qed.
Lemma fsig_normal a : fexp a <> 0 -> 2 ^ MANT_SIZE <= fsig a.
Proof. intros. pose proof (fmant_range a). unfold fsig. destruct (Z.eqb_spec (fexp a) 0); lia. Qed.
Lemma fabs_nonneg a : 0 <= fabs a.
Proof.
  pose proof (fsig_range a). unfold fabs. apply Z.mul_nonneg_nonneg; [lia|].
  apply Z.pow_nonneg. lia.
Qed.
Lemma fabs_eq a : fabs a = fsig a * 2 ^ (Z.max (fexp a) 1 - 1).
Proof. done. Qed.

Lemma fsig_0 a : fsig a = 0 <-> fexp a = 0 /\ fmant a = 0.
Proof.
  fmtp. pose proof (fmant_range a). unfold fsig. destruct (Z.eqb_spec (fexp a) 0); lia.
Qed.
Lemma fabs_0 a : fabs a = 0 <-> fsig a = 0.
Proof.
  unfold fabs. assert (0 < 2 ^ (Z.max (fexp a) 1 - 1)) by (apply pow2_pos; lia).
  split; [|intros ->; lia]. intros. nia.
Qed.
Lemma fint_abs a : is_float a -> Z.abs (fint a) = fabs a.
Proof. intros _. pose proof (fabs_nonneg a). unfold fint. destruct (_ =? _); lia. Qed.

(** the magnitude bits order floats as their absolute values *)
Lemma fabs_mag_lt a b : mag a < mag b -> fabs a < fabs b.
Proof.
  rewrite !mag_fields. fmtp. intros H2.
  pose proof (fmant_range a). pose proof (fmant_range b).
  pose proof (fexp_range a) as [Ea _]. pose proof (fexp_range b) as [Eb _].
  pose proof (fsig_range a). unfold fabs.
  destruct (Z.lt_trichotomy (fexp a) (fexp b)) as [Hlt|[Heq|Hgt]]; [| |exfalso; nia].
  - pose proof (fsig_normal b ltac:(lia)).
    assert (0 < 2 ^ (Z.max (fexp b) 1 - 1)) by (apply pow2_pos; lia).
    destruct (Z.eq_dec (fexp a) 0) as [Hz|].
    + assert (fsig a < 2 ^ MANT_SIZE) by (unfold fsig; rewrite Hz; simpl; lia).
      rewrite Hz, Z.mul_1_r. nia.
    + rewrite !Z.max_l in * by lia.
      assert (2 ^ (fexp a) <= 2 ^ (fexp b - 1)) by (apply Z.pow_le_mono_r; lia).
      rewrite (pow2_half (fexp a)) in * by lia.
      assert (0 < 2 ^ (fexp a - 1)) by (apply pow2_pos; lia). nia.
  - assert (fsig a < fsig b) by (unfold fsig; rewrite Heq in H2 |- *;
      destruct (fexp b =? 0); lia).
    rewrite Heq. assert (0 < 2 ^ (Z.max (fexp b) 1 - 1)) by (apply pow2_pos; lia). nia.
Qed.

Lemma fabs_lt_iff a b : mag a < mag b <-> fabs a < fabs b.
Proof.
  split; [apply fabs_mag_lt|]. intros Hf.
  destruct (Z.lt_trichotomy (mag a) (mag b)) as [?|[Heq|Hgt]]; [done| |].
  - exfalso. assert (fexp a = fexp b /\ fmant a = fmant b) as [H1 H2].
    { rewrite !mag_fields in Heq. pose proof (fmant_range a). pose proof (fmant_range b).
      apply (Z.div_mod_unique (2 ^ MANT_SIZE)); lia. }
    unfold fabs, fsig in Hf. rewrite H1, H2 in Hf. lia.
  - apply fabs_mag_lt in Hgt. lia.
Qed.

Lemma fabs_le_iff a b : mag a <= mag b <-> fabs a <= fabs b.
Proof. pose proof (fabs_lt_iff b a). lia. Qed.

Lemma lor_hidden m n : 0 <= n -> 0 <= m < 2 ^ n -> m .| (1 << n) = m + 2 ^ n.
Proof.
  intros Hn Hm. rewrite Z.lor_comm, lor_disjoint_add by done. lia.
Qed.

(** *** The normalised significand of a finite nonzero operand *)
Definition unpack_norm (a : Z) : Z * Z :=
  if fexp a =? 0 then normalize_subnormal_sf (fmant a)
  else (fexp a, fmant a .| (1 << MANT_SIZE)).

Lemma unpack_norm_spec a : fsig a <> 0 ->
  exists k, 0 <= k /\ (unpack_norm a).1 = Z.max (fexp a) 1 - k /\
    (unpack_norm a).2 = fsig a * 2 ^ k /\
    2 ^ MANT_SIZE <= (unpack_norm a).2 < 2 ^ (MANT_SIZE + 1).
Proof.
  intros Hs. pose proof (fmant_range a) as Hm. fmtp. unfold unpack_norm, fsig in *.
  pose proof (fexp_range a).
  destruct (Z.eqb_spec (fexp a) 0) as [Hz|Hz].
  - unfold normalize_subnormal_sf. simpl.
    assert (2 ^ MANT_SIZE < 2 ^ F_SIZE) by (apply Z.pow_lt_mono_r; lia).
    rewrite clz_spec by (unfold in_u; lia).
    assert (0 < fmant a) as Hpos by lia. pose proof (Z.log2_spec _ Hpos) as HL. pose proof (Z.log2_nonneg (fmant a)).
    assert (Z.log2 (fmant a) < MANT_SIZE) by (apply Z.log2_lt_pow2; lia).
    replace (F_SIZE - 1 - (F_SIZE - 1 - Z.log2 (fmant a))) with (Z.log2 (fmant a)) by lia.
    set (L := Z.log2 (fmant a)) in *. set (k := MANT_SIZE - L).
    assert (0 < 2 ^ k) by (apply pow2_pos; lia).
    assert (2 ^ L * 2 ^ k = 2 ^ MANT_SIZE) as E1 by (rewrite <- Z.pow_add_r by lia; f_equal; lia).
    assert (2 ^ Z.succ L * 2 ^ k = 2 ^ (MANT_SIZE + 1)) as E2
      by (rewrite <- Z.pow_add_r by lia; f_equal; lia).
    assert (2 ^ MANT_SIZE <= fmant a * 2 ^ k < 2 ^ (MANT_SIZE + 1)) as Hb.
    { rewrite <- E1, <- E2. split; [apply Z.mul_le_mono_nonneg_r|apply Z.mul_lt_mono_pos_r]; lia. }
    assert (2 ^ (MANT_SIZE + 1) <= 2 ^ F_SIZE) by (apply Z.pow_le_mono_r; lia).
    exists k. rewrite shiftl_mul, uF_small by (unfold in_u; lia). lia.
  - simpl. rewrite lor_hidden by lia. exists 0. rewrite Z.pow_0_r. lia.
Qed.

(** [round_q] depends on the value [N / D * 2^E] only *)
Lemma round_q_value rm s N D E N' D' E' i j fl :
  0 <= i -> 0 <= j -> 0 < D -> 0 < D' -> 0 <= N -> 0 <= N' ->
  E - i = E' - j -> N * 2 ^ i * D' = N' * 2 ^ j * D ->
  round_q rm s N D E fl = round_q rm s N' D' E' fl.
Proof.
  intros Hi Hj HD HD' HN HN' HE HV.
  assert (0 <= 2 ^ i) by (apply Z.pow_nonneg; lia). assert (0 <= 2 ^ j) by (apply Z.pow_nonneg; lia).
  rewrite <- (round_q_shift rm s N D E i), <- (round_q_shift rm s N' D' E' j), HE by lia.
  rewrite <- (round_q_scale rm s D' (N * 2 ^ i) D), <- (round_q_scale rm s D (N' * 2 ^ j) D') by nia.
  f_equal; lia.
Qed.

Lemma st_lor_tst hi lo : 0 <= lo < 2 ^ F_SIZE ->
  hi .| b2z (tst lo) = st (hi * 2 ^ F_SIZE + lo) (2 ^ F_SIZE).
Proof.
  intros Hlo. fmt. unfold st, tst.
  rewrite Z.div_add_l, Z.div_small, Z.add_0_r by lia.
  rewrite Z.add_comm, Z.mod_add, Z.mod_small by lia. done.
Qed.

Lemma log2_st_ge N D K : 0 < D -> 0 <= K -> D * 2 ^ K <= N -> K <= Z.log2 (st N D).
Proof.
  intros HD HK HN. apply Z.log2_le_pow2.
  - apply st_pos; [done|]. pose proof (pow2_pos K HK). nia.
  - unfold st. assert (2 ^ K <= N / D) by (apply Z.div_le_lower_bound; lia).
    destruct (negb _); simpl b2z; [|by rewrite Z.lor_0_r].
    rewrite lor_1_odd. destruct (Z.odd _); lia.
Qed.

Lemma st_lt N D B : 0 < D -> 0 <= N < D * (2 * B) -> 0 <= st N D < 2 * B.
Proof.
  intros HD HN. split; [apply st_nonneg; lia|].
  destruct (st_spec N D HD) as [[_ Heq]|[_ (j & -> & Hj)]]; nia.
Qed.

(** ** Double-word product *)

Lemma FH_half : 0 < FH_SIZE /\ F_SIZE = FH_SIZE + FH_SIZE.
Proof. destruct fmt_cases as [-> | [-> | -> ] ]; cbv; split; done. Qed.

Lemma mul_u_half_spec a b : in_u F_SIZE a -> in_u F_SIZE b ->
  (mul_u_half a b).1 * 2 ^ F_SIZE + (mul_u_half a b).2 = a * b
  /\ in_u F_SIZE (mul_u_half a b).1 /\ in_u F_SIZE (mul_u_half a b).2.
Proof.
  intros Ha Hb. fmt. pose proof FH_half as [HFH HFF].
  assert (4 <= 2 ^ FH_SIZE) as HH by (apply (Z.pow_le_mono_r 2 2); lia).
  assert (2 ^ F_SIZE = 2 ^ FH_SIZE * 2 ^ FH_SIZE) as HF by (rewrite HFF; apply Z.pow_add_r; lia).
  assert (forall x, in_u F_SIZE x -> uH (x >> FH_SIZE) = x / 2 ^ FH_SIZE
    /\ 0 <= x / 2 ^ FH_SIZE < 2 ^ FH_SIZE /\ uH x = x mod 2 ^ FH_SIZE) as Hhi.
  { unfold in_u. intros x Hx. rewrite shiftr_div by lia.
    assert (0 <= x / 2 ^ FH_SIZE < 2 ^ FH_SIZE)
      by (split; [apply Z.div_pos|apply Z.div_lt_upper_bound]; lia).
    split; [by apply uN_small|done]. }
  destruct (Hhi a Ha) as (Ea & Ba & Ea0). destruct (Hhi b Hb) as (Eb & Bb & Eb0). clear Hhi.
  unfold mul_u_half. rewrite Ea, Eb, Ea0, Eb0. unfold uF, uH.
  assert (0 < 2 ^ FH_SIZE) as Hpos by lia. assert (1 < 2 ^ FH_SIZE) as Hgt by lia.
  pose proof (Z.mod_pos_bound a _ Hpos) as Ba0. pose proof (Z.mod_pos_bound b _ Hpos) as Bb0.
  pose proof (half_mul _ (a mod 2 ^ FH_SIZE) (a / 2 ^ FH_SIZE)
    (b mod 2 ^ FH_SIZE) (b / 2 ^ FH_SIZE) Hpos) as Hm.
  pose proof (half_mul_bounds _ _ _ _ _ Hgt Ba0 Ba Bb0 Bb) as Hbd.
  cbv zeta in Hm, Hbd.
  replace (a / 2 ^ FH_SIZE * 2 ^ FH_SIZE + a mod 2 ^ FH_SIZE) with a in Hm
    by (rewrite (Z_div_mod_eq_full a (2 ^ FH_SIZE)) at 1; lia).
  replace (b / 2 ^ FH_SIZE * 2 ^ FH_SIZE + b mod 2 ^ FH_SIZE) with b in Hm
    by (rewrite (Z_div_mod_eq_full b (2 ^ FH_SIZE)) at 1; lia).
  set (a0 := a mod 2 ^ FH_SIZE) in *. set (a1 := a / 2 ^ FH_SIZE) in *.
  set (b0 := b mod 2 ^ FH_SIZE) in *. set (b1 := b / 2 ^ FH_SIZE) in *.
  clearbody a0 a1 b0 b1. clear Ea Eb Ea0 Eb0 Ha Hb.
  assert (forall x y, 0 <= x < 2 ^ FH_SIZE -> 0 <= y < 2 ^ FH_SIZE -> uN F_SIZE (x * y) = x * y) as Hw.
  { intros x y Hx Hy. apply uN_small. unfold in_u. rewrite HF. clear - Hx Hy. nia. }
  assert (forall h l, in_u FH_SIZE h -> in_u FH_SIZE l ->
    uN F_SIZE (h << FH_SIZE) .| l = h * 2 ^ FH_SIZE + l
    /\ in_u F_SIZE (h * 2 ^ FH_SIZE + l)) as Hpack.
  { unfold in_u. intros h l Hh Hl. assert (0 <= h * 2 ^ FH_SIZE + l < 2 ^ F_SIZE) by
      (rewrite HF; clear - Hh Hl; nia). split; [|done].
    rewrite <- (lor_disjoint_add h l FH_SIZE) by (done || lia). f_equal.
    apply uN_small. unfold in_u. rewrite shiftl_mul by lia. lia. }
  rewrite !Hw, !shiftr_div by (done || lia).
  repeat change (?x mod 2 ^ FH_SIZE) with (uN FH_SIZE x) in *.
  set (c := a0 * b0 / 2 ^ FH_SIZE + uN FH_SIZE (a0 * b1) + uN FH_SIZE (a1 * b0)) in *.
  assert (4 * 2 ^ FH_SIZE <= 2 ^ F_SIZE) as H4 by (rewrite HF; clear - HH; nia).
  destruct Hbd as (Hc & Hd & Ht).
  rewrite (uN_small F_SIZE c) by (unfold in_u; lia).
  set (d := c / 2 ^ FH_SIZE + a0 * b1 / 2 ^ FH_SIZE + a1 * b0 / 2 ^ FH_SIZE + uN FH_SIZE (a1 * b1)) in *.
  rewrite (uN_small F_SIZE d), (uN_small FH_SIZE (d / _ + _)) by (unfold in_u; lia). simpl.
  destruct (Hpack (d / 2 ^ FH_SIZE + a1 * b1 / 2 ^ FH_SIZE) (uN FH_SIZE d)) as [-> ?];
    [done|by apply uN_range; lia|].
  destruct (Hpack (uN FH_SIZE c) (uN FH_SIZE (a0 * b0))) as [-> ?]; [by apply uN_range; lia..|].
  rewrite HF at 1. done.
Qed.

Lemma mul_u_spec a b : in_u F_SIZE a -> in_u F_SIZE b ->
  (mul_u a b).1 * 2 ^ F_SIZE + (mul_u a b).2 = a * b
  /\ in_u F_SIZE (mul_u a b).1 /\ in_u F_SIZE (mul_u a b).2.
Proof.
  intros Ha Hb. unfold mul_u. destruct (F_SIZE <=? 64); [|by apply mul_u_half_spec].
  fmtp. unfold in_u in Ha, Hb. unfold mul_u_wide. simpl.
  assert (0 <= a * b < 2 ^ F_SIZE * 2 ^ F_SIZE) as Hab by (clear - Ha Hb; nia).
  assert (2 ^ (2 * F_SIZE) = 2 ^ F_SIZE * 2 ^ F_SIZE) as E2
    by (rewrite <- Z.pow_add_r by lia; f_equal; lia).
  rewrite (uN_small (2 * F_SIZE)) by (unfold in_u; rewrite E2; done).
  rewrite shiftr_div by lia. unfold uF. rewrite (uN_small F_SIZE (a * b / _)).
  - split; [|split; [|apply uN_range; lia] ].
    + unfold uN. rewrite (Z_div_mod_eq_full (a * b) (2 ^ F_SIZE)) at 3. lia.
    + split; [apply Z.div_pos; lia|apply Z.div_lt_upper_bound; lia].
  - split; [apply Z.div_pos; lia|apply Z.div_lt_upper_bound; lia].
Qed.

(** ** Normalised significands in the working width *)

Lemma norm_shift m : 2 ^ MANT_SIZE <= m < 2 ^ (MANT_SIZE + 1) ->
  uF (m << RND_SIZE) = m * 2 ^ RND_SIZE /\ uF (m << (RND_SIZE + 1)) = 2 * (m * 2 ^ RND_SIZE) /\
  2 ^ (F_SIZE - 2) <= m * 2 ^ RND_SIZE < 2 ^ (F_SIZE - 1).
Proof.
  intros Hm. fmtp. rewrite !shiftl_mul by lia.
  assert (2 ^ (RND_SIZE + 1) = 2 * 2 ^ RND_SIZE) as -> by (apply pow2_succ; lia).
  assert (2 ^ (F_SIZE - 2) <= m * 2 ^ RND_SIZE < 2 ^ (F_SIZE - 1)) as Hb.
  { rewrite HpF1', HpF2. split; [apply Z.mul_le_mono_nonneg_r|apply Z.mul_lt_mono_pos_r]; lia. }
  rewrite (Z.mul_comm 2 (2 ^ RND_SIZE)), Z.mul_assoc, (Z.mul_comm _ 2).
  set (x := m * 2 ^ RND_SIZE) in *. rewrite !uF_small by (unfold in_u; lia). done.
Qed.

Lemma norm_in_u x : 2 ^ (F_SIZE - 2) <= x < 2 ^ (F_SIZE - 1) -> in_u F_SIZE x /\ in_u F_SIZE (2 * x).
Proof. fmtp. unfold in_u. lia. Qed.

Lemma F_pos : 0 < 2 ^ F_SIZE.
Proof. fmt. apply pow2_pos. lia. Qed.

(** the double-word product of two significands, the second doubled *)
Lemma prod_bounds A B : 2 ^ (F_SIZE - 2) <= A < 2 ^ (F_SIZE - 1) -> 2 ^ (F_SIZE - 2) <= B < 2 ^ (F_SIZE - 1) ->
  0 <= A * (2 * B) /\ 0 <= st (A * (2 * B)) (2 ^ F_SIZE) < 2 ^ (F_SIZE - 1) /\
  MANT_SIZE + 2 <= Z.log2 (st (A * (2 * B)) (2 ^ F_SIZE)).
Proof.
  fmtp. rewrite HpF1. assert (2 ^ (F_SIZE - 2) = 2 * 2 ^ (F_SIZE - 3)) as E3.
  { rewrite (pow2_half (F_SIZE - 2)) by lia. do 2 f_equal. lia. }
  assert (0 < 2 ^ (F_SIZE - 3)) by (apply pow2_pos; lia).
  rewrite HpF, HpF1, E3. remember (2 ^ (F_SIZE - 3)) as T eqn:ET. intros HA HB.
  assert (2 * T * (2 * T) <= A * B < 2 * (2 * T) * (2 * (2 * T))) as HAB
    by (clear - HA HB; nia).
  split; [lia|]. split; [apply st_lt; lia|].
  enough (F_SIZE - 3 <= Z.log2 (st (A * (2 * B)) (2 * (2 * (2 * T))))) by lia.
  apply log2_st_ge; [lia..|]. rewrite <- ET. lia.
Qed.

(** ** Multiplication *)

(** sign of a product or quotient *)
Definition xor_sign (a b : Z) : Z := fsign a .^ fsign b.

Lemma xor_sign_cases a b : is_float a -> is_float b -> xor_sign a b = 0 \/ xor_sign a b = 1.
Proof.
  intros Ha Hb. unfold xor_sign.
  destruct (fsign_cases a Ha) as [-> | ->], (fsign_cases b Hb) as [-> | ->]; auto.
Qed.

Lemma round_q_0 rm s D E fl : round_q rm s 0 D E fl = (pack_sf s 0 0, fl).
Proof. done. Qed.

Lemma zero_test a : (fexp a =? 0) && (fmant a =? 0) = (fsig a =? 0).
Proof.
  pose proof (fsig_0 a). destruct (Z.eqb_spec (fexp a) 0), (Z.eqb_spec (fmant a) 0),
    (Z.eqb_spec (fsig a) 0); simpl; tauto.
Qed.

Lemma mul_sf_round a b rm fl : finite a -> finite b ->
  mul_sf a b rm fl = round_q rm (xor_sign a b) (fabs a * fabs b) 1 (2 * qmin) fl.
Proof.
  intros [Ha Hea] [Hb Heb]. pose proof (xor_sign_cases a b Ha Hb) as Hs.
  unfold mul_sf. fold (fexp a) (fexp b) (fmant a) (fmant b) (fsign a) (fsign b) (xor_sign a b).
  destruct (Z.eqb_spec (fexp a) EXP_MASK); [done|]. destruct (Z.eqb_spec (fexp b) EXP_MASK); [done|].
  simpl orb. cbv iota. rewrite !zero_test.
  fold (unpack_norm a) (unpack_norm b). rewrite (fabs_eq a), (fabs_eq b).
  destruct (Z.eqb_spec (fsig a) 0) as [->|Hza]; [by rewrite !Z.mul_0_l|].
  destruct (Z.eqb_spec (fsig b) 0) as [->|Hzb].
  { destruct (unpack_norm a). by rewrite Z.mul_0_l, Z.mul_0_r. }
  destruct (unpack_norm_spec a Hza) as (ka & Hka & E1 & E2 & B).
  destruct (unpack_norm_spec b Hzb) as (kb & Hkb & E1b & E2b & Bb).
  destruct (unpack_norm a) as [ea ma], (unpack_norm b) as [eb mb]. simpl in *.
  destruct (norm_shift ma B) as (-> & _ & BA). destruct (norm_shift mb Bb) as (_ & -> & BB).
  pose proof (mul_u_spec (ma * 2 ^ RND_SIZE) (2 * (mb * 2 ^ RND_SIZE))) as Hmul.
  destruct (mul_u _ _) as [hi lo]. simpl in Hmul.
  destruct Hmul as (Hmul & Hhi & Hlo); [by apply norm_in_u..|].
  rewrite st_lor_tst, Hmul by done.
  destruct (prod_bounds _ _ BA BB) as (HP0 & HP1 & HP2).
  rewrite normalize_sf_round by done. rewrite <- round_q_st by (exact F_pos || auto).
  unfold scale, qmin, emin. clear - Hok HP0 E1 E1b E2 E2b Hka Hkb. fmt.
  unfold fabs. remember (Z.max (fexp a) 1 - 1) as ya eqn:Eya. remember (Z.max (fexp b) 1 - 1) as yb eqn:Eyb.
  assert (0 <= ya /\ 0 <= yb) as [Hya Hyb] by lia.
  apply (round_q_value _ _ _ _ _ _ _ _ (ya + yb + 3 + MANT_SIZE + MANT_SIZE) (ka + kb + F_SIZE)).
  - lia.
  - lia.
  - exact F_pos.
  - lia.
  - done.
  - subst. apply Z.mul_nonneg_nonneg; apply fabs_nonneg.
  - rewrite shiftl_mul by lia. unfold bias. rewrite E1, E1b. lia.
  - rewrite E2, E2b. replace F_SIZE with (2 + RND_SIZE + MANT_SIZE) by lia.
    pow2_ring.
Qed.

(** ** Addition and subtraction *)

(** the sign of a sum: of the exact sum when it is not zero *)
Definition add_sign (rm : RoundingModeEnum) (a b : Z) : Z :=
  let S := fint a + fint b in
  if S =? 0 then if fsign a =? fsign b then fsign a else b2z (bool_decide (rm = RM_RDN))
  else b2z (S <? 0).

Lemma add_sticky D sa sb sg : 0 < D -> sg = 1 \/ sg = -1 ->
  st (sa * 8 * D + sg * (sb * 8)) D = sa * 8 + sg * st (sb * 8) D.
Proof.
  intros HD Hsg. replace (sa * 8 * D) with (D * (2 * (4 * sa))) by ring.
  rewrite st_add_even by done. destruct Hsg as [-> | ->].
  - rewrite !Z.mul_1_l. lia.
  - replace (-1 * (sb * 8)) with (- (sb * 8)) by lia. rewrite st_opp by done. lia.
Qed.

(** either nothing was shifted out or the sum keeps two spare bits *)
Lemma add_room d sa sb sg : 0 <= d -> sg = 1 \/ sg = -1 ->
  0 <= sb < 2 ^ (MANT_SIZE + 1) -> (4 <= d -> 2 ^ MANT_SIZE <= sa) ->
  let N := sa * 8 * 2 ^ d + sg * (sb * 8) in
  N mod 2 ^ d = 0 \/ MANT_SIZE + 2 <= Z.log2 (st N (2 ^ d)).
Proof.
  intros Hd Hsg Hsb Hn N. pose proof (pow2_pos d Hd). fmt.
  destruct (Z.le_gt_cases d 3).
  - left. apply Z.mod_divide; [lia|]. exists (sa * 8 + sg * sb * 2 ^ (3 - d)).
    unfold N. change 8 with (2 ^ 3). rewrite (pow2_split 3 d) by lia. ring.
  - right. apply log2_st_ge; [done|lia|]. specialize (Hn ltac:(lia)).
    rewrite (Z.add_comm MANT_SIZE 2), Z.pow_add_r by lia. change (2 ^ 2) with 4.
    rewrite pow2_succ in Hsb by lia.
    assert (4 <= 2 ^ d) by (apply (Z.pow_le_mono_r 2 2); lia).
    assert (0 < 2 ^ MANT_SIZE) by (apply pow2_pos; lia).
    assert (2 ^ MANT_SIZE * 2 ^ d <= sa * 2 ^ d) by (apply Z.mul_le_mono_nonneg_r; lia).
    assert (2 ^ MANT_SIZE * 4 <= 2 ^ MANT_SIZE * 2 ^ d) by (apply Z.mul_le_mono_nonneg_l; lia).
    unfold N. destruct Hsg as [-> | ->]; lia.
Qed.

Lemma add_range D sa sb sg : 0 < D -> sg = 1 \/ sg = -1 ->
  0 <= sa < 2 ^ (MANT_SIZE + 1) -> 0 <= sb < 2 ^ (MANT_SIZE + 1) -> sb <= sa * D ->
  0 <= sa * 8 + sg * st (sb * 8) D < 2 ^ (F_SIZE - 1).
Proof.
  intros HD Hsg Hsa Hsb Hle.
  assert (2 ^ (MANT_SIZE + 1) * 32 <= 2 ^ (F_SIZE - 1)) as Hroom.
  { fmt. change 32 with (2 ^ 5). rewrite <- Z.pow_add_r by lia. apply Z.pow_le_mono_r; lia. }
  assert (0 <= st (sb * 8) D <= sb * 8 + 1).
  { split; [apply st_nonneg; lia|].
    destruct (st_spec (sb * 8) D HD) as [[_ He]|[_ (j & -> & Hj)]]; nia. }
  split; [|destruct Hsg as [-> | ->]; lia].
  destruct Hsg as [-> | ->]; [lia|].
  assert (0 <= st (sa * 8 * D + -1 * (sb * 8)) D) as H0 by (apply st_nonneg; lia).
  rewrite add_sticky in H0 by auto. lia.
Qed.

(** the body of [add_sf] for finite operands ordered by magnitude *)
Lemma add_core rm xa xb sa sb fl (same : bool) s :
  s = 0 \/ s = 1 -> 1 <= xb <= xa -> 0 <= sa < 2 ^ (MANT_SIZE + 1) -> 0 <= sb < 2 ^ (MANT_SIZE + 1) ->
  (2 <= xa -> 2 ^ MANT_SIZE <= sa) -> sb * 2 ^ (xb - 1) <= sa * 2 ^ (xa - 1) ->
  let bm := rshift_rnd (sb * 8) (xa - xb) in
  let m := if same then uF (sa * 8 + bm) else uF (sa * 8 - bm) in
  m = sa * 8 + (if same then 1 else -1) * st (sb * 8) (2 ^ (xa - xb)) /\
  normalize_sf s (xa + (RND_SIZE - 3)) m rm fl =
  round_q rm s (sa * 2 ^ (xa - 1) + (if same then 1 else -1) * (sb * 2 ^ (xb - 1))) 1 qmin fl.
Proof.
  intros Hs Hx Hsa Hsb Hn Hle. cbv zeta. rewrite rshift_rnd_st.
  2:{ fmt. unfold in_u. assert (2 ^ (MANT_SIZE + 1) * 8 <= 2 ^ F_SIZE); [|lia].
      change 8 with (2 ^ 3). rewrite <- Z.pow_add_r by lia. apply Z.pow_le_mono_r; lia. }
  2: lia.
  set (sg := if same then 1 else -1).
  assert (sg = 1 \/ sg = -1) as Hsg by (unfold sg; destruct same; auto).
  remember (xa - xb) as d eqn:Ed.
  assert (sb <= sa * 2 ^ d) as Hle'.
  { apply (Z.mul_le_mono_pos_r _ _ (2 ^ (xb - 1))); [apply pow2_pos; lia|].
    rewrite <- Z.mul_assoc, <- Z.pow_add_r by lia. by replace (d + (xb - 1)) with (xa - 1) by lia. }
  pose proof (pow2_pos d ltac:(lia)) as HD.
  pose proof (add_range _ _ _ _ HD Hsg Hsa Hsb Hle') as HR.
  assert (in_u F_SIZE (sa * 8 + sg * st (sb * 8) (2 ^ d))) as HF by (unfold in_u; clear - HR Hok; fmtp; lia).
  assert ((if same then uF (sa * 8 + st (sb * 8) (2 ^ d)) else uF (sa * 8 - st (sb * 8) (2 ^ d)))
    = sa * 8 + sg * st (sb * 8) (2 ^ d)) as ->.
  { destruct same; simpl in sg; subst sg; rewrite <- uF_small by done; f_equal; lia. }
  split; [done|]. rewrite normalize_sf_round by done. rewrite <- add_sticky by done.
  assert (0 <= sa * 8 * 2 ^ d + sg * (sb * 8)) as HN by (clear - Hsg Hle' Hsa Hsb HD; destruct Hsg as [-> | ->]; nia).
  rewrite <- round_q_st; [|done|done|].
  2:{ apply add_room; [lia|done|done|]. intros. apply Hn. lia. }
  apply (round_q_value _ _ _ _ _ _ _ _ (xb - 1 + d) 3); [lia|lia|lia|lia|done| | | ].
  - clear - Hsg Hle Hsb Hx. assert (0 <= sb * 2 ^ (xb - 1)) by
      (apply Z.mul_nonneg_nonneg; [lia|apply Z.pow_nonneg; lia]). destruct Hsg as [-> | ->]; lia.
  - clear - Hok Ed. fmt. unfold scale, qmin, emin. lia.
  - replace (xa - 1) with (d + (xb - 1)) by lia.
    clear - Hx HD Ed. remember (xb - 1) as y. pow2_ring.
Qed.

(** the aligned difference vanishes only when the operands are equal *)
Lemma add_cancel xa xb sa sb : 1 <= xb <= xa ->
  sa * 8 + -1 * st (sb * 8) (2 ^ (xa - xb)) = 0 <-> sa * 2 ^ (xa - 1) = sb * 2 ^ (xb - 1).
Proof.
  intros Hx. pose proof (pow2_pos (xa - xb) ltac:(lia)) as HD.
  pose proof (pow2_pos (xb - 1) ltac:(lia)) as HY.
  replace (xa - 1) with ((xa - xb) + (xb - 1)) by lia. rewrite Z.pow_add_r, Z.mul_assoc by lia.
  rewrite Z.mul_cancel_r by lia. split.
  - intros He. destruct (st_spec (sb * 8) _ HD) as [[_ H]|[_ (j & Hj & _)]]; [|lia].
    replace (st (sb * 8) (2 ^ (xa - xb))) with (sa * 8) in H by lia. lia.
  - intros <-. replace (sa * 2 ^ (xa - xb) * 8) with (2 ^ (xa - xb) * (sa * 8)) by ring.
    rewrite (st_unique _ _ (sa * 8)); [lia|done|by left].
Qed.

Lemma add_sf_body a b rm fl : finite a -> finite b -> mag b <= mag a ->
  let xa := Z.max (fexp a) 1 in let xb := Z.max (fexp b) 1 in
  let bm := rshift_rnd (fsig b * 8) (xa - xb) in
  let '(s, m) :=
    if fsign a =? fsign b then (fsign a, uF (fsig a * 8 + bm))
    else let m := uF (fsig a * 8 - bm) in
         (if m =? 0 then b2z (bool_decide (rm = RM_RDN)) else fsign a, m) in
  normalize_sf s (xa + (RND_SIZE - 3)) m rm fl =
  round_q rm (add_sign rm a b) (Z.abs (fint a + fint b)) 1 qmin fl.
Proof.
  intros [Ha Hea] [Hb Heb] Hle. cbv zeta.
  pose proof (fsign_cases a Ha) as Hsa. pose proof (fsign_cases b Hb) as Hsb.
  pose proof Hle as Hle'. apply fabs_le_iff in Hle'. pose proof (fabs_nonneg b) as Hb0.
  assert (Z.max (fexp b) 1 <= Z.max (fexp a) 1) as Hx.
  { pose proof (mag_fields a). pose proof (mag_fields b). pose proof (fmant_range a).
    pose proof (fmant_range b). destruct (Z.le_gt_cases (fexp b) (fexp a)); [lia|nia]. }
  pose proof (add_core rm (Z.max (fexp a) 1) (Z.max (fexp b) 1) (fsig a) (fsig b) fl) as Hc.
  cbv zeta in Hc. rewrite <- !fabs_eq in Hc.
  assert (2 <= Z.max (fexp a) 1 -> 2 ^ MANT_SIZE <= fsig a) as Hn
    by (intros; apply fsig_normal; lia).
  unfold add_sign, fint.
  destruct (Z.eqb_spec (fsign a) (fsign b)) as [He|He].
  - destruct (Hc true (fsign a) Hsa ltac:(lia) (fsig_range a) (fsig_range b) Hn Hle') as [_ ->].
    rewrite He in *. destruct Hsb as [E|E]; rewrite E; simpl; repeat zbits_case; f_equal; simpl b2z; try lia.
  - destruct (Hc false (fsign a) Hsa ltac:(lia) (fsig_range a) (fsig_range b) Hn Hle') as [Em _].
    cbv iota in Em.
    set (m := uF (fsig a * 8 - _)) in *.
    set (s := if m =? 0 then _ else _).
    assert (s = 0 \/ s = 1) as Hs.
    { unfold s. destruct (m =? 0); [|done]. destruct (bool_decide _); auto. }
    destruct (Hc false s Hs ltac:(lia) (fsig_range a) (fsig_range b) Hn Hle') as [_ ->].
    assert (1 <= Z.max (fexp b) 1 <= Z.max (fexp a) 1) as Hx' by lia.
    pose proof (add_cancel _ _ (fsig a) (fsig b) Hx') as Hcan.
    rewrite <- Em, <- !fabs_eq in Hcan.
    assert (s = if fabs a =? fabs b then b2z (bool_decide (rm = RM_RDN)) else fsign a) as ->.
    { unfold s. destruct (Z.eqb_spec m 0), (Z.eqb_spec (fabs a) (fabs b)); tauto. }
    clear - Hsa Hsb Hle' Hb0 He.
    destruct Hsa as [Ea|Ea], Hsb as [Eb|Eb]; rewrite Ea, Eb in *; simpl; try done;
      repeat zbits_case; f_equal; simpl b2z; try lia.
Qed.

Lemma mag_land a : a .& ~~ SIGN_MASK = mag a \/ ~ is_float a.
Proof.
  destruct (decide (is_float a)) as [Ha|]; [left|by right].
  fmt. unfold is_float in Ha. rewrite <- (uN_small F_SIZE a) at 1 by done.
  rewrite SIGN_MASK_eq. unfold mag. zbits.
Qed.

Lemma hidden8 a : (if fexp a =? 0 then (1, uF (fmant a << 3))
  else (fexp a, uF (fmant a << 3) .| (1 << (MANT_SIZE + 3)))) = (Z.max (fexp a) 1, fsig a * 8).
Proof.
  pose proof (fmant_range a). pose proof (fexp_range a).
  assert (uF (fmant a << 3) = fmant a * 8) as ->.
  { fmt. rewrite shiftl_mul by lia. apply uF_small. unfold in_u.
    assert (2 ^ MANT_SIZE * 2 ^ 3 <= 2 ^ F_SIZE); [|lia].
    rewrite <- Z.pow_add_r by lia. apply Z.pow_le_mono_r; lia. }
  unfold fsig. destruct (Z.eqb_spec (fexp a) 0) as [->|]; [done|].
  fmt. rewrite lor_hidden; [|lia|].
  - f_equal; [lia|]. rewrite Z.pow_add_r by lia. lia.
  - rewrite Z.pow_add_r by lia. lia.
Qed.

Lemma add_sign_comm rm a b : add_sign rm a b = add_sign rm b a \/ ~ finite a \/ ~ finite b.
Proof.
  left. unfold add_sign. rewrite (Z.add_comm (fint b)), (Z.eqb_sym (fsign b)).
  destruct (Z.eqb_spec (fsign a) (fsign b)) as [->|]; done.
Qed.

Lemma add_sf_round a b rm fl : finite a -> finite b ->
  add_sf a b rm fl = round_q rm (add_sign rm a b) (Z.abs (fint a + fint b)) 1 qmin fl.
Proof.
  assert (forall a b, finite a -> finite b -> mag b <= mag a ->
    (let a_sign := a >> (F_SIZE - 1) in
     let b_sign := b >> (F_SIZE - 1) in
     let '(a_exp, a_mant) := (Z.max (fexp a) 1, fsig a * 8) in
     let '(b_exp, b_mant) := (Z.max (fexp b) 1, fsig b * 8) in
     let b_mant := rshift_rnd b_mant (a_exp - b_exp) in
     let '(a_sign, a_mant) :=
      if a_sign =? b_sign then (a_sign, uF (a_mant + b_mant))
      else
        let a_mant := uF (a_mant - b_mant) in
        (if a_mant =? 0 then b2z (bool_decide (rm = RM_RDN)) else a_sign, a_mant) in
     normalize_sf a_sign (a_exp + (RND_SIZE - 3)) a_mant rm fl) =
    round_q rm (add_sign rm a b) (Z.abs (fint a + fint b)) 1 qmin fl) as Hbody.
  { intros x y Hx Hy Hm. pose proof (add_sf_body x y rm fl Hx Hy Hm) as H.
    cbv zeta in *. fold (fsign x) (fsign y). destruct (fsign x =? fsign y); exact H. }
  intros Ha Hb. unfold add_sf.
  destruct (mag_land a) as [-> | ?]; [|by destruct Ha].
  destruct (mag_land b) as [-> | ?]; [|by destruct Hb].
  destruct (Z.ltb_spec (mag a) (mag b));
    [rewrite (Z.add_comm (fint a)); destruct (add_sign_comm rm a b) as [->|[?|?] ]; [|done|done];
     rewrite <- (Hbody b a) by (done || lia); destruct Hb as [_ Hb]
    |rewrite <- (Hbody a b) by (done || lia); destruct Ha as [_ Ha] ];
    cbv zeta; fold (fexp a) (fexp b) (fmant a) (fmant b);
    apply Z.eqb_neq in Hb || apply Z.eqb_neq in Ha; rewrite ?Hb, ?Ha; by rewrite !hidden8.
Qed.

Lemma fsign_xor b : is_float b ->
  is_float (b .^ SIGN_MASK) /\ mag (b .^ SIGN_MASK) = mag b
  /\ fsign (b .^ SIGN_MASK) = 1 - fsign b.
Proof.
  intros Hb. rewrite SIGN_MASK_eq. fmtp. split; [|split].
  - apply lxor_in_u; [lia|done|]. unfold in_u. lia.
  - unfold mag. zbits. by rewrite xorb_false_r.
  - unfold fsign. rewrite Z.shiftr_lxor. rewrite (shiftr_div (F_SIZE - 1) (2 ^ _)), Z.div_same by lia.
    fold (fsign b). by destruct (fsign_cases b Hb) as [-> | ->].
Qed.

Lemma fields_mag a b : mag a = mag b -> fexp a = fexp b /\ fmant a = fmant b.
Proof.
  rewrite !mag_fields. pose proof (fmant_range a). pose proof (fmant_range b). intros Heq.
  apply (Z.div_mod_unique (2 ^ MANT_SIZE)); lia.
Qed.

Lemma finite_neg b : finite b -> finite (b .^ SIGN_MASK) /\ fint (b .^ SIGN_MASK) = - fint b.
Proof.
  intros [Hb He]. destruct (fsign_xor b Hb) as (Hf & Hm & Hs).
  apply fields_mag in Hm as [Hm1 Hm2]. split; [split; congruence|].
  unfold fint, fabs, fsig. rewrite Hs, Hm1, Hm2.
  destruct (fsign_cases b Hb) as [-> | ->]; simpl; lia.
Qed.

(** ** Double-word division *)

(** after [i] turns: [Q] quotient bits are in, [c] dividend bits are left *)
Definition divrem_inv (a1 a0 b : Z) (i : nat) (x : Z * Z) : Prop :=
  let I := Z.of_nat i in
  exists Q c, 0 <= Q < 2 ^ I /\ 0 <= c /\ x.2 = c * 2 ^ I + Q /\ in_u F_SIZE x.2 /\ 0 <= x.1 < b /\
    (a1 * 2 ^ F_SIZE + a0) * 2 ^ I = Q * b * 2 ^ F_SIZE + x.1 * 2 ^ F_SIZE + c * 2 ^ I.

Lemma divrem_step_inv a1 a0 b i x : 0 < b < 2 ^ F_SIZE -> Z.of_nat i < F_SIZE ->
  divrem_inv a1 a0 b i x -> divrem_inv a1 a0 b (S i) (divrem_step b x).
Proof.
  intros Hb Hi (Q & c & HQ & Hc & Hx0 & Hr0 & Hx1 & HA). destruct x as [x1 x0]. simpl in *.
  assert (1 <= F_SIZE) as HF1 by (fmt; lia).
  destruct (top_bit F_SIZE x0 HF1 Hr0) as (t & x0' & Ht & Hx0' & E0 & -> & Es0).
  assert (in_u F_SIZE x1) as Hr1 by (unfold in_u; lia).
  destruct (top_bit F_SIZE x1 HF1 Hr1) as (t1 & x1' & Ht1 & Hx1' & E1 & -> & Es1).
  unfold divrem_step, divrem_inv, uF. rewrite Es0, Es1.
  assert (2 ^ F_SIZE = 2 * 2 ^ (F_SIZE - 1)) as HpF by (apply pow2_half; lia).
  assert (forall z, (z = 0 \/ z = 1) -> forall y, 2 * y .| z = 2 * y + z) as Hlor.
  { intros z Hz y. replace (2 * y) with (y << 1) by (rewrite shiftl_mul by lia; lia).
    rewrite lor_disjoint_add by (unfold in_u; lia). rewrite shiftl_mul by lia. lia. }
  rewrite Hlor by done.
  replace (Z.of_nat (S i)) with (Z.of_nat i + 1) by lia. rewrite (pow2_succ (Z.of_nat i)) by lia.
  set (I := Z.of_nat i) in *.
  assert (2 ^ (F_SIZE - 1) = 2 ^ (F_SIZE - 1 - I) * 2 ^ I) as HpI
    by (rewrite <- Z.pow_add_r by lia; f_equal; lia).
  assert (0 < 2 ^ I) by (apply pow2_pos; lia).
  assert (0 < 2 ^ (F_SIZE - 1 - I)) by (apply pow2_pos; lia).
  assert (x0' = (c - t * 2 ^ (F_SIZE - 1 - I)) * 2 ^ I + Q) as E0' by (rewrite HpI in E0; lia).
  assert (0 <= c - t * 2 ^ (F_SIZE - 1 - I)) as Hc'.
  { apply Z.lt_succ_r. apply (Z.mul_lt_mono_pos_r (2 ^ I)); lia. }
  (* the shifted partial remainder, and whether the divisor goes into it *)
  set (y := 2 * x1' + t).
  assert (exists qb, (if tst t1 || (b <=? y) then (uN F_SIZE (y - b), 1) else (y, 0))
      = (2 * x1 + t - qb * b, qb) /\ (qb = 0 \/ qb = 1) /\ 0 <= 2 * x1 + t - qb * b < b) as (qb & -> & Hqb & Hr).
  { unfold tst. destruct Ht1 as [-> | ->]; simpl; [destruct (Z.leb_spec b y)|]; subst y.
    - exists 1. rewrite uN_small by (unfold in_u; lia). split; [f_equal; lia|lia].
    - exists 0. split; [f_equal; lia|lia].
    - exists 1. split; [|lia]. f_equal.
      rewrite <- (uN_small F_SIZE (2 * x1 + t - 1 * b)) by (unfold in_u; lia).
      unfold uN. rewrite E1. replace (2 * (1 * 2 ^ (F_SIZE - 1) + x1') + t - 1 * b) with (2 * x1' + t - b + 1 * 2 ^ F_SIZE) by lia.
      by rewrite Z.mod_add by lia. }
  rewrite Hlor by done. simpl.
  exists (2 * Q + qb), (c - t * 2 ^ (F_SIZE - 1 - I)).
  split; [lia|]. split; [done|]. split; [lia|]. split; [unfold in_u; lia|]. split; [done|].
  rewrite HpF, HpI in HA |- *. lia.
Qed.

Lemma divrem_u_spec ah al b : in_u F_SIZE al -> 0 <= ah < b -> b < 2 ^ F_SIZE ->
  divrem_u ah al b = ((ah * 2 ^ F_SIZE + al) mod b, (ah * 2 ^ F_SIZE + al) / b).
Proof.
  intros Hal Hah Hb. pose proof F_pos as HF. unfold in_u in Hal.
  assert (0 <= ah * 2 ^ F_SIZE /\ (ah + 1) * 2 ^ F_SIZE <= b * 2 ^ F_SIZE) as [Hp1 Hp2]
    by (split; [apply Z.mul_nonneg_nonneg|apply Z.mul_le_mono_nonneg_r]; lia).
  assert (0 <= (ah * 2 ^ F_SIZE + al) / b < 2 ^ F_SIZE) as Hq.
  { split; [apply Z.div_pos; lia|apply Z.div_lt_upper_bound; lia]. }
  unfold divrem_u. destruct (F_SIZE <=? 64).
  - unfold divrem_u_wide, uF. assert (0 <= F_SIZE) by (fmt; lia).
    assert (2 ^ (2 * F_SIZE) = 2 ^ F_SIZE * 2 ^ F_SIZE) as E2
      by (rewrite <- Z.pow_add_r by lia; f_equal; lia).
    assert (uN (2 * F_SIZE) (ah << F_SIZE) .| al = ah * 2 ^ F_SIZE + al) as ->.
    { rewrite <- (lor_disjoint_add ah al F_SIZE) by done. f_equal. apply uN_small.
      unfold in_u. rewrite shiftl_mul, E2 by done. split; [lia|].
      apply Z.mul_lt_mono_pos_r; lia. }
    pose proof (Z.mod_pos_bound (ah * 2 ^ F_SIZE + al) b ltac:(lia)).
    rewrite !uN_small by (unfold in_u; lia). done.
  - unfold divrem_u_bits.
    assert (forall n, Z.of_nat n <= F_SIZE ->
      divrem_inv ah al b n (Nat.iter n (divrem_step b) (ah, al))) as Hi.
    { induction n as [|n IH]; intros Hn.
      - exists 0, al. simpl. rewrite Z.pow_0_r. unfold in_u. lia.
      - apply divrem_step_inv; [lia|lia|]. apply IH. lia. }
    destruct (Hi (Z.to_nat F_SIZE)) as (Q & c & HQ & Hc & Hx0 & Hr0 & Hx1 & HA); [fmt; lia|].
    destruct (Nat.iter _ _ _) as [x1 x0]. simpl in *.
    rewrite Z2Nat.id in * by (fmt; lia). unfold in_u in Hr0.
    assert (c = 0) as -> by nia. rewrite Z.mul_0_l, Z.add_0_r in HA. rewrite Z.mul_0_l in Hx0.
    assert (ah * 2 ^ F_SIZE + al = b * Q + x1) as Heq by nia.
    f_equal; [apply Z.mod_unique with Q; lia|].
    rewrite Hx0, Z.add_0_l. apply Z.div_unique with x1; lia.
Qed.

(** ** Division *)

(** the quotient of two significands, the dividend shifted by a word *)
Lemma quot_bounds ma mb : 2 ^ MANT_SIZE <= ma < 2 ^ (MANT_SIZE + 1) -> 2 ^ MANT_SIZE <= mb < 2 ^ (MANT_SIZE + 1) ->
  0 <= ma * 2 ^ F_SIZE /\ 0 <= st (ma * 2 ^ F_SIZE) (4 * mb) < 2 ^ (F_SIZE - 1) /\
  MANT_SIZE + 2 <= Z.log2 (st (ma * 2 ^ F_SIZE) (4 * mb)).
Proof.
  intros Ha Hb.
  assert (0 < 2 ^ MANT_SIZE) as HM by (fmt; apply pow2_pos; lia).
  rewrite pow2_succ in Ha, Hb by (fmt; lia).
  assert (2 ^ F_SIZE = 8 * 2 ^ (F_SIZE - 3) /\ 2 ^ (F_SIZE - 1) = 4 * 2 ^ (F_SIZE - 3)
    /\ 0 < 2 ^ (F_SIZE - 3) /\ MANT_SIZE + 2 <= F_SIZE - 3) as (E0 & E1 & HT & HF).
  { fmt. change 8 with (2 ^ 3). change 4 with (2 ^ 2). rewrite <- !Z.pow_add_r by lia.
    split; [f_equal; lia|]. split; [f_equal; lia|]. split; [apply pow2_pos; lia|lia]. }
  rewrite E0, E1. assert (0 <= F_SIZE - 3) by (fmt; lia).
  enough (4 * mb * 2 ^ (F_SIZE - 3) <= ma * (8 * 2 ^ (F_SIZE - 3)) < 4 * mb * (4 * 2 ^ (F_SIZE - 3))) as Hb'.
  { split; [apply Z.mul_nonneg_nonneg; lia|]. split.
    - replace (4 * 2 ^ (F_SIZE - 3)) with (2 * (2 * 2 ^ (F_SIZE - 3))) in * by lia.
      apply st_lt; [lia|]. split; [apply Z.mul_nonneg_nonneg; lia|lia].
    - etransitivity; [exact HF|]. apply log2_st_ge; lia. }
  remember (2 ^ (F_SIZE - 3)) as T. clear HeqT. nia.
Qed.

Lemma div_sf_round a b rm fl : finite a -> finite b -> fint b <> 0 ->
  div_sf a b rm fl = round_q rm (xor_sign a b) (fabs a) (fabs b) 0 fl.
Proof.
  intros [Ha Hea] [Hb Heb] Hb0. pose proof (xor_sign_cases a b Ha Hb) as Hs.
  assert (fsig b <> 0) as Hzb.
  { rewrite <- fabs_0. unfold fint in Hb0. destruct (_ =? _); lia. }
  unfold div_sf. fold (fexp a) (fexp b) (fmant a) (fmant b) (fsign a) (fsign b) (xor_sign a b).
  destruct (Z.eqb_spec (fexp a) EXP_MASK); [done|]. destruct (Z.eqb_spec (fexp b) EXP_MASK); [done|].
  rewrite !zero_test. destruct (Z.eqb_spec (fsig b) 0); [done|].
  fold (unpack_norm a) (unpack_norm b).
  destruct (Z.eqb_spec (fsig a) 0) as [Hz|Hza].
  { destruct (unpack_norm b). apply fabs_0 in Hz. by rewrite Hz. }
  destruct (unpack_norm_spec a Hza) as (ka & Hka & E1 & E2 & B).
  destruct (unpack_norm_spec b Hzb) as (kb & Hkb & E1b & E2b & Bb).
  destruct (unpack_norm a) as [ea ma], (unpack_norm b) as [eb mb]. simpl in *.
  assert (0 < 2 ^ MANT_SIZE) as HM by (fmt; apply pow2_pos; lia).
  assert (2 ^ (MANT_SIZE + 1) = 2 * 2 ^ MANT_SIZE) as HM1 by (fmt; apply pow2_succ; lia).
  assert (16 * 2 ^ MANT_SIZE <= 2 ^ F_SIZE) as HMF.
  { fmt. change 16 with (2 ^ 4). rewrite <- Z.pow_add_r by lia. apply Z.pow_le_mono_r; lia. }
  assert (uF (mb << 2) = 4 * mb) as ->.
  { rewrite shiftl_mul, uF_small by (unfold in_u; lia). lia. }
  rewrite divrem_u_spec by (unfold in_u; lia). rewrite Z.add_0_r.
  assert ((if tst (ma * 2 ^ F_SIZE mod (4 * mb)) then ma * 2 ^ F_SIZE / (4 * mb) .| 1
     else ma * 2 ^ F_SIZE / (4 * mb)) = st (ma * 2 ^ F_SIZE) (4 * mb)) as ->.
  { unfold st, tst. destruct (_ =? 0); simpl; [by rewrite Z.lor_0_r|done]. }
  destruct (quot_bounds ma mb B Bb) as (HP0 & HP1 & HP2).
  rewrite normalize_sf_round by done. rewrite <- round_q_st by (lia || auto).
  unfold scale. clear - Hok HP0 E1 E1b E2 E2b Hka Hkb Bb HM. fmt.
  unfold fabs. remember (Z.max (fexp a) 1 - 1) as ya eqn:Eya. remember (Z.max (fexp b) 1 - 1) as yb eqn:Eyb.
  assert (0 <= ya /\ 0 <= yb) as [Hya Hyb] by lia.
  assert (0 < fsig b * 2 ^ kb) as Hpb by lia. pose proof (pow2_pos kb Hkb) as Hkbp.
  assert (0 < fsig b) as Hsb by (apply (Z.mul_lt_mono_pos_r (2 ^ kb)); lia).
  apply (round_q_value _ _ _ _ _ _ _ _ (ya + kb + 2) (F_SIZE + ka + yb)).
  - lia.
  - lia.
  - lia.
  - apply Z.mul_pos_pos; [done|]. by apply pow2_pos.
  - done.
  - pose proof (fsig_range a). apply Z.mul_nonneg_nonneg; [lia|]. apply Z.pow_nonneg. lia.
  - rewrite shiftl_mul by lia. unfold bias. lia.
  - rewrite E2, E2b. pow2_ring.
Qed.

Lemma sub_sf_round a b rm fl : finite a -> finite b ->
  sub_sf a b rm fl =
  round_q rm (add_sign rm a (b .^ SIGN_MASK)) (Z.abs (fint a - fint b)) 1 qmin fl.
Proof.
  intros Ha Hb. destruct (finite_neg b Hb) as [Hn Ei].
  unfold sub_sf. rewrite add_sf_round by done. by rewrite Ei.
Qed.

End Fmt.
