(* ===== verification/SoftFpCmp.v ===== *)
(** * Comparisons, minimum, maximum and classification

    [fint] extends to infinities as an order embedding (the pattern with the
    largest exponent lies above every finite value), so one statement covers
    finite and infinite operands; a NaN operand is unordered. *)

From S2P Require Import Prelude SoftFp SoftFpSpec SoftFpRound SoftFpArith.

Section Fmt.
Context {fmt : FloatFmt} {Hok : FloatFmtOk fmt}.

Lemma fint_cases a : is_float a ->
  (fsign a = 0 /\ a = mag a /\ fint a = fabs a) \/
  (fsign a = 1 /\ a = 2 ^ (F_SIZE - 1) + mag a /\ fint a = - fabs a).
Proof.
  intros Ha. pose proof (fsign_mag a Ha). unfold fint.
  destruct (fsign_cases a Ha) as [E|E]; rewrite E in *; [left|right]; simpl; lia.
Qed.

Lemma fabs_mag_0 a : mag a = 0 <-> fabs a = 0.
Proof.
  rewrite fabs_0, fsig_0, mag_fields. pose proof (fmant_range a). pose proof (fexp_range a).
  assert (0 < 2 ^ MANT_SIZE) by (fmt; apply pow2_pos; lia). nia.
Qed.

(** [(a | b) << 1 == 0]: both operands are zeros *)
Lemma both_zero a b : is_float a -> is_float b ->
  (uF ((a .| b) << 1) =? 0) = ((fabs a =? 0) && (fabs b =? 0)).
Proof.
  intros Ha Hb. assert (1 <= F_SIZE) as HF by (fmt; lia).
  assert (in_u F_SIZE (a .| b)) as Hab by (apply lor_in_u; [lia|done|done]).
  destruct (top_bit F_SIZE _ HF Hab) as (t & x & Ht & Hx & E & _ & Es).
  unfold uF. rewrite Es.
  assert (x = mag a .| mag b) as ->.
  { transitivity (uN (F_SIZE - 1) (a .| b)).
    - rewrite E. unfold uN. rewrite Z.add_comm, Z.mod_add, Z.mod_small by lia. done.
    - unfold mag. zbits. }
  pose proof (fabs_mag_0 a) as H1. pose proof (fabs_mag_0 b) as H2.
  assert (2 * (mag a .| mag b) = 0 <-> mag a = 0 /\ mag b = 0) as H3.
  { rewrite <- Z.lor_eq_0_iff. lia. }
  destruct (Z.eqb_spec (2 * (mag a .| mag b)) 0), (Z.eqb_spec (fabs a) 0), (Z.eqb_spec (fabs b) 0);
    simpl; tauto.
Qed.

Lemma isnan_eq a : isnan_sf a = ((fexp a =? EXP_MASK) && negb (fmant a =? 0)).
Proof. done. Qed.

Ltac cmp a b :=
  intros Ha Hb; pose proof (both_zero a b Ha Hb) as Hz;
  pose proof (fabs_lt_iff a b); pose proof (fabs_lt_iff b a);
  pose proof (fabs_nonneg a); pose proof (fabs_nonneg b);
  pose proof (uN_range (F_SIZE - 1) a ltac:(clear -Hok; fmt; lia)) as Hra;
  pose proof (uN_range (F_SIZE - 1) b ltac:(clear -Hok; fmt; lia)) as Hrb;
  fold (mag a) in Hra; fold (mag b) in Hrb; unfold in_u in Hra, Hrb.

Lemma lt_sf_spec a b fl : is_float a -> is_float b ->
  lt_sf a b fl = if isnan_sf a || isnan_sf b then (0, fl .| FFLAG_INVALID_OP)
                 else (b2z (fint a <? fint b), fl).
Proof.
  cmp a b. unfold lt_sf. destruct (isnan_sf a || isnan_sf b); [done|].
  fold (fsign a) (fsign b). rewrite Hz. clear Hz.
  destruct (fint_cases a Ha) as [(-> & Ea & ->)|(-> & Ea & ->)],
    (fint_cases b Hb) as [(-> & Eb & ->)|(-> & Eb & ->)];
    simpl; repeat zbits_case; simpl; try done; lia.
Qed.

Lemma le_sf_spec a b fl : is_float a -> is_float b ->
  le_sf a b fl = if isnan_sf a || isnan_sf b then (0, fl .| FFLAG_INVALID_OP)
                 else (b2z (fint a <=? fint b), fl).
Proof.
  cmp a b. unfold le_sf. destruct (isnan_sf a || isnan_sf b); [done|].
  fold (fsign a) (fsign b). rewrite Hz. clear Hz.
  destruct (fint_cases a Ha) as [(-> & Ea & ->)|(-> & Ea & ->)],
    (fint_cases b Hb) as [(-> & Eb & ->)|(-> & Eb & ->)];
    simpl; repeat zbits_case; simpl; try done; lia.
Qed.

Lemma eq_quiet_sf_spec a b fl : is_float a -> is_float b ->
  eq_quiet_sf a b fl =
  if isnan_sf a || isnan_sf b then (0, raise_invalid (issignan_sf a || issignan_sf b) fl)
  else (b2z (fint a =? fint b), fl).
Proof.
  cmp a b. unfold eq_quiet_sf. destruct (isnan_sf a || isnan_sf b); [done|].
  rewrite Hz. clear Hz.
  destruct (fint_cases a Ha) as [(E1 & Ea & ->)|(E1 & Ea & ->)],
    (fint_cases b Hb) as [(E2 & Eb & ->)|(E2 & Eb & ->)];
    simpl; repeat zbits_case; simpl; try done; lia.
Qed.

(** A signalling NaN is a NaN. *)
Lemma issignan_isnan x : issignan_sf x = true -> isnan_sf x = true.
Proof.
  unfold isnan_sf, issignan_sf. fold (fexp x) (fmant x).
  destruct (Z.eqb_spec ((x >> (MANT_SIZE - 1)) .& ((1 << (EXP_SIZE + 1)) - 1)) (2 * EXP_MASK)) as [He|];
    [|done]. simpl.
  assert (fexp x = EXP_MASK) as ->; [|by rewrite Z.eqb_refl].
  transitivity (2 * EXP_MASK >> 1); [|rewrite shiftr_div, Z.mul_comm by lia; by rewrite Z.div_mul].
  rewrite <- He, fexp_eq. fmt. rewrite shiftl_mul, Z.mul_1_l, land_pow2m1 by lia. zbits.
Qed.

(** [min_sf]/[max_sf] on numbers: the smaller/larger operand, -0 below +0; with
    one NaN the other operand, with two the canonical NaN. *)
Definition total_key (a : Z) : Z := if fsign a =? 0 then mag a else - mag a - 1.

Lemma raise_invalid_no_nan a b fl : isnan_sf a || isnan_sf b = false ->
  raise_invalid (issignan_sf a || issignan_sf b) fl = fl.
Proof.
  intros [Ha Hb]%orb_false_iff. unfold raise_invalid.
  destruct (issignan_sf a) eqn:E; [apply issignan_isnan in E; congruence|].
  destruct (issignan_sf b) eqn:E'; [apply issignan_isnan in E'; congruence|done].
Qed.

Lemma min_sf_spec a b fl : is_float a -> is_float b ->
  min_sf a b fl =
  (if isnan_sf a then if isnan_sf b then F_QNAN else b
   else if isnan_sf b then a
   else if total_key a <=? total_key b then a else b,
   raise_invalid (issignan_sf a || issignan_sf b) fl).
Proof.
  cmp a b. unfold min_sf. destruct (isnan_sf a || isnan_sf b) eqn:En.
  { destruct (isnan_sf a), (isnan_sf b); done. }
  rewrite raise_invalid_no_nan by done. apply orb_false_iff in En as [-> ->]. clear Hz.
  fold (fsign a) (fsign b). unfold total_key.
  destruct (fint_cases a Ha) as [(E1 & Ea & _)|(E1 & Ea & _)],
    (fint_cases b Hb) as [(E2 & Eb & _)|(E2 & Eb & _)]; rewrite E1, E2;
    simpl; repeat zbits_case; simpl; try done; try lia; f_equal; lia.
Qed.

Lemma max_sf_spec a b fl : is_float a -> is_float b ->
  max_sf a b fl =
  (if isnan_sf a then if isnan_sf b then F_QNAN else b
   else if isnan_sf b then a
   else if total_key a <=? total_key b then b else a,
   raise_invalid (issignan_sf a || issignan_sf b) fl).
Proof.
  cmp a b. unfold max_sf. destruct (isnan_sf a || isnan_sf b) eqn:En.
  { destruct (isnan_sf a), (isnan_sf b); done. }
  rewrite raise_invalid_no_nan by done. apply orb_false_iff in En as [-> ->]. clear Hz.
  fold (fsign a) (fsign b). unfold total_key.
  destruct (fint_cases a Ha) as [(E1 & Ea & _)|(E1 & Ea & _)],
    (fint_cases b Hb) as [(E2 & Eb & _)|(E2 & Eb & _)]; rewrite E1, E2;
    simpl; repeat zbits_case; simpl; try done; try lia; f_equal; lia.
Qed.

End Fmt.
