(* ===== verification/SoftFpIeee.v ===== *)
(** * The arithmetic operations on every operand

    [add_ieee], [mul_ieee] and [div_ieee] are IEEE-754's results: NaNs,
    infinities, zeros and finite numbers.  The lemmas prove the code equal to
    them for every pair of bit patterns. *)

From S2P Require Import Prelude SoftFp SoftFpSpec SoftFpRound SoftFpArith SoftFpCmp.

Section Fmt.
Context {fmt : FloatFmt} {Hok : FloatFmtOk fmt}.

(** ** Classes of operands *)

Definition is_nan (a : Z) : bool := (fexp a =? EXP_MASK) && negb (fmant a =? 0).
Definition is_inf (a : Z) : bool := (fexp a =? EXP_MASK) && (fmant a =? 0).
(** the top mantissa bit of a signalling NaN is clear *)
Definition is_snan (a : Z) : bool := is_nan a && negb (Z.testbit a (MANT_SIZE - 1)).
Definition is_zero (a : Z) : bool := fabs a =? 0.

Definition invalid (fl : Z) : Z * Z := (F_QNAN, fl .| FFLAG_INVALID_OP).
(** a NaN operand: the canonical NaN, invalid when an operand signals *)
Definition nan_result (a b fl : Z) : Z * Z := (F_QNAN, raise_invalid (is_snan a || is_snan b) fl).

Definition add_ieee (rm : RoundingModeEnum) (a b fl : Z) : Z * Z :=
  if is_nan a || is_nan b then nan_result a b fl
  else if is_inf a && is_inf b && negb (fsign a =? fsign b) then invalid fl
  else if is_inf a then (a, fl)
  else if is_inf b then (b, fl)
  else round_q rm (add_sign rm a b) (Z.abs (fint a + fint b)) 1 qmin fl.

Definition mul_ieee (rm : RoundingModeEnum) (a b fl : Z) : Z * Z :=
  if is_nan a || is_nan b then nan_result a b fl
  else if is_inf a && is_zero b || is_inf b && is_zero a then invalid fl
  else if is_inf a || is_inf b then (pack_sf (xor_sign a b) EXP_MASK 0, fl)
  else round_q rm (xor_sign a b) (fabs a * fabs b) 1 (2 * qmin) fl.

Definition div_ieee (rm : RoundingModeEnum) (a b fl : Z) : Z * Z :=
  if is_nan a || is_nan b then nan_result a b fl
  else if is_inf a && is_inf b || is_zero a && is_zero b then invalid fl
  else if is_inf a then (pack_sf (xor_sign a b) EXP_MASK 0, fl)
  else if is_inf b then (pack_sf (xor_sign a b) 0 0, fl)
  else if is_zero b then (pack_sf (xor_sign a b) EXP_MASK 0, fl .| FFLAG_DIVIDE_ZERO)
  else round_q rm (xor_sign a b) (fabs a) (fabs b) 0 fl.

(** ** The code's classification *)

Lemma isnan_class a : isnan_sf a = is_nan a.
Proof. done. Qed.

Lemma testbit_fmant a i : 0 <= i < MANT_SIZE -> Z.testbit (fmant a) i = Z.testbit a i.
Proof.
  intros Hi. rewrite fmant_eq, testbit_uN by lia. destruct (Z.ltb_spec i MANT_SIZE); [done|lia].
Qed.

Lemma issignan_class a : issignan_sf a = is_snan a.
Proof.
  unfold issignan_sf, is_snan, is_nan. fmt. rewrite shiftl_mul, Z.mul_1_l, land_pow2m1 by lia.
  fold (fmant a). set (y := uN (EXP_SIZE + 1) (a >> (MANT_SIZE - 1))).
  assert (y = 2 * fexp a + Z.b2z (Z.testbit a (MANT_SIZE - 1))) as ->.
  { rewrite (Z.div2_odd y). f_equal.
    - f_equal. rewrite Z.div2_spec, fexp_eq. unfold y. apply Z.bits_inj'. intros i Hi.
      rewrite Z.shiftr_spec, !testbit_uN, !Z.shiftr_spec by lia.
      replace (i + 1 + (MANT_SIZE - 1)) with (i + MANT_SIZE) by lia.
      destruct (Z.ltb_spec (i + 1) (EXP_SIZE + 1)), (Z.ltb_spec i EXP_SIZE); done || lia.
    - f_equal. rewrite <- Z.bit0_odd. unfold y. rewrite testbit_uN, Z.shiftr_spec by lia.
      destruct (Z.ltb_spec 0 (EXP_SIZE + 1)); [done|lia]. }
  change (tst (fmant a)) with (negb (fmant a =? 0)).
  destruct (Z.testbit a (MANT_SIZE - 1)); simpl Z.b2z; destruct (Z.eqb_spec (fexp a) EXP_MASK) as [E|E];
    destruct (fmant a =? 0); cbn [negb andb]; rewrite ?andb_false_r, ?andb_true_r; try done;
    repeat zbits_case; done || lia.
Qed.

Lemma is_zero_fields a : (fexp a =? 0) && (fmant a =? 0) = is_zero a.
Proof. rewrite zero_test. unfold is_zero. pose proof (fabs_0 a). repeat zbits_case; tauto. Qed.

(** an operand is a NaN, an infinity or finite *)
Lemma class_cases a : is_float a ->
  (fexp a = EXP_MASK /\ fmant a <> 0 /\ is_nan a = true /\ is_inf a = false)
  \/ (fexp a = EXP_MASK /\ fmant a = 0 /\ is_nan a = false /\ is_inf a = true)
  \/ (finite a /\ is_nan a = false /\ is_inf a = false).
Proof.
  intros Ha. unfold is_nan, is_inf, finite.
  destruct (Z.eqb_spec (fexp a) EXP_MASK), (Z.eqb_spec (fmant a) 0); cbn [andb negb]; tauto.
Qed.

Lemma EXP_MASK_pos : 0 < EXP_MASK.
Proof. rewrite EXP_MASK_eq. fmt. assert (2 ^ 1 < 2 ^ EXP_SIZE) by (apply Z.pow_lt_mono_r; lia). lia. Qed.

Lemma inf_not_zero a : fexp a = EXP_MASK -> is_zero a = false.
Proof.
  intros He. rewrite <- is_zero_fields, He. pose proof EXP_MASK_pos. by destruct (Z.eqb_spec EXP_MASK 0); [lia|].
Qed.

(** ** Multiplication and division *)

Lemma mul_sf_ieee a b rm fl : is_float a -> is_float b -> mul_sf a b rm fl = mul_ieee rm a b fl.
Proof.
  intros Ha Hb. unfold mul_ieee.
  destruct (class_cases a Ha) as [(Ea & Ma & Na & Ia)|[(Ea & Ma & Na & Ia)|(Fa & Na & Ia)]],
    (class_cases b Hb) as [(Eb & Mb & Nb & Ib)|[(Eb & Mb & Nb & Ib)|(Fb & Nb & Ib)]];
    rewrite ?Na, ?Nb, ?Ia, ?Ib; cbn [orb andb];
    try (by rewrite mul_sf_round by done);
    unfold mul_sf; rewrite (isnan_class a), (isnan_class b), (issignan_class a), (issignan_class b);
    fold (fexp a) (fexp b) (fmant a) (fmant b) (fsign a) (fsign b) (xor_sign a b);
    rewrite ?Ea, ?Eb, ?Z.eqb_refl, ?Na, ?Nb; cbn [orb andb];
    rewrite ?orb_true_r; cbn [orb andb]; try done;
    rewrite ?is_zero_fields, ?(inf_not_zero a), ?(inf_not_zero b) by done;
    try (destruct Fa as [_ Fa]; apply Z.eqb_neq in Fa; rewrite Fa);
    try (destruct Fb as [_ Fb]; apply Z.eqb_neq in Fb; rewrite Fb); cbn [orb andb];
    rewrite ?orb_false_r; pose proof EXP_MASK_pos; destruct (Z.eqb_spec EXP_MASK 0); try lia; done.
Qed.

Lemma zero_fint a : is_zero a = false -> fint a <> 0.
Proof. unfold is_zero, fint. intros H%Z.eqb_neq. destruct (_ =? _); lia. Qed.

Lemma div_sf_ieee a b rm fl : is_float a -> is_float b -> div_sf a b rm fl = div_ieee rm a b fl.
Proof.
  intros Ha Hb. unfold div_ieee. pose proof EXP_MASK_pos as HE.
  destruct (class_cases a Ha) as [(Ea & Ma & Na & Ia)|[(Ea & Ma & Na & Ia)|(Fa & Na & Ia)]],
    (class_cases b Hb) as [(Eb & Mb & Nb & Ib)|[(Eb & Mb & Nb & Ib)|(Fb & Nb & Ib)]];
    rewrite ?Na, ?Nb, ?Ia, ?Ib; cbn [orb andb];
    try (destruct (is_zero b) eqn:Zb; [|by rewrite andb_false_r, div_sf_round by (done || by apply zero_fint)]);
    unfold div_sf; rewrite ?(isnan_class b), ?(issignan_class a), ?(issignan_class b);
    fold (fexp a) (fexp b) (fmant a) (fmant b) (fsign a) (fsign b) (xor_sign a b);
    change (tst (fmant a)) with (negb (fmant a =? 0)); change (tst (fmant b)) with (negb (fmant b =? 0));
    rewrite ?Ea, ?Eb, ?Z.eqb_refl, ?Na, ?Nb, ?(proj2 (Z.eqb_neq _ _) Ma), ?(proj2 (Z.eqb_neq _ _) Mb), ?Ma, ?Mb;
    cbn [orb andb negb Z.eqb]; rewrite ?(inf_not_zero a), ?(inf_not_zero b) by done;
    try (destruct Fa as [_ Fa]; apply Z.eqb_neq in Fa; rewrite Fa);
    try (destruct Fb as [_ Fb]; apply Z.eqb_neq in Fb; rewrite Fb);
    rewrite ?is_zero_fields, ?Zb; try done; by destruct (is_zero a).
Qed.

(** ** Addition *)

Lemma large_mant a : fmant a <> 0 -> tst (uF (fmant a << 3)) = true
  /\ tst (uF (fmant a << 3) .& (QNAN_MASK << 3)) = Z.testbit a (MANT_SIZE - 1).
Proof.
  intros Hm. pose proof (fmant_range a). fmt.
  assert (uF (fmant a << 3) = fmant a << 3) as ->.
  { apply uF_small, (shiftl_in_u MANT_SIZE); unfold in_u; lia. }
  split.
  - unfold tst. rewrite shiftl_mul by lia. destruct (Z.eqb_spec (fmant a * 2 ^ 3) 0); [lia|done].
  - unfold QNAN_MASK. rewrite Z.shiftl_shiftl by lia. rewrite (Z.shiftl_mul_pow2 1), Z.mul_1_l, tst_land_pow2 by lia.
    rewrite Z.shiftl_spec by lia. rewrite <- (testbit_fmant a) by lia. f_equal. lia.
Qed.

(** the operand of larger magnitude is not finite *)
Lemma mag_special a b : fexp b = EXP_MASK -> mag b <= mag a ->
  fexp a = EXP_MASK /\ (fmant b <> 0 -> fmant a <> 0).
Proof.
  intros Eb. rewrite !mag_fields, Eb. pose proof (fmant_range a). pose proof (fmant_range b).
  pose proof (fexp_range a). intros Hm. assert (fexp a = EXP_MASK) as E by nia. rewrite E in Hm. split; [done|lia].
Qed.

(** [add_sf] once the operand of larger magnitude comes first *)
Lemma add_sf_special a b rm fl : is_float a -> is_float b -> mag b <= mag a -> fexp a = EXP_MASK ->
  (if tst (uF (fmant a << 3))
   then (F_QNAN, raise_invalid (negb (tst (uF (fmant a << 3) .& (QNAN_MASK << 3))) || issignan_sf b) fl)
   else if (fexp b =? EXP_MASK) && negb (fsign a =? fsign b) then (F_QNAN, fl .| FFLAG_INVALID_OP)
   else (a, fl)) = add_ieee rm a b fl.
Proof.
  intros Ha Hb Hm Ea. unfold add_ieee.
  destruct (class_cases a Ha) as [(_ & Ma & Na & Ia)|[(_ & Ma & Na & Ia)|(Fa & Na & Ia)]]; [| |by destruct Fa].
  - destruct (large_mant a Ma) as [-> ->]. rewrite Na. cbn [orb]. unfold nan_result.
    rewrite issignan_class. unfold is_snan at 2. by rewrite Na.
  - assert (tst (uF (fmant a << 3)) = false) as -> by (by rewrite Ma).
    assert (is_nan b = false) as Nb.
    { destruct (class_cases b Hb) as [(Eb & Mb & _ & _)|[(_ & _ & ? & _)|(_ & ? & _)]]; [|done|done].
      destruct (mag_special a b Eb Hm) as [_ H]. exfalso. by apply H. }
    rewrite Na, Nb, Ia. cbn [orb andb].
    assert ((fexp b =? EXP_MASK) = is_inf b) as ->; [|done].
    unfold is_nan, is_inf in *. by destruct (fexp b =? EXP_MASK), (fmant b =? 0).
Qed.

Lemma add_ieee_comm rm a b fl : is_float a -> is_float b -> finite a \/ finite b \/ mag a < mag b ->
  add_ieee rm a b fl = add_ieee rm b a fl.
Proof.
  intros Ha Hb Hc. unfold add_ieee, nan_result.
  rewrite (orb_comm (is_nan a)), (orb_comm (is_snan a)), (andb_comm (is_inf a)), (Z.eqb_sym (fsign a)).
  destruct (is_nan b || is_nan a); [done|]. destruct (is_inf b && is_inf a) eqn:E; cbn [andb].
  - exfalso. apply andb_true_iff in E as [E1 E2]. unfold is_inf in E1, E2.
    apply andb_true_iff in E1 as [E1 M1], E2 as [E2 M2]. apply Z.eqb_eq in E1, E2, M1, M2.
    destruct Hc as [[_ ?]|[[_ ?]|Hc]]; [done|done|]. rewrite !mag_fields, E1, E2, M1, M2 in Hc. lia.
  - destruct (is_inf a), (is_inf b); try done.
    rewrite (Z.add_comm (fint a)). unfold add_sign. rewrite (Z.add_comm (fint a)), (Z.eqb_sym (fsign a)).
    destruct (Z.eqb_spec (fsign b) (fsign a)) as [->|]; done.
Qed.

Lemma add_sf_ieee a b rm fl : is_float a -> is_float b -> add_sf a b rm fl = add_ieee rm a b fl.
Proof.
  intros Ha Hb. destruct (decide (finite a /\ finite b)) as [[Fa Fb]|Hn].
  { rewrite add_sf_round by done. unfold add_ieee, is_nan, is_inf. destruct Fa as [_ Fa], Fb as [_ Fb].
    apply Z.eqb_neq in Fa, Fb. by rewrite Fa, Fb. }
  assert (forall x y, is_float x -> is_float y -> mag y <= mag x -> ~ (finite x /\ finite y) -> fexp x = EXP_MASK) as Hbig.
  { intros x y Hx Hy Hm Hf. destruct (decide (fexp x = EXP_MASK)) as [|Ex]; [done|].
    destruct (decide (fexp y = EXP_MASK)) as [Ey|Ey]; [by destruct (mag_special x y Ey Hm)|].
    exfalso. by apply Hf. }
  unfold add_sf. destruct (mag_land a) as [-> | ?]; [|done]. destruct (mag_land b) as [-> | ?]; [|done].
  destruct (Z.ltb_spec (mag a) (mag b)) as [Hm|Hm]; cbv zeta; fold (fexp a) (fexp b) (fmant a) (fmant b) (fsign a) (fsign b).
  - rewrite (Hbig b a) by (done || lia || tauto). rewrite Z.eqb_refl.
    rewrite (add_sf_special b a rm fl) by (done || lia || (apply (Hbig b a); done || lia || tauto)).
    symmetry. apply add_ieee_comm; auto.
  - rewrite (Hbig a b) by done. rewrite Z.eqb_refl. apply add_sf_special; try done. by apply (Hbig a b).
Qed.

(** negation, infinities and NaNs included *)
Lemma fint_neg b : is_float b -> is_float (b .^ SIGN_MASK) /\ fint (b .^ SIGN_MASK) = - fint b.
Proof.
  intros Hb. destruct (fsign_xor b Hb) as (H1 & H2 & H3). split; [done|].
  assert (fabs (b .^ SIGN_MASK) = fabs b) as Hf.
  { destruct (fields_mag _ _ H2) as [E1 E2]. unfold fabs, fsig. by rewrite E1, E2. }
  unfold fint. rewrite H3, Hf. destruct (fsign_cases b Hb) as [-> | ->]; simpl; lia.
Qed.

End Fmt.
