(* ===== verification/FpProps.v ===== *)
(** * The softfloat operations against IEEE-754

    Addition, subtraction, multiplication and division give IEEE-754's result
    on every pair of bit patterns (SoftFpIeee.v): on finite operands the
    correctly rounded exact result ([round_q]), flags included; comparisons are
    those of the values. *)

From S2P Require Import Prelude SoftFp SoftFpSpec SoftFpRound SoftFpArith SoftFpCmp SoftFpIeee.

Section Fmt.
Context {fmt : FloatFmt} {ok : FloatFmtOk fmt}.

(** C2: the sum of any two floats is IEEE-754's: NaNs propagate as the canonical
    NaN, opposite infinities are invalid, finite operands give their exact sum
    rounded once in the given mode with the sign rule for zeros and exact
    flags; the difference is the sum with the second operand negated. *)
Theorem add_sf_correct a b rm fl : is_float a -> is_float b ->
  add_sf a b rm fl = add_ieee rm a b fl
  /\ sub_sf a b rm fl = add_ieee rm a (b .^ SIGN_MASK) fl
  /\ fint (b .^ SIGN_MASK) = - fint b.
Proof.
  intros Ha Hb. pose proof (fint_neg b Hb) as [Hn Hf]. split_and!; [by apply add_sf_ieee| |done].
  unfold sub_sf. by apply add_sf_ieee.
Qed.

(** C3: the product of any two floats is IEEE-754's: NaNs, infinities, an
    infinity by a zero (invalid), and for finite operands the exact product,
    rounded once, subnormal operands and results included. *)
Theorem mul_sf_correct a b rm fl : is_float a -> is_float b ->
  mul_sf a b rm fl = mul_ieee rm a b fl.
Proof. apply mul_sf_ieee. Qed.

(** C4: the quotient of any two floats is IEEE-754's: NaNs, infinities, 0/0
    (invalid), a finite number by zero (an infinity and the divide-by-zero
    flag), and otherwise the exact quotient, rounded once. *)
Theorem div_sf_correct a b rm fl : is_float a -> is_float b ->
  div_sf a b rm fl = div_ieee rm a b fl.
Proof. apply div_sf_ieee. Qed.

(** [lt], [le] and [eq] compare the values (zeros are equal, infinities are
    ordered); a NaN operand gives 0, and is signalled by [lt] and [le] always
    and by [eq] only when it is signalling. *)
Lemma compare_sf_correct a b fl : is_float a -> is_float b ->
  let nan := isnan_sf a || isnan_sf b in
  lt_sf a b fl = (if nan then (0, fl .| FFLAG_INVALID_OP) else (b2z (fint a <? fint b), fl))
  /\ le_sf a b fl = (if nan then (0, fl .| FFLAG_INVALID_OP) else (b2z (fint a <=? fint b), fl))
  /\ eq_quiet_sf a b fl =
       (if nan then (0, raise_invalid (issignan_sf a || issignan_sf b) fl)
        else (b2z (fint a =? fint b), fl)).
Proof. intros Ha Hb nan. split_and!; [by apply lt_sf_spec|by apply le_sf_spec|by apply eq_quiet_sf_spec]. Qed.

(** [min] and [max] return the smaller and the larger operand in the total
    order that puts -0 below +0; a single NaN operand yields the other operand. *)
Lemma minmax_sf_correct a b fl : is_float a -> is_float b ->
  let pick (r : Z) :=
    if isnan_sf a then if isnan_sf b then F_QNAN else b else if isnan_sf b then a else r in
  let fl' := raise_invalid (issignan_sf a || issignan_sf b) fl in
  min_sf a b fl = (pick (if total_key a <=? total_key b then a else b), fl')
  /\ max_sf a b fl = (pick (if total_key a <=? total_key b then b else a), fl').
Proof. intros Ha Hb pick fl'. split; [by apply min_sf_spec|by apply max_sf_spec]. Qed.


End Fmt.

(** 1.0 + 2^-53 rounds to even in double precision, inexactly *)
Lemma add_sf_correct_witness :
  add_sf (fmt := sf64) 0x3ff0000000000000 0x3ca0000000000000 RM_RNE 0 = (0x3ff0000000000000, FFLAG_INEXACT).
Proof.
  destruct (add_sf_correct (fmt := sf64) 0x3ff0000000000000 0x3ca0000000000000 RM_RNE 0) as [-> _]; by vm_compute.
Defined.

(** the product of the two smallest subnormals underflows upwards *)
Lemma mul_sf_correct_witness :
  mul_sf (fmt := sf32) 1 1 RM_RUP 0 = (1, FFLAG_UNDERFLOW .| FFLAG_INEXACT).
Proof.
  rewrite (mul_sf_correct (fmt := sf32)) by (by vm_compute). by vm_compute.
Defined.

(** one third, and a division by zero *)
Lemma div_sf_correct_witness :
  div_sf (fmt := sf32) 0x3f800000 0x40400000 RM_RTZ 0 = (0x3eaaaaaa, FFLAG_INEXACT)
  /\ div_sf (fmt := sf32) 0x3f800000 0x80000000 RM_RTZ 0 = (0xff800000, FFLAG_DIVIDE_ZERO).
Proof.
  split; rewrite (div_sf_correct (fmt := sf32)) by (by vm_compute); by vm_compute.
Defined.

