(* ===== verification/Riscv.v ===== *)
(** * Architectural constants (riscv.h)

    The bit positions, cause numbers and privilege levels of the header; a
    [#define] of an [int] or [unsigned] constant is a [Z]. *)

From S2P Require Import Prelude.

(** ** Interrupt bits *)

Definition MIP_USIP : Z := 1 << 0.
Definition MIP_SSIP : Z := 1 << 1.
Definition MIP_MSIP : Z := 1 << 3.
Definition MIP_UTIP : Z := 1 << 4.
Definition MIP_STIP : Z := 1 << 5.
Definition MIP_MTIP : Z := 1 << 7.
Definition MIP_UEIP : Z := 1 << 8.
Definition MIP_SEIP : Z := 1 << 9.
Definition MIP_MEIP : Z := 1 << 11.
Definition MIP_MCIP : Z := 1 << 18.
Definition MIE_USIE : Z := MIP_USIP.
Definition MIE_SSIE : Z := MIP_SSIP.
Definition MIE_MSIE : Z := MIP_MSIP.
Definition MIE_UTIE : Z := MIP_UTIP.
Definition MIE_STIE : Z := MIP_STIP.
Definition MIE_MTIE : Z := MIP_MTIP.
Definition MIE_UEIE : Z := MIP_UEIP.
Definition MIE_SEIE : Z := MIP_SEIP.
Definition MIE_MEIE : Z := MIP_MEIP.
Definition MIE_MCIP : Z := MIP_MCIP.

(** ** Causes *)

Definition CAUSE_MISALIGNED_FETCH : Z := 0x0.
Definition CAUSE_FAULT_FETCH : Z := 0x1.
Definition CAUSE_ILLEGAL_INSTRUCTION : Z := 0x2.
Definition CAUSE_BREAKPOINT : Z := 0x3.
Definition CAUSE_MISALIGNED_LOAD : Z := 0x4.
Definition CAUSE_FAULT_LOAD : Z := 0x5.
Definition CAUSE_MISALIGNED_STORE : Z := 0x6.
Definition CAUSE_FAULT_STORE : Z := 0x7.
Definition CAUSE_USER_ECALL : Z := 0x8.
Definition CAUSE_SUPERVISOR_ECALL : Z := 0x9.
Definition CAUSE_HYPERVISOR_ECALL : Z := 0xa.
Definition CAUSE_MACHINE_ECALL : Z := 0xb.
Definition CAUSE_FETCH_PAGE_FAULT : Z := 0xc.
Definition CAUSE_LOAD_PAGE_FAULT : Z := 0xd.
Definition CAUSE_STORE_PAGE_FAULT : Z := 0xf.
Definition SCAUSE_MASK : Z := 0x800000000000001f.
Definition MCAUSE_MASK : Z := 0x80000000000000ff.
Definition CAUSE_INTERRUPT : Z := 0x8000000000000000.

(** ** Privilege levels *)

Definition PRV_U : Z := 0.
Definition PRV_S : Z := 1.
Definition PRV_H : Z := 2.
Definition PRV_M : Z := 3.

(** ** misa *)

Definition MCPUID_SUPER : Z := 1 << 18.
Definition MCPUID_USER : Z := 1 << 20.
Definition MCPUID_I : Z := 1 << 8.
Definition MCPUID_M : Z := 1 << 12.
Definition MCPUID_A : Z := 1 << 0.
Definition MCPUID_F : Z := 1 << 5.
Definition MCPUID_D : Z := 1 << 3.
Definition MCPUID_Q : Z := 1 << 16.
Definition MCPUID_C : Z := 1 << 2.
Definition MCPUID_X : Z := 1 << 23.

(** ** mstatus *)

Definition MSTATUS_SPIE_SHIFT : Z := 5.
Definition MSTATUS_MPIE_SHIFT : Z := 7.
Definition MSTATUS_SPP_SHIFT : Z := 8.
Definition MSTATUS_MPP_SHIFT : Z := 11.
Definition MSTATUS_FS_SHIFT : Z := 13.
Definition MSTATUS_UXL_SHIFT : Z := 32.
Definition MSTATUS_SXL_SHIFT : Z := 34.
Definition MSTATUS_UIE : Z := 1 << 0.
Definition MSTATUS_SIE : Z := 1 << 1.
Definition MSTATUS_HIE : Z := 1 << 2.
Definition MSTATUS_MIE : Z := 1 << 3.
Definition MSTATUS_UPIE : Z := 1 << 4.
Definition MSTATUS_SPIE : Z := 1 << MSTATUS_SPIE_SHIFT.
Definition MSTATUS_HPIE : Z := 1 << 6.
Definition MSTATUS_MPIE : Z := 1 << MSTATUS_MPIE_SHIFT.
Definition MSTATUS_SPP : Z := 1 << MSTATUS_SPP_SHIFT.
Definition MSTATUS_HPP : Z := 3 << 9.
Definition MSTATUS_MPP : Z := 3 << MSTATUS_MPP_SHIFT.
Definition MSTATUS_FS : Z := 3 << MSTATUS_FS_SHIFT.
Definition MSTATUS_XS : Z := 3 << 15.
Definition MSTATUS_MPRV : Z := 1 << 17.
Definition MSTATUS_SUM : Z := 1 << 18.
Definition MSTATUS_MXR : Z := 1 << 19.
Definition MSTATUS_TVM : Z := 1 << 20.
Definition MSTATUS_TW : Z := 1 << 21.
Definition MSTATUS_TSR : Z := 1 << 22.
Definition MSTATUS_UXL_MASK : Z := 3 << MSTATUS_UXL_SHIFT.
Definition MSTATUS_SXL_MASK : Z := 3 << MSTATUS_SXL_SHIFT.

(** ** Debug triggers *)

Definition MCONTROL_TYPE_AD_MATCH : Z := 2 << 60.
Definition MCONTROL_DMODE : Z := 1 << 59.
Definition MCONTROL_MAXMASK_4 : Z := 4 << 53.
Definition MCONTROL_ACTION : Z := 0x3f << 12.
Definition MCONTROL_MATCH : Z := 0xf << 7.
Definition MCONTROL_M : Z := 1 << 6.
Definition MCONTROL_S : Z := 1 << 4.
Definition MCONTROL_U : Z := 1 << 3.
Definition MCONTROL_EXECUTE : Z := 1 << 2.
Definition MCONTROL_STORE : Z := 1 << 1.
Definition MCONTROL_LOAD : Z := 1 << 0.
Definition MCONTROL_ACTION_DEBUG_EXCEPTION : Z := 0.
Definition MCONTROL_ACTION_DEBUG_MODE : Z := 1.
Definition MCONTROL_MATCH_EQUAL : Z := 0.
Definition MCONTROL_MATCH_NAPOT : Z := 1.
Definition MCONTROL_MATCH_GE : Z := 2.
Definition MCONTROL_MATCH_LT : Z := 3.
Definition PHYSICAL_ADDR_LEN_DEFAULT : Z := 40.

(** ** SBI calls: [sbi_call_t] and its enumerator values *)

Inductive sbi_call_t :=
  SBI_SET_TIMER | SBI_CONSOLE_PUTCHAR | SBI_CONSOLE_GETCHAR | SBI_CLEAR_IPI
| SBI_SEND_IPI | SBI_REMOTE_FENCE_I | SBI_REMOTE_SFENCE_VMA
| SBI_REMOTE_SFENCE_VMA_ASID | SBI_SHUTDOWN | SBI_DISK_READ | SBI_DISK_WRITE
| SBI_DISK_SIZE.

Definition sbi_code (c : sbi_call_t) : Z :=
  match c with
  | SBI_SET_TIMER => 0 | SBI_CONSOLE_PUTCHAR => 1 | SBI_CONSOLE_GETCHAR => 2
  | SBI_CLEAR_IPI => 3 | SBI_SEND_IPI => 4 | SBI_REMOTE_FENCE_I => 5
  | SBI_REMOTE_SFENCE_VMA => 6 | SBI_REMOTE_SFENCE_VMA_ASID => 7
  | SBI_SHUTDOWN => 8 | SBI_DISK_READ => 9 | SBI_DISK_WRITE => 10 | SBI_DISK_SIZE => 11
  end.

(** ** Physical memory protection *)

Definition CSR_PMPCFG (n : Z) : Z := 0x3A0 + n.
Definition CSR_PMPADDR (n : Z) : Z := 0x3B0 + n.
Definition PMP_N : Z := 8.

Definition PMPCFG_R : Z := 1.
Definition PMPCFG_W : Z := 2.
Definition PMPCFG_X : Z := 4.
Definition PMPCFG_A_MASK : Z := 0x18.
Definition PMPCFG_A_OFF : Z := 0.
Definition PMPCFG_A_TOR : Z := 8.
Definition PMPCFG_A_NA4 : Z := 0x10.
Definition PMPCFG_A_NAPOT : Z := 0x18.
Definition PMPCFG_RES : Z := 0x60.
Definition PMPCFG_L : Z := 0x80.

(** ** Platform interrupt controller *)

Definition PLIC_NUM_SOURCES : Z := 127.
Definition PLIC_NUM_PRIORITIES : Z := 7.
Definition PLIC_PRIORITY_BASE : Z := 4.
Definition PLIC_PENDING_BASE : Z := 0x1000.
Definition PLIC_ENABLE_BASE : Z := 0x2000.
Definition PLIC_ENABLE_STRIDE : Z := 0x80.
Definition PLIC_CONTEXT_BASE : Z := 0x200000.
Definition PLIC_CONTEXT_STRIDE : Z := 0x1000.
Definition PLIC_BITFIELD_WORDS : Z := ((PLIC_NUM_SOURCES + 31) >> 5).
