(* ===== verification/CpuState.v ===== *)
(** * The state of a hart (riscv_cpu.h, riscv_cpu.cpp)

    [RISCVCPUState] has the fields of the C struct in its order; the pointers
    [machine] and [mem_map] are the machine part of the state the memory files
    work on, and [ext_cpu_state] is not used by the code.  A [BOOL] is a
    [bool], an array a list, an unsigned field a [Z] in its range (the
    predicate [wf_cpu] of Invariant.v). *)

From S2P Require Import Prelude Riscv.

(** ** Configuration (riscv_cpu.h) *)

Definition ROM_SIZE : Z := 0x00001000.
Definition ROM_BASE_ADDR : Z := 0x00010000.
Definition BOOT_BASE_ADDR : Z := 0x00010000.
Definition RAM_BASE_ADDR : Z := 0x80000000.
Definition KERNEL_OFFSET : Z := 0x200000.
Definition CONFIG_SW_MANAGED_A_AND_D : bool := true.
Definition CONFIG_ALLOW_MISALIGNED_ACCESS : bool := false.
(** [FLEN] is 64: [fp_uint] is 64 bits wide, a 32-bit value is NaN-boxed *)
Definition F32_HIGH : Z := u64 (-1 << 32).
Definition F64_HIGH : Z := 0.
Definition TLB_SIZE : Z := 256.
Definition PG_SHIFT : Z := 12.
Definition PG_MASK : Z := (1 << PG_SHIFT) - 1.
Definition ASID_BITS : Z := 0.
Definition SATP_MASK : Z := (15 << 60) .| (((1 << ASID_BITS) - 1) << 44) .| ((1 << 44) - 1).
Definition MAX_TRIGGERS : Z := 1.
Definition HPM_EVENT_SETMASK : Z := 0x00000007.
Definition HPM_EVENT_EVENTMASK : Z := 0xffffff00.

Record TLBEntry := mkTLBEntry { vaddr : Z; mem_addend : Z }.
#[export] Instance TLBEntry_inhabited : Inhabited TLBEntry := populate (mkTLBEntry 0 0).

Record pmp_addr := mkPmp { lo : Z; hi : Z }.
#[export] Instance pmp_addr_inhabited : Inhabited pmp_addr := populate (mkPmp 0 0).

(** Control-flow information; the enumerators count from 1. *)
Inductive RISCVCTFInfo :=
| ctf_nop | ctf_taken_jump | ctf_taken_branch
| ctf_taken_jalr | ctf_taken_jalr_pop | ctf_taken_jalr_push | ctf_taken_jalr_pop_push.

#[export] Instance RISCVCTFInfo_eq_dec : EqDecision RISCVCTFInfo.
Proof. solve_decision. Defined.

(** the cast of an [int] to the enumeration, on the enumerators' values *)
Definition ctf_of_code (n : Z) : RISCVCTFInfo :=
  match n with
  | 2 => ctf_taken_jump | 3 => ctf_taken_branch | 4 => ctf_taken_jalr
  | 5 => ctf_taken_jalr_pop | 6 => ctf_taken_jalr_push | 7 => ctf_taken_jalr_pop_push
  | _ => ctf_nop
  end.

Inductive riscv_memory_access_t := ACCESS_READ | ACCESS_WRITE | ACCESS_CODE.

#[export] Instance riscv_memory_access_t_eq_dec : EqDecision riscv_memory_access_t.
Proof. solve_decision. Defined.

Definition access_code (a : riscv_memory_access_t) : Z :=
  match a with ACCESS_READ => 0 | ACCESS_WRITE => 1 | ACCESS_CODE => 2 end.

(** ** The struct *)

Record RISCVCPUState := mkCPU {
  pc : Z;
  reg : list Z;
  reg_prior : list Z;
  most_recently_written_reg : Z;
  last_data_paddr : Z;
  fp_reg : list Z;
  most_recently_written_fp_reg : Z;
  fflags : Z;
  frm : Z;
  priv : Z;
  fs : Z;
  insn_counter : Z;
  minstret : Z;
  mcycle : Z;
  debug_mode : bool;
  stop_the_counter : bool;
  power_down_flag : bool;
  terminate_simulation : bool;
  pending_exception : Z;
  pending_tval : Z;
  mstatus : Z;
  mtvec : Z;
  mscratch : Z;
  mepc : Z;
  mcause : Z;
  mtval : Z;
  mvendorid : Z;
  marchid : Z;
  mimpid : Z;
  mhartid : Z;
  misa : Z;
  mie : Z;
  mip : Z;
  medeleg : Z;
  mideleg : Z;
  mcounteren : Z;
  mcountinhibit : Z;
  tselect : Z;
  tdata1 : list Z;
  tdata2 : list Z;
  mhpmevent : list Z;
  csr_pmpcfg : list Z;
  csr_pmpaddr : list Z;
  pmp_n : Z;
  pmp : list pmp_addr;
  pmpcfg : list Z;
  stvec : Z;
  sscratch : Z;
  sepc : Z;
  scause : Z;
  stval : Z;
  satp : Z;
  scounteren : Z;
  dcsr : Z;
  dpc : Z;
  dscratch : Z;
  plic_enable_irq : list Z;
  load_res : Z;
  physical_addr_len : Z;
  tlb_read : list TLBEntry;
  tlb_write : list TLBEntry;
  tlb_code : list TLBEntry;
  tlb_read_paddr_addend : list Z;
  tlb_write_paddr_addend : list Z;
  tlb_code_paddr_addend : list Z;
  benchmark_exit_code : Z;
  info : RISCVCTFInfo;
  next_addr : Z;
  timecmp : Z;
  ignore_sbi_shutdown : bool
}.

(** Field update: [with_f v s] is the state after [s->f = v]. *)
Ltac setter f v :=
  let eta := constr:(fun s : RISCVCPUState => mkCPU
    (pc s) (reg s) (reg_prior s) (most_recently_written_reg s) (last_data_paddr s) (fp_reg s)
    (most_recently_written_fp_reg s) (fflags s) (frm s) (priv s) (fs s) (insn_counter s)
    (minstret s) (mcycle s) (debug_mode s) (stop_the_counter s) (power_down_flag s)
    (terminate_simulation s) (pending_exception s) (pending_tval s) (mstatus s) (mtvec s)
    (mscratch s) (mepc s) (mcause s) (mtval s) (mvendorid s) (marchid s) (mimpid s) (mhartid s)
    (misa s) (mie s) (mip s) (medeleg s) (mideleg s) (mcounteren s) (mcountinhibit s)
    (tselect s) (tdata1 s) (tdata2 s) (mhpmevent s) (csr_pmpcfg s) (csr_pmpaddr s) (pmp_n s)
    (pmp s) (pmpcfg s) (stvec s) (sscratch s) (sepc s) (scause s) (stval s) (satp s)
    (scounteren s) (dcsr s) (dpc s) (dscratch s) (plic_enable_irq s) (load_res s)
    (physical_addr_len s) (tlb_read s) (tlb_write s) (tlb_code s) (tlb_read_paddr_addend s)
    (tlb_write_paddr_addend s) (tlb_code_paddr_addend s) (benchmark_exit_code s) (info s)
    (next_addr s) (timecmp s) (ignore_sbi_shutdown s)) in
  let body := eval pattern f in eta in
  match body with
  | ?g _ => let r := eval cbv beta in (g (fun _ => v)) in exact r
  end.

Definition with_pc (v : Z) : RISCVCPUState -> RISCVCPUState := ltac:(setter pc v).
Definition with_reg (v : list Z) : RISCVCPUState -> RISCVCPUState := ltac:(setter reg v).
Definition with_reg_prior (v : list Z) : RISCVCPUState -> RISCVCPUState := ltac:(setter reg_prior v).
Definition with_most_recently_written_reg (v : Z) : RISCVCPUState -> RISCVCPUState := ltac:(setter most_recently_written_reg v).
Definition with_last_data_paddr (v : Z) : RISCVCPUState -> RISCVCPUState := ltac:(setter last_data_paddr v).
Definition with_fp_reg (v : list Z) : RISCVCPUState -> RISCVCPUState := ltac:(setter fp_reg v).
Definition with_most_recently_written_fp_reg (v : Z) : RISCVCPUState -> RISCVCPUState := ltac:(setter most_recently_written_fp_reg v).
Definition with_fflags (v : Z) : RISCVCPUState -> RISCVCPUState := ltac:(setter fflags v).
Definition with_frm (v : Z) : RISCVCPUState -> RISCVCPUState := ltac:(setter frm v).
Definition with_priv (v : Z) : RISCVCPUState -> RISCVCPUState := ltac:(setter priv v).
Definition with_fs (v : Z) : RISCVCPUState -> RISCVCPUState := ltac:(setter fs v).
Definition with_insn_counter (v : Z) : RISCVCPUState -> RISCVCPUState := ltac:(setter insn_counter v).
Definition with_minstret (v : Z) : RISCVCPUState -> RISCVCPUState := ltac:(setter minstret v).
Definition with_mcycle (v : Z) : RISCVCPUState -> RISCVCPUState := ltac:(setter mcycle v).
Definition with_debug_mode (v : bool) : RISCVCPUState -> RISCVCPUState := ltac:(setter debug_mode v).
Definition with_stop_the_counter (v : bool) : RISCVCPUState -> RISCVCPUState := ltac:(setter stop_the_counter v).
Definition with_power_down_flag (v : bool) : RISCVCPUState -> RISCVCPUState := ltac:(setter power_down_flag v).
Definition with_terminate_simulation (v : bool) : RISCVCPUState -> RISCVCPUState := ltac:(setter terminate_simulation v).
Definition with_pending_exception (v : Z) : RISCVCPUState -> RISCVCPUState := ltac:(setter pending_exception v).
Definition with_pending_tval (v : Z) : RISCVCPUState -> RISCVCPUState := ltac:(setter pending_tval v).
Definition with_mstatus (v : Z) : RISCVCPUState -> RISCVCPUState := ltac:(setter mstatus v).
Definition with_mtvec (v : Z) : RISCVCPUState -> RISCVCPUState := ltac:(setter mtvec v).
Definition with_mscratch (v : Z) : RISCVCPUState -> RISCVCPUState := ltac:(setter mscratch v).
Definition with_mepc (v : Z) : RISCVCPUState -> RISCVCPUState := ltac:(setter mepc v).
Definition with_mcause (v : Z) : RISCVCPUState -> RISCVCPUState := ltac:(setter mcause v).
Definition with_mtval (v : Z) : RISCVCPUState -> RISCVCPUState := ltac:(setter mtval v).
Definition with_mvendorid (v : Z) : RISCVCPUState -> RISCVCPUState := ltac:(setter mvendorid v).
Definition with_marchid (v : Z) : RISCVCPUState -> RISCVCPUState := ltac:(setter marchid v).
Definition with_mimpid (v : Z) : RISCVCPUState -> RISCVCPUState := ltac:(setter mimpid v).
Definition with_mhartid (v : Z) : RISCVCPUState -> RISCVCPUState := ltac:(setter mhartid v).
Definition with_misa (v : Z) : RISCVCPUState -> RISCVCPUState := ltac:(setter misa v).
Definition with_mie (v : Z) : RISCVCPUState -> RISCVCPUState := ltac:(setter mie v).
Definition with_mip (v : Z) : RISCVCPUState -> RISCVCPUState := ltac:(setter mip v).
Definition with_medeleg (v : Z) : RISCVCPUState -> RISCVCPUState := ltac:(setter medeleg v).
Definition with_mideleg (v : Z) : RISCVCPUState -> RISCVCPUState := ltac:(setter mideleg v).
Definition with_mcounteren (v : Z) : RISCVCPUState -> RISCVCPUState := ltac:(setter mcounteren v).
Definition with_mcountinhibit (v : Z) : RISCVCPUState -> RISCVCPUState := ltac:(setter mcountinhibit v).
Definition with_tselect (v : Z) : RISCVCPUState -> RISCVCPUState := ltac:(setter tselect v).
Definition with_tdata1 (v : list Z) : RISCVCPUState -> RISCVCPUState := ltac:(setter tdata1 v).
Definition with_tdata2 (v : list Z) : RISCVCPUState -> RISCVCPUState := ltac:(setter tdata2 v).
Definition with_mhpmevent (v : list Z) : RISCVCPUState -> RISCVCPUState := ltac:(setter mhpmevent v).
Definition with_csr_pmpcfg (v : list Z) : RISCVCPUState -> RISCVCPUState := ltac:(setter csr_pmpcfg v).
Definition with_csr_pmpaddr (v : list Z) : RISCVCPUState -> RISCVCPUState := ltac:(setter csr_pmpaddr v).
Definition with_pmp_n (v : Z) : RISCVCPUState -> RISCVCPUState := ltac:(setter pmp_n v).
Definition with_pmp (v : list pmp_addr) : RISCVCPUState -> RISCVCPUState := ltac:(setter pmp v).
Definition with_pmpcfg (v : list Z) : RISCVCPUState -> RISCVCPUState := ltac:(setter pmpcfg v).
Definition with_stvec (v : Z) : RISCVCPUState -> RISCVCPUState := ltac:(setter stvec v).
Definition with_sscratch (v : Z) : RISCVCPUState -> RISCVCPUState := ltac:(setter sscratch v).
Definition with_sepc (v : Z) : RISCVCPUState -> RISCVCPUState := ltac:(setter sepc v).
Definition with_scause (v : Z) : RISCVCPUState -> RISCVCPUState := ltac:(setter scause v).
Definition with_stval (v : Z) : RISCVCPUState -> RISCVCPUState := ltac:(setter stval v).
Definition with_satp (v : Z) : RISCVCPUState -> RISCVCPUState := ltac:(setter satp v).
Definition with_scounteren (v : Z) : RISCVCPUState -> RISCVCPUState := ltac:(setter scounteren v).
Definition with_dcsr (v : Z) : RISCVCPUState -> RISCVCPUState := ltac:(setter dcsr v).
Definition with_dpc (v : Z) : RISCVCPUState -> RISCVCPUState := ltac:(setter dpc v).
Definition with_dscratch (v : Z) : RISCVCPUState -> RISCVCPUState := ltac:(setter dscratch v).
Definition with_plic_enable_irq (v : list Z) : RISCVCPUState -> RISCVCPUState := ltac:(setter plic_enable_irq v).
Definition with_load_res (v : Z) : RISCVCPUState -> RISCVCPUState := ltac:(setter load_res v).
Definition with_physical_addr_len (v : Z) : RISCVCPUState -> RISCVCPUState := ltac:(setter physical_addr_len v).
Definition with_tlb_read (v : list TLBEntry) : RISCVCPUState -> RISCVCPUState := ltac:(setter tlb_read v).
Definition with_tlb_write (v : list TLBEntry) : RISCVCPUState -> RISCVCPUState := ltac:(setter tlb_write v).
Definition with_tlb_code (v : list TLBEntry) : RISCVCPUState -> RISCVCPUState := ltac:(setter tlb_code v).
Definition with_tlb_read_paddr_addend (v : list Z) : RISCVCPUState -> RISCVCPUState := ltac:(setter tlb_read_paddr_addend v).
Definition with_tlb_write_paddr_addend (v : list Z) : RISCVCPUState -> RISCVCPUState := ltac:(setter tlb_write_paddr_addend v).
Definition with_tlb_code_paddr_addend (v : list Z) : RISCVCPUState -> RISCVCPUState := ltac:(setter tlb_code_paddr_addend v).
Definition with_benchmark_exit_code (v : Z) : RISCVCPUState -> RISCVCPUState := ltac:(setter benchmark_exit_code v).
Definition with_info (v : RISCVCTFInfo) : RISCVCPUState -> RISCVCPUState := ltac:(setter info v).
Definition with_next_addr (v : Z) : RISCVCPUState -> RISCVCPUState := ltac:(setter next_addr v).
Definition with_timecmp (v : Z) : RISCVCPUState -> RISCVCPUState := ltac:(setter timecmp v).
Definition with_ignore_sbi_shutdown (v : bool) : RISCVCPUState -> RISCVCPUState := ltac:(setter ignore_sbi_shutdown v).

(** [s->f[i] = v] for an array field *)
Definition set_csr_pmpcfg (i v : Z) (s : RISCVCPUState) : RISCVCPUState :=
  with_csr_pmpcfg (wr (csr_pmpcfg s) i v) s.
Definition set_csr_pmpaddr (i v : Z) (s : RISCVCPUState) : RISCVCPUState :=
  with_csr_pmpaddr (wr (csr_pmpaddr s) i v) s.

(** ** Registers (the macros of riscv_cpu.cpp) *)

Definition read_reg (x : Z) (s : RISCVCPUState) : Z := rd (reg s) x.
Definition write_reg (x val : Z) (s : RISCVCPUState) : RISCVCPUState :=
  let s := with_most_recently_written_reg x s in
  let s := with_reg_prior (wr (reg_prior s) x (rd (reg s) x)) s in
  with_reg (wr (reg s) x (u64 val)) s.

Definition read_fp_reg (x : Z) (s : RISCVCPUState) : Z := rd (fp_reg s) x.
Definition write_fp_reg (x val : Z) (s : RISCVCPUState) : RISCVCPUState :=
  let s := with_most_recently_written_fp_reg x s in
  let s := with_fp_reg (wr (fp_reg s) x (u64 val)) s in
  with_fs 3 s.

(** the sign-extending truncation to 49 bits of the address CSRs *)
Definition CANONICAL_S49 (v : Z) : Z := u64 (s64 (v << (63 - 48)) >> (63 - 48)).
Definition MEPC_TRUNCATE := CANONICAL_S49.
Definition MTVAL_TRUNCATE := CANONICAL_S49.
Definition SEPC_TRUNCATE := CANONICAL_S49.
Definition STVAL_TRUNCATE := CANONICAL_S49.
Definition PMPADDR_MASK : Z := 0x3fffffffff.

(** ** Accessors *)

Definition riscv_set_debug_mode (on : bool) (s : RISCVCPUState) : RISCVCPUState := with_debug_mode on s.
Definition riscv_get_pc (s : RISCVCPUState) : Z := pc s.
Definition riscv_set_pc (val : Z) (s : RISCVCPUState) : RISCVCPUState :=
  with_pc (val .& (if tst (misa s .& MCPUID_C) then ~~ 1 else ~~ 3)) s.
Definition riscv_cpu_get_mip (s : RISCVCPUState) : Z := mip s.
Definition riscv_cpu_reset_mip (mask : Z) (s : RISCVCPUState) : RISCVCPUState :=
  with_mip (mip s .& ~~ mask) s.
Definition riscv_cpu_get_power_down (s : RISCVCPUState) : bool := power_down_flag s.

(** register accesses from outside; [None] is a failed assertion *)
Definition riscv_get_reg (rn : Z) (s : RISCVCPUState) : option Z :=
  if (0 <=? rn) && (rn <? 32) then Some (read_reg rn s) else None.
Definition riscv_get_fpreg (rn : Z) (s : RISCVCPUState) : option Z :=
  if (0 <=? rn) && (rn <? 32) then Some (read_fp_reg rn s) else None.
Definition riscv_set_reg (rn val : Z) (s : RISCVCPUState) : option RISCVCPUState :=
  if (0 <? rn) && (rn <? 32) then Some (with_reg (wr (reg s) rn val) s) else None.
Definition riscv_repair_csr (reg_num csr_num csr_val : Z) (s : RISCVCPUState) : RISCVCPUState :=
  let c := csr_num .& 0xFFF in
  if (c =? 0xb00) || (c =? 0xc00) then
    let s := with_mcycle csr_val s in with_reg (wr (reg s) reg_num csr_val) s
  else if (c =? 0xb02) || (c =? 0xc02) then
    let s := with_minstret csr_val s in with_reg (wr (reg s) reg_num csr_val) s
  else s.

Definition riscv_get_reg_previous (rn : Z) (s : RISCVCPUState) : option Z :=
  if (0 <=? rn) && (rn <? 32) then Some (rd (reg_prior s) rn) else None.

(** the shadow registers take the registers' values, [x0] apart *)
Definition riscv_cpu_sync_regs (s : RISCVCPUState) : RISCVCPUState :=
  with_reg_prior (foldl (fun l i => wr l i (rd (reg s) i)) (reg_prior s) (seqZ 1 31)) s.
