(* ===== verification/Cutils.v ===== *)
(** * Byte order and small helpers (cutils.h)

    A [uint8_t *] read from is the list of the bytes at the pointer; a store
    through it returns the bytes it writes there. *)

From S2P Require Import Prelude.

Definition max_int (a b : Z) : Z := if b <? a then a else b.
Definition min_int (a b : Z) : Z := if a <? b then a else b.

Definition bswap_32 (v : Z) : Z :=
  ((v .& 0xff000000) >> 24) .| ((v .& 0x00ff0000) >> 8)
    .| u32 ((v .& 0x0000ff00) << 8) .| u32 ((v .& 0x000000ff) << 24).

Definition get_le16 (ptr : list Z) : Z := u16 (rd ptr 0 .| (rd ptr 1 << 8)).
Definition get_le32 (ptr : list Z) : Z :=
  u32 (rd ptr 0 .| (rd ptr 1 << 8) .| (rd ptr 2 << 16) .| s32 (rd ptr 3 << 24)).
Definition get_le64 (ptr : list Z) : Z := get_le32 ptr .| (get_le32 (drop 4 ptr) << 32).

Definition put_le16 (v : Z) : list Z := [u8 v; u8 (v >> 8)].
Definition put_le32 (v : Z) : list Z := [u8 v; u8 (v >> 8); u8 (v >> 16); u8 (v >> 24)].
Definition put_le64 (v : Z) : list Z := put_le32 (u32 v) ++ put_le32 (u32 (v >> 32)).

Definition get_be32 (d : list Z) : Z :=
  u32 (s32 (rd d 0 << 24) .| (rd d 1 << 16) .| (rd d 2 << 8) .| rd d 3).
Definition put_be32 (v : Z) : list Z := [u8 (v >> 24); u8 (v >> 16); u8 (v >> 8); u8 (v >> 0)].
Definition put_be64 (v : Z) : list Z := put_be32 (u32 (v >> 32)) ++ put_be32 (u32 v).

(** little-endian host *)
Definition cpu_to_be32 (v : Z) : Z := bswap_32 v.

(** the portable branch of [ctz32]: a binary search for the lowest one bit *)
Definition ctz32 (val : Z) : Z :=
  let cnt := 0 in
  let '(cnt, val) := if (val .& 0x0000FFFF) =? 0 then (cnt + 16, val >> 16) else (cnt, val) in
  let '(cnt, val) := if (val .& 0x000000FF) =? 0 then (cnt + 8, val >> 8) else (cnt, val) in
  let '(cnt, val) := if (val .& 0x0000000F) =? 0 then (cnt + 4, val >> 4) else (cnt, val) in
  let '(cnt, val) := if (val .& 0x00000003) =? 0 then (cnt + 2, val >> 2) else (cnt, val) in
  let '(cnt, val) := if (val .& 0x00000001) =? 0 then (cnt + 1, val >> 1) else (cnt, val) in
  if (val .& 0x00000001) =? 0 then cnt + 1 else cnt.
(** the branch GCC and clang take: [val ? __builtin_ctz(val) : 32] *)
Definition ctz32_builtin (val : Z) : Z := if tst val then Z.log2 (val .& - val) else 32.

(** ** Round trips *)

(** a word from the bits of another *)
Lemma word_bits_eq w x v :
  0 <= w -> in_u w v -> Forall (fun i => Z.testbit x i = Z.testbit v i) (seqZ 0 w) -> uN w x = v.
Proof. intros Hw Hv Hf. rewrite <- (uN_small w v) by done. by apply uN_bits_eq. Qed.

Lemma get_put_le16 v : in_u 16 v -> get_le16 (put_le16 v) = v.
Proof.
  intros Hv. unfold get_le16, put_le16, rd; cbn [nth Z.to_nat Pos.to_nat].
  apply word_bits_eq; [lia|done|]. simpl. enum_bits_with idtac.
Qed.

Lemma get_put_le32 v : in_u 32 v -> get_le32 (put_le32 v) = v.
Proof.
  intros Hv. unfold get_le32, put_le32, rd. apply word_bits_eq; [lia|done|]. simpl nth. enum_bits_with idtac.
Qed.

Lemma get_put_be32 v : in_u 32 v -> get_be32 (put_be32 v) = v.
Proof.
  intros Hv. unfold get_be32, put_be32, rd. apply word_bits_eq; [lia|done|]. simpl nth. enum_bits_with idtac.
Qed.

Lemma put_le32_bytes v : v = u32 v -> Forall (in_u 8) (put_le32 v).
Proof. intros _. repeat constructor; apply uN_range; lia. Qed.

Lemma get_put_le64 v : in_u 64 v -> get_le64 (put_le64 v) = v.
Proof.
  intros Hv. unfold get_le64, put_le64. change (drop 4 (put_le32 (u32 v) ++ ?l)) with l.
  change (get_le32 (put_le32 (u32 v) ++ ?l)) with (get_le32 (put_le32 (u32 v))).
  rewrite !get_put_le32 by (apply uN_range; lia).
  apply Z.bits_inj'. intros i Hi. rewrite Z.lor_spec, Z.shiftl_spec, !testbit_uN by lia.
  destruct (Z.ltb_spec i 32); simpl.
  - rewrite (Z.testbit_neg_r _ (i - 32)) by lia. by rewrite orb_false_r.
  - rewrite testbit_uN, Z.shiftr_spec by lia. replace (i - 32 + 32) with i by lia.
    destruct (Z.ltb_spec (i - 32) 32); [done|]. symmetry. apply (testbit_high 64); [lia|done|lia].
Qed.

Lemma byte_bits_eq x b : in_u 8 b -> Forall (fun i => Z.testbit x i = Z.testbit b i) (seqZ 0 8) -> u8 x = b.
Proof. by apply word_bits_eq. Qed.

(** the bit of a byte beyond its width *)
Ltac high_bit := repeat match goal with
  | H : in_u 8 ?b |- context [Z.testbit ?b ?i] => rewrite (testbit_high 8 b i) by (first [lia | exact H])
  end; cbn [orb andb]; try reflexivity.

Lemma put_get_le32 a b c d :
  in_u 8 a -> in_u 8 b -> in_u 8 c -> in_u 8 d -> put_le32 (get_le32 [a; b; c; d]) = [a; b; c; d].
Proof.
  intros Ha Hb Hc Hd. unfold get_le32, put_le32, rd. simpl nth.
  f_equal; [|f_equal; [|f_equal; [|f_equal]]]; (apply byte_bits_eq; [done|]);
    enum_bits_with ltac:(high_bit).
Qed.

Lemma bswap_32_in_u v : in_u 32 v -> in_u 32 (bswap_32 v).
Proof.
  intros Hv. unfold bswap_32. repeat (apply lor_in_u; [lia| |]); in_u_tac.
Qed.

Lemma bswap_32_bytes v : in_u 32 v -> get_le32 (put_be32 v) = bswap_32 v.
Proof.
  intros Hv. unfold get_le32, put_be32, rd. apply word_bits_eq; [lia|by apply bswap_32_in_u|].
  unfold bswap_32. simpl nth. enum_bits_with idtac.
Qed.

Lemma put_be32_rev v : put_be32 v = reverse (put_le32 v).
Proof. unfold put_be32. by rewrite Z.shiftr_0_r. Qed.

Lemma bswap_32_involutive v : in_u 32 v -> bswap_32 (bswap_32 v) = v.
Proof.
  intros Hv. rewrite <- bswap_32_bytes by (by apply bswap_32_in_u). rewrite <- (bswap_32_bytes v) by done.
  rewrite (put_be32_rev (get_le32 _)), put_be32_rev. unfold put_le32 at 2.
  change (reverse [?a; ?b; ?c; ?d]) with [d; c; b; a].
  rewrite put_get_le32 by (apply uN_range; lia). by apply (get_put_le32 v).
Qed.

(** ** Counting trailing zeros *)

(** [val] is [v] shifted right by [cnt] zero bits *)
Definition ctz_inv (v : Z) (m : Z) (s : Z * Z) : Prop :=
  0 <= s.1 /\ s.1 + m <= 32 /\ s.2 = v >> s.1 /\ uN s.1 v = 0 /\ uN m s.2 <> 0.

(** one step of the binary search *)
Definition ctz_step (m : Z) (s : Z * Z) : Z * Z :=
  if (s.2 .& (2 ^ m - 1)) =? 0 then (s.1 + m, s.2 >> m) else s.

Lemma ctz_step_inv v m s : 1 <= m -> ctz_inv v (2 * m) s -> ctz_inv v m (ctz_step m s).
Proof.
  intros Hm (H1 & H2 & H3 & H4 & H5). unfold ctz_step, ctz_inv. rewrite land_pow2m1 by lia.
  destruct s as [c x]. cbn [fst snd] in *. destruct (Z.eqb_spec (uN m x) 0) as [E|E]; cbn [fst snd].
  - split_and!; [lia|lia| | |].
    + rewrite H3. rewrite Z.shiftr_shiftr by lia. done.
    + rewrite H3 in E. apply Z.bits_inj'. intros i Hi. rewrite testbit_uN, Z.testbit_0_l by lia.
      destruct (Z.ltb_spec i (c + m)); [|done]. simpl. destruct (Z.ltb_spec i c).
      * assert (Z.testbit (uN c v) i = false) as Hb by (by rewrite H4, Z.testbit_0_l).
        rewrite testbit_uN in Hb by lia. by destruct (Z.ltb_spec i c); [|lia].
      * assert (Z.testbit (uN m (v >> c)) (i - c) = false) as Hb by (by rewrite E, Z.testbit_0_l).
        rewrite testbit_uN, Z.shiftr_spec in Hb by lia. replace (i - c + c) with i in Hb by lia.
        by destruct (Z.ltb_spec (i - c) m); [|lia].
    + intros E'. apply H5. apply Z.bits_inj'. intros i Hi. rewrite testbit_uN, Z.testbit_0_l by lia.
      destruct (Z.ltb_spec i (2 * m)); [|done]. simpl. destruct (Z.ltb_spec i m).
      * assert (Z.testbit (uN m x) i = false) as Hb by (by rewrite E, Z.testbit_0_l).
        rewrite testbit_uN in Hb by lia. by destruct (Z.ltb_spec i m); [|lia].
      * assert (Z.testbit (uN m (x >> m)) (i - m) = false) as Hb by (by rewrite E', Z.testbit_0_l).
        rewrite testbit_uN, Z.shiftr_spec in Hb by lia. replace (i - m + m) with i in Hb by lia.
        by destruct (Z.ltb_spec (i - m) m); [|lia].
  - split_and!; try done; lia.
Qed.

Lemma ctz32_steps v :
  ctz32 v = let s := ctz_step 1 (ctz_step 2 (ctz_step 4 (ctz_step 8 (ctz_step 16 (0, v))))) in
            if (s.2 .& 1) =? 0 then s.1 + 1 else s.1.
Proof.
  unfold ctz32, ctz_step. cbv zeta. cbn [fst snd].
  change (2 ^ 16 - 1) with 0x0000FFFF. change (2 ^ 8 - 1) with 0x000000FF.
  change (2 ^ 4 - 1) with 0x0000000F. change (2 ^ 2 - 1) with 0x00000003. change (2 ^ 1 - 1) with 0x00000001.
  repeat (match goal with |- context [let '(_, _) := (if ?c then _ else _) in _] => destruct c end;
          cbn [fst snd]; try reflexivity).
Qed.

(** the position found holds a one bit, with zeros below it *)
Lemma ctz32_spec v : in_u 32 v -> v <> 0 ->
  0 <= ctz32 v < 32 /\ Z.testbit v (ctz32 v) = true /\ uN (ctz32 v) v = 0.
Proof.
  intros Hv H0. rewrite ctz32_steps.
  assert (ctz_inv v 1 (ctz_step 1 (ctz_step 2 (ctz_step 4 (ctz_step 8 (ctz_step 16 (0, v))))))) as H.
  { do 5 (apply ctz_step_inv; [lia|]; simpl (2 * _)). split_and!; cbn [fst snd]; try lia.
    - by rewrite Z.shiftr_0_r.
    - apply Z.mod_1_r.
    - by rewrite uN_small. }
  revert H. generalize (ctz_step 1 (ctz_step 2 (ctz_step 4 (ctz_step 8 (ctz_step 16 (0, v)))))).
  intros [c x] (H1 & H2 & H3 & H4 & H5). cbn [fst snd] in *. cbv zeta.
  replace (x .& 1) with (uN 1 x) by (by rewrite <- land_pow2m1).
  destruct (Z.eqb_spec (uN 1 x) 0); [done|]. split; [lia|]. split; [|done].
  destruct (Z.testbit v c) eqn:E; [done|]. exfalso. apply H5. apply Z.bits_inj'. intros i Hi.
  rewrite testbit_uN, Z.testbit_0_l by lia. destruct (Z.ltb_spec i 1); [|done].
  replace i with 0 by lia. rewrite H3, Z.shiftr_spec by lia. exact E.
Qed.

(** the lowest one bit, isolated *)
Lemma land_opp_pow2 v k : 0 <= k -> Z.testbit v k = true -> uN k v = 0 -> v .& - v = 2 ^ k.
Proof.
  intros Hk Hb Hz. pose proof (pow2_pos k Hk) as HP.
  assert (exists j, v = (2 * j + 1) * 2 ^ k) as [j ->].
  { exists ((v >> k) / 2). rewrite Z.testbit_odd, shiftr_div in Hb by lia. rewrite shiftr_div by lia.
    unfold uN in Hz. pose proof (Z.div_mod v (2 ^ k) ltac:(lia)).
    pose proof (Z.div_mod (v / 2 ^ k) 2 ltac:(lia)). rewrite Zmod_odd, Hb in H0. lia. }
  assert (- ((2 * j + 1) * 2 ^ k) = ~~ ((2 * j) << k .| Z.ones k)) as ->.
  { rewrite <- Z.add_nocarry_lor.
    - rewrite shiftl_mul by lia. unfold Z.lnot, Z.ones. rewrite Z.shiftl_mul_pow2, Z.mul_1_l by lia. lia.
    - apply Z.bits_inj'. intros i Hi. rewrite Z.land_spec, Z.shiftl_spec, testbit_ones', Z.testbit_0_l by lia.
      destruct (Z.ltb_spec i k); [|by rewrite andb_false_r]. by rewrite Z.testbit_neg_r by lia. }
  rewrite <- shiftl_mul by lia. apply Z.bits_inj'. intros i Hi.
  rewrite Z.land_spec, Z.lnot_spec, Z.lor_spec, !Z.shiftl_spec, testbit_ones', testbit_pow2 by lia.
  destruct (Z.ltb_spec i k).
  - rewrite (Z.testbit_neg_r _ (i - k)) by lia. simpl. by destruct (Z.eqb_spec i k); [lia|].
  - rewrite orb_false_r. destruct (Z.eqb_spec i k) as [->|].
    + rewrite Z.sub_diag. by rewrite Z.testbit_odd_0, Z.testbit_even_0.
    + replace (i - k) with (Z.succ (i - k - 1)) by lia.
      rewrite Z.testbit_odd_succ, Z.testbit_even_succ by lia. by rewrite andb_negb_r.
Qed.

(** ** Properties *)

(** Storing a word through [put_le16/32/64] or [put_be32] and reading it
    back returns it, reading then storing a little-endian word returns its
    bytes, and [bswap_32] exchanges the two byte orders and is its own inverse. *)
Theorem byte_order_roundtrip v a b c d :
  in_u 64 v -> Forall (in_u 8) [a; b; c; d] ->
  get_le16 (put_le16 (u16 v)) = u16 v
  /\ get_le32 (put_le32 (u32 v)) = u32 v
  /\ get_le64 (put_le64 v) = v
  /\ get_be32 (put_be32 (u32 v)) = u32 v
  /\ put_le32 (get_le32 [a; b; c; d]) = [a; b; c; d]
  /\ get_le32 (put_be32 (u32 v)) = bswap_32 (u32 v)
  /\ bswap_32 (bswap_32 (u32 v)) = u32 v.
Proof.
  intros Hv Hb. assert (in_u 32 (u32 v)) by (apply uN_range; lia). assert (in_u 16 (u16 v)) by (apply uN_range; lia).
  repeat match goal with H : Forall _ (_ :: _) |- _ => apply Forall_cons in H as [? ?] end.
  split_and!; auto using get_put_le16, get_put_le32, get_put_le64, get_put_be32, put_get_le32,
    bswap_32_bytes, bswap_32_involutive.
Qed.

Lemma byte_order_roundtrip_witness : get_le64 (put_le64 0x1122334455667788) = 0x1122334455667788.
Proof.
  apply (byte_order_roundtrip 0x1122334455667788 1 2 3 255); [by vm_compute|].
  repeat constructor; by vm_compute.
Defined.

(** The binary search of the portable [ctz32] finds the lowest one bit
    (32 for zero), the same as the compiler builtin it stands in for. *)
Lemma ctz32_correct v : in_u 32 v ->
  ctz32 v = ctz32_builtin v
  /\ (v = 0 -> ctz32 v = 32)
  /\ (v <> 0 -> 0 <= ctz32 v < 32 /\ Z.testbit v (ctz32 v) = true /\ uN (ctz32 v) v = 0).
Proof.
  intros Hv. destruct (decide (v = 0)) as [->|H0]; [done|].
  pose proof (ctz32_spec v Hv H0) as (H1 & H2 & H3). split; [|done].
  unfold ctz32_builtin, tst. destruct (Z.eqb_spec v 0); [done|]. simpl.
  rewrite (land_opp_pow2 v (ctz32 v)) by (done || lia). by rewrite Z.log2_pow2 by lia.
Qed.
