(* ===== verification/IoMem.v ===== *)
(** * The physical memory map (iomem.h, iomem.cpp) and host memory

    Guest RAM lives in host memory: a [uint8_t *] is a host address ([Z], 0
    for NULL) into a finite map of bytes in which an absent byte reads 0 (as
    after [mallocz]).  A range points into it by [pr_phys_mem].  The device
    callbacks of a range are the operations of the class [DeviceIO] (Mmu.v),
    selected by the range's [pr_opaque]. *)

From S2P Require Import Prelude.

(** ** Host memory, little endian *)

Definition HostMem : Type := gmap Z Z.

Definition hm_byte (m : HostMem) (a : Z) : Z := default 0 (m !! a).

Fixpoint hm_read (n : nat) (a : Z) (m : HostMem) : Z :=
  match n with
  | O => 0
  | S n => hm_byte m a .| (hm_read n (a + 1) m << 8)
  end.

Fixpoint hm_write (n : nat) (a v : Z) (m : HostMem) : HostMem :=
  match n with
  | O => m
  | S n => hm_write n (a + 1) (v >> 8) (<[a := u8 v]> m)
  end.

(** [mallocz] clears the bytes it returns *)
Definition hm_clear (base size : Z) (m : HostMem) : HostMem :=
  filter (fun kv : Z * Z => ~ (base <= kv.1 < base + size)) m.

(** ** Ranges and the map *)

Definition DEVIO_SIZE8 : Z := 1 << 0.
Definition DEVIO_SIZE16 : Z := 1 << 1.
Definition DEVIO_SIZE32 : Z := 1 << 2.
Definition DEVIO_DISABLED : Z := 1 << 4.
Definition DEVRAM_FLAG_ROM : Z := 1 << 0.
Definition DEVRAM_FLAG_DIRTY_BITS : Z := 1 << 1.
Definition DEVRAM_FLAG_DISABLED : Z := 1 << 2.
Definition DEVRAM_PAGE_SIZE_LOG2 : Z := 12.
Definition DEVRAM_PAGE_SIZE : Z := 1 << DEVRAM_PAGE_SIZE_LOG2.
Definition PHYS_MEM_RANGE_MAX : Z := 32.

(** [pr_dirty_bits] is NULL or the index of the table it points to. *)
Record PhysMemoryRange := mkRange {
  pr_addr : Z;
  pr_org_size : Z;
  pr_size : Z;
  pr_is_ram : bool;
  pr_devram_flags : Z;
  pr_phys_mem : Z;
  pr_dirty_bits_size : Z;
  pr_dirty_bits : option nat;
  pr_dirty_bits_tab : list (list Z);
  pr_dirty_bits_index : Z;
  pr_opaque : Z;
  pr_devio_flags : Z
}.

Definition PhysMemoryMap : Type := list PhysMemoryRange.
Definition n_phys_mem_range (s : PhysMemoryMap) : Z := Z.of_nat (length s).

(** a pointer to a range is its index *)
Definition in_range (pr : PhysMemoryRange) (paddr : Z) : bool :=
  (pr_addr pr <=? paddr) && (paddr <? u64 (pr_addr pr + pr_size pr)).

(** the loop from the last range down to the first *)
Fixpoint find_range (s : PhysMemoryMap) (paddr : Z) (i : nat) : option (nat * PhysMemoryRange) :=
  match i with
  | O => None
  | S i =>
      match s !! i with
      | Some pr => if in_range pr paddr then Some (i, pr) else find_range s paddr i
      | None => None
      end
  end.

Definition get_phys_mem_range (s : PhysMemoryMap) (paddr : Z) : option (nat * PhysMemoryRange) :=
  find_range s paddr (length s).

(** [None]: an assertion fails *)
Definition register_ram_entry (s : PhysMemoryMap) (addr size devram_flags : Z)
  : option (nat * PhysMemoryMap) :=
  if (n_phys_mem_range s <? PHYS_MEM_RANGE_MAX)
     && ((size .& (DEVRAM_PAGE_SIZE - 1)) =? 0) && negb (size =? 0)
  then Some (length s, s ++ [ {|
    pr_addr := addr; pr_org_size := size;
    pr_size := if tst (devram_flags .& DEVRAM_FLAG_DISABLED) then 0 else size;
    pr_is_ram := true; pr_devram_flags := devram_flags .& ~~ DEVRAM_FLAG_DISABLED;
    pr_phys_mem := 0; pr_dirty_bits_size := 0; pr_dirty_bits := None;
    pr_dirty_bits_tab := []; pr_dirty_bits_index := 0; pr_opaque := 0; pr_devio_flags := 0 |} ])
  else None.

(** number of 32-bit words of the dirty bitmap of [size] bytes of RAM *)
Definition dirty_words (size : Z) : Z := ((size >> DEVRAM_PAGE_SIZE_LOG2) + 31) / 32.

(** [host] is the address [mallocz] returns; 0 (out of memory) ends the program *)
Definition default_register_ram (s : PhysMemoryMap) (addr size devram_flags host : Z) (m : HostMem)
  : option (nat * PhysMemoryMap * HostMem) :=
  match register_ram_entry s addr size devram_flags with
  | None => None
  | Some (i, s) =>
      if host =? 0 then None
      else
        let s := alter (fun pr => {|
          pr_addr := pr_addr pr; pr_org_size := pr_org_size pr; pr_size := pr_size pr;
          pr_is_ram := pr_is_ram pr; pr_devram_flags := pr_devram_flags pr;
          pr_phys_mem := host;
          pr_dirty_bits_size :=
            if tst (devram_flags .& DEVRAM_FLAG_DIRTY_BITS) then dirty_words size * 4
            else pr_dirty_bits_size pr;
          pr_dirty_bits := if tst (devram_flags .& DEVRAM_FLAG_DIRTY_BITS) then Some 0%nat else None;
          pr_dirty_bits_tab :=
            if tst (devram_flags .& DEVRAM_FLAG_DIRTY_BITS)
            then replicate 2 (replicate (Z.to_nat (dirty_words size)) 0) else [];
          pr_dirty_bits_index := 0; pr_opaque := pr_opaque pr; pr_devio_flags := pr_devio_flags pr |}) i s in
        Some (i, s, hm_clear host size m)
  end.

Definition cpu_register_device (s : PhysMemoryMap) (addr size opaque devio_flags : Z)
  : option (nat * PhysMemoryMap) :=
  if (n_phys_mem_range s <? PHYS_MEM_RANGE_MAX) && (size <=? 0xffffffff)
  then Some (length s, s ++ [ {|
    pr_addr := addr; pr_org_size := size;
    pr_size := if tst (devio_flags .& DEVIO_DISABLED) then 0 else size;
    pr_is_ram := false; pr_devram_flags := 0; pr_phys_mem := 0;
    pr_dirty_bits_size := 0; pr_dirty_bits := None; pr_dirty_bits_tab := [];
    pr_dirty_bits_index := 0; pr_opaque := opaque; pr_devio_flags := devio_flags |} ])
  else None.

(** ** Dirty bits *)

Definition with_dirty (pr : PhysMemoryRange) (d : option nat) (tab : list (list Z)) (idx : Z)
  : PhysMemoryRange := {|
  pr_addr := pr_addr pr; pr_org_size := pr_org_size pr; pr_size := pr_size pr;
  pr_is_ram := pr_is_ram pr; pr_devram_flags := pr_devram_flags pr; pr_phys_mem := pr_phys_mem pr;
  pr_dirty_bits_size := pr_dirty_bits_size pr; pr_dirty_bits := d; pr_dirty_bits_tab := tab;
  pr_dirty_bits_index := idx; pr_opaque := pr_opaque pr; pr_devio_flags := pr_devio_flags pr |}.

Definition phys_mem_set_dirty_bit (pr : PhysMemoryRange) (offset : Z) : PhysMemoryRange :=
  match pr_dirty_bits pr with
  | None => pr
  | Some t =>
      let page_index := offset >> DEVRAM_PAGE_SIZE_LOG2 in
      let mask := u32 (1 << (page_index .& 0x1f)) in
      let w := page_index >> 5 in
      with_dirty pr (Some t)
        (alter (fun bits => wr bits w (rd bits w .| mask)) t (pr_dirty_bits_tab pr))
        (pr_dirty_bits_index pr)
  end.

Definition phys_mem_is_dirty_bit (pr : PhysMemoryRange) (offset : Z) : bool :=
  match pr_dirty_bits pr with
  | None => true
  | Some t =>
      let page_index := offset >> DEVRAM_PAGE_SIZE_LOG2 in
      let w := page_index >> 5 in
      tst ((rd (pr_dirty_bits_tab pr !!! t) w >> (page_index .& 0x1f)) .& 1)
  end.

(** the bitmap is returned and the other table, cleared, takes its place;
    [flush] is the map's [flush_tlb_write_range] callback acting on its [opaque] *)
Definition default_get_dirty_bits {O : Type} (flush : Z -> Z -> O -> O) (pr : PhysMemoryRange)
    (opaque : O) : list Z * PhysMemoryRange * O :=
  let dirty_bits := match pr_dirty_bits pr with Some t => pr_dirty_bits_tab pr !!! t | None => [] end in
  let n := Z.to_nat (pr_dirty_bits_size pr / 4) in
  let has_dirty_bits := existsb tst (take n dirty_bits) in
  let opaque := if has_dirty_bits && negb (pr_size pr =? 0)
                then flush (pr_phys_mem pr) (pr_org_size pr) opaque else opaque in
  let idx := pr_dirty_bits_index pr .^ 1 in
  let t := Z.to_nat idx in
  (dirty_bits,
   with_dirty pr (Some t) (alter (fun bits => replicate n 0 ++ drop n bits) t (pr_dirty_bits_tab pr)) idx,
   opaque).

Definition with_mapping (pr : PhysMemoryRange) (addr size : Z) : PhysMemoryRange := {|
  pr_addr := addr; pr_org_size := pr_org_size pr; pr_size := size;
  pr_is_ram := pr_is_ram pr; pr_devram_flags := pr_devram_flags pr; pr_phys_mem := pr_phys_mem pr;
  pr_dirty_bits_size := pr_dirty_bits_size pr; pr_dirty_bits := pr_dirty_bits pr;
  pr_dirty_bits_tab := pr_dirty_bits_tab pr; pr_dirty_bits_index := pr_dirty_bits_index pr;
  pr_opaque := pr_opaque pr; pr_devio_flags := pr_devio_flags pr |}.

(** move, enable or disable a mapping *)
Definition default_set_addr {O : Type} (flush : Z -> Z -> O -> O) (pr : PhysMemoryRange)
    (addr : Z) (enabled : bool) (opaque : O) : PhysMemoryRange * O :=
  let flush_ram o := if pr_is_ram pr then flush (pr_phys_mem pr) (pr_org_size pr) o else o in
  if enabled then
    if (pr_size pr =? 0) || negb (pr_addr pr =? addr) then
      (with_mapping pr addr (pr_org_size pr), flush_ram opaque)
    else (pr, opaque)
  else if negb (pr_size pr =? 0) then (with_mapping pr 0 0, flush_ram opaque)
  else (pr, opaque).
