(* ===== verification/Mmu.v ===== *)
(** * PMP, triggers, address translation and memory access (riscv_cpu.cpp)

    The functions here read and write a [World]: the hart, the machine fields
    the hart's code reads through [s->machine], the memory map, host memory and
    the state of the devices.  A C function returning 0 or an error code with
    an out parameter returns the code, the value and the new world; the value
    is 0 where the C code leaves the out parameter unassigned.

    Built without LIVECACHE and GOLDMEM_INORDER, so [track_write],
    [track_dread] and [track_iread] return their data and change nothing. *)

From S2P Require Import Prelude Riscv CpuState IoMem.

(** ** The world *)

Record World (D : Type) := mkWorld {
  cpu : RISCVCPUState;
  mem_map : PhysMemoryMap;
  hmem : HostMem;
  dev : D;
  (** [machine->common] *)
  cosim : bool;
  pending_interrupt : Z
}.
#[global] Arguments mkWorld {D}.
#[global] Arguments cpu {D}.
#[global] Arguments mem_map {D}.
#[global] Arguments hmem {D}.
#[global] Arguments dev {D}.
#[global] Arguments cosim {D}.
#[global] Arguments pending_interrupt {D}.

(** The device callbacks: [pr->read_func] and [pr->write_func] of the range
    whose [opaque] is given.  They may change anything a device can reach. *)
Class DeviceIO (D : Type) := {
  read_func : Z -> Z -> Z -> World D -> Z * World D;       (* opaque offset size_log2 *)
  write_func : Z -> Z -> Z -> Z -> World D -> World D      (* opaque offset val size_log2 *)
}.

(** ** Physical memory protection (no device state involved) *)

(** privilege the access is checked with *)
Definition effective_priv (s : RISCVCPUState) (not_modified : bool) : Z :=
  if tst (mstatus s .& MSTATUS_MPRV) && negb not_modified
  then (mstatus s >> MSTATUS_MPP_SHIFT) .& 3 else priv s.

(** the loop over the unpacked entries from [i] on, [n] of them left *)
Fixpoint pmp_scan (s : RISCVCPUState) (prv paddr size perm : Z) (i : Z) (n : nat) : bool :=
  match n with
  | O => prv =? PRV_M
  | S n =>
      let e := pmp s !!! Z.to_nat i in
      let cfg := rd (pmpcfg s) i in
      if (lo e <=? u64 (paddr + size - 1)) && (paddr <? hi e) then
        if (prv <? PRV_M) || tst (cfg .& PMPCFG_L) then (perm .& cfg) =? perm else true
      else pmp_scan s prv paddr size perm (i + 1) n
  end.

Definition riscv_cpu_pmp_access_ok (s : RISCVCPUState) (paddr size perm : Z) : bool :=
  if negb (paddr >> physical_addr_len s =? 0) then false
  else
    let prv := effective_priv s (tst (perm .& PMPCFG_X)) in
    pmp_scan s prv paddr size perm 0 (Z.to_nat (pmp_n s)).

(** ** TLBs *)

Definition tlb_entry (l : list TLBEntry) (i : Z) : TLBEntry := l !!! Z.to_nat i.
Definition tlb_set (l : list TLBEntry) (i : Z) (e : TLBEntry) : list TLBEntry := <[Z.to_nat i := e]> l.

Definition tlb_invalidate (e : TLBEntry) : TLBEntry := mkTLBEntry (u64 (-1)) (mem_addend e).

Definition tlb_init (s : RISCVCPUState) : RISCVCPUState :=
  let s := with_tlb_read (map tlb_invalidate (tlb_read s)) s in
  let s := with_tlb_write (map tlb_invalidate (tlb_write s)) s in
  with_tlb_code (map tlb_invalidate (tlb_code s)) s.
Definition tlb_flush_all (s : RISCVCPUState) : RISCVCPUState := tlb_init s.
Definition tlb_flush_vaddr (s : RISCVCPUState) (va : Z) : RISCVCPUState := tlb_flush_all s.

(** drop the write-TLB entries that point into a block of host memory *)
Definition riscv_cpu_flush_tlb_write_range_ram (ram_ptr ram_size : Z) (s : RISCVCPUState) : RISCVCPUState :=
  let ram_end := u64 (ram_ptr + ram_size) in
  with_tlb_write (map (fun e =>
    if negb (vaddr e =? u64 (-1)) then
      let ptr := u64 (mem_addend e + vaddr e) in
      if (ram_ptr <=? ptr) && (ptr <? ram_end) then tlb_invalidate e else e
    else e) (tlb_write s)) s.

Definition tlb_index (addr : Z) : Z := (addr >> PG_SHIFT) .& (TLB_SIZE - 1).

(** ** Triggers *)

(** the [i]-th trigger: [Some] when it fires *)
Definition trigger_fires (s : RISCVCPUState) (t_mctl addr : Z) (i : Z) : bool :=
  let t1 := rd (tdata1 s) i in
  let t2 := rd (tdata2 s) i in
  if (t1 .& t_mctl) =? t_mctl then
    let t_match := (t1 .& MCONTROL_MATCH) >> 7 in
    let napot_mask := u64 (~~ (u64 (t2 + 1) .^ t2)) in
    let napot_addr := napot_mask .& addr in
    let napot_tdata2 := napot_mask .& t2 in
    ((t_match =? MCONTROL_MATCH_EQUAL) && (addr =? t2))
    || ((t_match =? MCONTROL_MATCH_NAPOT) && (napot_addr =? napot_tdata2))
    || ((t_match =? MCONTROL_MATCH_GE) && (t2 <=? addr))
    || ((t_match =? MCONTROL_MATCH_LT) && (addr <? t2))
  else false.

Fixpoint trigger_loop (t_mctl addr : Z) (i : Z) (n : nat) (s : RISCVCPUState) : bool * RISCVCPUState :=
  match n with
  | O => (false, s)
  | S n =>
      if trigger_fires s t_mctl addr i then
        if tst (rd (tdata2 s) i .& MCONTROL_ACTION) && tst (rd (tdata1 s) i .& MCONTROL_DMODE) then
          (true, with_pc 0x0800 (riscv_set_debug_mode true s))
        else (true, with_pending_tval addr (with_pending_exception CAUSE_BREAKPOINT s))
      else trigger_loop t_mctl addr (i + 1) n s
  end.

Definition check_triggers (t_mctl addr : Z) (s : RISCVCPUState) : bool * RISCVCPUState :=
  if debug_mode s then (false, s)
  else
    let t_mctl := t_mctl .| (MCONTROL_U << priv s) in
    trigger_loop t_mctl addr 0 (Z.to_nat MAX_TRIGGERS) s.

Section World.
Context {D : Type} {io : DeviceIO D}.
Implicit Types w : World D.

Definition with_cpu (s : RISCVCPUState) (w : World D) : World D :=
  mkWorld s (mem_map w) (hmem w) (dev w) (cosim w) (pending_interrupt w).
Definition with_mem_map (m : PhysMemoryMap) (w : World D) : World D :=
  mkWorld (cpu w) m (hmem w) (dev w) (cosim w) (pending_interrupt w).
Definition with_hmem (m : HostMem) (w : World D) : World D :=
  mkWorld (cpu w) (mem_map w) m (dev w) (cosim w) (pending_interrupt w).
Definition with_dev (d : D) (w : World D) : World D :=
  mkWorld (cpu w) (mem_map w) (hmem w) d (cosim w) (pending_interrupt w).
Definition upd_cpu (f : RISCVCPUState -> RISCVCPUState) (w : World D) : World D := with_cpu (f (cpu w)) w.

(** host loads and stores of [n] bytes *)
Definition load (n : nat) (ptr : Z) w : Z := hm_read n ptr (hmem w).
Definition store (n : nat) (ptr v : Z) w : World D := with_hmem (hm_write n ptr v (hmem w)) w.

(** [None] in place of the NULL pointer; the boolean is [*fail] *)
Definition get_phys_mem_range_pmp w (paddr size perm : Z) : option (nat * PhysMemoryRange) * bool :=
  if negb (riscv_cpu_pmp_access_ok (cpu w) paddr size perm) then (None, true)
  else (get_phys_mem_range (mem_map w) paddr, false).

(** [riscv_phys_write_u8/32/64], for [size] bits; the boolean is [*fail] *)
Definition riscv_phys_write (size : Z) (paddr val : Z) w : bool * World D :=
  match get_phys_mem_range_pmp w paddr (size / 8) PMPCFG_W with
  | (Some (_, pr), false) =>
      if pr_is_ram pr then
        (false, store (Z.to_nat (size / 8)) (u64 (pr_phys_mem pr + u64 (paddr - pr_addr pr))) val w)
      else (true, w)
  | _ => (true, w)
  end.

Definition riscv_phys_read (size : Z) (paddr : Z) w : Z * bool :=
  match get_phys_mem_range_pmp w paddr (size / 8) PMPCFG_R with
  | (Some (_, pr), false) =>
      (load (Z.to_nat (size / 8)) (u64 (pr_phys_mem pr + u64 (paddr - pr_addr pr))) w, false)
  | _ => (0, true)
  end.

(** ** Address translation *)

Definition PTE_V_MASK : Z := 1 << 0.
Definition PTE_U_MASK : Z := 1 << 4.
Definition PTE_A_MASK : Z := 1 << 6.
Definition PTE_D_MASK : Z := 1 << 7.

(** the checks on a leaf entry found at level [i], and the address *)
Definition leaf_pte w (va : Z) (access : riscv_memory_access_t) (prv levels i pte vaddr_shift : Z)
  : Z * Z :=
  let s := cpu w in
  let paddr := u64 ((pte >> 10) << PG_SHIFT) in
  let xwr := (pte >> 1) .& 7 in
  if (xwr =? 2) || (xwr =? 6) then (-1, 0)
  else if (if prv =? PRV_S
           then tst (pte .& PTE_U_MASK) && negb (tst (mstatus s .& MSTATUS_SUM))
           else negb (tst (pte .& PTE_U_MASK))) then (-1, 0)
  else
    let xwr := if tst (mstatus s .& MSTATUS_MXR) then xwr .| (xwr >> 2) else xwr in
    if ((xwr >> access_code access) .& 1) =? 0 then (-1, 0)
    else
      let ppn := u32 (pte >> 10) in
      let j := levels - 1 - i in
      if tst (((1 << j) - 1) .& ppn) then (-1, 0)
      else if negb (tst (pte .& PTE_A_MASK)) then (-1, 0)
      else if bool_decide (access = ACCESS_WRITE) && negb (tst (pte .& PTE_D_MASK)) then (-1, 0)
      else
        let vaddr_mask := (1 << vaddr_shift) - 1 in
        (0, (paddr .& ~~ vaddr_mask) .| (va .& vaddr_mask)).

(** the walk from level [i] with the table at [pte_addr]; [n] levels are left *)
Fixpoint walk w (va : Z) (access : riscv_memory_access_t) (prv levels i pte_addr : Z) (n : nat) : Z * Z :=
  match n with
  | O => (-1, 0)
  | S n =>
      let pte_bits := 12 - 3 in
      let pte_mask := (1 << pte_bits) - 1 in
      let vaddr_shift := PG_SHIFT + pte_bits * (levels - 1 - i) in
      let pte_idx := (va >> vaddr_shift) .& pte_mask in
      let pte_addr := u64 (pte_addr + (pte_idx << 3)) in
      let '(pte, fail) := riscv_phys_read 64 pte_addr w in
      if fail then (-2, 0)
      else if negb (tst (pte .& PTE_V_MASK)) then (-1, 0)
      else
        let paddr := u64 ((pte >> 10) << PG_SHIFT) in
        let xwr := (pte >> 1) .& 7 in
        if negb (xwr =? 0) then leaf_pte w va access prv levels i pte vaddr_shift
        else walk w va access prv levels (i + 1) paddr n
  end.

(** return code (0, -1, -2) and [*ppaddr] *)
Definition riscv_cpu_get_phys_addr w (va : Z) (access : riscv_memory_access_t) : Z * Z :=
  let s := cpu w in
  let prv := effective_priv s (bool_decide (access = ACCESS_CODE)) in
  if prv =? PRV_M then (0, va)
  else
    let mode := (satp s >> 60) .& 0xf in
    if mode =? 0 then (0, va)
    else
      let levels := mode - 8 + 3 in
      let vaddr_shift := 64 - (PG_SHIFT + levels * 9) in
      if negb ((s64 (s64 va << vaddr_shift) >> vaddr_shift) =? s64 va) then (-1, 0)
      else
        let pte_addr := u64 ((satp s .& ((1 << 44) - 1)) << PG_SHIFT) in
        walk w va access prv levels 0 pte_addr (Z.to_nat levels).

(** [s->pending_tval = tval; s->pending_exception = cause] *)
Definition pend (cause tval : Z) (s : RISCVCPUState) : RISCVCPUState :=
  with_pending_exception cause (with_pending_tval tval s).

(** ** Data accesses *)

(** the device part of [riscv_cpu_read_memory]: the value read *)
Definition device_read (pr : PhysMemoryRange) (offset size_log2 : Z) w : Z * World D :=
  let offset := u32 offset in
  if tst ((pr_devio_flags pr >> size_log2) .& 1) then
    read_func (pr_opaque pr) offset size_log2 w
  else if tst (pr_devio_flags pr .& DEVIO_SIZE32) && (size_log2 =? 3) then
    let '(ret, w) := read_func (pr_opaque pr) offset 2 w in
    let '(hi, w) := read_func (pr_opaque pr) (u32 (offset + 4)) 2 w in
    (ret .| (hi << 32), w)
  else (0, w).

Definition device_write (pr : PhysMemoryRange) (offset val size_log2 : Z) w : World D :=
  let offset := u32 offset in
  if tst ((pr_devio_flags pr >> size_log2) .& 1) then
    write_func (pr_opaque pr) offset (u32 val) size_log2 w
  else if tst (pr_devio_flags pr .& DEVIO_SIZE32) && (size_log2 =? 3) then
    let w := write_func (pr_opaque pr) offset (val .& 0xffffffff) 2 w in
    write_func (pr_opaque pr) (u32 (offset + 4)) ((val >> 32) .& 0xffffffff) 2 w
  else w.

Definition fill_tlb_read (addr paddr ptr : Z) (s : RISCVCPUState) : RISCVCPUState :=
  let tlb_idx := tlb_index addr in
  let s := with_tlb_read_paddr_addend (wr (tlb_read_paddr_addend s) tlb_idx (u64 (paddr - addr))) s in
  with_tlb_read (tlb_set (tlb_read s) tlb_idx (mkTLBEntry (addr .& ~~ PG_MASK) (u64 (ptr - addr)))) s.

Definition fill_tlb_write (addr paddr ptr : Z) (s : RISCVCPUState) : RISCVCPUState :=
  let tlb_idx := tlb_index addr in
  let s := with_tlb_write_paddr_addend (wr (tlb_write_paddr_addend s) tlb_idx (u64 (paddr - addr))) s in
  with_tlb_write (tlb_set (tlb_write s) tlb_idx (mkTLBEntry (addr .& ~~ PG_MASK) (u64 (ptr - addr)))) s.

Definition fill_tlb_code (addr paddr ptr : Z) (s : RISCVCPUState) : RISCVCPUState :=
  let tlb_idx := tlb_index addr in
  let s := with_tlb_code_paddr_addend (wr (tlb_code_paddr_addend s) tlb_idx (u64 (paddr - addr))) s in
  with_tlb_code (tlb_set (tlb_code s) tlb_idx (mkTLBEntry (addr .& ~~ PG_MASK) (u64 (ptr - addr)))) s.

(** the host address of [paddr] in a RAM range *)
Definition ram_ptr (pr : PhysMemoryRange) (paddr : Z) : Z :=
  u64 (pr_phys_mem pr + u64 (paddr - pr_addr pr)).

(** return code, [*pval] and the world; misaligned accesses always fault *)
Definition riscv_cpu_read_memory (addr size_log2 : Z) w : Z * Z * World D :=
  let size := 1 << size_log2 in
  let al := addr .& (size - 1) in
  if negb (al =? 0) then (-1, 0, upd_cpu (pend CAUSE_MISALIGNED_LOAD addr) w)
  else
    let '(err, paddr) := riscv_cpu_get_phys_addr w addr ACCESS_READ in
    if negb (err =? 0) then
      (-1, 0, upd_cpu (pend (if err =? -1 then CAUSE_LOAD_PAGE_FAULT else CAUSE_FAULT_LOAD) addr) w)
    else
      match get_phys_mem_range_pmp w paddr size PMPCFG_R with
      | (_, true) => (-1, 0, upd_cpu (pend CAUSE_FAULT_LOAD addr) w)
      | (None, false) => (0, 0, w)
      | (Some (_, pr), false) =>
          let '(ret, w) :=
            if pr_is_ram pr then
              let ptr := ram_ptr pr paddr in
              let w := upd_cpu (fill_tlb_read addr paddr ptr) w in
              (load (Z.to_nat size) ptr w, w)
            else device_read pr (u64 (paddr - pr_addr pr)) size_log2 w in
          (0, ret, upd_cpu (with_last_data_paddr paddr) w)
      end.

Definition riscv_cpu_write_memory (addr val size_log2 : Z) w : Z * World D :=
  let size := 1 << size_log2 in
  if negb ((addr .& (size - 1)) =? 0) then (-1, upd_cpu (pend CAUSE_MISALIGNED_STORE addr) w)
  else
    let '(err, paddr) := riscv_cpu_get_phys_addr w addr ACCESS_WRITE in
    if negb (err =? 0) then
      (-1, upd_cpu (pend (if err =? -1 then CAUSE_STORE_PAGE_FAULT else CAUSE_FAULT_STORE) addr) w)
    else
      match get_phys_mem_range_pmp w paddr size PMPCFG_W with
      | (_, true) => (-1, upd_cpu (pend CAUSE_FAULT_STORE addr) w)
      | (pr, false) =>
          let w :=
            match pr with
            | None => w
            | Some (i, pr) =>
                if pr_is_ram pr then
                  let w := with_mem_map (alter (fun pr =>
                             phys_mem_set_dirty_bit pr (u64 (paddr - pr_addr pr))) i (mem_map w)) w in
                  let ptr := ram_ptr pr paddr in
                  let w := upd_cpu (fill_tlb_write addr paddr ptr) w in
                  store (Z.to_nat size) ptr val w
                else device_write pr (u64 (paddr - pr_addr pr)) val size_log2 w
            end in
          (0, upd_cpu (with_last_data_paddr paddr) w)
      end.

(** [target_read_u8/16/32/64]: [size] bits; the TLB fast path, then the slow one *)
Definition target_read (size : Z) (addr : Z) w : Z * Z * World D :=
  let '(fired, s) := check_triggers MCONTROL_LOAD addr (cpu w) in
  let w := with_cpu s w in
  if fired then (-1, 0, w)
  else if negb ((addr .& (size / 8 - 1)) =? 0) then
    (-1, 0, upd_cpu (pend CAUSE_MISALIGNED_LOAD addr) w)
  else
    let tlb_idx := tlb_index addr in
    let e := tlb_entry (tlb_read (cpu w)) tlb_idx in
    if vaddr e =? (addr .& ~~ (PG_MASK .& ~~ (size / 8 - 1))) then
      (0, load (Z.to_nat (size / 8)) (u64 (mem_addend e + addr)) w, w)
    else
      let '(ret, val, w) := riscv_cpu_read_memory addr (Z.log2 (size / 8)) w in
      if negb (ret =? 0) then (ret, 0, w) else (0, uN size val, w).

Definition target_write (size : Z) (addr val : Z) w : Z * World D :=
  let val := uN size val in
  let '(fired, s) := check_triggers MCONTROL_STORE addr (cpu w) in
  let w := with_cpu s w in
  if fired then (-1, w)
  else if negb ((addr .& (size / 8 - 1)) =? 0) then
    (-1, upd_cpu (pend CAUSE_MISALIGNED_STORE addr) w)
  else
    let tlb_idx := tlb_index addr in
    let e := tlb_entry (tlb_write (cpu w)) tlb_idx in
    if vaddr e =? (addr .& ~~ (PG_MASK .& ~~ (size / 8 - 1))) then
      (0, store (Z.to_nat (size / 8)) (u64 (mem_addend e + addr)) val w)
    else riscv_cpu_write_memory addr val (Z.log2 (size / 8)) w.

(** ** Instruction fetch *)

Definition get_insn32 (ptr : Z) w : Z := load 4 ptr w.

(** return code, the instruction and the world *)
Definition target_read_insn_slow (size : Z) (addr : Z) w : Z * Z * World D :=
  let '(err, paddr) := riscv_cpu_get_phys_addr w addr ACCESS_CODE in
  if negb (err =? 0) then
    (-1, 0, upd_cpu (pend (if err =? -1 then CAUSE_FETCH_PAGE_FAULT else CAUSE_FAULT_FETCH) addr) w)
  else
    match get_phys_mem_range_pmp w paddr (size / 8) PMPCFG_X with
    | (Some (_, pr), false) =>
        if negb (pr_is_ram pr) then (-1, 0, upd_cpu (pend CAUSE_FAULT_FETCH addr) w)
        else
          let tlb_idx := tlb_index addr in
          let ptr := ram_ptr pr paddr in
          let w := if riscv_cpu_pmp_access_ok (cpu w) (paddr .& ~~ PG_MASK) (PG_MASK + 1) PMPCFG_X
                   then upd_cpu (fill_tlb_code addr paddr ptr) w else w in
          let tlb_idx_cross := tlb_index (u64 (addr + 2)) in
          if negb (tlb_idx =? tlb_idx_cross) && (size =? 32) then
            let '(err, paddr_cross) := riscv_cpu_get_phys_addr w (u64 (addr + 2)) ACCESS_CODE in
            if negb (err =? 0) then
              (-1, 0, upd_cpu (pend (if err =? -1 then CAUSE_FETCH_PAGE_FAULT else CAUSE_FAULT_FETCH) addr) w)
            else
              match get_phys_mem_range_pmp w paddr_cross 2 PMPCFG_X with
              | (Some (_, pr_cross), false) =>
                  if negb (pr_is_ram pr_cross) then (-1, 0, upd_cpu (pend CAUSE_FAULT_FETCH addr) w)
                  else
                    let data1 := load 2 ptr w in
                    let data2 := load 2 (ram_ptr pr_cross paddr_cross) w in
                    (0, data1 .| u32 (data2 << 16), w)
              | _ => (-1, 0, upd_cpu (pend CAUSE_FAULT_FETCH addr) w)
              end
          else (0, load (Z.to_nat (size / 8)) ptr w, w)
    | _ => (-1, 0, upd_cpu (pend CAUSE_FAULT_FETCH addr) w)
    end.

Definition target_read_insn_u16 (addr : Z) w : Z * Z * World D :=
  let e := tlb_entry (tlb_code (cpu w)) (tlb_index addr) in
  if vaddr e =? (addr .& ~~ PG_MASK) then (0, load 2 (u64 (mem_addend e + addr)) w, w)
  else
    let '(ret, insn, w) := target_read_insn_slow 16 addr w in
    if negb (ret =? 0) then (-1, 0, w) else (0, u16 insn, w).

(** a fetch that leaves the pending exception as it was *)
Definition riscv_read_insn (addr : Z) w : Z * Z * World D :=
  let saved_pending_exception := pending_exception (cpu w) in
  let saved_pending_tval := pending_tval (cpu w) in
  let '(res, insn, w) := target_read_insn_slow 32 addr w in
  (res, insn,
   upd_cpu (fun s => with_pending_tval saved_pending_tval
                       (with_pending_exception saved_pending_exception s)) w).

End World.
