(* ===== verification/Csr.v ===== *)
(** * Control and status registers (riscv_cpu.cpp)

    [csr_read] and [csr_write] return the C result code; the value read and
    the new state come with it.  The hooks [machine->hooks.csr_read/csr_write]
    are function pointers an embedding program may install: [None] here is the
    NULL pointer. *)

From S2P Require Import Prelude Riscv CpuState Mmu.

(** ** mstatus *)

Definition SSTATUS_MASK : Z :=
  MSTATUS_SIE .| MSTATUS_SPIE .| MSTATUS_SPP .| MSTATUS_FS .| MSTATUS_SUM .| MSTATUS_MXR .| MSTATUS_UXL_MASK.

Definition MSTATUS_MASK : Z :=
  MSTATUS_SIE .| MSTATUS_MIE .| MSTATUS_SPIE .| MSTATUS_MPIE .| MSTATUS_SPP .| MSTATUS_MPP .| MSTATUS_FS
    .| MSTATUS_MPRV .| MSTATUS_SUM .| MSTATUS_MXR .| MSTATUS_TVM .| MSTATUS_TW .| MSTATUS_TSR
    .| MSTATUS_UXL_MASK .| MSTATUS_SXL_MASK.

(** the complete mstatus with the SD bit *)
Definition get_mstatus (s : RISCVCPUState) (mask : Z) : Z :=
  let val := mstatus s .| (fs s << MSTATUS_FS_SHIFT) in
  let val := val .& mask in
  let sd := ((val .& MSTATUS_FS) =? MSTATUS_FS) || ((val .& MSTATUS_XS) =? MSTATUS_XS) in
  if sd then val .| (1 << 63) else val.

Definition set_mstatus (val : Z) (s : RISCVCPUState) : RISCVCPUState :=
  let md := mstatus s .^ val in
  let s :=
    if tst (md .& (MSTATUS_MPRV .| MSTATUS_SUM .| MSTATUS_MXR))
       || (tst (mstatus s .& MSTATUS_MPRV) && tst (md .& MSTATUS_MPP))
    then tlb_flush_all s else s in
  let s := with_fs ((val >> MSTATUS_FS_SHIFT) .& 3) s in
  let mask := MSTATUS_MASK .& ~~ (MSTATUS_FS .| MSTATUS_UXL_MASK .| MSTATUS_SXL_MASK) in
  with_mstatus ((mstatus s .& ~~ mask) .| (val .& mask)) s.

Definition riscv_cpu_get_mstatus (s : RISCVCPUState) : Z := get_mstatus s MSTATUS_MASK.

(** [s->f & ~mask | val & mask] *)
Definition merge (mask old val : Z) : Z := (old .& ~~ mask) .| (val .& mask).

(** ** Reads *)

Definition counter_access_ok (s : RISCVCPUState) (csr : Z) : bool :=
  let counteren :=
    if priv s =? PRV_U then scounteren s
    else if priv s =? PRV_S then mcounteren s
    else if priv s =? PRV_M then u32 (~~ 0) else 0 in
  tst ((counteren >> (csr .& 31)) .& 1).

(** the [switch] of [csr_read]: the value, or [None] for [return -1] *)
Definition csr_value (s : RISCVCPUState) (csr : Z) : option Z :=
  let fp v := if fs s =? 0 then None else Some v in
  let dbg v := if debug_mode s then Some v else None in
  let ctr v := if counter_access_ok s csr then Some v else None in
  if csr =? 0x001 then fp (fflags s)
  else if csr =? 0x002 then fp (frm s)
  else if csr =? 0x003 then fp (fflags s .| (frm s << 5))
  else if csr =? 0x100 then Some (get_mstatus s SSTATUS_MASK)
  else if csr =? 0x104 then Some (mie s .& mideleg s)
  else if csr =? 0x105 then Some (stvec s)
  else if csr =? 0x106 then Some (scounteren s)
  else if csr =? 0x140 then Some (sscratch s)
  else if csr =? 0x141 then Some (sepc s)
  else if csr =? 0x142 then Some (scause s)
  else if csr =? 0x143 then Some (stval s)
  else if csr =? 0x144 then Some (mip s .& mideleg s)
  else if csr =? 0x180 then
    if (priv s =? PRV_S) && tst (mstatus s .& MSTATUS_TVM) then None else Some (satp s)
  else if csr =? 0x300 then Some (get_mstatus s (u64 (-1)))
  else if csr =? 0x301 then Some (misa s .| u64 (2 << 62))
  else if csr =? 0x302 then Some (medeleg s)
  else if csr =? 0x303 then Some (mideleg s)
  else if csr =? 0x304 then Some (mie s)
  else if csr =? 0x305 then Some (mtvec s)
  else if csr =? 0x306 then Some (mcounteren s)
  else if csr =? 0x320 then Some (mcountinhibit s)
  else if csr =? 0x340 then Some (mscratch s)
  else if csr =? 0x341 then Some (mepc s)
  else if csr =? 0x342 then Some (mcause s)
  else if csr =? 0x343 then Some (mtval s)
  else if csr =? 0x344 then Some (mip s)
  else if csr =? 0x7a0 then Some (tselect s)
  else if csr =? 0x7a1 then Some (rd (tdata1 s) (tselect s))
  else if csr =? 0x7a2 then Some (rd (tdata2 s) (tselect s))
  else if csr =? 0x7b0 then dbg (dcsr s)
  else if csr =? 0x7b1 then dbg (dpc s)
  else if csr =? 0x7b2 then dbg (dscratch s)
  else if (csr =? 0xb00) || (csr =? 0xc00) then ctr (mcycle s)
  else if (csr =? 0xb02) || (csr =? 0xc02) then ctr (minstret s)
  else if ((0xb03 <=? csr) && (csr <=? 0xb1f)) || ((0xc03 <=? csr) && (csr <=? 0xc1f)) then ctr 0
  else if csr =? 0xf14 then Some (mhartid s)
  else if csr =? 0xf13 then Some (mimpid s)
  else if csr =? 0xf12 then Some (marchid s)
  else if csr =? 0xf11 then Some (mvendorid s)
  else if (0x323 <=? csr) && (csr <=? 0x33f) then Some (rd (mhpmevent s) (csr .& 0x1F))
  else if (csr =? CSR_PMPCFG 0) || (csr =? CSR_PMPCFG 2) then Some (rd (csr_pmpcfg s) (csr - CSR_PMPCFG 0))
  else if (CSR_PMPADDR 0 <=? csr) && (csr <=? CSR_PMPADDR 15) then
    Some (rd (csr_pmpaddr s) (csr - CSR_PMPADDR 0))
  else None.

(** read-only CSR written, or privilege too low *)
Definition csr_access_denied (s : RISCVCPUState) (csr : Z) (will_write : bool) : bool :=
  (((csr .& 0xc00) =? 0xc00) && will_write) || (priv s <? ((csr >> 8) .& 3)).

(** ** Writes *)

Definition set_frm (val : Z) (s : RISCVCPUState) : RISCVCPUState := with_frm (u8 val) s.

(** the rounding mode of an instruction, or -1 *)
Definition get_insn_rm (s : RISCVCPUState) (rm : Z) : Z :=
  let rm := if rm =? 7 then frm s else rm in
  if 5 <=? rm then -1 else rm.

(** number of trailing ones of a 64-bit word: the [j] loop *)
Fixpoint trailing_ones (v j : Z) (n : nat) : Z :=
  match n with
  | O => j
  | S n => if (v .& (1 << j)) =? 0 then j else trailing_ones v (j + 1) n
  end.

Definition napot_range (a : Z) : pmp_addr :=
  let j := trailing_ones a 0 64 + 3 in
  if 64 <=? j then mkPmp 0 (u64 (~~ 0))
  else
    let l := u64 (a << 2) .& ~~ ((1 << j) - 1) in
    let h := u64 (l + (1 << j)) in
    mkPmp l (if h <=? l then u64 (~~ 0) else h).

(** the configuration byte of entry [i] *)
Definition pmp_cfg_byte (s : RISCVCPUState) (i : Z) : Z :=
  if i <? 8 then u8 (rd (csr_pmpcfg s) 0 >> (i * 8)) else u8 (rd (csr_pmpcfg s) 2 >> ((i - 8) * 8)).

(** the range entry [i] describes, [None] when it is off *)
Definition pmp_entry (s : RISCVCPUState) (i : Z) : option pmp_addr :=
  let a n := rd (csr_pmpaddr s) n in
  let m := pmp_cfg_byte s i .& PMPCFG_A_MASK in
  if m =? PMPCFG_A_TOR then
    Some (mkPmp (if i =? 0 then 0 else u64 (a (i - 1) << 2)) (u64 (a i << 2)))
  else if m =? PMPCFG_A_NA4 then Some (mkPmp (u64 (a i << 2)) (u64 (u64 (a i << 2) + 4)))
  else if m =? PMPCFG_A_NAPOT then Some (napot_range (a i))
  else None.

(** one turn of the loop of [unpack_pmpaddrs] *)
Definition unpack_pmp_step (s : RISCVCPUState) (i : Z) : RISCVCPUState :=
  match pmp_entry s i with
  | None => s
  | Some e =>
      let s := with_pmpcfg (wr (pmpcfg s) (pmp_n s) (pmp_cfg_byte s i)) s in
      let s := with_pmp (<[Z.to_nat (pmp_n s) := e]> (pmp s)) s in
      with_pmp_n (pmp_n s + 1) s
  end.

Definition unpack_pmpaddrs (s : RISCVCPUState) : RISCVCPUState :=
  let s := with_pmp_n 0 s in
  let s := foldl unpack_pmp_step s (seqZ 0 16) in
  tlb_flush_all s.

(** [PMP_N] is 8: entries 8 to 15 ignore writes *)
Definition csr_write_pmpcfg (c val : Z) (s : RISCVCPUState) : RISCVCPUState :=
  if PMP_N <=? Z.quot c 2 * 8 then s
  else
    let orig := rd (csr_pmpcfg s) c in
    let new_val :=
      foldl (fun acc i =>
        let cfg := (orig >> (i * 8)) .& 255 in
        let cfg := if (cfg .& PMPCFG_L) =? 0 then (val >> (i * 8)) .& 255 else cfg in
        let cfg := cfg .& ~~ PMPCFG_RES in
        acc .| (cfg << (i * 8))) 0 (seqZ 0 8) in
    unpack_pmpaddrs (set_csr_pmpcfg c new_val s).

Definition csr_write_pmpaddr (n val : Z) (s : RISCVCPUState) : RISCVCPUState :=
  if PMP_N <=? n then s
  else
    let cfg := rd (csr_pmpcfg s) (Z.quot n 8) >> (n * 8) in
    if tst (cfg .& PMPCFG_L) then s
    else
      let cfg := cfg >> 8 in
      if ((cfg .& PMPCFG_A_MASK) =? PMPCFG_A_TOR) && tst (cfg .& PMPCFG_L) then s
      else unpack_pmpaddrs (set_csr_pmpaddr n (val .& PMPADDR_MASK) s).

(** [0x7a1] *)
Definition csr_write_tdata1 (val : Z) (s : RISCVCPUState) : RISCVCPUState :=
  let t := rd (tdata1 s) (tselect s) in
  if negb (tst (t .& MCONTROL_DMODE)) || debug_mode s then
    let mask := 0x20800000000011df in
    let val := val .| 0x2080000000000000 in
    let mask := if debug_mode s then mask + 0x800000000000000 else mask in
    with_tdata1 (wr (tdata1 s) (tselect s) (merge mask t val)) s
  else s.

Definition csr_write_tdata2 (val : Z) (s : RISCVCPUState) : RISCVCPUState :=
  if negb (tst (rd (tdata1 s) (tselect s) .& MCONTROL_DMODE)) || debug_mode s
  then with_tdata2 (wr (tdata2 s) (tselect s) val) s else s.

(** [0x180] *)
Definition csr_write_satp (val : Z) (s : RISCVCPUState) : Z * RISCVCPUState :=
  if (priv s =? PRV_S) && tst (mstatus s .& MSTATUS_TVM) then (-1, s)
  else
    let mode := (val >> 60) .& 15 in
    let s := if (mode =? 0) || (mode =? 8) || (mode =? 9) then with_satp (val .& SATP_MASK) s else s in
    (2, tlb_flush_all s).

(** the address mask of an exception PC: bit 1 is kept with compressed instructions *)
Definition epc_mask (s : RISCVCPUState) : Z := if tst (misa s .& MCPUID_C) then ~~ 1 else ~~ 3.

(** vectored trap vectors are 256-byte aligned; [~255 + 1] is -255 *)
Definition tvec_align (val : Z) : Z := if tst (val .& 1) then val .& (~~ 255 + 1) else val.

(** [0x7b0]: [s->dcsr & 0x600 != 0] parses as [s->dcsr & (0x600 != 0)] *)
Definition csr_write_dcsr (val : Z) (s : RISCVCPUState) : RISCVCPUState :=
  let mask := 0x603 in
  let s := with_dcsr (merge mask (dcsr s) val) s in
  with_stop_the_counter (tst (dcsr s .& b2z (negb (0x600 =? 0)))) s.

(** the [switch] of [csr_write]: -1 invalid, 0 done, 2 TLBs flushed *)
Definition csr_update (csr val : Z) (s : RISCVCPUState) : Z * RISCVCPUState :=
  let ok s := (0, s) in
  if csr =? 0x001 then ok (with_fs 3 (with_fflags (val .& 0x1f) s))
  else if csr =? 0x002 then ok (with_fs 3 (set_frm (val .& 7) s))
  else if csr =? 0x003 then ok (with_fs 3 (with_fflags (val .& 0x1f) (set_frm ((val >> 5) .& 7) s)))
  else if csr =? 0x100 then ok (set_mstatus (merge SSTATUS_MASK (mstatus s) val) s)
  else if csr =? 0x104 then ok (with_mie (u32 (merge (mideleg s) (mie s) val)) s)
  else if csr =? 0x105 then ok (with_stvec (tvec_align val .& ~~ 2) s)
  else if csr =? 0x106 then ok (with_scounteren (u32 val) s)
  else if csr =? 0x140 then ok (with_sscratch val s)
  else if csr =? 0x141 then ok (with_sepc (SEPC_TRUNCATE (val .& epc_mask s)) s)
  else if csr =? 0x142 then ok (with_scause (val .& SCAUSE_MASK) s)
  else if csr =? 0x143 then ok (with_stval (STVAL_TRUNCATE val) s)
  else if csr =? 0x144 then ok (with_mip (u32 (merge (mideleg s) (mip s) val)) s)
  else if csr =? 0x180 then csr_write_satp val s
  else if csr =? 0x300 then ok (set_mstatus val s)
  else if csr =? 0x301 then ok s
  else if csr =? 0x302 then ok (with_medeleg (u32 (merge 0xB109 (medeleg s) val)) s)
  else if csr =? 0x303 then
    ok (with_mideleg (u32 (merge (MIP_SSIP .| MIP_STIP .| MIP_SEIP) (mideleg s) val)) s)
  else if csr =? 0x304 then
    let mask := MIE_MCIP .| MIE_MEIE .| MIE_SEIE .| MIE_MTIE .| MIE_STIE .| MIE_MSIE .| MIE_SSIE in
    ok (with_mie (u32 (merge mask (mie s) val)) s)
  else if csr =? 0x305 then
    ok (with_mtvec (tvec_align val .& u64 ((1 << physical_addr_len s) - 3)) s)
  else if csr =? 0x306 then ok (with_mcounteren (u32 val) s)
  else if csr =? 0x320 then ok (with_mcountinhibit (u32 (val .& ~~ 2)) s)
  else if csr =? 0x340 then ok (with_mscratch val s)
  else if csr =? 0x341 then ok (with_mepc (MEPC_TRUNCATE (val .& epc_mask s)) s)
  else if csr =? 0x342 then ok (with_mcause (val .& MCAUSE_MASK) s)
  else if csr =? 0x343 then ok (with_mtval (MTVAL_TRUNCATE val) s)
  else if csr =? 0x344 then
    ok (with_mip (u32 (merge (MIP_SEIP .| MIP_STIP .| MIP_SSIP) (mip s) val)) s)
  else if csr =? 0x7a0 then ok (with_tselect (u32 (val mod MAX_TRIGGERS)) s)
  else if csr =? 0x7a1 then ok (csr_write_tdata1 val s)
  else if csr =? 0x7a2 then ok (csr_write_tdata2 val s)
  else if csr =? 0x7b0 then if debug_mode s then ok (csr_write_dcsr val s) else (-1, s)
  else if csr =? 0x7b1 then if debug_mode s then ok (with_dpc (val .& epc_mask s) s) else (-1, s)
  else if csr =? 0x7b2 then if debug_mode s then ok (with_dscratch val s) else (-1, s)
  else if (0x323 <=? csr) && (csr <=? 0x33f) then
    ok (with_mhpmevent (wr (mhpmevent s) (csr .& 0x1F)
                          (val .& (HPM_EVENT_SETMASK .| HPM_EVENT_EVENTMASK))) s)
  else if (csr =? CSR_PMPCFG 0) || (csr =? CSR_PMPCFG 2) then
    ok (csr_write_pmpcfg (csr - CSR_PMPCFG 0) val s)
  else if (CSR_PMPADDR 0 <=? csr) && (csr <=? CSR_PMPADDR 15) then
    ok (csr_write_pmpaddr (csr - CSR_PMPADDR 0) val s)
  else if csr =? 0xb00 then ok (with_mcycle val s)
  else if csr =? 0xb02 then ok (with_minstret val s)
  else if (0xb03 <=? csr) && (csr <=? 0xb1f) then ok s
  else (-1, s).

(** ** The hooks, and the two entry points *)

Class MachineHooks (D : Type) := {
  (** [hooks.csr_read s funct3 csr]: result code and [*pval] *)
  csr_read_hook : option (Z -> Z -> World D -> Z * Z * World D);
  csr_write_hook : option (Z -> Z -> Z -> World D -> Z * World D)
}.

Section World.
Context {D : Type} {hooks : MachineHooks D}.
Implicit Types w : World D.

(** result code, [*pval] and the world *)
Definition csr_read (funct3 csr : Z) (will_write : bool) w : Z * Z * World D :=
  if csr_access_denied (cpu w) csr will_write then (-1, 0, w)
  else
    let '(handled, pval, w) :=
      match csr_read_hook with
      | Some h => let '(r, pval, w) := h funct3 csr w in (r =? 0, pval, w)
      | None => (false, 0, w)
      end in
    if handled then (0, pval, w)
    else match csr_value (cpu w) csr with Some val => (0, val, w) | None => (-1, 0, w) end.

Definition csr_write (funct3 csr val : Z) w : Z * World D :=
  let '(handled, w) :=
    match csr_write_hook with
    | Some h => let '(r, w) := h funct3 csr val w in (r =? 0, w)
    | None => (false, w)
    end in
  if handled then (0, w)
  else let '(r, s) := csr_update csr val (cpu w) in (r, with_cpu s w).

End World.
