(* ===== verification/Trap.v ===== *)
(** * Traps, returns and interrupts (riscv_cpu.cpp) *)

From S2P Require Import Prelude Riscv CpuState Mmu Csr.

Definition set_priv (p : Z) (s : RISCVCPUState) : RISCVCPUState :=
  if negb (priv s =? p) then with_priv (u8 p) (tlb_flush_all s) else s.

(** [!!x] *)
Definition notnot (x : Z) : Z := b2z (tst x).

(** is the trap taken in supervisor mode *)
Definition delegated (s : RISCVCPUState) (cause : Z) : bool :=
  if priv s <=? PRV_S then
    if tst (cause .& CAUSE_INTERRUPT) then tst ((mideleg s >> (cause .& 63)) .& 1)
    else tst ((medeleg s >> cause) .& 1)
  else false.

Definition trap_to_s (cause tval : Z) (s : RISCVCPUState) : RISCVCPUState :=
  let s := with_scause cause s in
  let s := with_sepc (SEPC_TRUNCATE (pc s)) s in
  let s := with_stval (STVAL_TRUNCATE tval) s in
  let s := with_mstatus ((mstatus s .& ~~ MSTATUS_SPIE)
             .| (notnot (mstatus s .& MSTATUS_SIE) << MSTATUS_SPIE_SHIFT)) s in
  let s := with_mstatus ((mstatus s .& ~~ MSTATUS_SPP) .| (priv s << MSTATUS_SPP_SHIFT)) s in
  let s := with_mstatus (mstatus s .& ~~ MSTATUS_SIE) s in
  set_priv PRV_S s.

Definition trap_to_m (cause tval : Z) (s : RISCVCPUState) : RISCVCPUState :=
  let s := with_mcause cause s in
  let s := with_mepc (MEPC_TRUNCATE (pc s)) s in
  let s := with_mtval (MTVAL_TRUNCATE tval) s in
  let s := with_mstatus ((mstatus s .& ~~ MSTATUS_MPIE)
             .| (notnot (mstatus s .& MSTATUS_MIE) << MSTATUS_MPIE_SHIFT)) s in
  let s := with_mstatus ((mstatus s .& ~~ MSTATUS_MPP) .| (priv s << MSTATUS_MPP_SHIFT)) s in
  let s := with_mstatus (mstatus s .& ~~ MSTATUS_MIE) s in
  set_priv PRV_M s.

(** the PC of the handler *)
Definition trap_vector (tvec cause : Z) : Z :=
  let md := tvec .& 3 in
  let base := tvec .& ~~ 3 in
  if (md =? 1) && tst (cause .& CAUSE_INTERRUPT)
  then u64 (base + u64 (4 * (cause .& ~~ CAUSE_INTERRUPT))) else base.

Definition raise_exception2 (cause tval : Z) (s : RISCVCPUState) : RISCVCPUState :=
  if delegated s cause then
    let s := trap_to_s cause tval s in
    with_pc (trap_vector (stvec s) cause) s
  else
    let s := trap_to_m cause tval s in
    with_pc (trap_vector (mtvec s) cause) s.

Definition raise_exception (cause : Z) (s : RISCVCPUState) : RISCVCPUState := raise_exception2 cause 0 s.

(** ** Returns *)

Definition handle_sret (s : RISCVCPUState) : RISCVCPUState :=
  let s := with_mstatus (mstatus s .& ~~ MSTATUS_SIE) s in
  let s := with_mstatus (mstatus s .| ((mstatus s >> 4) .& MSTATUS_SIE)) s in
  let s := with_mstatus (mstatus s .| MSTATUS_SPIE) s in
  let spp := (mstatus s .& MSTATUS_SPP) >> MSTATUS_SPP_SHIFT in
  let s := with_mstatus (mstatus s .& ~~ MSTATUS_SPP) s in
  let s := set_priv spp s in
  with_pc (sepc s) s.

Definition handle_mret (s : RISCVCPUState) : RISCVCPUState :=
  let s := with_mstatus (mstatus s .& ~~ MSTATUS_MIE) s in
  let s := with_mstatus (mstatus s .| ((mstatus s >> 4) .& MSTATUS_MIE)) s in
  let s := with_mstatus (mstatus s .| MSTATUS_MPIE) s in
  let mpp := (mstatus s .& MSTATUS_MPP) >> MSTATUS_MPP_SHIFT in
  let s := with_mstatus (mstatus s .& ~~ MSTATUS_MPP) s in
  let s := set_priv mpp s in
  with_pc (mepc s) s.

Definition handle_dret (s : RISCVCPUState) : RISCVCPUState :=
  let s := with_stop_the_counter false s in
  let s := with_debug_mode false s in
  let s := set_priv (dcsr s .& 3) s in
  with_pc (dpc s) s.

(** ** Interrupts *)

Definition get_pending_irq_mask (s : RISCVCPUState) : Z :=
  let pending_ints := mip s .& mie s in
  if pending_ints =? 0 then 0
  else
    let enabled_ints :=
      if priv s =? PRV_M then
        if tst (mstatus s .& MSTATUS_MIE) then u32 (~~ mideleg s) else 0
      else if priv s =? PRV_S then
        if tst (mstatus s .& MSTATUS_SIE) then u32 (~~ mideleg s) .| mideleg s else u32 (~~ mideleg s)
      else u32 (-1) in
    pending_ints .& enabled_ints.

(** the first [i] of the list whose bit is set in [mask], or -1 *)
Fixpoint first_set (mask : Z) (l : list Z) : Z :=
  match l with
  | [] => -1
  | i :: l => if tst ((mask >> i) .& 1) then i else first_set mask l
  end.

(** priority to the most significant bit, down to bit 1 *)
Definition get_irq_platspecific (mask : Z) : Z :=
  let local_ints := mask .& u32 (0xFFFFFFFF << 12) in
  first_set local_ints (reverse (seqZ 1 31)).

Definition priorities : list Z := [11; 3; 7; 10; 2; 6; 9; 1; 5; 8; 0; 4].

Definition get_irq_num (mask : Z) : Z :=
  if 1 << 12 <=? mask then get_irq_platspecific mask else first_set mask priorities.

(** the result code and the state *)
Definition raise_interrupt (s : RISCVCPUState) : Z * RISCVCPUState :=
  let mask := get_pending_irq_mask s in
  if mask =? 0 then (0, s)
  else
    let irq_num := get_irq_num mask in
    (-1, raise_exception (u64 irq_num .| CAUSE_INTERRUPT) s).

Section World.
Context {D : Type}.
Implicit Types w : World D.

(** raise interrupt lines, and wake the hart *)
Definition riscv_cpu_set_mip (mask : Z) w : World D :=
  let w := upd_cpu (fun s => with_mip (mip s .| mask) s) w in
  let s := cpu w in
  if power_down_flag s && tst (mip s .& mie s)
     && (negb (pending_interrupt w =? -1) || negb (cosim w))
  then upd_cpu (with_power_down_flag false) w else w.

(** the guard of the two interrupt checks of the interpreter *)
Definition interrupt_enabled w : bool :=
  tst (mip (cpu w) .& mie (cpu w)) && (negb (pending_interrupt w =? -1) || negb (cosim w)).

End World.

(** ** Initial state *)

Definition zeros (n : nat) : list Z := replicate n 0.

(** [mallocz] clears the struct *)
Definition cleared_cpu : RISCVCPUState := {|
  pc := 0; reg := zeros 32; reg_prior := zeros 32; most_recently_written_reg := 0;
  last_data_paddr := 0; fp_reg := zeros 32; most_recently_written_fp_reg := 0;
  fflags := 0; frm := 0; priv := 0; fs := 0; insn_counter := 0; minstret := 0; mcycle := 0;
  debug_mode := false; stop_the_counter := false; power_down_flag := false;
  terminate_simulation := false; pending_exception := 0; pending_tval := 0;
  mstatus := 0; mtvec := 0; mscratch := 0; mepc := 0; mcause := 0; mtval := 0;
  mvendorid := 0; marchid := 0; mimpid := 0; mhartid := 0; misa := 0; mie := 0; mip := 0;
  medeleg := 0; mideleg := 0; mcounteren := 0; mcountinhibit := 0; tselect := 0;
  tdata1 := zeros 1; tdata2 := zeros 1; mhpmevent := zeros 32; csr_pmpcfg := zeros 4;
  csr_pmpaddr := zeros 16; pmp_n := 0; pmp := replicate 16 (mkPmp 0 0); pmpcfg := zeros 16;
  stvec := 0; sscratch := 0; sepc := 0; scause := 0; stval := 0; satp := 0; scounteren := 0;
  dcsr := 0; dpc := 0; dscratch := 0; plic_enable_irq := zeros 2; load_res := 0;
  physical_addr_len := 0;
  tlb_read := replicate 256 (mkTLBEntry 0 0); tlb_write := replicate 256 (mkTLBEntry 0 0);
  tlb_code := replicate 256 (mkTLBEntry 0 0);
  tlb_read_paddr_addend := zeros 256; tlb_write_paddr_addend := zeros 256;
  tlb_code_paddr_addend := zeros 256;
  benchmark_exit_code := 0; info := ctf_nop; next_addr := 0; timecmp := 0;
  ignore_sbi_shutdown := false |}.

(** [machine] contributes its reset vector and two configuration flags *)
Definition riscv_cpu_init (reset_vector hartid : Z) (custom_extension clear_ids : bool) : RISCVCPUState :=
  let s := cleared_cpu in
  let s := with_pc reset_vector s in
  let s := with_priv PRV_M s in
  let s := with_mstatus ((2 << MSTATUS_UXL_SHIFT) .| (2 << MSTATUS_SXL_SHIFT) .| (3 << MSTATUS_MPP_SHIFT)) s in
  let s := with_plic_enable_irq (wr (wr (plic_enable_irq s) 0 0) 1 0) s in
  let s := with_misa (misa s .| (MCPUID_SUPER .| MCPUID_USER .| MCPUID_I .| MCPUID_M .| MCPUID_A)) s in
  let s := with_most_recently_written_reg (-1) s in
  let s := with_most_recently_written_fp_reg (-1) s in
  let s := with_misa (misa s .| MCPUID_F) s in
  let s := with_misa (misa s .| MCPUID_D) s in
  let s := with_misa (misa s .| MCPUID_C) s in
  let s := if custom_extension then with_misa (misa s .| MCPUID_X) s else s in
  let s :=
    if clear_ids then with_mimpid 0 (with_marchid 0 (with_mvendorid 0 s))
    else with_mimpid 1 (with_marchid ((1 << 63) .| 2) (with_mvendorid (11 * 128 + 101) s)) in
  let s := with_mhartid hartid s in
  let s := with_tselect 0 s in
  let s := foldl (fun s i =>
    let s := with_tdata1 (wr (tdata1 s) i (MCONTROL_TYPE_AD_MATCH .| MCONTROL_MAXMASK_4)) s in
    with_tdata2 (wr (tdata2 s) i (u64 (~~ 0))) s) s (seqZ 0 MAX_TRIGGERS) in
  let s := with_dcsr ((1 << 30) + 3) s in
  let s := tlb_init s in
  with_benchmark_exit_code 0 s.
