(* ===== verification/IntArith.v ===== *)
(** * Integer multiplication and division (dromajo_template.h)

    The template is instantiated for XLEN 32 and 64; [w] is that width.  A
    signed argument is a [Z] in the signed range, C's [/] and [%] truncate
    toward zero ([Z.quot], [Z.rem]).  The build has [HAVE_INT128], so
    [mulh64] and its variants are the 128-bit products; the half-word versions
    of the other configurations are [mulhu_half] and its variants. *)

From S2P Require Import Prelude.

Definition div (w a b : Z) : Z :=
  if b =? 0 then -1
  else if (a =? sN w (1 << (w - 1))) && (b =? -1) then a
  else Z.quot a b.

Definition divu (w a b : Z) : Z := if b =? 0 then uN w (-1) else a / b.

Definition rem (w a b : Z) : Z :=
  if b =? 0 then a
  else if (a =? sN w (1 << (w - 1))) && (b =? -1) then 0
  else Z.rem a b.

Definition remu (w a b : Z) : Z := if b =? 0 then a else a mod b.

(** XLEN 64 with 128-bit integers; the products fit, except that of [mulhu64],
    which wraps in the signed type and is shifted and truncated all the same *)
Definition mulh (w a b : Z) : Z := uN w (sN (2 * w) (a * b) >> w).
Definition mulhsu (w a b : Z) : Z := uN w (sN (2 * w) (a * b) >> w).
Definition mulhu (w a b : Z) : Z := uN w (sN (2 * w) (a * b) >> w).

(** the configuration without 128-bit integers: [h] is half the width *)
Definition mulhu_half (h a b : Z) : Z :=
  let w := 2 * h in
  let a0 := uN h a in
  let a1 := uN h (a >> h) in
  let b0 := uN h b in
  let b1 := uN h (b >> h) in
  let r00 := uN w (a0 * b0) in
  let r01 := uN w (a0 * b1) in
  let r10 := uN w (a1 * b0) in
  let r11 := uN w (a1 * b1) in
  let c := uN w ((r00 >> h) + uN h r01 + uN h r10) in
  let c := uN w ((c >> h) + (r01 >> h) + (r10 >> h) + uN h r11) in
  let r2 := uN h c in
  let r3 := uN h ((c >> h) + (r11 >> h)) in
  uN w (r3 << h) .| r2.

Definition mulh_half (h a b : Z) : Z :=
  let w := 2 * h in
  let r1 := mulhu_half h (uN w a) (uN w b) in
  let r1 := if a <? 0 then uN w (r1 - uN w a) else r1 in
  if b <? 0 then uN w (r1 - uN w b) else r1.

Definition mulhsu_half (h a b : Z) : Z :=
  let w := 2 * h in
  let r1 := mulhu_half h (uN w a) b in
  if a <? 0 then uN w (r1 - uN w a) else r1.
