(* ===== verification/Insn.v ===== *)
(** * Instruction fields and the interpreter's control flow

    [M] is the monad of the body of the interpreter loop: it threads the world
    and the loop's local variables, and an instruction leaves the [switch]
    either normally or through one of the labels of the C function ([Exit]). *)

From S2P Require Import Prelude Riscv CpuState IoMem Mmu Csr Trap.

(** ** Fields (riscv_cpu.cpp) *)

Definition sext (val n : Z) : Z := s32 (val << (32 - n)) >> (32 - n).

Definition get_field1 (val src_pos dst_pos dst_pos_max : Z) : Z :=
  let mask := u32 (((1 << (dst_pos_max - dst_pos + 1)) - 1) << dst_pos) in
  if src_pos <=? dst_pos then u32 (val << (dst_pos - src_pos)) .& mask
  else (val >> (src_pos - dst_pos)) .& mask.

Definition ctf_compute_hint (rd rs1 : Z) : RISCVCTFInfo :=
  let rd_link := b2z ((rd =? 1) || (rd =? 5)) in
  let rs1_link := b2z ((rs1 =? 1) || (rs1 =? 5)) in
  let k := ctf_of_code (rd_link * 2 + rs1_link + 4) in
  if bool_decide (k = ctf_taken_jalr_pop_push) && (rs1 =? rd) then ctf_taken_jalr_push else k.

(** ** Immediates (dromajo_template.h)

    [insn] is the 32-bit instruction word; an [int32_t] immediate. *)

Definition imm_i (insn : Z) : Z := s32 insn >> 20.
Definition imm_s (insn : Z) : Z :=
  let rd := (insn >> 7) .& 0x1f in
  let imm := rd .| ((insn >> (25 - 5)) .& 0xfe0) in
  s32 (imm << 20) >> 20.
Definition imm_b (insn : Z) : Z :=
  let imm := ((insn >> (31 - 12)) .& (1 << 12)) .| ((insn >> (25 - 5)) .& 0x7e0)
             .| ((insn >> (8 - 1)) .& 0x1e) .| ((insn << (11 - 7)) .& (1 << 11)) in
  s32 (imm << 19) >> 19.
Definition imm_u (insn : Z) : Z := s32 (insn .& 0xfffff000).
Definition imm_j (insn : Z) : Z :=
  let imm := ((insn >> (31 - 20)) .& (1 << 20)) .| ((insn >> (21 - 1)) .& 0x7fe)
             .| ((insn >> (20 - 11)) .& (1 << 11)) .| (insn .& 0xff000) in
  s32 (imm << 11) >> 11.

(** compressed formats *)
Definition c_imm_addi4spn (insn : Z) : Z :=
  get_field1 insn 11 4 5 .| get_field1 insn 7 6 9 .| get_field1 insn 6 2 2 .| get_field1 insn 5 3 3.
Definition c_imm_ld (insn : Z) : Z := get_field1 insn 10 3 5 .| get_field1 insn 5 6 7.
Definition c_imm_lw (insn : Z) : Z :=
  get_field1 insn 10 3 5 .| get_field1 insn 6 2 2 .| get_field1 insn 5 6 6.
Definition c_imm_ci (insn : Z) : Z := sext (get_field1 insn 12 5 5 .| get_field1 insn 2 0 4) 6.
Definition c_imm_addi16sp (insn : Z) : Z :=
  sext (get_field1 insn 12 9 9 .| get_field1 insn 6 4 4 .| get_field1 insn 5 6 6
        .| get_field1 insn 3 7 8 .| get_field1 insn 2 5 5) 10.
Definition c_imm_lui (insn : Z) : Z := sext (get_field1 insn 12 17 17 .| get_field1 insn 2 12 16) 18.
Definition c_imm_sh (insn : Z) : Z := get_field1 insn 12 5 5 .| get_field1 insn 2 0 4.
Definition c_imm_j (insn : Z) : Z :=
  sext (get_field1 insn 12 11 11 .| get_field1 insn 11 4 4 .| get_field1 insn 9 8 9
        .| get_field1 insn 8 10 10 .| get_field1 insn 7 6 6 .| get_field1 insn 6 7 7
        .| get_field1 insn 3 1 3 .| get_field1 insn 2 5 5) 12.
Definition c_imm_b (insn : Z) : Z :=
  sext (get_field1 insn 12 8 8 .| get_field1 insn 10 3 4 .| get_field1 insn 5 6 7
        .| get_field1 insn 3 1 2 .| get_field1 insn 2 5 5) 9.
Definition c_imm_ldsp (insn rs2 : Z) : Z :=
  get_field1 insn 12 5 5 .| (rs2 .& (3 << 3)) .| get_field1 insn 2 6 8.
Definition c_imm_lwsp (insn rs2 : Z) : Z :=
  get_field1 insn 12 5 5 .| (rs2 .& (7 << 2)) .| get_field1 insn 2 6 7.
Definition c_imm_sdsp (insn : Z) : Z := get_field1 insn 10 3 5 .| get_field1 insn 7 6 8.
Definition c_imm_swsp (insn : Z) : Z := get_field1 insn 9 2 5 .| get_field1 insn 7 6 7.

(** ** The interpreter's state and labels *)

(** the labels of the C function; [XJump] is [jump_insn], [XAbort] a failed assertion *)
Inductive Exit := XJump | XIllegal | XMmu | XException | XDone | XEnd | XAbort.

#[export] Instance Exit_eq_dec : EqDecision Exit.
Proof. solve_decision. Defined.

Record IState (D : Type) := mkIState {
  iw : World D;
  code_ptr : Z;
  code_end : Z;
  code_to_pc_addend : Z;
  insn_counter_addend : Z;
  n_cycles : Z;
  insn_executed : Z
}.
#[global] Arguments mkIState {D}.
#[global] Arguments iw {D}.
#[global] Arguments code_ptr {D}.
#[global] Arguments code_end {D}.
#[global] Arguments code_to_pc_addend {D}.
#[global] Arguments insn_counter_addend {D}.
#[global] Arguments n_cycles {D}.
#[global] Arguments insn_executed {D}.

Section Monad.
Context {D : Type} {io : DeviceIO D} {hooks : MachineHooks D}.
Implicit Types st : IState D.

Definition with_iw (w : World D) st : IState D :=
  mkIState w (code_ptr st) (code_end st) (code_to_pc_addend st) (insn_counter_addend st)
    (n_cycles st) (insn_executed st).
Definition with_code (ptr e addend : Z) st : IState D :=
  mkIState (iw st) ptr e addend (insn_counter_addend st) (n_cycles st) (insn_executed st).
Definition with_counters (addend n executed : Z) st : IState D :=
  mkIState (iw st) (code_ptr st) (code_end st) (code_to_pc_addend st) addend n executed.

Definition M (A : Type) : Type := IState D -> IState D * (A + Exit).

#[export] Instance M_ret : MRet M := fun A x st => (st, inl x).
#[export] Instance M_bind : MBind M := fun A B f m st =>
  match m st with
  | (st, inl x) => f x st
  | (st, inr e) => (st, inr e)
  end.

Definition goto {A} (e : Exit) : M A := fun st => (st, inr e).
Definition gets {A} (f : RISCVCPUState -> A) : M A := fun st => (st, inl (f (cpu (iw st)))).
Definition modify (f : RISCVCPUState -> RISCVCPUState) : M unit :=
  fun st => (with_iw (upd_cpu f (iw st)) st, inl tt).
Definition get_world : M (World D) := fun st => (st, inl (iw st)).
Definition set_world (w : World D) : M unit := fun st => (with_iw w st, inl tt).
Definition get_istate : M (IState D) := fun st => (st, inl st).
Definition set_istate (st' : IState D) : M unit := fun _ => (st', inl tt).

(** [if (c) goto illegal_insn] *)
Definition illegal_if (c : bool) : M unit := if c then goto XIllegal else mret tt.

Definition GET_PC st : Z := u64 (code_ptr st + code_to_pc_addend st).
Definition GET_INSN_COUNTER st : Z := u64 (insn_counter_addend st - n_cycles st).
Definition get_pc : M Z := fun st => (st, inl (GET_PC st)).

Definition NEXT_INSN : M unit := fun st =>
  (with_code (u64 (code_ptr st + 4)) (code_end st) (code_to_pc_addend st) st, inl tt).
Definition C_NEXT_INSN : M unit := fun st =>
  (with_code (u64 (code_ptr st + 2)) (code_end st) (code_to_pc_addend st) st, inl tt).

Definition JUMP_INSN (kind : RISCVCTFInfo) : M unit := fun st =>
  let s := cpu (iw st) in
  let st := with_code 0 0 (pc s) st in
  (with_iw (upd_cpu (fun s => with_next_addr (pc s) (with_info kind s)) (iw st)) st, inr XJump).

(** [s->pending_exception = cause; s->pending_tval = tval; goto exception] *)
Definition raise_pending (cause tval : Z) : M unit :=
  modify (pend cause tval);; goto XException.

Definition reg_read (x : Z) : M Z := gets (read_reg x).
Definition reg_write (x val : Z) : M unit := modify (write_reg x val).
(** [if (rd != 0) write_reg(rd, val)] *)
Definition reg_write_rd (x val : Z) : M unit := if negb (x =? 0) then reg_write x val else mret tt.

(** [if (target_read_u##size(s, &rval, addr)) goto mmu_exception] *)
Definition mem_read (size addr : Z) : M Z :=
  w ← get_world;
  let '(err, val, w) := target_read size addr w in
  set_world w;;
  if negb (err =? 0) then goto XMmu else mret val.

Definition mem_write (size addr val : Z) : M unit :=
  w ← get_world;
  let '(err, w) := target_write size addr val w in
  set_world w;;
  if negb (err =? 0) then goto XMmu else mret tt.

End Monad.
#[global] Arguments M : clear implicits.
