(* ===== verification/Exec.v ===== *)
(** * The integer instructions (dromajo_template.h, XLEN = 64)

    One definition per opcode of the interpreter's [switch]; [insn] is the
    instruction word, [rd], [rs1] and [rs2] are its register fields.  The cast
    [(intx_t)x] assigned to a register is [s64 x], which the store wraps back
    to 64 bits. *)

From S2P Require Import Prelude Riscv CpuState IoMem Mmu Csr Trap Insn IntArith SoftFp.

Section Exec.
Context {D : Type} {io : DeviceIO D} {hooks : MachineHooks D}.

(** ** Compressed quadrant 0 *)

Definition c_quadrant0 (insn : Z) : M D unit :=
  let funct3 := (insn >> 13) .& 7 in
  let rd := ((insn >> 2) .& 7) .| 8 in
  let rs1 := ((insn >> 7) .& 7) .| 8 in
  (match funct3 with
  | 0 => (* c.addi4spn *)
      let imm := c_imm_addi4spn insn in
      illegal_if (imm =? 0);;
      r2 ← reg_read 2;
      reg_write rd (s64 (r2 + imm))
  | 1 => (* c.fld *)
      f ← gets fs;
      illegal_if (f =? 0);;
      r1 ← reg_read rs1;
      rval ← mem_read 64 (u64 (r1 + c_imm_ld insn));
      modify (write_fp_reg rd (rval .| F64_HIGH))
  | 2 => (* c.lw *)
      r1 ← reg_read rs1;
      rval ← mem_read 32 (u64 (r1 + c_imm_lw insn));
      reg_write rd (s32 rval)
  | 3 => (* c.ld *)
      r1 ← reg_read rs1;
      rval ← mem_read 64 (u64 (r1 + c_imm_ld insn));
      reg_write rd (s64 rval)
  | 5 => (* c.fsd *)
      f ← gets fs;
      illegal_if (f =? 0);;
      r1 ← reg_read rs1;
      v ← gets (read_fp_reg rd);
      mem_write 64 (u64 (r1 + c_imm_ld insn)) v
  | 6 => (* c.sw *)
      r1 ← reg_read rs1;
      val ← reg_read rd;
      mem_write 32 (u64 (r1 + c_imm_lw insn)) val
  | 7 => (* c.sd *)
      r1 ← reg_read rs1;
      val ← reg_read rd;
      mem_write 64 (u64 (r1 + c_imm_ld insn)) val
  | _ => goto XIllegal
  end);;
  C_NEXT_INSN.

(** ** Compressed quadrant 1 *)

Definition c_arith (insn : Z) : M D unit :=
  let funct3 := (insn >> 10) .& 3 in
  let rd := ((insn >> 7) .& 7) .| 8 in
  x ← reg_read rd;
  match funct3 with
  | 0 => (* c.srli *) reg_write rd (s64 (x >> c_imm_sh insn))
  | 1 => (* c.srai *) reg_write rd (s64 x >> c_imm_sh insn)
  | 2 => (* c.andi *) reg_write rd (x .& c_imm_ci insn)
  | _ =>
      let rs2 := ((insn >> 2) .& 7) .| 8 in
      let funct3 := ((insn >> 5) .& 3) .| ((insn >> (12 - 2)) .& 4) in
      y ← reg_read rs2;
      match funct3 with
      | 0 => (* c.sub *) reg_write rd (s64 (x - y))
      | 1 => (* c.xor *) reg_write rd (x .^ y)
      | 2 => (* c.or *) reg_write rd (x .| y)
      | 3 => (* c.and *) reg_write rd (x .& y)
      | 4 => (* c.subw *) reg_write rd (s32 (x - y))
      | 5 => (* c.addw *) reg_write rd (s32 (x + y))
      | _ => goto XIllegal
      end
  end.

(** [s->pc = target; JUMP_INSN(kind)] *)
Definition jump_to (target : Z) (kind : RISCVCTFInfo) : M D unit :=
  modify (with_pc (u64 target));; JUMP_INSN kind.

Definition c_branch (insn : Z) (taken : Z -> bool) : M D unit :=
  let rs1 := ((insn >> 7) .& 7) .| 8 in
  x ← reg_read rs1;
  if taken x then p ← get_pc; jump_to (p + c_imm_b insn) ctf_taken_branch
  else mret tt.

Definition c_quadrant1 (insn : Z) : M D unit :=
  let funct3 := (insn >> 13) .& 7 in
  let rd := (insn >> 7) .& 0x1f in
  (match funct3 with
  | 0 => (* c.addi/c.nop *)
      if negb (rd =? 0) then x ← reg_read rd; reg_write rd (s64 (x + c_imm_ci insn)) else mret tt
  | 1 => (* c.addiw *)
      illegal_if (rd =? 0);;
      x ← reg_read rd;
      reg_write rd (s32 (x + c_imm_ci insn))
  | 2 => (* c.li *) reg_write_rd rd (c_imm_ci insn)
  | 3 =>
      if rd =? 2 then (* c.addi16sp *)
        let imm := c_imm_addi16sp insn in
        illegal_if (imm =? 0);;
        x ← reg_read 2;
        reg_write 2 (s64 (x + imm))
      else if negb (rd =? 0) then (* c.lui *)
        let imm := c_imm_lui insn in
        illegal_if (imm =? 0);;
        reg_write rd imm
      else illegal_if (c_imm_lui insn =? 0)
  | 4 => c_arith insn
  | 5 => (* c.j *) p ← get_pc; jump_to (p + c_imm_j insn) ctf_taken_jump
  | 6 => (* c.beqz *) c_branch insn (fun x => x =? 0)
  | _ => (* c.bnez *) c_branch insn (fun x => negb (x =? 0))
  end);;
  C_NEXT_INSN.

(** ** Compressed quadrant 2 *)

Definition c_jump_mv_add (insn rd rs2 : Z) : M D unit :=
  if ((insn >> 12) .& 1) =? 0 then
    if rs2 =? 0 then (* c.jr *)
      illegal_if (rd =? 0);;
      x ← reg_read rd;
      jump_to (x .& ~~ 1) (ctf_compute_hint 0 rd)
    else (* c.mv *)
      if negb (rd =? 0) then y ← reg_read rs2; reg_write rd y else mret tt
  else if rs2 =? 0 then
    if rd =? 0 then (* c.ebreak *) raise_pending CAUSE_BREAKPOINT 0
    else (* c.jalr *)
      p ← get_pc;
      x ← reg_read rd;
      modify (with_pc (x .& ~~ 1));;
      reg_write 1 (u64 (p + 2));;
      JUMP_INSN (ctf_compute_hint 1 rd)
  else (* c.add *)
    if negb (rd =? 0) then x ← reg_read rd; y ← reg_read rs2; reg_write rd (s64 (x + y)) else mret tt.

Definition c_quadrant2 (insn : Z) : M D unit :=
  let funct3 := (insn >> 13) .& 7 in
  let rd := (insn >> 7) .& 0x1f in
  let rs2 := (insn >> 2) .& 0x1f in
  (match funct3 with
  | 0 => (* c.slli *)
      let imm := get_field1 insn 12 5 5 .| rs2 in
      if negb (rd =? 0) then x ← reg_read rd; reg_write rd (s64 (x << imm)) else mret tt
  | 1 => (* c.fldsp *)
      f ← gets fs;
      illegal_if (f =? 0);;
      sp ← reg_read 2;
      rval ← mem_read 64 (u64 (sp + c_imm_ldsp insn rs2));
      modify (write_fp_reg rd (rval .| F64_HIGH))
  | 2 => (* c.lwsp *)
      illegal_if (rd =? 0);;
      sp ← reg_read 2;
      rval ← mem_read 32 (u64 (sp + c_imm_lwsp insn rs2));
      reg_write rd (s32 rval)
  | 3 => (* c.ldsp *)
      illegal_if (rd =? 0);;
      sp ← reg_read 2;
      rval ← mem_read 64 (u64 (sp + c_imm_ldsp insn rs2));
      reg_write rd (s64 rval)
  | 4 => c_jump_mv_add insn rd rs2
  | 5 => (* c.fsdsp *)
      f ← gets fs;
      illegal_if (f =? 0);;
      sp ← reg_read 2;
      v ← gets (read_fp_reg rs2);
      mem_write 64 (u64 (sp + c_imm_sdsp insn)) v
  | 6 => (* c.swsp *)
      sp ← reg_read 2;
      v ← reg_read rs2;
      mem_write 32 (u64 (sp + c_imm_swsp insn)) v
  | _ => (* c.sdsp *)
      sp ← reg_read 2;
      v ← reg_read rs2;
      mem_write 64 (u64 (sp + c_imm_sdsp insn)) v
  end);;
  C_NEXT_INSN.

(** ** Upper immediates, jumps and branches *)

Definition exec_lui (insn rd : Z) : M D unit :=
  reg_write_rd rd (imm_u insn);; NEXT_INSN.

Definition exec_auipc (insn rd : Z) : M D unit :=
  p ← get_pc; reg_write_rd rd (s64 (p + imm_u insn));; NEXT_INSN.

(** without compressed instructions a target must be 4-byte aligned *)
Definition check_target (new_pc : Z) : M D unit :=
  m ← gets misa;
  if negb (tst (m .& MCPUID_C)) && negb ((new_pc .& 3) =? 0)
  then raise_pending CAUSE_MISALIGNED_FETCH 0 else mret tt.

Definition exec_jal (insn rd : Z) : M D unit :=
  let imm := imm_j insn in
  p ← get_pc;
  check_target (s64 (p + imm));;
  reg_write_rd rd (u64 (p + 4));;
  jump_to (s64 (p + imm)) ctf_taken_jump.

Definition exec_jalr (insn rd rs1 : Z) : M D unit :=
  let funct3 := (insn >> 12) .& 7 in
  illegal_if (negb (funct3 =? 0));;
  let imm := imm_i insn in
  p ← get_pc;
  let val := u64 (p + 4) in
  x ← reg_read rs1;
  check_target (s64 (x + imm) .& ~~ 1);;
  modify (with_pc (u64 (s64 (x + imm) .& ~~ 1)));;
  reg_write_rd rd val;;
  JUMP_INSN (ctf_compute_hint rd rs1).

(** the branch condition by [funct3 >> 1] *)
Definition branch_cond (funct3 x y : Z) : option bool :=
  match funct3 >> 1 with
  | 0 => Some (x =? y)
  | 2 => Some (s64 x <? s64 y)
  | 3 => Some (x <? y)
  | _ => None
  end.

Definition exec_branch (insn rs1 rs2 : Z) : M D unit :=
  let funct3 := (insn >> 12) .& 7 in
  x ← reg_read rs1;
  y ← reg_read rs2;
  match branch_cond funct3 x y with
  | None => goto XIllegal
  | Some cond =>
      if tst (b2z cond .^ (funct3 .& 1)) then
        p ← get_pc;
        check_target (s64 (p + imm_b insn));;
        jump_to (s64 (p + imm_b insn)) ctf_taken_branch
      else NEXT_INSN
  end.

(** ** Loads and stores *)

Definition exec_load (insn rd rs1 : Z) : M D unit :=
  let funct3 := (insn >> 12) .& 7 in
  x ← reg_read rs1;
  let addr := u64 (x + imm_i insn) in
  val ← (match funct3 with
         | 0 => (* lb *) r ← mem_read 8 addr; mret (s8 r)
         | 1 => (* lh *) r ← mem_read 16 addr; mret (s16 r)
         | 2 => (* lw *) r ← mem_read 32 addr; mret (s32 r)
         | 4 => (* lbu *) mem_read 8 addr
         | 5 => (* lhu *) mem_read 16 addr
         | 3 => (* ld *) r ← mem_read 64 addr; mret (s64 r)
         | 6 => (* lwu *) mem_read 32 addr
         | _ => goto XIllegal
         end);
  reg_write_rd rd val;; NEXT_INSN.

Definition exec_store (insn rs1 rs2 : Z) : M D unit :=
  let funct3 := (insn >> 12) .& 7 in
  x ← reg_read rs1;
  let addr := u64 (x + imm_s insn) in
  val ← reg_read rs2;
  (match funct3 with
  | 0 => (* sb *) mem_write 8 addr val
  | 1 => (* sh *) mem_write 16 addr val
  | 2 => (* sw *) mem_write 32 addr val
  | 3 => (* sd *) mem_write 64 addr val
  | _ => goto XIllegal
  end);;
  NEXT_INSN.

(** ** Register-immediate and register-register operations

    The value computed, [None] for an illegal encoding. *)

Definition op_imm (funct3 x imm : Z) : option Z :=
  match funct3 with
  | 0 => (* addi *) Some (s64 (x + imm))
  | 1 => (* slli *)
      if negb ((imm .& ~~ (64 - 1)) =? 0) then None else Some (s64 (x << (imm .& (64 - 1))))
  | 2 => (* slti *) Some (b2z (s64 x <? imm))
  | 3 => (* sltiu *) Some (b2z (x <? u64 imm))
  | 4 => (* xori *) Some (x .^ imm)
  | 5 => (* srli/srai *)
      if negb ((imm .& ~~ ((64 - 1) .| 0x400)) =? 0) then None
      else if tst (imm .& 0x400) then Some (s64 x >> (imm .& (64 - 1)))
      else Some (s64 (x >> (imm .& (64 - 1))))
  | 6 => (* ori *) Some (x .| imm)
  | _ => (* andi *) Some (x .& imm)
  end.

Definition op_imm32 (funct3 val imm : Z) : option Z :=
  match funct3 with
  | 0 => (* addiw *) Some (s32 (val + imm))
  | 1 => (* slliw *)
      if negb ((imm .& ~~ 31) =? 0) then None else Some (s32 (val << (imm .& 31)))
  | 5 => (* srliw/sraiw *)
      if negb ((imm .& ~~ (31 .| 0x400)) =? 0) then None
      else if tst (imm .& 0x400) then Some (s32 val >> (imm .& 31))
      else Some (s32 (u32 val >> (imm .& 31)))
  | _ => None
  end.

Definition op_muldiv (funct3 val val2 : Z) : option Z :=
  match funct3 with
  | 0 => (* mul *) Some (s64 (s64 val * s64 val2))
  | 1 => (* mulh *) Some (s64 (mulh 64 (s64 val) (s64 val2)))
  | 2 => (* mulhsu *) Some (s64 (mulhsu 64 (s64 val) val2))
  | 3 => (* mulhu *) Some (s64 (mulhu 64 val val2))
  | 4 => (* div *) Some (div 64 (s64 val) (s64 val2))
  | 5 => (* divu *) Some (s64 (divu 64 val val2))
  | 6 => (* rem *) Some (rem 64 (s64 val) (s64 val2))
  | 7 => (* remu *) Some (s64 (remu 64 val val2))
  | _ => None
  end.

Definition op_reg (funct3 val val2 : Z) : option Z :=
  match funct3 with
  | 0 => (* add *) Some (s64 (val + val2))
  | 8 => (* sub *) Some (s64 (val - val2))
  | 1 => (* sll *) Some (s64 (val << (val2 .& (64 - 1))))
  | 2 => (* slt *) Some (b2z (s64 val <? s64 val2))
  | 3 => (* sltu *) Some (b2z (val <? val2))
  | 4 => (* xor *) Some (val .^ val2)
  | 5 => (* srl *) Some (s64 (val >> (val2 .& (64 - 1))))
  | 13 => (* sra *) Some (s64 val >> (val2 .& (64 - 1)))
  | 6 => (* or *) Some (val .| val2)
  | 7 => (* and *) Some (val .& val2)
  | _ => None
  end.

Definition op_muldiv32 (funct3 val val2 : Z) : option Z :=
  match funct3 with
  | 0 => (* mulw *) Some (s32 (s32 val * s32 val2))
  | 4 => (* divw *) Some (div 32 (s32 val) (s32 val2))
  | 5 => (* divuw *) Some (s32 (divu 32 (u32 val) (u32 val2)))
  | 6 => (* remw *) Some (rem 32 (s32 val) (s32 val2))
  | 7 => (* remuw *) Some (s32 (remu 32 (u32 val) (u32 val2)))
  | _ => None
  end.

Definition op_reg32 (funct3 val val2 : Z) : option Z :=
  match funct3 with
  | 0 => (* addw *) Some (s32 (val + val2))
  | 8 => (* subw *) Some (s32 (val - val2))
  | 1 => (* sllw *) Some (s32 (u32 val << (val2 .& 31)))
  | 5 => (* srlw *) Some (s32 (u32 val >> (val2 .& 31)))
  | 13 => (* sraw *) Some (s32 val >> (val2 .& 31))
  | _ => None
  end.

(** [goto illegal_insn] or the register write and [NEXT_INSN] *)
Definition finish_op (rd : Z) (val : option Z) : M D unit :=
  match val with
  | None => goto XIllegal
  | Some val => reg_write_rd rd val;; NEXT_INSN
  end.

Definition exec_op_imm (insn rd rs1 : Z) : M D unit :=
  x ← reg_read rs1; finish_op rd (op_imm ((insn >> 12) .& 7) x (imm_i insn)).

Definition exec_op_imm32 (insn rd rs1 : Z) : M D unit :=
  x ← reg_read rs1; finish_op rd (op_imm32 ((insn >> 12) .& 7) x (imm_i insn)).

Definition exec_op_with (muldiv op : Z -> Z -> Z -> option Z) (insn rd rs1 rs2 : Z) : M D unit :=
  let imm := insn >> 25 in
  val ← reg_read rs1;
  val2 ← reg_read rs2;
  if imm =? 1 then finish_op rd (muldiv ((insn >> 12) .& 7) val val2)
  else
    illegal_if (tst (imm .& ~~ 0x20));;
    finish_op rd (op (((insn >> 12) .& 7) .| ((insn >> (30 - 3)) .& (1 << 3))) val val2).

Definition exec_op := exec_op_with op_muldiv op_reg.
Definition exec_op32 := exec_op_with op_muldiv32 op_reg32.

(** ** System instructions *)

(** bring the counters up to date before a CSR access; [start] is the
    instruction counter on entry to the interpreter *)
Definition update_counters (start : Z) : M D unit :=
  st ← get_istate;
  modify (with_insn_counter (GET_INSN_COUNTER st));;
  stop ← gets stop_the_counter;
  if (stop : bool) then mret tt
  else
    ic ← gets insn_counter;
    let delta := s32 (ic - start) in
    if delta <? 0 then goto XAbort
    else
      modify (fun s => with_minstret (u64 (minstret s + delta))
                         (with_mcycle (u64 (mcycle s + delta)) s)).

Definition do_csr_read (funct3 csr : Z) (will_write : bool) : M D Z :=
  w ← get_world;
  let '(err, val, w) := csr_read funct3 csr will_write w in
  set_world w;;
  illegal_if (negb (err =? 0));;
  mret val.

(** the result code of a write that succeeded *)
Definition do_csr_write (funct3 csr val : Z) : M D Z :=
  w ← get_world;
  let '(err, w) := csr_write funct3 csr val w in
  set_world w;;
  if err =? -2 then goto XMmu
  else illegal_if (err <? 0);; mret err.

(** after a write that flushed the TLBs *)
Definition csr_finish (err : Z) : M D unit :=
  if 0 <? err then
    p ← get_pc;
    modify (with_pc (u64 (p + 4)));;
    if err =? 2 then JUMP_INSN ctf_nop else goto XDone
  else mret tt.

Definition exec_csrrw (start rd csr val : Z) : M D unit :=
  update_counters start;;
  val2 ← do_csr_read 1 csr true;
  err ← do_csr_write 1 csr val;
  reg_write_rd rd val2;;
  st ← get_istate;
  ic ← gets insn_counter;
  set_istate (with_counters (u64 (ic + n_cycles st)) (n_cycles st) (insn_executed st) st);;
  csr_finish err.

Definition exec_csrrs (start rd rs1 funct3 csr val : Z) : M D unit :=
  update_counters start;;
  val2 ← do_csr_read funct3 csr (negb (rs1 =? 0));
  err ← (if negb (rs1 =? 0) then
           let val := if funct3 =? 2 then val2 .| val else val2 .& u64 (~~ val) in
           do_csr_write funct3 csr val
         else mret 0);
  reg_write_rd rd val2;;
  csr_finish err.

Definition exec_ecall (insn : Z) : M D unit :=
  illegal_if (tst (insn .& 0x000fff80));;
  modify (fun s => with_pending_tval 0 (with_pending_exception (CAUSE_USER_ECALL + priv s) s));;
  s ← gets id;
  (if negb (ignore_sbi_shutdown s) && (priv s =? PRV_M) && (read_reg 0x17 s =? sbi_code SBI_SHUTDOWN)
   then modify (with_terminate_simulation true) else mret tt);;
  goto XException.

Definition exec_ebreak (insn : Z) : M D unit :=
  illegal_if (tst (insn .& 0x000fff80));;
  raise_pending CAUSE_BREAKPOINT 0.

Definition exec_sret (insn : Z) : M D unit :=
  illegal_if (tst (insn .& 0x000fff80));;
  s ← gets id;
  illegal_if (priv s <? PRV_S);;
  illegal_if ((priv s =? PRV_S) && tst (mstatus s .& MSTATUS_TSR));;
  p ← get_pc;
  modify (fun s => handle_sret (with_pc p s));;
  goto XDone.

Definition exec_mret (insn : Z) : M D unit :=
  illegal_if (tst (insn .& 0x000fff80));;
  s ← gets id;
  illegal_if (priv s <? PRV_M);;
  p ← get_pc;
  modify (fun s => handle_mret (with_pc p s));;
  goto XDone.

Definition exec_dret (insn : Z) : M D unit :=
  s ← gets id;
  illegal_if (negb (debug_mode s));;
  illegal_if (tst (insn .& 0x000fff80));;
  illegal_if (priv s <? PRV_M);;
  p ← get_pc;
  modify (fun s => handle_dret (with_pc p s));;
  goto XDone.

Definition exec_wfi (insn : Z) : M D unit :=
  illegal_if (tst (insn .& 0x00007f80));;
  s ← gets id;
  illegal_if (priv s =? PRV_U);;
  illegal_if ((priv s =? PRV_S) && tst (mstatus s .& MSTATUS_TW));;
  w ← get_world;
  if (((mip s .& mie s) =? 0) && (pending_interrupt w =? -1)) || negb (cosim w) then
    modify (with_power_down_flag true);;
    p ← get_pc;
    modify (with_pc (u64 (p + 4)));;
    goto XDone
  else mret tt.

Definition exec_sfence_vma (insn rs1 : Z) : M D unit :=
  illegal_if (tst (insn .& 0x00007f80));;
  s ← gets id;
  illegal_if (priv s =? PRV_U);;
  illegal_if ((priv s =? PRV_S) && tst (mstatus s .& MSTATUS_TVM));;
  (if rs1 =? 0 then modify tlb_flush_all
   else x ← reg_read rs1; modify (fun s => tlb_flush_vaddr s x));;
  p ← get_pc;
  jump_to (p + 4) ctf_nop.

Definition exec_priv (insn rs1 imm : Z) : M D unit :=
  match imm with
  | 0x000 => exec_ecall insn
  | 0x001 => exec_ebreak insn
  | 0x102 => exec_sret insn
  | 0x302 => exec_mret insn
  | 0x7b2 => exec_dret insn
  | 0x105 => exec_wfi insn
  | _ => if imm >> 5 =? 0x09 then exec_sfence_vma insn rs1 else goto XIllegal
  end.

Definition exec_system (start insn rd rs1 : Z) : M D unit :=
  let funct3 := (insn >> 12) .& 7 in
  let imm := insn >> 20 in
  val ← (if tst (funct3 .& 4) then mret rs1 else reg_read rs1);
  let funct3 := funct3 .& 3 in
  (match funct3 with
  | 1 => exec_csrrw start rd imm val
  | 0 => exec_priv insn rs1 imm
  | _ => exec_csrrs start rd rs1 funct3 imm val
  end);;
  NEXT_INSN.

Definition exec_misc_mem (insn : Z) : M D unit :=
  let funct3 := (insn >> 12) .& 7 in
  illegal_if (negb ((funct3 =? 0) || (funct3 =? 1)));;
  NEXT_INSN.

(** ** Atomics: [OP_A(size)] *)

(** the value an AMO stores, [None] when [funct5] is none of them *)
Definition amo_op (size funct5 val val2 : Z) : option Z :=
  let i := sN size in
  let u := uN size in
  match funct5 with
  | 1 => (* amoswap *) Some val2
  | 0 => (* amoadd *) Some (i (val + val2))
  | 4 => (* amoxor *) Some (i (val .^ val2))
  | 0xc => (* amoand *) Some (i (val .& val2))
  | 0x8 => (* amoor *) Some (i (val .| val2))
  | 0x10 => (* amomin *) Some (if i val <? i val2 then i val else val2)
  | 0x14 => (* amomax *) Some (if i val2 <? i val then i val else val2)
  | 0x18 => (* amominu *) Some (if u val <? u val2 then i val else val2)
  | 0x1c => (* amomaxu *) Some (if u val2 <? u val then i val else val2)
  | _ => None
  end.

(** a load of an AMO that faults reports a store fault *)
Definition amo_read (size addr : Z) : M D Z :=
  w ← get_world;
  let '(err, val, w) := target_read size addr w in
  set_world w;;
  if negb (err =? 0) then
    modify (fun s => if negb (pending_exception s =? CAUSE_BREAKPOINT)
                     then with_pending_exception (pending_exception s + 2) s else s);;
    goto XMmu
  else mret val.

(** the value of the register result *)
Definition op_a (size insn rs1 rs2 : Z) : M D Z :=
  addr ← reg_read rs1;
  let funct3 := insn >> 27 in
  match funct3 with
  | 2 => (* lr *)
      illegal_if (negb (rs2 =? 0));;
      rval ← mem_read size addr;
      modify (with_load_res addr);;
      mret (sN size rval)
  | 3 => (* sc *)
      if negb ((addr .& (size / 8 - 1)) =? 0) then
        modify (pend CAUSE_MISALIGNED_STORE addr);; goto XMmu
      else
        res ← gets load_res;
        if res =? addr then
          y ← reg_read rs2;
          mem_write size addr y;;
          modify (with_load_res (u64 (~~ 0)));;
          mret 0
        else mret 1
  | _ =>
      match amo_op size funct3 0 0 with
      | None => goto XIllegal
      | Some _ =>
          rval ← amo_read size addr;
          let val := u64 (sN size rval) in
          val2 ← reg_read rs2;
          match amo_op size funct3 val val2 with
          | None => goto XIllegal
          | Some val2 => mem_write size addr val2;; mret val
          end
      end
  end.

Definition exec_amo (insn rd rs1 rs2 : Z) : M D unit :=
  let funct3 := (insn >> 12) .& 7 in
  val ← (match funct3 with
         | 2 => op_a 32 insn rs1 rs2
         | 3 => op_a 64 insn rs1 rs2
         | _ => goto XIllegal
         end);
  reg_write_rd rd val;; NEXT_INSN.

End Exec.
