(* ===== verification/FpExec.v ===== *)
(** * The floating-point instructions (dromajo_template.h, dromajo_fp_template.h)

    FLEN is 64: a 32-bit value lives NaN-boxed in a 64-bit register.  The
    template dromajo_fp_template.h is included for F_SIZE 32 and 64; its two
    instances are [fp_template] at the records [FP32] and [FP64]. *)

From S2P Require Import Prelude Riscv CpuState IoMem Mmu Csr Trap Insn IntArith SoftFp Exec.

(** ** NaN boxing *)

Definition chkfp32 (a : Z) : Z :=
  if negb ((a .& 0xFFFFFFFF00000000) =? 0xFFFFFFFF00000000) then u32 (u32 (-1) << 22) else u32 a.

Definition f_qnan32 : Z := 0x7fc00000.

Definition f_unbox32 (r : Z) : Z := if negb ((r .& F32_HIGH) =? F32_HIGH) then f_qnan32 else r.
Definition f_unbox64 (r : Z) : Z := r.

(** the macros an instance of the template sets *)
Record FpInstance := {
  fp_fmt : FloatFmt;
  OPID : Z;
  F_HIGH : Z;
  unbox : Z -> Z;
  FSIGN_MASK : Z
}.
Definition FP32 : FpInstance :=
  {| fp_fmt := sf32; OPID := 0; F_HIGH := F32_HIGH; unbox := f_unbox32; FSIGN_MASK := FSIGN_MASK32 |}.
Definition FP64 : FpInstance :=
  {| fp_fmt := sf64; OPID := 1; F_HIGH := F64_HIGH; unbox := f_unbox64; FSIGN_MASK := FSIGN_MASK64 |}.

Section Exec.
Context {D : Type} {io : DeviceIO D} {hooks : MachineHooks D}.

(** a softfloat call with [&s->fflags] *)
Definition with_flags (f : Z -> Z * Z) : M D Z :=
  fl ← gets fflags;
  let '(r, fl) := f fl in
  modify (with_fflags fl);;
  mret r.

(** [rm = get_insn_rm(s, rm); if (rm < 0) goto illegal_insn] *)
Definition insn_rm (rm : Z) : M D RoundingModeEnum :=
  s ← gets id;
  let rm := get_insn_rm s rm in
  illegal_if (rm <? 0);;
  mret (rm_of_code rm).

Section Template.
Variable F : FpInstance.
Abbreviation fmt := (fp_fmt F).

(** the operand as the softfloat function receives it *)
Definition fp_arg (x : Z) : M D Z := v ← gets (read_fp_reg x); mret (uN (F_SIZE (FloatFmt := fmt)) (unbox F v)).
Definition fp_put (rd v : Z) : M D unit :=
  modify (write_fp_reg rd (v .| F_HIGH F));; modify (with_fs 3).

Definition fp_binary (op : Z -> Z -> RoundingModeEnum -> Z -> Z * Z) (rm rd rs1 rs2 : Z) : M D unit :=
  rm ← insn_rm rm;
  a ← fp_arg rs1;
  b ← fp_arg rs2;
  r ← with_flags (op a b rm);
  fp_put rd r.

Definition fp_sqrt (rm rd rs1 rs2 : Z) : M D unit :=
  rm ← insn_rm rm;
  illegal_if (negb (rs2 =? 0));;
  a ← fp_arg rs1;
  r ← with_flags (sqrt_sf (fmt := fmt) a rm);
  fp_put rd r.

Definition fp_sgnj (rm rd rs1 rs2 : Z) : M D unit :=
  a ← gets (read_fp_reg rs1);
  b ← gets (read_fp_reg rs2);
  let a := unbox F a in
  let b := unbox F b in
  let m := FSIGN_MASK F in
  (match rm with
  | 0 => modify (write_fp_reg rd ((a .& ~~ m) .| (b .& m) .| F_HIGH F))
  | 1 => modify (write_fp_reg rd ((a .& ~~ m) .| ((b .& m) .^ m) .| F_HIGH F))
  | 2 => modify (write_fp_reg rd ((a .^ (b .& m)) .| F_HIGH F))
  | _ => goto XIllegal
  end);;
  modify (with_fs 3).

Definition fp_minmax (rm rd rs1 rs2 : Z) : M D unit :=
  a ← fp_arg rs1;
  b ← fp_arg rs2;
  (match rm with
  | 0 => r ← with_flags (min_sf (fmt := fmt) a b); modify (write_fp_reg rd (r .| F_HIGH F))
  | 1 => r ← with_flags (max_sf (fmt := fmt) a b); modify (write_fp_reg rd (r .| F_HIGH F))
  | _ => goto XIllegal
  end);;
  modify (with_fs 3).

Definition fp_to_int (rm rd rs1 rs2 : Z) : M D unit :=
  rm ← insn_rm rm;
  a ← fp_arg rs1;
  val ← (match rs2 with
         | 0 => r ← with_flags (cvt_sf_i (fmt := fmt) 32 a rm); mret (s32 r)
         | 1 => r ← with_flags (cvt_sf_u (fmt := fmt) 32 a rm); mret (s32 r)
         | 2 => r ← with_flags (cvt_sf_i (fmt := fmt) 64 a rm); mret (s64 r)
         | 3 => r ← with_flags (cvt_sf_u (fmt := fmt) 64 a rm); mret (s64 r)
         | _ => goto XIllegal
         end);
  reg_write_rd rd val.

Definition fp_compare (rm rd rs1 rs2 : Z) : M D unit :=
  a ← fp_arg rs1;
  b ← fp_arg rs2;
  val ← (match rm with
         | 0 => with_flags (le_sf (fmt := fmt) a b)
         | 1 => with_flags (lt_sf (fmt := fmt) a b)
         | 2 => with_flags (eq_quiet_sf (fmt := fmt) a b)
         | _ => goto XIllegal
         end);
  reg_write_rd rd val.

Definition fp_from_int (rm rd rs1 rs2 : Z) : M D unit :=
  rm ← insn_rm rm;
  x ← reg_read rs1;
  (match rs2 with
  | 0 => r ← with_flags (cvt_i_sf (fmt := fmt) 32 x rm); modify (write_fp_reg rd (r .| F_HIGH F))
  | 1 => r ← with_flags (cvt_u_sf (fmt := fmt) 32 x rm); modify (write_fp_reg rd (r .| F_HIGH F))
  | 2 => r ← with_flags (cvt_i_sf (fmt := fmt) 64 x rm); modify (write_fp_reg rd (r .| F_HIGH F))
  | 3 => r ← with_flags (cvt_u_sf (fmt := fmt) 64 x rm); modify (write_fp_reg rd (r .| F_HIGH F))
  | _ => goto XIllegal
  end);;
  modify (with_fs 3).

(** cvt.s.d in the 32-bit instance, cvt.d.s in the 64-bit one *)
Definition fp_convert (rm rd rs1 rs2 : Z) : M D unit :=
  rm ← insn_rm rm;
  v ← gets (read_fp_reg rs1);
  (if (OPID F =? 0) && (rs2 =? 1) then
     r ← with_flags (cvt_sf_sf32 sf64 v rm);
     modify (write_fp_reg rd (r .| F32_HIGH))
   else if (OPID F =? 1) && (rs2 =? 0) then
     let v := if negb ((v .& F32_HIGH) =? F32_HIGH) then f_qnan32 else v in
     r ← with_flags (cvt_sf32_sf sf64 (u32 v));
     modify (write_fp_reg rd (r .| F64_HIGH))
   else goto XIllegal);;
  modify (with_fs 3).

Definition fp_move_class (rm rd rs1 rs2 : Z) : M D unit :=
  illegal_if (negb (rs2 =? 0));;
  v ← gets (read_fp_reg rs1);
  val ← (match rm with
         | 0 => mret (sN (F_SIZE (FloatFmt := fmt)) v)
         | 1 => a ← fp_arg rs1; mret (fclass_sf (fmt := fmt) a)
         | _ => goto XIllegal
         end);
  reg_write_rd rd val.

Definition fp_move_from_int (rm rd rs1 rs2 : Z) : M D unit :=
  illegal_if (negb (rs2 =? 0) || negb (rm =? 0));;
  x ← reg_read rs1;
  fp_put rd (sN (F_SIZE (FloatFmt := fmt)) x).

(** the cases of the [switch] on [imm] that this inclusion provides *)
Definition fp_template (imm rm rd rs1 rs2 : Z) : option (M D unit) :=
  let op n := imm =? ((n << 2) .| OPID F) in
  if op 0x00 then Some (fp_binary (add_sf (fmt := fmt)) rm rd rs1 rs2)
  else if op 0x01 then Some (fp_binary (sub_sf (fmt := fmt)) rm rd rs1 rs2)
  else if op 0x02 then Some (fp_binary (mul_sf (fmt := fmt)) rm rd rs1 rs2)
  else if op 0x03 then Some (fp_binary (div_sf (fmt := fmt)) rm rd rs1 rs2)
  else if op 0x0b then Some (fp_sqrt rm rd rs1 rs2)
  else if op 0x04 then Some (fp_sgnj rm rd rs1 rs2)
  else if op 0x05 then Some (fp_minmax rm rd rs1 rs2)
  else if op 0x18 then Some (fp_to_int rm rd rs1 rs2)
  else if op 0x14 then Some (fp_compare rm rd rs1 rs2)
  else if op 0x1a then Some (fp_from_int rm rd rs1 rs2)
  else if op 0x08 then Some (fp_convert rm rd rs1 rs2)
  else if op 0x1c then Some (fp_move_class rm rd rs1 rs2)
  else if op 0x1e then Some (fp_move_from_int rm rd rs1 rs2)
  else None.

End Template.

(** ** OP-FP, fused multiply-add, loads and stores *)

Definition exec_fp (insn rd rs1 rs2 : Z) : M D unit :=
  f ← gets fs;
  illegal_if (f =? 0);;
  let imm := insn >> 25 in
  let rm := (insn >> 12) .& 7 in
  (match fp_template FP32 imm rm rd rs1 rs2 with
  | Some m => m
  | None =>
      match fp_template FP64 imm rm rd rs1 rs2 with
      | Some m => m
      | None => goto XIllegal
      end
  end);;
  NEXT_INSN.

(** fmadd, fmsub, fnmsub, fnmadd: the flags say which of the product and the
    addend are negated *)
Definition exec_fma (neg_prod neg_add : bool) (insn rd rs1 rs2 : Z) : M D unit :=
  f ← gets fs;
  illegal_if (f =? 0);;
  let funct3 := (insn >> 25) .& 3 in
  let rs3 := insn >> 27 in
  rm ← insn_rm ((insn >> 12) .& 7);
  a ← gets (read_fp_reg rs1);
  b ← gets (read_fp_reg rs2);
  c ← gets (read_fp_reg rs3);
  (match funct3 with
  | 0 =>
      let neg (n : bool) x := if n then x .^ u32 FSIGN_MASK32 else x in
      r ← with_flags (fma_sf (fmt := sf32) (neg neg_prod (chkfp32 a)) (chkfp32 b)
                        (neg neg_add (chkfp32 c)) rm);
      modify (write_fp_reg rd (r .| F32_HIGH))
  | 1 =>
      let neg (n : bool) x := if n then x .^ FSIGN_MASK64 else x in
      r ← with_flags (fma_sf (fmt := sf64) (neg neg_prod a) b (neg neg_add c) rm);
      modify (write_fp_reg rd (r .| F64_HIGH))
  | _ => goto XIllegal
  end);;
  NEXT_INSN.

Definition exec_fmadd := exec_fma false false.
Definition exec_fmsub := exec_fma false true.
Definition exec_fnmsub := exec_fma true false.
Definition exec_fnmadd := exec_fma true true.

Definition exec_fp_load (insn rd rs1 : Z) : M D unit :=
  f ← gets fs;
  illegal_if (f =? 0);;
  let funct3 := (insn >> 12) .& 7 in
  x ← reg_read rs1;
  let addr := u64 (x + imm_i insn) in
  (match funct3 with
  | 2 => (* flw *) rval ← mem_read 32 addr; modify (write_fp_reg rd (rval .| F32_HIGH))
  | 3 => (* fld *) rval ← mem_read 64 addr; modify (write_fp_reg rd (rval .| F64_HIGH))
  | _ => goto XIllegal
  end);;
  NEXT_INSN.

Definition exec_fp_store (insn rs1 rs2 : Z) : M D unit :=
  f ← gets fs;
  illegal_if (f =? 0);;
  let funct3 := (insn >> 12) .& 7 in
  x ← reg_read rs1;
  let addr := u64 (x + imm_s insn) in
  v ← gets (read_fp_reg rs2);
  (match funct3 with
  | 2 => (* fsw *) mem_write 32 addr v
  | 3 => (* fsd *) mem_write 64 addr v
  | _ => goto XIllegal
  end);;
  NEXT_INSN.

End Exec.
