(* ===== verification/IntProps.v ===== *)
(** * The integer instructions against the RISC-V definitions

    Multiplication and division by exact integer arithmetic; the half-word
    multiplications of builds without 128-bit integers; the immediates, as
    inverses of the encodings; the AMO operations. *)

From S2P Require Import Prelude Riscv CpuState IoMem Mmu Csr Trap IntArith Insn SoftFp Exec.

(** ** What the M extension computes

    [x] and [y] are register values; the result is a register value. *)

Definition isa_muldiv (w funct3 x y : Z) : Z :=
  match funct3 with
  | 0 => uN w (x * y)
  | 1 => uN w (sN w x * sN w y / 2 ^ w)
  | 2 => uN w (sN w x * y / 2 ^ w)
  | 3 => x * y / 2 ^ w
  | 4 => if y =? 0 then 2 ^ w - 1 else uN w (Z.quot (sN w x) (sN w y))
  | 5 => if y =? 0 then 2 ^ w - 1 else x / y
  | 6 => if y =? 0 then x else uN w (Z.rem (sN w x) (sN w y))
  | _ => if y =? 0 then x else x mod y
  end.

Lemma sN_shiftr w a : 1 <= w -> uN w (sN (2 * w) a >> w) = uN w (a / 2 ^ w).
Proof.
  intros Hw. destruct (sN_congr (2 * w) a ltac:(lia)) as [k ->]. rewrite shiftr_div by lia.
  replace (2 ^ (2 * w)) with (2 ^ w * 2 ^ w) by (rewrite <- Z.pow_add_r by lia; f_equal; lia).
  pose proof (pow2_pos w ltac:(lia)).
  replace (a + k * (2 ^ w * 2 ^ w)) with (a + k * 2 ^ w * 2 ^ w) by ring.
  rewrite Z.div_add by lia. unfold uN. by rewrite Z.mod_add by lia.
Qed.

Lemma prod_high_in_u w x y : 0 <= w -> in_u w x -> in_u w y -> in_u w (x * y / 2 ^ w).
Proof.
  intros Hw Hx Hy. unfold in_u in *. pose proof (pow2_pos w Hw).
  split; [apply Z.div_pos; nia|]. apply Z.div_lt_upper_bound; nia.
Qed.

Lemma uN_congr w a b : 0 <= w -> (exists k, a = b + k * 2 ^ w) -> uN w a = uN w b.
Proof. intros Hw [k ->]. unfold uN. pose proof (pow2_pos w Hw). by rewrite Z.mod_add by lia. Qed.

Lemma uN_mul_sN w x y : 1 <= w -> uN w (sN w x * sN w y) = uN w (x * y).
Proof.
  intros Hw. destruct (sN_congr w x Hw) as [k ->]. destruct (sN_congr w y Hw) as [l ->].
  apply uN_congr; [lia|]. exists (k * y + x * l + k * l * 2 ^ w). ring.
Qed.

Lemma sN_0 w y : 1 <= w -> in_u w y -> sN w y = 0 <-> y = 0.
Proof.
  intros Hw Hy. unfold in_u in Hy. rewrite sN_eq by done. pose proof (pow2_pos (w - 1) ltac:(lia)).
  pose proof (pow2_half w Hw). case_match; lia.
Qed.

Lemma sN_min w : 1 <= w -> sN w (1 << (w - 1)) = - 2 ^ (w - 1).
Proof.
  intros Hw. rewrite shiftl_mul, Z.mul_1_l by lia. pose proof (pow2_half w Hw).
  pose proof (pow2_pos (w - 1) ltac:(lia)). unfold sN.
  replace (2 ^ (w - 1) + 2 ^ (w - 1)) with (1 * 2 ^ w) by lia. rewrite Z.mod_mul; lia.
Qed.

Lemma div_quot w a b : 1 <= w -> uN w (div w a b) = if b =? 0 then 2 ^ w - 1 else uN w (Z.quot a b).
Proof.
  intros Hw. unfold div. pose proof (pow2_pos w ltac:(lia)). destruct (b =? 0) eqn:Eb.
  - unfold uN. symmetry. apply Z.mod_unique with (-1); lia.
  - destruct (_ && _) eqn:E; [|done]. apply andb_true_iff in E as [Ea Eb'].
    apply Z.eqb_eq in Ea, Eb'. subst. rewrite sN_min by lia.
    change (-1) with (- (1)). rewrite Z.quot_opp_opp, Z.quot_1_r by lia.
    apply uN_congr; [lia|]. exists (-1). rewrite (pow2_half w) by lia. lia.
Qed.

Lemma rem_rem w a b : 1 <= w -> rem w a b = if b =? 0 then a else Z.rem a b.
Proof.
  intros Hw. unfold rem. destruct (b =? 0); [done|]. destruct (_ && _) eqn:E; [|done].
  apply andb_true_iff in E as [_ Eb]. apply Z.eqb_eq in Eb as ->.
  change (-1) with (- (1)). by rewrite Z.rem_opp_r, Z.rem_1_r by lia.
Qed.

Lemma quot_in_s w a b : 1 <= w -> in_s w a -> b <> 0 -> ~ (a = - 2 ^ (w - 1) /\ b = -1) ->
  in_s w (Z.quot a b).
Proof.
  intros Hw Ha Hb Hn. unfold in_s in *. pose proof (pow2_pos (w - 1) ltac:(lia)).
  set (m := 2 ^ (w - 1)) in *. pose proof (Z.quot_abs a b Hb) as Hq.
  pose proof (Z.mul_quot_le (Z.abs a) (Z.abs b) ltac:(lia) ltac:(lia)) as [_ Hle]. rewrite Hq in Hle.
  pose proof (Z.quot_rem' a b) as E. clearbody m.
  assert (Z.abs (Z.quot a b) <= Z.abs a) by nia.
  destruct (decide (Z.quot a b = m)) as [Em|]; [|lia].
  assert (a = - m) as -> by (destruct (decide (a = - m)); [done|lia]).
  assert (Z.abs b = 1) by nia. assert (b = 1) as -> by lia. rewrite Z.quot_1_r in Em. lia.
Qed.

Lemma rem_in_s w a b : 1 <= w -> in_s w a -> b <> 0 -> in_s w (Z.rem a b).
Proof.
  intros Hw Ha Hb. unfold in_s in *. pose proof (Z.rem_abs a b Hb) as Hr.
  pose proof (Z.rem_le (Z.abs a) (Z.abs b) ltac:(lia) ltac:(lia)).
  pose proof (Z.rem_sign_mul a b Hb). pose proof (pow2_pos (w - 1) ltac:(lia)). nia.
Qed.

(** ** The half-word products *)

Lemma mulhu_half_high h a b : 2 <= h -> in_u (2 * h) a -> in_u (2 * h) b ->
  mulhu_half h a b = a * b / 2 ^ (2 * h).
Proof.
  intros Hh Ha Hb. unfold mulhu_half. cbv zeta.
  assert (2 ^ (2 * h) = 2 ^ h * 2 ^ h) as E2 by (rewrite <- Z.pow_add_r by lia; f_equal; lia).
  pose proof (pow2_pos h ltac:(lia)) as HH. set (H := 2 ^ h) in *.
  assert (4 <= H) as H4 by (change 4 with (2 ^ 2); apply Z.pow_le_mono_r; lia).
  unfold in_u in *. rewrite E2 in *. unfold uN. rewrite E2. fold H. rewrite !shiftr_div by lia. fold H.
  assert (0 <= a / H < H /\ 0 <= b / H < H) as [Ha1 Hb1]
    by (split; split; [apply Z.div_pos|apply Z.div_lt_upper_bound|apply Z.div_pos|apply Z.div_lt_upper_bound]; lia).
  rewrite (Z.mod_small (a / H)), (Z.mod_small (b / H)) by done.
  pose proof (Z.mod_pos_bound a H HH) as Ha0. pose proof (Z.mod_pos_bound b H HH) as Hb0.
  pose proof (Z.div_mod a H ltac:(lia)) as Ea. pose proof (Z.div_mod b H ltac:(lia)) as Eb.
  set (a0 := a mod H) in *. set (a1 := a / H) in *. set (b0 := b mod H) in *. set (b1 := b / H) in *.
  assert (forall x y, 0 <= x < H -> 0 <= y < H -> (x * y) mod (H * H) = x * y) as Hm
    by (clear - HH; intros; apply Z.mod_small; nia).
  rewrite !Hm by done.
  pose proof (half_mul H a0 a1 b0 b1 HH) as E. pose proof (half_mul_bounds H a0 a1 b0 b1 ltac:(lia) Ha0 Ha1 Hb0 Hb1) as B.
  cbv zeta in E, B. destruct B as (B1 & B2 & B3).
  set (c := a0 * b0 / H + a0 * b1 mod H + a1 * b0 mod H) in *.
  set (d := c / H + a0 * b1 / H + a1 * b0 / H + a1 * b1 mod H) in *.
  assert (4 * H <= H * H) by (clear - H4; nia).
  rewrite (Z.mod_small c) by lia. fold d. rewrite (Z.mod_small d) by lia.
  rewrite (Z.mod_small (d / H + a1 * b1 / H)) by done.
  set (t := d / H + a1 * b1 / H) in *. pose proof (Z.mod_pos_bound d H HH).
  rewrite shiftl_mul by lia. fold H.
  rewrite (Z.mod_small (t * H)) by (clear - B3 HH; nia).
  replace (t * H) with (t << h) by (rewrite shiftl_mul by lia; done).
  rewrite lor_disjoint_add by (unfold in_u; fold H; lia). fold H.
  rewrite Ea, Eb. replace ((H * a1 + a0) * (H * b1 + b0)) with ((a1 * H + a0) * (b1 * H + b0)) by ring.
  rewrite <- E. pose proof (Z.mod_pos_bound c H HH). pose proof (Z.mod_pos_bound (a0 * b0) H HH).
  assert (0 <= c mod H * H + (a0 * b0) mod H < H * H) by (clear - H0 H1 H2 H3; nia).
  apply Z.div_unique with (c mod H * H + (a0 * b0) mod H); [by left|ring].
Qed.

(** ** Properties *)

(** On every operand the code's MUL/MULH/MULHSU/MULHU/DIV/DIVU/REM/REMU
    return what the M extension defines, division by zero and the overflowing
    division included. *)
Lemma op_muldiv_isa funct3 x y :
  0 <= funct3 < 8 -> in_u 64 x -> in_u 64 y ->
  exists v, op_muldiv funct3 x y = Some v /\ u64 v = isa_muldiv 64 funct3 x y.
Proof.
  intros Hf Hx Hy.
  assert ((s64 y =? 0) = (y =? 0)) as E0 by (pose proof (sN_0 64 y ltac:(lia) Hy); lia).
  assert (in_u 64 (x * y / 2 ^ 64)) by (by apply prod_high_in_u; [lia|..]).
  pose proof (pow2_pos 64 ltac:(lia)) as H64.
  unfold op_muldiv, isa_muldiv, mulh, mulhsu, mulhu.
  assert (funct3 = 0 \/ funct3 = 1 \/ funct3 = 2 \/ funct3 = 3 \/ funct3 = 4 \/ funct3 = 5
    \/ funct3 = 6 \/ funct3 = 7) as [->|[->|[->|[->|[->|[->|[->| ->]]]]]]] by lia;
    eexists; (split; [reflexivity|]); rewrite ?uN_sN by lia; rewrite ?sN_shiftr by lia.
  - by rewrite uN_mul_sN by lia.
  - by rewrite uN_idem by lia.
  - by rewrite uN_idem by lia.
  - rewrite uN_idem by lia. by apply uN_small.
  - rewrite div_quot, E0 by lia. done.
  - unfold divu. destruct (y =? 0) eqn:Ey; [by vm_compute|]. apply uN_small. unfold in_u in *.
    split; [apply Z.div_pos; lia|]. apply Z.div_lt_upper_bound; nia.
  - rewrite rem_rem, E0 by lia. destruct (y =? 0); [|done].
    rewrite uN_sN by lia. by apply uN_small.
  - unfold remu. destruct (y =? 0) eqn:Ey; apply uN_small; [done|]. unfold in_u in *.
    pose proof (Z.mod_pos_bound x y). lia.
Qed.

(** The same for the 32-bit instructions MULW/DIVW/DIVUW/REMW/REMUW: the
    result is the sign extension of the 32-bit result, and no other encoding
    of that opcode is accepted. *)
Lemma op_muldiv32_isa funct3 x y :
  0 <= funct3 < 8 -> in_u 64 x -> in_u 64 y ->
  op_muldiv32 funct3 x y =
    if (funct3 =? 0) || (4 <=? funct3) then Some (s32 (isa_muldiv 32 funct3 (u32 x) (u32 y))) else None.
Proof.
  intros Hf Hx Hy. pose proof (uN_range 32 x ltac:(lia)) as Hx'. pose proof (uN_range 32 y ltac:(lia)) as Hy'.
  assert ((s32 y =? 0) = (u32 y =? 0)) as E0
    by (pose proof (sN_0 32 (u32 y) ltac:(lia) Hy') as H; rewrite sN_uN in H by lia; lia).
  unfold op_muldiv32, isa_muldiv.
  assert (funct3 = 0 \/ funct3 = 1 \/ funct3 = 2 \/ funct3 = 3 \/ funct3 = 4 \/ funct3 = 5
    \/ funct3 = 6 \/ funct3 = 7) as [->|[->|[->|[->|[->|[->|[->| ->]]]]]]] by lia;
    try reflexivity; cbn [Z.eqb Z.leb Z.compare orb Pos.compare Pos.compare_cont]; f_equal;
    rewrite ?sN_uN by lia.
  - rewrite <- (sN_uN 32 (u32 x * u32 y)), <- (sN_uN 32 (s32 x * s32 y)) by lia. f_equal.
    rewrite <- (sN_uN 32 x), <- (sN_uN 32 y) by lia. by apply uN_mul_sN.
  - assert (in_s 32 (div 32 (s32 x) (s32 y))) as Hd.
    { unfold div. pose proof (sN_range 32 x ltac:(lia)) as Hs. unfold in_s in *.
      destruct (s32 y =? 0) eqn:Ey; [lia|]. destruct (_ && _) eqn:E; [done|].
      rewrite sN_min in E by lia. apply quot_in_s; [lia|done|lia|lia]. }
    rewrite <- (sN_small 32 (div 32 (s32 x) (s32 y))) by done.
    rewrite <- sN_uN, div_quot, E0 by lia. destruct (u32 y =? 0); [done|]. by rewrite sN_uN by lia.
  - rewrite rem_rem, E0 by lia. destruct (u32 y =? 0); [by rewrite sN_uN by lia|].
    rewrite sN_uN by lia. symmetry. apply sN_small; [lia|].
    apply rem_in_s; [lia|by apply sN_range|lia].
Qed.

(** C29: on every operand the code's MUL/MULH/MULHSU/MULHU/DIV/DIVU/REM/REMU
    return what the M extension defines, division by zero and the overflowing
    division included; MULW/DIVW/DIVUW/REMW/REMUW return the sign extension of
    the 32-bit result, and no other encoding of their opcode is accepted. *)
Theorem muldiv_isa funct3 x y :
  0 <= funct3 < 8 -> in_u 64 x -> in_u 64 y ->
  (exists v, op_muldiv funct3 x y = Some v /\ u64 v = isa_muldiv 64 funct3 x y)
  /\ op_muldiv32 funct3 x y =
       if (funct3 =? 0) || (4 <=? funct3) then Some (s32 (isa_muldiv 32 funct3 (u32 x) (u32 y))) else None.
Proof. intros. split; [by apply op_muldiv_isa|by apply op_muldiv32_isa]. Qed.

Lemma muldiv_isa_witness :
  (exists v, op_muldiv 4 (2 ^ 63) (2 ^ 64 - 1) = Some v /\ u64 v = 2 ^ 63)
  /\ op_muldiv32 6 7 (2 ^ 32 - 2) = Some 1.
Proof.
  split; [apply (muldiv_isa 4 (2 ^ 63) (2 ^ 64 - 1)); by vm_compute|].
  destruct (muldiv_isa 6 7 (2 ^ 32 - 2)) as [_ ->]; by vm_compute.
Defined.

(** The half-word MULHU of builds without 128-bit integers computes the
    high word of the exact product, like the 128-bit version. *)
Lemma mulhu_half_exact h a b : 2 <= h -> in_u (2 * h) a -> in_u (2 * h) b ->
  mulhu_half h a b = mulhu (2 * h) a b /\ mulhu_half h a b = a * b / 2 ^ (2 * h).
Proof.
  intros Hh Ha Hb. rewrite mulhu_half_high by done. split; [|done].
  unfold mulhu. rewrite sN_shiftr by lia. symmetry. apply uN_small. apply prod_high_in_u; [lia|done..].
Qed.

(** The half-word MULH against the 128-bit one. *)
Lemma mulh_half_off h a b : 2 <= h -> in_s (2 * h) a -> in_s (2 * h) b ->
  let w := 2 * h in
  mulh_half h a b
  = uN w (mulh w a b + (if a <? 0 then b - a else 0) + (if b <? 0 then a - b else 0)).
Proof.
  intros Hh Ha Hb w. assert (1 <= w) as Hw by (unfold w; lia).
  pose proof (uN_range w a ltac:(lia)). pose proof (uN_range w b ltac:(lia)).
  pose proof (pow2_pos w ltac:(lia)) as HP.
  assert (forall x, in_s w x -> uN w x = x + (if x <? 0 then 2 ^ w else 0)) as Hu.
  { intros x Hx. unfold in_s in Hx. unfold uN. pose proof (pow2_half w Hw).
    destruct (x <? 0) eqn:E; [|rewrite Z.mod_small; lia].
    symmetry. apply Z.mod_unique with (-1); lia. }
  unfold mulh_half, mulh. cbv zeta. fold w. rewrite mulhu_half_high by done. fold w.
  rewrite sN_shiftr by done. fold w.
  transitivity (uN w (uN w a * uN w b / 2 ^ w - (if a <? 0 then a else 0) - (if b <? 0 then b else 0))).
  - assert (in_u w (uN w a * uN w b / 2 ^ w)) as HM by (by apply prod_high_in_u; [lia|..]).
    revert HM. generalize (uN w a * uN w b / 2 ^ w). intros m HM. apply uN_small in HM. unfold uN in *.
    destruct (a <? 0), (b <? 0); rewrite ?Z.sub_0_r, ?Zminus_mod_idemp_r, ?Zminus_mod_idemp_l, ?HM; done.
  - rewrite (Hu a), (Hu b) by done.
    replace ((a + (if a <? 0 then 2 ^ w else 0)) * (b + (if b <? 0 then 2 ^ w else 0)))
      with (a * b + ((if a <? 0 then b else 0) + (if b <? 0 then a else 0)
            + (if (a <? 0) && (b <? 0) then 2 ^ w else 0)) * 2 ^ w)
      by (destruct (a <? 0), (b <? 0); simpl; ring).
    rewrite Z.div_add by lia. generalize (a * b / 2 ^ w). intros p.
    assert (forall x y, uN w (uN w p + x + y) = uN w (p + (x + y))) as ->
      by (intros; unfold uN; by rewrite <- Z.add_assoc, Zplus_mod_idemp_l).
    apply uN_congr; [lia|]. exists (if (a <? 0) && (b <? 0) then 1 else 0).
    destruct (a <? 0), (b <? 0); simpl; ring.
Qed.

(** In builds without 128-bit integers MULHU still computes the high word of
    the exact product, but MULH subtracts the operand that is negative instead
    of the other one: it differs from the 128-bit version by the exact amount
    below, which vanishes only when the signs or the operands agree. *)
Theorem mulh_half_error h a b : 2 <= h -> in_s (2 * h) a -> in_s (2 * h) b ->
  let w := 2 * h in
  mulh_half h a b
    = uN w (mulh w a b + (if a <? 0 then b - a else 0) + (if b <? 0 then a - b else 0))
  /\ mulhu_half h (uN w a) (uN w b) = mulhu w (uN w a) (uN w b)
  /\ mulhu_half h (uN w a) (uN w b) = uN w a * uN w b / 2 ^ w.
Proof.
  intros Hh Ha Hb w. split; [by apply mulh_half_off|]. apply mulhu_half_exact; [done|apply uN_range; lia..].
Qed.

Lemma mulh_half_error_witness : mulh_half 32 (-1) 2 = 2 /\ mulh 64 (-1) 2 = 2 ^ 64 - 1.
Proof.
  split; [|by vm_compute]. destruct (mulh_half_error 32 (-1) 2) as [-> _]; by vm_compute.
Defined.
