(* ===== verification/ImmProps.v ===== *)
(** * Instruction immediates: decoding inverts the architectural encodings

    [put_x imm w] is the word [w] with the immediate fields of format [x]
    holding [imm], as the instruction formats of the architecture define
    them; the other fields of [w] are arbitrary. *)

From S2P Require Import Prelude Riscv CpuState IoMem Mmu Csr Trap Insn.

(** bits [hi] to [lo] of an immediate, and a field [v] of [n] bits at [pos] *)
Definition slice (imm hi lo : Z) : Z := (imm >> lo) .& Z.ones (hi - lo + 1).
Definition set_field (pos n v w : Z) : Z := (w .& ~~ (Z.ones n << pos)) .| (v << pos).

Definition put_i (imm w : Z) : Z := set_field 20 12 (slice imm 11 0) w.
Definition put_s (imm w : Z) : Z := set_field 25 7 (slice imm 11 5) (set_field 7 5 (slice imm 4 0) w).
Definition put_b (imm w : Z) : Z :=
  set_field 31 1 (slice imm 12 12) (set_field 25 6 (slice imm 10 5)
    (set_field 8 4 (slice imm 4 1) (set_field 7 1 (slice imm 11 11) w))).
Definition put_u (imm w : Z) : Z := set_field 12 20 (slice imm 31 12) w.
Definition put_j (imm w : Z) : Z :=
  set_field 31 1 (slice imm 20 20) (set_field 21 10 (slice imm 10 1)
    (set_field 20 1 (slice imm 11 11) (set_field 12 8 (slice imm 19 12) w))).

(** an [n]-bit signed immediate whose [k] low bits are zero *)
Definition imm_ok (n k imm : Z) : Prop := in_s n imm /\ uN k imm = 0.

Lemma imm_low n k imm i : 0 <= i < k -> imm_ok n k imm -> Z.testbit imm i = false.
Proof.
  intros Hi [_ Hk]. transitivity (Z.testbit (uN k imm) i); [|by rewrite Hk, Z.testbit_0_l].
  rewrite testbit_uN by lia. by destruct (Z.ltb_spec i k); [|lia].
Qed.

(** sign extension by two shifts *)
Lemma shift_sext n x : 1 <= n <= 32 -> s32 (x << (32 - n)) >> (32 - n) = sN n x.
Proof.
  intros Hn. apply Z.bits_inj'. intros i Hi. autorewrite with zbits. f_equal. lia.
Qed.

Lemma sext_sN n x : 1 <= n <= 32 -> sext x n = sN n x.
Proof. apply shift_sext. Qed.

Lemma sN_bits_eq n x imm k :
  1 <= n -> imm_ok n k imm ->
  Forall (fun i => Z.testbit x i = Z.testbit imm i) (seqZ 0 n) -> sN n x = imm.
Proof.
  intros Hn [Hi _] Hf. rewrite <- (sN_small n imm) by done.
  rewrite <- (sN_uN n x), <- (sN_uN n imm) by lia. f_equal. apply uN_bits_eq; [lia|done].
Qed.

(** the bits of a word with a slice of [imm] written into it *)
Lemma testbit_field pos n imm hi lo w i :
  0 <= pos -> 0 <= lo -> n = hi - lo + 1 -> 0 <= n -> 0 <= i ->
  Z.testbit (set_field pos n (slice imm hi lo) w) i =
    if (pos <=? i) && (i <? pos + n) then Z.testbit imm (i - pos + lo) else Z.testbit w i.
Proof.
  intros Hp Hl -> Hn Hi. unfold set_field, slice. rewrite Z.lor_spec, Z.land_spec, Z.lnot_spec by lia.
  rewrite !Z.shiftl_spec by lia.
  destruct (Z.leb_spec pos i).
  - rewrite Z.land_spec, !testbit_ones' by lia. rewrite Z.shiftr_spec by lia.
    destruct (Z.ltb_spec (i - pos) (hi - lo + 1)), (Z.ltb_spec i (pos + (hi - lo + 1))); try lia;
      simpl; rewrite ?andb_false_r, ?andb_true_r, ?orb_false_r; done.
  - rewrite !(Z.testbit_neg_r _ (i - pos)) by lia. simpl. by rewrite andb_true_r, orb_false_r.
Qed.

(** the enumeration of the bits of an immediate; [Hlow]: its low bits are zero *)
Ltac bit_step ::=
  progress (autorewrite with zbits; rewrite ?testbit_field by lia; norm_index; eval_testbit;
    cbn [andb orb negb]; rewrite ?andb_true_r, ?andb_false_r, ?orb_false_r, ?orb_false_l).
Ltac enum_bits Hlow := enum_bits_with ltac:(rewrite Hlow by lia; reflexivity).

Lemma imm_s_put imm w : in_s 12 imm -> imm_s (put_s imm w) = imm.
Proof.
  intros Hi. assert (imm_ok 12 0 imm) as Hok by (split; [done|apply Z.mod_1_r]).
  unfold imm_s. cbv zeta. change 20 with (32 - 12). rewrite shift_sext by lia.
  apply (sN_bits_eq 12 _ _ 0); [lia|done|]. unfold put_s.
  enum_bits (fun i H => imm_low 12 0 imm i H Hok).
Qed.

Lemma imm_i_put imm w : in_u 32 w -> in_s 12 imm -> imm_i (put_i imm w) = imm.
Proof.
  intros Hw Hi. assert (imm_ok 12 0 imm) as Hok by (split; [done|apply Z.mod_1_r]).
  unfold imm_i. transitivity (sN 12 (put_i imm w >> 20)).
  { apply Z.bits_inj'. intros i Hi'. autorewrite with zbits. f_equal. lia. }
  apply (sN_bits_eq 12 _ _ 0); [lia|done|]. unfold put_i.
  enum_bits (fun i H => imm_low 12 0 imm i H Hok).
Qed.

Lemma imm_b_put imm w : imm_ok 13 1 imm -> imm_b (put_b imm w) = imm.
Proof.
  intros Hok. unfold imm_b. cbv zeta. change 19 with (32 - 13). rewrite shift_sext by lia.
  apply (sN_bits_eq 13 _ _ 1); [lia|done|]. unfold put_b.
  enum_bits (fun i H => imm_low 13 1 imm i H Hok).
Qed.

Lemma imm_j_put imm w : imm_ok 21 1 imm -> imm_j (put_j imm w) = imm.
Proof.
  intros Hok. unfold imm_j. cbv zeta. change 11 with (32 - 21). rewrite shift_sext by lia.
  apply (sN_bits_eq 21 _ _ 1); [lia|done|]. unfold put_j.
  enum_bits (fun i H => imm_low 21 1 imm i H Hok).
Qed.

Lemma imm_u_put imm w : imm_ok 32 12 imm -> imm_u (put_u imm w) = imm.
Proof.
  intros Hok. unfold imm_u. apply (sN_bits_eq 32 _ _ 12); [lia|done|]. unfold put_u.
  enum_bits (fun i H => imm_low 32 12 imm i H Hok).
Qed.

(** ** Compressed instructions *)

Lemma testbit_get_field1 val sp dp dm i :
  0 <= sp -> 0 <= dp <= dm -> dm < 32 -> 0 <= i ->
  Z.testbit (get_field1 val sp dp dm) i =
    if (dp <=? i) && (i <=? dm) then Z.testbit val (i - dp + sp) else false.
Proof.
  intros Hs Hd Hm Hi. unfold get_field1. cbv zeta.
  replace (u32 (((1 << (dm - dp + 1)) - 1) << dp)) with (Z.ones (dm - dp + 1) << dp).
  2: { symmetry. apply uN_small. apply (shiftl_in_u (dm - dp + 1)); [lia..|].
       unfold in_u, Z.ones. rewrite Z.shiftl_mul_pow2, Z.mul_1_l by lia.
       pose proof (pow2_pos (dm - dp + 1) ltac:(lia)). lia. }
  assert (forall x, Z.testbit (x .& (Z.ones (dm - dp + 1) << dp)) i
    = if (dp <=? i) && (i <=? dm) then Z.testbit x i else false) as Hm'.
  { intros x. rewrite Z.land_spec, Z.shiftl_spec by lia. destruct (Z.leb_spec dp i).
    - rewrite testbit_ones' by lia. destruct (Z.leb_spec i dm), (Z.ltb_spec (i - dp) (dm - dp + 1));
        try lia; simpl; by rewrite ?andb_true_r, ?andb_false_r.
    - rewrite (Z.testbit_neg_r _ (i - dp)) by lia. by rewrite andb_false_r. }
  destruct (Z.leb_spec sp dp); rewrite Hm'; destruct (Z.leb_spec dp i), (Z.leb_spec i dm); try done; simpl.
  - rewrite testbit_uN, Z.shiftl_spec by lia. destruct (Z.ltb_spec i 32); [|lia]. simpl. f_equal. lia.
  - rewrite Z.shiftr_spec by lia. f_equal. lia.
Qed.

Lemma get_field1_in_u val sp dp dm : 0 <= sp -> 0 <= dp <= dm -> dm < 32 -> in_u (dm + 1) (get_field1 val sp dp dm).
Proof.
  intros. rewrite <- (uN_small 32 (get_field1 val sp dp dm)).
  2: { unfold get_field1. cbv zeta. destruct (_ <=? _); apply land_in_u_r; try lia; apply uN_range; lia. }
  replace (u32 (get_field1 val sp dp dm)) with (uN (dm + 1) (get_field1 val sp dp dm)); [apply uN_range; lia|].
  apply Z.bits_inj'. intros i Hi. rewrite !testbit_uN, testbit_get_field1 by lia.
  destruct (Z.ltb_spec i (dm + 1)), (Z.ltb_spec i 32), (Z.leb_spec dp i), (Z.leb_spec i dm); try lia; done.
Qed.

Lemma u_bits_eq n x imm :
  0 <= n -> in_u n x -> in_u n imm ->
  Forall (fun i => Z.testbit x i = Z.testbit imm i) (seqZ 0 n) -> x = imm.
Proof.
  intros Hn Hx Hi Hf. rewrite <- (uN_small n x), <- (uN_small n imm) by done. by apply uN_bits_eq.
Qed.

(** the fields [(position, hi, lo)] of an immediate, written into a word *)
Definition put_fields (l : list (Z * Z * Z)) (imm w : Z) : Z :=
  foldr (fun '(pos, hi, lo) w => set_field pos (hi - lo + 1) (slice imm hi lo) w) w l.

(** the formats of the compressed instructions *)
Definition fmt_ciw := [(11, 5, 4); (7, 9, 6); (6, 2, 2); (5, 3, 3)].
Definition fmt_cl_d := [(10, 5, 3); (5, 7, 6)].
Definition fmt_cl_w := [(10, 5, 3); (6, 2, 2); (5, 6, 6)].
Definition fmt_ci := [(12, 5, 5); (2, 4, 0)].
Definition fmt_addi16sp := [(12, 9, 9); (6, 4, 4); (5, 6, 6); (3, 8, 7); (2, 5, 5)].
Definition fmt_lui := [(12, 17, 17); (2, 16, 12)].
Definition fmt_cj := [(12, 11, 11); (11, 4, 4); (9, 9, 8); (8, 10, 10); (7, 6, 6); (6, 7, 7); (3, 3, 1); (2, 5, 5)].
Definition fmt_cb := [(12, 8, 8); (10, 4, 3); (5, 7, 6); (3, 2, 1); (2, 5, 5)].
Definition fmt_ldsp := [(12, 5, 5); (5, 4, 3); (2, 8, 6)].
Definition fmt_lwsp := [(12, 5, 5); (4, 4, 2); (2, 7, 6)].
Definition fmt_sdsp := [(10, 5, 3); (7, 8, 6)].
Definition fmt_swsp := [(9, 5, 2); (7, 7, 6)].

Ltac in_u_fields :=
  repeat first
    [ (apply lor_in_u; [lia| |])
    | (eapply in_u_weaken; [|apply get_field1_in_u; lia]; lia)
    | (apply land_in_u_r; [lia|by vm_compute]) ].
Ltac bit_step ::=
  progress (autorewrite with zbits; rewrite ?testbit_field, ?testbit_get_field1 by lia; norm_index;
    eval_testbit; cbn [andb orb negb]; rewrite ?andb_true_r, ?andb_false_r, ?orb_false_r, ?orb_false_l).
#[local] Ltac signed_fields n k Hok :=
  rewrite sext_sN by lia; apply (sN_bits_eq n _ _ k); [lia|exact Hok|];
  enum_bits (fun i H => imm_low n k _ i H Hok).
#[local] Ltac unsigned_fields n k Hu Hk :=
  apply (u_bits_eq n); [lia|in_u_fields|exact Hu|];
  enum_bits (fun i H => imm_low (n + 1) k _ i H Hk).

Lemma in_u_imm_ok n k imm : 0 <= n -> in_u n imm -> uN k imm = 0 -> imm_ok (n + 1) k imm.
Proof.
  intros Hn Hu Hk. split; [|done]. unfold in_s, in_u in *. replace (n + 1 - 1) with n by lia. lia.
Qed.

#[local] Ltac cput f fmt := unfold f, put_fields, fmt; cbn [foldr].

Lemma c_imm_j_put imm w : imm_ok 12 1 imm -> c_imm_j (put_fields fmt_cj imm w) = imm.
Proof. intros Hok. cput c_imm_j fmt_cj. signed_fields 12 1 Hok. Qed.
Lemma c_imm_b_put imm w : imm_ok 9 1 imm -> c_imm_b (put_fields fmt_cb imm w) = imm.
Proof. intros Hok. cput c_imm_b fmt_cb. signed_fields 9 1 Hok. Qed.
Lemma c_imm_ci_put imm w : imm_ok 6 0 imm -> c_imm_ci (put_fields fmt_ci imm w) = imm.
Proof. intros Hok. cput c_imm_ci fmt_ci. signed_fields 6 0 Hok. Qed.
Lemma c_imm_lui_put imm w : imm_ok 18 12 imm -> c_imm_lui (put_fields fmt_lui imm w) = imm.
Proof. intros Hok. cput c_imm_lui fmt_lui. signed_fields 18 12 Hok. Qed.
Lemma c_imm_addi16sp_put imm w : imm_ok 10 4 imm -> c_imm_addi16sp (put_fields fmt_addi16sp imm w) = imm.
Proof. intros Hok. cput c_imm_addi16sp fmt_addi16sp. signed_fields 10 4 Hok. Qed.

Lemma c_imm_addi4spn_put imm w : in_u 10 imm -> uN 2 imm = 0 -> c_imm_addi4spn (put_fields fmt_ciw imm w) = imm.
Proof.
  intros Hu Hk. pose proof (in_u_imm_ok 10 2 imm ltac:(lia) Hu Hk) as Hok.
  cput c_imm_addi4spn fmt_ciw. unsigned_fields 10 2 Hu Hok.
Qed.
Lemma c_imm_ld_put imm w : in_u 8 imm -> uN 3 imm = 0 -> c_imm_ld (put_fields fmt_cl_d imm w) = imm.
Proof.
  intros Hu Hk. pose proof (in_u_imm_ok 8 3 imm ltac:(lia) Hu Hk) as Hok.
  cput c_imm_ld fmt_cl_d. unsigned_fields 8 3 Hu Hok.
Qed.
Lemma c_imm_lw_put imm w : in_u 7 imm -> uN 2 imm = 0 -> c_imm_lw (put_fields fmt_cl_w imm w) = imm.
Proof.
  intros Hu Hk. pose proof (in_u_imm_ok 7 2 imm ltac:(lia) Hu Hk) as Hok.
  cput c_imm_lw fmt_cl_w. unsigned_fields 7 2 Hu Hok.
Qed.
Lemma c_imm_sh_put imm w : in_u 6 imm -> c_imm_sh (put_fields fmt_ci imm w) = imm.
Proof.
  intros Hu. pose proof (in_u_imm_ok 6 0 imm ltac:(lia) Hu (Z.mod_1_r _)) as Hok.
  cput c_imm_sh fmt_ci. unsigned_fields 6 0 Hu Hok.
Qed.
Lemma c_imm_ldsp_put imm w : in_u 9 imm -> uN 3 imm = 0 ->
  c_imm_ldsp (put_fields fmt_ldsp imm w) ((put_fields fmt_ldsp imm w >> 2) .& 0x1f) = imm.
Proof.
  intros Hu Hk. pose proof (in_u_imm_ok 9 3 imm ltac:(lia) Hu Hk) as Hok.
  cput c_imm_ldsp fmt_ldsp. unsigned_fields 9 3 Hu Hok.
Qed.
Lemma c_imm_lwsp_put imm w : in_u 8 imm -> uN 2 imm = 0 ->
  c_imm_lwsp (put_fields fmt_lwsp imm w) ((put_fields fmt_lwsp imm w >> 2) .& 0x1f) = imm.
Proof.
  intros Hu Hk. pose proof (in_u_imm_ok 8 2 imm ltac:(lia) Hu Hk) as Hok.
  cput c_imm_lwsp fmt_lwsp. unsigned_fields 8 2 Hu Hok.
Qed.
Lemma c_imm_sdsp_put imm w : in_u 9 imm -> uN 3 imm = 0 -> c_imm_sdsp (put_fields fmt_sdsp imm w) = imm.
Proof.
  intros Hu Hk. pose proof (in_u_imm_ok 9 3 imm ltac:(lia) Hu Hk) as Hok.
  cput c_imm_sdsp fmt_sdsp. unsigned_fields 9 3 Hu Hok.
Qed.
Lemma c_imm_swsp_put imm w : in_u 8 imm -> uN 2 imm = 0 -> c_imm_swsp (put_fields fmt_swsp imm w) = imm.
Proof.
  intros Hu Hk. pose proof (in_u_imm_ok 8 2 imm ltac:(lia) Hu Hk) as Hok.
  cput c_imm_swsp fmt_swsp. unsigned_fields 8 2 Hu Hok.
Qed.

(** ** Properties *)

(** Decoding an immediate of a base format (I, S, B, U, J) returns the
    immediate the encoding put there, for every immediate of the format and
    whatever the other bits of the instruction are. *)
Lemma imm_roundtrip w i s b u j :
  in_u 32 w -> in_s 12 i -> in_s 12 s -> imm_ok 13 1 b -> imm_ok 32 12 u -> imm_ok 21 1 j ->
  imm_i (put_i i w) = i /\ imm_s (put_s s w) = s /\ imm_b (put_b b w) = b
  /\ imm_u (put_u u w) = u /\ imm_j (put_j j w) = j.
Proof.
  intros. split_and!;
    [by apply imm_i_put|by apply imm_s_put|by apply imm_b_put|by apply imm_u_put|by apply imm_j_put].
Qed.

(** The same for the signed immediates of the compressed formats: C.J and
    C.JAL, C.BEQZ and C.BNEZ, C.ADDI and C.LI, C.LUI and C.ADDI16SP. *)
Lemma c_imm_signed_put w j b i u a :
  imm_ok 12 1 j -> imm_ok 9 1 b -> imm_ok 6 0 i -> imm_ok 18 12 u -> imm_ok 10 4 a ->
  c_imm_j (put_fields fmt_cj j w) = j /\ c_imm_b (put_fields fmt_cb b w) = b
  /\ c_imm_ci (put_fields fmt_ci i w) = i /\ c_imm_lui (put_fields fmt_lui u w) = u
  /\ c_imm_addi16sp (put_fields fmt_addi16sp a w) = a.
Proof.
  intros. split_and!;
    [by apply c_imm_j_put|by apply c_imm_b_put|by apply c_imm_ci_put|by apply c_imm_lui_put
    |by apply c_imm_addi16sp_put].
Qed.

(** The same for the unsigned, scaled offsets and shift amounts of the
    compressed loads, stores, C.ADDI4SPN and shifts. *)
Lemma c_imm_unsigned_put w x y :
  in_u 6 x -> in_u 8 y ->
  c_imm_sh (put_fields fmt_ci x w) = x
  /\ c_imm_addi4spn (put_fields fmt_ciw (4 * y) w) = 4 * y
  /\ c_imm_ld (put_fields fmt_cl_d (8 * (x mod 32)) w) = 8 * (x mod 32)
  /\ c_imm_lw (put_fields fmt_cl_w (4 * (x mod 32)) w) = 4 * (x mod 32)
  /\ c_imm_sdsp (put_fields fmt_sdsp (8 * x) w) = 8 * x
  /\ c_imm_swsp (put_fields fmt_swsp (4 * x) w) = 4 * x
  /\ (let v := put_fields fmt_ldsp (8 * x) w in c_imm_ldsp v ((v >> 2) .& 0x1f) = 8 * x)
  /\ (let v := put_fields fmt_lwsp (4 * x) w in c_imm_lwsp v ((v >> 2) .& 0x1f) = 4 * x).
Proof.
  intros Hx Hy. unfold in_u in Hx, Hy. pose proof (Z.mod_pos_bound x 32 ltac:(lia)).
  assert (forall k z, 0 <= k -> uN k (2 ^ k * z) = 0) as Hz
    by (intros k z Hk; unfold uN; pose proof (pow2_pos k Hk); by rewrite Z.mul_comm, Z.mod_mul by lia).
  cbv zeta. split_and!.
  - by apply c_imm_sh_put.
  - apply c_imm_addi4spn_put; [unfold in_u; lia|]. by apply (Hz 2).
  - apply c_imm_ld_put; [unfold in_u; lia|]. by apply (Hz 3).
  - apply c_imm_lw_put; [unfold in_u; lia|]. by apply (Hz 2).
  - apply c_imm_sdsp_put; [unfold in_u; lia|]. by apply (Hz 3).
  - apply c_imm_swsp_put; [unfold in_u; lia|]. by apply (Hz 2).
  - apply c_imm_ldsp_put; [unfold in_u; lia|]. by apply (Hz 3).
  - apply c_imm_lwsp_put; [unfold in_u; lia|]. by apply (Hz 2).
Qed.

(** C40: decoding an immediate returns the immediate the encoding put there, for
    every immediate of the format and whatever the other bits of the instruction
    are: the base formats (I, S, B, U, J), the signed immediates of the
    compressed ones (C.J and C.JAL, C.BEQZ and C.BNEZ, C.ADDI and C.LI, C.LUI,
    C.ADDI16SP) and their unsigned, scaled offsets and shift amounts (loads,
    stores, C.ADDI4SPN, shifts). *)
Theorem immediates_roundtrip w ii ss bb uu jj j b i u a x y :
  in_u 32 w -> in_s 12 ii -> in_s 12 ss -> imm_ok 13 1 bb -> imm_ok 32 12 uu -> imm_ok 21 1 jj ->
  imm_ok 12 1 j -> imm_ok 9 1 b -> imm_ok 6 0 i -> imm_ok 18 12 u -> imm_ok 10 4 a -> in_u 6 x -> in_u 8 y ->
  (imm_i (put_i ii w) = ii /\ imm_s (put_s ss w) = ss /\ imm_b (put_b bb w) = bb
   /\ imm_u (put_u uu w) = uu /\ imm_j (put_j jj w) = jj)
  /\ (c_imm_j (put_fields fmt_cj j w) = j /\ c_imm_b (put_fields fmt_cb b w) = b
   /\ c_imm_ci (put_fields fmt_ci i w) = i /\ c_imm_lui (put_fields fmt_lui u w) = u
   /\ c_imm_addi16sp (put_fields fmt_addi16sp a w) = a)
  /\ (c_imm_sh (put_fields fmt_ci x w) = x
   /\ c_imm_addi4spn (put_fields fmt_ciw (4 * y) w) = 4 * y
   /\ c_imm_ld (put_fields fmt_cl_d (8 * (x mod 32)) w) = 8 * (x mod 32)
   /\ c_imm_lw (put_fields fmt_cl_w (4 * (x mod 32)) w) = 4 * (x mod 32)
   /\ c_imm_sdsp (put_fields fmt_sdsp (8 * x) w) = 8 * x
   /\ c_imm_swsp (put_fields fmt_swsp (4 * x) w) = 4 * x
   /\ (let v := put_fields fmt_ldsp (8 * x) w in c_imm_ldsp v ((v >> 2) .& 0x1f) = 8 * x)
   /\ (let v := put_fields fmt_lwsp (4 * x) w in c_imm_lwsp v ((v >> 2) .& 0x1f) = 4 * x)).
Proof.
  intros. split; [by apply imm_roundtrip|]. split; [by apply c_imm_signed_put|by apply c_imm_unsigned_put].
Qed.

Lemma immediates_roundtrip_witness :
  imm_b (put_b (-4096) 0x63) = -4096 /\ c_imm_sdsp (put_fields fmt_sdsp 504 0x63) = 504.
Proof.
  destruct (immediates_roundtrip 0x63 0 0 (-4096) 0 1048574 (-2) 0 0 0 0 63 0)
    as ((_ & _ & Hb & _) & _ & (_ & _ & _ & _ & Hs & _)); [by vm_compute..|].
  split; [exact Hb|exact Hs].
Defined.
