(* ===== verification/Interp.v ===== *)
(** * The interpreter (riscv_cpu_interp64 of dromajo_template.h) *)

From S2P Require Import Prelude Riscv CpuState IoMem Mmu Csr Trap Insn IntArith SoftFp Exec FpExec.

Section Interp.
Context {D : Type} {io : DeviceIO D} {hooks : MachineHooks D}.

(** ** Decoding: the [switch (opcode)] *)

Definition exec_insn (start insn : Z) : M D unit :=
  let opcode := insn .& 0x7f in
  let rd := (insn >> 7) .& 0x1f in
  let rs1 := (insn >> 15) .& 0x1f in
  let rs2 := (insn >> 20) .& 0x1f in
  match opcode .& 3 with
  | 0 => c_quadrant0 insn
  | 1 => c_quadrant1 insn
  | 2 => c_quadrant2 insn
  | _ =>
      match opcode with
      | 0x37 => exec_lui insn rd
      | 0x17 => exec_auipc insn rd
      | 0x6f => exec_jal insn rd
      | 0x67 => exec_jalr insn rd rs1
      | 0x63 => exec_branch insn rs1 rs2
      | 0x03 => exec_load insn rd rs1
      | 0x23 => exec_store insn rs1 rs2
      | 0x13 => exec_op_imm insn rd rs1
      | 0x1b => exec_op_imm32 insn rd rs1
      | 0x33 => exec_op insn rd rs1 rs2
      | 0x3b => exec_op32 insn rd rs1 rs2
      | 0x73 => exec_system start insn rd rs1
      | 0x0f => exec_misc_mem insn
      | 0x2f => exec_amo insn rd rs1 rs2
      | 0x07 => exec_fp_load insn rd rs1
      | 0x27 => exec_fp_store insn rs1 rs2
      | 0x43 => exec_fmadd insn rd rs1 rs2
      | 0x47 => exec_fmsub insn rd rs1 rs2
      | 0x4b => exec_fnmsub insn rd rs1 rs2
      | 0x4f => exec_fnmadd insn rd rs1 rs2
      | 0x53 => exec_fp insn rd rs1 rs2
      | _ => goto XIllegal
      end
  end.

(** ** Fetching *)

(** [check_triggers(s, MCONTROL_EXECUTE, s->pc)] *)
Definition check_execute : M D unit :=
  s ← gets id;
  let '(fired, s) := check_triggers MCONTROL_EXECUTE (pc s) s in
  modify (fun _ => s);;
  if fired then if debug_mode s then goto XDone else goto XException
  else mret tt.

(** the second interrupt check, at a control-flow boundary *)
Definition check_interrupt : M D unit :=
  w ← get_world;
  if interrupt_enabled w then
    let '(r, s) := raise_interrupt (cpu w) in
    modify (fun _ => s);;
    if negb (r =? 0) then goto XEnd else mret tt
  else mret tt.

Definition fetch_slow : M D Z :=
  addr ← gets pc;
  w ← get_world;
  let e := tlb_entry (tlb_code (cpu w)) (tlb_index addr) in
  if vaddr e =? (addr .& ~~ PG_MASK) then
    let ptr := u64 (mem_addend e + addr) in
    let ptr_end := u64 (mem_addend e + u64 ((addr .& ~~ PG_MASK) + PG_MASK - 1)) in
    st ← get_istate;
    set_istate (with_code ptr ptr_end (u64 (addr - ptr)) st);;
    if ptr_end <=? ptr then
      (* instruction potentially half way between two pages *)
      let insn := load 2 ptr w in
      if (insn .& 3) =? 3 then
        let '(err, insn_high, w) := target_read_insn_u16 (u64 (addr + 2)) w in
        set_world w;;
        if negb (err =? 0) then goto XMmu else mret (insn .| u32 (insn_high << 16))
      else mret insn
    else mret (get_insn32 ptr w)
  else
    let '(err, insn, w) := target_read_insn_slow 32 addr w in
    set_world w;;
    if negb (err =? 0) then goto XMmu else mret insn.

Definition fetch : M D Z :=
  st ← get_istate;
  if code_end st <=? code_ptr st then check_interrupt;; fetch_slow
  else mret (get_insn32 (code_ptr st) (iw st)).

(** ** One turn of the loop *)

Definition loop_body (start : Z) : M D unit :=
  p ← get_pc;
  modify (with_pc p);;
  st ← get_istate;
  let n := n_cycles st - 1 in
  set_istate (with_counters (insn_counter_addend st) n (insn_executed st) st);;
  if n =? 0 then goto XEnd
  else
    st ← get_istate;
    set_istate (with_counters (insn_counter_addend st) n (insn_executed st + 1) st);;
    check_execute;;
    insn ← fetch;
    exec_insn start insn.

(** iterate until a label other than [jump_insn] is reached; [None] when the fuel runs out *)
Fixpoint main_loop (fuel : nat) (start : Z) (st : IState D) : option (IState D * Exit) :=
  match fuel with
  | O => None
  | S fuel =>
      match loop_body start st with
      | (st, inl _) => main_loop fuel start st
      | (st, inr XJump) => main_loop fuel start st
      | (st, inr e) => Some (st, e)
      end
  end.

(** ** The labels after the loop *)

(** [mmu_exception:] and [exception:] *)
Definition do_exception (st : IState D) : IState D :=
  let st := with_iw (upd_cpu (with_pc (GET_PC st)) (iw st)) st in
  let s := cpu (iw st) in
  if 0 <=? pending_exception s then
    let st :=
      if (pending_exception s <? CAUSE_USER_ECALL) || (CAUSE_USER_ECALL + 3 <? pending_exception s)
      then with_counters (u64 (insn_counter_addend st - 1)) (n_cycles st) (insn_executed st - 1) st
      else st in
    with_iw (upd_cpu (raise_exception2 (u64 (pending_exception s)) (pending_tval s)) (iw st)) st
  else st.

(** [illegal_insn:] *)
Definition do_illegal (st : IState D) : IState D :=
  with_iw (upd_cpu (pend CAUSE_ILLEGAL_INSTRUCTION 0) (iw st)) st.

(** [done_interp:] *)
Definition do_done (st : IState D) : IState D :=
  with_counters (insn_counter_addend st) (n_cycles st - 1) (insn_executed st) st.

Inductive Result := Executed (n : Z) (w : World D) | Aborted | OutOfFuel.

(** [the_end:] *)
Definition do_end (start : Z) (st : IState D) : Result :=
  let w := upd_cpu (with_insn_counter (GET_INSN_COUNTER st)) (iw st) in
  let s := cpu w in
  if stop_the_counter s then Executed (insn_executed st) w
  else
    let delta := s32 (insn_counter s - start) in
    if delta <? 0 then Aborted
    else
      Executed (insn_executed st)
        (upd_cpu (fun s => with_minstret (u64 (minstret s + delta))
                             (with_mcycle (u64 (mcycle s + delta)) s)) w).

Definition do_exit (start : Z) (st : IState D) (e : Exit) : Result :=
  match e with
  | XAbort => Aborted
  | XEnd => do_end start st
  | XDone => do_end start (do_done st)
  | XIllegal => do_end start (do_done (do_exception (do_illegal st)))
  | XMmu | XException | XJump => do_end start (do_done (do_exception st))
  end.

(** ** The function *)

Definition riscv_cpu_interp64 (n : Z) (w : World D) : Result :=
  let start := insn_counter (cpu w) in
  let w := upd_cpu (fun s => with_info ctf_nop (with_most_recently_written_fp_reg (-1)
                               (with_most_recently_written_reg (-1) s))) w in
  if n =? 0 then Executed 0 w
  else
    let addend := u64 (start + n) in
    let run w :=
      let w := upd_cpu (with_pending_exception (-1)) w in
      let st := mkIState w 0 0 (pc (cpu w)) addend (n + 1) 0 in
      match main_loop (Z.to_nat (n + 1)) start st with
      | None => OutOfFuel
      | Some (st, e) => do_exit start st e
      end in
    if interrupt_enabled w then
      let '(r, s) := raise_interrupt (cpu w) in
      let w := with_cpu s w in
      if negb (r =? 0) then do_exit start (mkIState w 0 0 0 (u64 (addend - 1)) n 0) XDone
      else run w
    else run w.

Definition riscv_cpu_interp (n : Z) (w : World D) : Result := riscv_cpu_interp64 n w.

End Interp.
