(* ===== verification/Invariant.v ===== *)
(** * The type invariant of a hart

    [wf_cpu] says that every field holds a value of its C type (or of the
    narrower set the code keeps it in), that every array has its declared
    length, and that [x0] is zero.  Each operation of the hart preserves it;
    the hints of the base [wf] prove that for compositions of them. *)

From S2P Require Import Prelude Riscv CpuState IoMem Mmu Csr Trap.

Definition pmp_ok (e : pmp_addr) : Prop := in_u 64 (lo e) /\ in_u 64 (hi e).
Definition tlb_ok (e : TLBEntry) : Prop := in_u 64 (vaddr e) /\ in_u 64 (mem_addend e).

(** an array of [n] elements that satisfy [P] *)
Definition arr {A} (n : nat) (P : A -> Prop) (l : list A) : Prop := length l = n /\ Forall P l.

(** the translation modes the code accepts: bare, Sv39 and Sv48 *)
Definition valid_satp (v : Z) : Prop := v >> 60 = 0 \/ v >> 60 = 8 \/ v >> 60 = 9.

Record wf_cpu (s : RISCVCPUState) : Prop := {
  wf_pc : in_u 64 (pc s);
  wf_last_data_paddr : in_u 64 (last_data_paddr s);
  wf_insn_counter : in_u 64 (insn_counter s);
  wf_minstret : in_u 64 (minstret s);
  wf_mcycle : in_u 64 (mcycle s);
  wf_pending_tval : in_u 64 (pending_tval s);
  wf_mstatus : in_u 64 (mstatus s);
  wf_mtvec : in_u 64 (mtvec s);
  wf_mscratch : in_u 64 (mscratch s);
  wf_mepc : in_u 64 (mepc s);
  wf_mcause : in_u 64 (mcause s);
  wf_mtval : in_u 64 (mtval s);
  wf_mvendorid : in_u 64 (mvendorid s);
  wf_marchid : in_u 64 (marchid s);
  wf_mimpid : in_u 64 (mimpid s);
  wf_mhartid : in_u 64 (mhartid s);
  wf_stvec : in_u 64 (stvec s);
  wf_sscratch : in_u 64 (sscratch s);
  wf_sepc : in_u 64 (sepc s);
  wf_scause : in_u 64 (scause s);
  wf_stval : in_u 64 (stval s);
  wf_satp : in_u 64 (satp s);
  wf_dcsr : in_u 64 (dcsr s);
  wf_dpc : in_u 64 (dpc s);
  wf_dscratch : in_u 64 (dscratch s);
  wf_load_res : in_u 64 (load_res s);
  wf_next_addr : in_u 64 (next_addr s);
  wf_misa : in_u 32 (misa s);
  wf_mie : in_u 32 (mie s);
  wf_mip : in_u 32 (mip s);
  wf_medeleg : in_u 32 (medeleg s);
  wf_mideleg : in_u 32 (mideleg s);
  wf_mcounteren : in_u 32 (mcounteren s);
  wf_mcountinhibit : in_u 32 (mcountinhibit s);
  wf_scounteren : in_u 32 (scounteren s);
  wf_fflags : in_u 5 (fflags s);
  wf_frm : in_u 3 (frm s);
  wf_priv : in_u 2 (priv s);
  wf_fs : in_u 2 (fs s);
  wf_reg : arr 32 (in_u 64) (reg s);
  wf_reg_prior : arr 32 (in_u 64) (reg_prior s);
  wf_fp_reg : arr 32 (in_u 64) (fp_reg s);
  wf_tdata1 : arr 1 (in_u 64) (tdata1 s);
  wf_tdata2 : arr 1 (in_u 64) (tdata2 s);
  wf_mhpmevent : arr 32 (in_u 64) (mhpmevent s);
  wf_csr_pmpcfg : arr 4 (in_u 64) (csr_pmpcfg s);
  wf_csr_pmpaddr : arr 16 (in_u 64) (csr_pmpaddr s);
  wf_pmp : arr 16 pmp_ok (pmp s);
  wf_pmpcfg : arr 16 (in_u 8) (pmpcfg s);
  wf_plic_enable_irq : arr 2 (in_u 32) (plic_enable_irq s);
  wf_tlb_read : arr 256 tlb_ok (tlb_read s);
  wf_tlb_write : arr 256 tlb_ok (tlb_write s);
  wf_tlb_code : arr 256 tlb_ok (tlb_code s);
  wf_tlb_read_paddr_addend : arr 256 (in_u 64) (tlb_read_paddr_addend s);
  wf_tlb_write_paddr_addend : arr 256 (in_u 64) (tlb_write_paddr_addend s);
  wf_tlb_code_paddr_addend : arr 256 (in_u 64) (tlb_code_paddr_addend s);
  wf_tselect : tselect s = 0;
  wf_pmp_n : 0 <= pmp_n s <= 16;
  wf_physical_addr_len : 0 <= physical_addr_len s <= 64;
  wf_satp_mode : valid_satp (satp s);
  wf_x0 : rd (reg s) 0 = 0
}.

Create HintDb wf discriminated.
#[export] Hint Constants Opaque : wf.

Ltac wf_tac := let H := fresh in intros; match goal with HH : wf_cpu _ |- _ => destruct HH end;
  constructor; simpl; try assumption; try lia.

(** ** Setters *)

Lemma wf_with_pc v s : in_u 64 v -> wf_cpu s -> wf_cpu (with_pc v s).
Proof. wf_tac. Qed.
Lemma wf_with_last_data_paddr v s : in_u 64 v -> wf_cpu s -> wf_cpu (with_last_data_paddr v s).
Proof. wf_tac. Qed.
Lemma wf_with_insn_counter v s : in_u 64 v -> wf_cpu s -> wf_cpu (with_insn_counter v s).
Proof. wf_tac. Qed.
Lemma wf_with_minstret v s : in_u 64 v -> wf_cpu s -> wf_cpu (with_minstret v s).
Proof. wf_tac. Qed.
Lemma wf_with_mcycle v s : in_u 64 v -> wf_cpu s -> wf_cpu (with_mcycle v s).
Proof. wf_tac. Qed.
Lemma wf_with_pending_tval v s : in_u 64 v -> wf_cpu s -> wf_cpu (with_pending_tval v s).
Proof. wf_tac. Qed.
Lemma wf_with_mstatus v s : in_u 64 v -> wf_cpu s -> wf_cpu (with_mstatus v s).
Proof. wf_tac. Qed.
Lemma wf_with_mtvec v s : in_u 64 v -> wf_cpu s -> wf_cpu (with_mtvec v s).
Proof. wf_tac. Qed.
Lemma wf_with_mscratch v s : in_u 64 v -> wf_cpu s -> wf_cpu (with_mscratch v s).
Proof. wf_tac. Qed.
Lemma wf_with_mepc v s : in_u 64 v -> wf_cpu s -> wf_cpu (with_mepc v s).
Proof. wf_tac. Qed.
Lemma wf_with_mcause v s : in_u 64 v -> wf_cpu s -> wf_cpu (with_mcause v s).
Proof. wf_tac. Qed.
Lemma wf_with_mtval v s : in_u 64 v -> wf_cpu s -> wf_cpu (with_mtval v s).
Proof. wf_tac. Qed.
Lemma wf_with_mvendorid v s : in_u 64 v -> wf_cpu s -> wf_cpu (with_mvendorid v s).
Proof. wf_tac. Qed.
Lemma wf_with_marchid v s : in_u 64 v -> wf_cpu s -> wf_cpu (with_marchid v s).
Proof. wf_tac. Qed.
Lemma wf_with_mimpid v s : in_u 64 v -> wf_cpu s -> wf_cpu (with_mimpid v s).
Proof. wf_tac. Qed.
Lemma wf_with_mhartid v s : in_u 64 v -> wf_cpu s -> wf_cpu (with_mhartid v s).
Proof. wf_tac. Qed.
Lemma wf_with_stvec v s : in_u 64 v -> wf_cpu s -> wf_cpu (with_stvec v s).
Proof. wf_tac. Qed.
Lemma wf_with_sscratch v s : in_u 64 v -> wf_cpu s -> wf_cpu (with_sscratch v s).
Proof. wf_tac. Qed.
Lemma wf_with_sepc v s : in_u 64 v -> wf_cpu s -> wf_cpu (with_sepc v s).
Proof. wf_tac. Qed.
Lemma wf_with_scause v s : in_u 64 v -> wf_cpu s -> wf_cpu (with_scause v s).
Proof. wf_tac. Qed.
Lemma wf_with_stval v s : in_u 64 v -> wf_cpu s -> wf_cpu (with_stval v s).
Proof. wf_tac. Qed.
Lemma wf_with_dcsr v s : in_u 64 v -> wf_cpu s -> wf_cpu (with_dcsr v s).
Proof. wf_tac. Qed.
Lemma wf_with_dpc v s : in_u 64 v -> wf_cpu s -> wf_cpu (with_dpc v s).
Proof. wf_tac. Qed.
Lemma wf_with_dscratch v s : in_u 64 v -> wf_cpu s -> wf_cpu (with_dscratch v s).
Proof. wf_tac. Qed.
Lemma wf_with_load_res v s : in_u 64 v -> wf_cpu s -> wf_cpu (with_load_res v s).
Proof. wf_tac. Qed.
Lemma wf_with_next_addr v s : in_u 64 v -> wf_cpu s -> wf_cpu (with_next_addr v s).
Proof. wf_tac. Qed.
Lemma wf_with_misa v s : in_u 32 v -> wf_cpu s -> wf_cpu (with_misa v s).
Proof. wf_tac. Qed.
Lemma wf_with_mie v s : in_u 32 v -> wf_cpu s -> wf_cpu (with_mie v s).
Proof. wf_tac. Qed.
Lemma wf_with_mip v s : in_u 32 v -> wf_cpu s -> wf_cpu (with_mip v s).
Proof. wf_tac. Qed.
Lemma wf_with_medeleg v s : in_u 32 v -> wf_cpu s -> wf_cpu (with_medeleg v s).
Proof. wf_tac. Qed.
Lemma wf_with_mideleg v s : in_u 32 v -> wf_cpu s -> wf_cpu (with_mideleg v s).
Proof. wf_tac. Qed.
Lemma wf_with_mcounteren v s : in_u 32 v -> wf_cpu s -> wf_cpu (with_mcounteren v s).
Proof. wf_tac. Qed.
Lemma wf_with_mcountinhibit v s : in_u 32 v -> wf_cpu s -> wf_cpu (with_mcountinhibit v s).
Proof. wf_tac. Qed.
Lemma wf_with_scounteren v s : in_u 32 v -> wf_cpu s -> wf_cpu (with_scounteren v s).
Proof. wf_tac. Qed.
Lemma wf_with_fflags v s : in_u 5 v -> wf_cpu s -> wf_cpu (with_fflags v s).
Proof. wf_tac. Qed.
Lemma wf_with_frm v s : in_u 3 v -> wf_cpu s -> wf_cpu (with_frm v s).
Proof. wf_tac. Qed.
Lemma wf_with_priv v s : in_u 2 v -> wf_cpu s -> wf_cpu (with_priv v s).
Proof. wf_tac. Qed.
Lemma wf_with_fs v s : in_u 2 v -> wf_cpu s -> wf_cpu (with_fs v s).
Proof. wf_tac. Qed.
Lemma wf_with_reg_prior v s : arr 32 (in_u 64) v -> wf_cpu s -> wf_cpu (with_reg_prior v s).
Proof. wf_tac. Qed.
Lemma wf_with_fp_reg v s : arr 32 (in_u 64) v -> wf_cpu s -> wf_cpu (with_fp_reg v s).
Proof. wf_tac. Qed.
Lemma wf_with_tdata1 v s : arr 1 (in_u 64) v -> wf_cpu s -> wf_cpu (with_tdata1 v s).
Proof. wf_tac. Qed.
Lemma wf_with_tdata2 v s : arr 1 (in_u 64) v -> wf_cpu s -> wf_cpu (with_tdata2 v s).
Proof. wf_tac. Qed.
Lemma wf_with_mhpmevent v s : arr 32 (in_u 64) v -> wf_cpu s -> wf_cpu (with_mhpmevent v s).
Proof. wf_tac. Qed.
Lemma wf_with_csr_pmpcfg v s : arr 4 (in_u 64) v -> wf_cpu s -> wf_cpu (with_csr_pmpcfg v s).
Proof. wf_tac. Qed.
Lemma wf_with_csr_pmpaddr v s : arr 16 (in_u 64) v -> wf_cpu s -> wf_cpu (with_csr_pmpaddr v s).
Proof. wf_tac. Qed.
Lemma wf_with_pmp v s : arr 16 pmp_ok v -> wf_cpu s -> wf_cpu (with_pmp v s).
Proof. wf_tac. Qed.
Lemma wf_with_pmpcfg v s : arr 16 (in_u 8) v -> wf_cpu s -> wf_cpu (with_pmpcfg v s).
Proof. wf_tac. Qed.
Lemma wf_with_plic_enable_irq v s : arr 2 (in_u 32) v -> wf_cpu s -> wf_cpu (with_plic_enable_irq v s).
Proof. wf_tac. Qed.
Lemma wf_with_tlb_read v s : arr 256 tlb_ok v -> wf_cpu s -> wf_cpu (with_tlb_read v s).
Proof. wf_tac. Qed.
Lemma wf_with_tlb_write v s : arr 256 tlb_ok v -> wf_cpu s -> wf_cpu (with_tlb_write v s).
Proof. wf_tac. Qed.
Lemma wf_with_tlb_code v s : arr 256 tlb_ok v -> wf_cpu s -> wf_cpu (with_tlb_code v s).
Proof. wf_tac. Qed.
Lemma wf_with_tlb_read_paddr_addend v s : arr 256 (in_u 64) v -> wf_cpu s -> wf_cpu (with_tlb_read_paddr_addend v s).
Proof. wf_tac. Qed.
Lemma wf_with_tlb_write_paddr_addend v s : arr 256 (in_u 64) v -> wf_cpu s -> wf_cpu (with_tlb_write_paddr_addend v s).
Proof. wf_tac. Qed.
Lemma wf_with_tlb_code_paddr_addend v s : arr 256 (in_u 64) v -> wf_cpu s -> wf_cpu (with_tlb_code_paddr_addend v s).
Proof. wf_tac. Qed.
Lemma wf_with_most_recently_written_reg (v : Z) s : wf_cpu s -> wf_cpu (with_most_recently_written_reg v s).
Proof. wf_tac. Qed.
Lemma wf_with_most_recently_written_fp_reg (v : Z) s : wf_cpu s -> wf_cpu (with_most_recently_written_fp_reg v s).
Proof. wf_tac. Qed.
Lemma wf_with_debug_mode (v : bool) s : wf_cpu s -> wf_cpu (with_debug_mode v s).
Proof. wf_tac. Qed.
Lemma wf_with_stop_the_counter (v : bool) s : wf_cpu s -> wf_cpu (with_stop_the_counter v s).
Proof. wf_tac. Qed.
Lemma wf_with_power_down_flag (v : bool) s : wf_cpu s -> wf_cpu (with_power_down_flag v s).
Proof. wf_tac. Qed.
Lemma wf_with_terminate_simulation (v : bool) s : wf_cpu s -> wf_cpu (with_terminate_simulation v s).
Proof. wf_tac. Qed.
Lemma wf_with_pending_exception (v : Z) s : wf_cpu s -> wf_cpu (with_pending_exception v s).
Proof. wf_tac. Qed.
Lemma wf_with_benchmark_exit_code (v : Z) s : wf_cpu s -> wf_cpu (with_benchmark_exit_code v s).
Proof. wf_tac. Qed.
Lemma wf_with_info (v : RISCVCTFInfo) s : wf_cpu s -> wf_cpu (with_info v s).
Proof. wf_tac. Qed.
Lemma wf_with_timecmp (v : Z) s : wf_cpu s -> wf_cpu (with_timecmp v s).
Proof. wf_tac. Qed.
Lemma wf_with_ignore_sbi_shutdown (v : bool) s : wf_cpu s -> wf_cpu (with_ignore_sbi_shutdown v s).
Proof. wf_tac. Qed.
Lemma wf_with_pmp_n v s : 0 <= v <= 16 -> wf_cpu s -> wf_cpu (with_pmp_n v s).
Proof. wf_tac. Qed.
Lemma wf_with_physical_addr_len v s : 0 <= v <= 64 -> wf_cpu s -> wf_cpu (with_physical_addr_len v s).
Proof. wf_tac. Qed.
Lemma wf_with_tselect s : wf_cpu s -> wf_cpu (with_tselect 0 s).
Proof. wf_tac. Qed.
Lemma wf_with_satp v s : in_u 64 v -> valid_satp v -> wf_cpu s -> wf_cpu (with_satp v s).
Proof. wf_tac. Qed.
Lemma wf_with_reg v s : arr 32 (in_u 64) v -> rd v 0 = 0 -> wf_cpu s -> wf_cpu (with_reg v s).
Proof. wf_tac. Qed.

#[export] Hint Resolve wf_with_pc wf_with_last_data_paddr wf_with_insn_counter wf_with_minstret
  wf_with_mcycle wf_with_pending_tval wf_with_mstatus wf_with_mtvec wf_with_mscratch
  wf_with_mepc wf_with_mcause wf_with_mtval wf_with_mvendorid wf_with_marchid wf_with_mimpid
  wf_with_mhartid wf_with_stvec wf_with_sscratch wf_with_sepc wf_with_scause wf_with_stval
  wf_with_dcsr wf_with_dpc wf_with_dscratch wf_with_load_res wf_with_next_addr wf_with_misa
  wf_with_mie wf_with_mip wf_with_medeleg wf_with_mideleg wf_with_mcounteren
  wf_with_mcountinhibit wf_with_scounteren wf_with_fflags wf_with_frm wf_with_priv wf_with_fs
  wf_with_reg_prior wf_with_fp_reg wf_with_tdata1 wf_with_tdata2 wf_with_mhpmevent
  wf_with_csr_pmpcfg wf_with_csr_pmpaddr wf_with_pmp wf_with_pmpcfg wf_with_plic_enable_irq
  wf_with_tlb_read wf_with_tlb_write wf_with_tlb_code wf_with_tlb_read_paddr_addend
  wf_with_tlb_write_paddr_addend wf_with_tlb_code_paddr_addend wf_with_most_recently_written_reg
  wf_with_most_recently_written_fp_reg wf_with_debug_mode wf_with_stop_the_counter
  wf_with_power_down_flag wf_with_terminate_simulation wf_with_pending_exception
  wf_with_benchmark_exit_code wf_with_info wf_with_timecmp wf_with_ignore_sbi_shutdown
  wf_with_pmp_n wf_with_tselect wf_with_satp wf_with_reg : wf.
#[export] Hint Resolve wf_pc wf_last_data_paddr wf_insn_counter wf_minstret wf_mcycle
  wf_pending_tval wf_mstatus wf_mtvec wf_mscratch wf_mepc wf_mcause wf_mtval wf_mvendorid
  wf_marchid wf_mimpid wf_mhartid wf_stvec wf_sscratch wf_sepc wf_scause wf_stval wf_satp
  wf_dcsr wf_dpc wf_dscratch wf_load_res wf_next_addr wf_misa wf_mie wf_mip wf_medeleg
  wf_mideleg wf_mcounteren wf_mcountinhibit wf_scounteren wf_fflags wf_frm wf_priv wf_fs wf_reg
  wf_reg_prior wf_fp_reg wf_tdata1 wf_tdata2 wf_mhpmevent wf_csr_pmpcfg wf_csr_pmpaddr wf_pmp
  wf_pmpcfg wf_plic_enable_irq wf_tlb_read wf_tlb_write wf_tlb_code wf_tlb_read_paddr_addend
  wf_tlb_write_paddr_addend wf_tlb_code_paddr_addend : wf.

(** ** Arrays *)

Lemma arr_wr n P l i v : arr n P l -> P v -> arr n P (wr l i v).
Proof. intros [Hl Hf] Hv. split; [by rewrite length_wr|by apply wr_Forall]. Qed.

Lemma arr_insert {A} n (P : A -> Prop) l i v : arr n P l -> P v -> arr n P (<[i := v]> l).
Proof. intros [Hl Hf] Hv. split; [by rewrite length_insert|by apply Forall_insert]. Qed.

Lemma arr_map {A} n (P : A -> Prop) f l : (forall x, P x -> P (f x)) -> arr n P l -> arr n P (map f l).
Proof. intros Hf [Hl HP]. split; [by rewrite length_map|]. apply Forall_map. by eapply Forall_impl. Qed.

Lemma arr_rd w n l i : 0 <= w -> arr n (in_u w) l -> in_u w (rd l i).
Proof. intros Hw [_ Hl]. by apply rd_in_u. Qed.

Lemma arr_lookup {A} `{Inhabited A} n (P : A -> Prop) l i : arr n P l -> (i < n)%nat -> P (l !!! i).
Proof. intros [Hl HP] Hi. apply Forall_lookup_total_1; [done|lia]. Qed.

#[export] Hint Resolve arr_wr arr_insert arr_rd : wf.
#[export] Hint Extern 20 (in_u _ _) => solve [in_u_tac] : wf.
#[export] Hint Extern 1 (_ <= _) => lia : wf.
#[export] Hint Extern 1 (_ < _) => lia : wf.
#[export] Hint Extern 1 (_ <= _ <= _) => lia : wf.

Ltac wf := solve [eauto 12 with wf nocore].

Lemma in_u_32_64 x : in_u 32 x -> in_u 64 x.
Proof. apply in_u_weaken. lia. Qed.
Lemma in_u_2_64 x : in_u 2 x -> in_u 64 x.
Proof. apply in_u_weaken. lia. Qed.

(** ** Registers *)

Lemma wf_write_reg x v s : 0 < x < 32 -> wf_cpu s -> wf_cpu (write_reg x v s).
Proof.
  intros Hx Hs. unfold write_reg. apply wf_with_reg; simpl.
  - apply arr_wr; [apply Hs|in_u_tac].
  - rewrite rd_wr_ne by lia. apply Hs.
  - wf.
Qed.

Lemma wf_write_fp_reg x v s : wf_cpu s -> wf_cpu (write_fp_reg x v s).
Proof. intros Hs. unfold write_fp_reg. wf. Qed.

Lemma wf_read_reg x s : wf_cpu s -> in_u 64 (read_reg x s).
Proof. intros Hs. unfold read_reg. wf. Qed.
Lemma wf_read_fp_reg x s : wf_cpu s -> in_u 64 (read_fp_reg x s).
Proof. intros Hs. unfold read_fp_reg. wf. Qed.

#[export] Hint Resolve wf_write_reg wf_write_fp_reg wf_read_reg wf_read_fp_reg : wf.

(** ** TLBs and triggers *)

Lemma tlb_invalidate_ok e : tlb_ok e -> tlb_ok (tlb_invalidate e).
Proof. intros [Hv Ha]. split; simpl; in_u_tac. Qed.

Lemma wf_tlb_flush_all s : wf_cpu s -> wf_cpu (tlb_flush_all s).
Proof.
  intros Hs. unfold tlb_flush_all, tlb_init.
  repeat first [apply wf_with_tlb_code | apply wf_with_tlb_write | apply wf_with_tlb_read];
    try apply arr_map; simpl; try apply Hs; apply tlb_invalidate_ok.
Qed.

Lemma wf_flush_tlb_write_range p n s : wf_cpu s -> wf_cpu (riscv_cpu_flush_tlb_write_range_ram p n s).
Proof.
  intros Hs. unfold riscv_cpu_flush_tlb_write_range_ram. apply wf_with_tlb_write; [|done].
  apply arr_map; [|apply Hs]. intros e He. cbv zeta.
  repeat case_match; auto using tlb_invalidate_ok.
Qed.

Lemma tlb_entry_new addr ptr : in_u 64 addr -> tlb_ok (mkTLBEntry (addr .& ~~ PG_MASK) (u64 (ptr - addr))).
Proof. intros. split; simpl; in_u_tac. Qed.

Lemma wf_fill_tlb_read a p h s : in_u 64 a -> wf_cpu s -> wf_cpu (fill_tlb_read a p h s).
Proof. intros. unfold fill_tlb_read, tlb_set. cbv zeta. simpl. solve [eauto 12 using tlb_entry_new with wf]. Qed.
Lemma wf_fill_tlb_write a p h s : in_u 64 a -> wf_cpu s -> wf_cpu (fill_tlb_write a p h s).
Proof. intros. unfold fill_tlb_write, tlb_set. cbv zeta. simpl. solve [eauto 12 using tlb_entry_new with wf]. Qed.
Lemma wf_fill_tlb_code a p h s : in_u 64 a -> wf_cpu s -> wf_cpu (fill_tlb_code a p h s).
Proof. intros. unfold fill_tlb_code, tlb_set. cbv zeta. simpl. solve [eauto 12 using tlb_entry_new with wf]. Qed.

Lemma wf_pend c v s : in_u 64 v -> wf_cpu s -> wf_cpu (pend c v s).
Proof. intros. unfold pend. wf. Qed.

#[export] Hint Resolve wf_tlb_flush_all wf_flush_tlb_write_range wf_fill_tlb_read wf_fill_tlb_write
  wf_fill_tlb_code wf_pend : wf.

Lemma wf_check_triggers m a s : in_u 64 a -> wf_cpu s -> wf_cpu (check_triggers m a s).2.
Proof.
  intros Ha Hs. unfold check_triggers. destruct (debug_mode s); [done|].
  generalize (m .| (MCONTROL_U << priv s)), 0, (Z.to_nat MAX_TRIGGERS).
  intros t i n. revert i. induction n as [|n IH]; intros i; [done|]. simpl.
  unfold riscv_set_debug_mode. repeat case_match; simpl; wf.
Qed.

(** ** Traps *)

Lemma wf_set_priv p s : wf_cpu s -> in_u 2 p -> wf_cpu (set_priv p s).
Proof.
  intros Hs Hp. unfold set_priv. destruct (negb _); [|done].
  apply wf_with_priv; [|wf]. rewrite uN_small; [done|by apply (in_u_weaken 2)].
Qed.

Lemma canonical_in_u v : in_u 64 (CANONICAL_S49 v).
Proof. unfold CANONICAL_S49. in_u_tac. Qed.

Lemma in_u_lnot_land w a m : 0 <= w -> in_u w a -> in_u w (a .& ~~ m).
Proof. intros. by apply land_in_u_l. Qed.

Lemma in_u_shiftl_priv p n m : in_u 2 p -> 0 <= n <= m -> 2 <= m - n -> in_u m (p << n).
Proof.
  intros Hp Hn Hm. unfold in_u in *. rewrite shiftl_mul by lia. rewrite (pow2_split m n) by lia.
  pose proof (pow2_pos n ltac:(lia)). pose proof (Z.pow_le_mono_r 2 2 (m - n)). nia.
Qed.

#[export] Hint Resolve canonical_in_u : wf.
#[export] Hint Extern 1 (in_u 64 (SEPC_TRUNCATE _)) => apply canonical_in_u : wf.
#[export] Hint Extern 1 (in_u 64 (STVAL_TRUNCATE _)) => apply canonical_in_u : wf.
#[export] Hint Extern 1 (in_u 64 (MEPC_TRUNCATE _)) => apply canonical_in_u : wf.
#[export] Hint Extern 1 (in_u 64 (MTVAL_TRUNCATE _)) => apply canonical_in_u : wf.

Lemma trap_vector_in_u v c : in_u 64 v -> in_u 64 (trap_vector v c).
Proof. intros. unfold trap_vector. in_u_tac. Qed.

Lemma wf_trap_to_s c t s : in_u 64 c -> wf_cpu s -> wf_cpu (trap_to_s c t s).
Proof.
  intros Hc Hs. unfold trap_to_s, notnot. apply wf_set_priv; [|by vm_compute].
  pose proof (wf_priv _ Hs). pose proof (wf_mstatus _ Hs).
  assert (in_u 64 (priv s << MSTATUS_SPP_SHIFT)) by (apply in_u_shiftl_priv; unfold MSTATUS_SPP_SHIFT; auto; lia).
  assert (in_u 64 (pc s)) by apply Hs. simpl. wf.
Qed.

Lemma wf_trap_to_m c t s : in_u 64 c -> wf_cpu s -> wf_cpu (trap_to_m c t s).
Proof.
  intros Hc Hs. unfold trap_to_m, notnot. apply wf_set_priv; [|by vm_compute].
  pose proof (wf_priv _ Hs). pose proof (wf_mstatus _ Hs).
  assert (in_u 64 (priv s << MSTATUS_MPP_SHIFT)) by (apply in_u_shiftl_priv; unfold MSTATUS_MPP_SHIFT; auto; lia).
  assert (in_u 64 (pc s)) by apply Hs. simpl. wf.
Qed.

Lemma wf_raise_exception2 c t s : in_u 64 c -> wf_cpu s -> wf_cpu (raise_exception2 c t s).
Proof.
  intros Hc Hs. unfold raise_exception2.
  destruct (delegated s c); cbv zeta; apply wf_with_pc; auto using wf_trap_to_s, wf_trap_to_m;
    apply trap_vector_in_u; [pose proof (wf_trap_to_s c t s Hc Hs)|pose proof (wf_trap_to_m c t s Hc Hs)];
    wf.
Qed.

Lemma wf_raise_interrupt s : wf_cpu s -> wf_cpu (raise_interrupt s).2.
Proof.
  intros Hs. unfold raise_interrupt. cbv zeta. destruct (_ =? 0); [done|]. simpl.
  unfold raise_exception. apply wf_raise_exception2; [in_u_tac|done].
Qed.

(** ** Returns *)

Lemma mpp_in_u v : in_u 2 ((v .& MSTATUS_MPP) >> MSTATUS_MPP_SHIFT).
Proof. apply (shiftr_in_u 13 11); [lia..|]. apply land_in_u_r; [lia|by vm_compute]. Qed.

Lemma spp_in_u v : in_u 2 ((v .& MSTATUS_SPP) >> MSTATUS_SPP_SHIFT).
Proof.
  apply (in_u_weaken 1); [lia|]. apply (shiftr_in_u 9 8); [lia..|].
  apply land_in_u_r; [lia|by vm_compute].
Qed.

Lemma wf_handle_sret s : wf_cpu s -> wf_cpu (handle_sret s).
Proof.
  intros Hs. unfold handle_sret. cbv zeta. pose proof (wf_mstatus _ Hs).
  match goal with |- wf_cpu (with_pc _ (set_priv ?p ?x)) => assert (wf_cpu (set_priv p x)) end; [|wf].
  apply wf_set_priv; [simpl; wf|apply spp_in_u].
Qed.

Lemma wf_handle_mret s : wf_cpu s -> wf_cpu (handle_mret s).
Proof.
  intros Hs. unfold handle_mret. cbv zeta. pose proof (wf_mstatus _ Hs).
  match goal with |- wf_cpu (with_pc _ (set_priv ?p ?x)) => assert (wf_cpu (set_priv p x)) end; [|wf].
  apply wf_set_priv; [simpl; wf|apply mpp_in_u].
Qed.

Lemma wf_handle_dret s : wf_cpu s -> wf_cpu (handle_dret s).
Proof.
  intros Hs. unfold handle_dret. cbv zeta.
  match goal with |- wf_cpu (with_pc _ (set_priv ?p ?x)) => assert (wf_cpu (set_priv p x)) end; [|wf].
  apply wf_set_priv; [wf|]. apply land_in_u_r; [lia|by vm_compute].
Qed.

(** ** Control and status registers *)

Lemma wf_set_mstatus v s : in_u 64 v -> wf_cpu s -> wf_cpu (set_mstatus v s).
Proof.
  intros Hv Hs. unfold set_mstatus. cbv zeta.
  match goal with |- context [if ?c then tlb_flush_all s else s] =>
    assert (wf_cpu (if c then tlb_flush_all s else s)) as Hf by (destruct c; wf);
    revert Hf; generalize (if c then tlb_flush_all s else s) end.
  intros s' Hs'. pose proof (wf_mstatus _ Hs'). apply wf_with_mstatus; [simpl; in_u_tac|].
  apply wf_with_fs; [|done]. apply land_in_u_r; [lia|by vm_compute].
Qed.

Lemma napot_range_ok a : in_u 64 a -> pmp_ok (napot_range a).
Proof.
  intros Ha. unfold napot_range. cbv zeta. destruct (_ <=? _); [by vm_compute|].
  split; simpl; [in_u_tac|]. destruct (_ <=? _); in_u_tac.
Qed.

Lemma pmp_entry_ok s i e : wf_cpu s -> pmp_entry s i = Some e -> pmp_ok e.
Proof.
  intros Hs. unfold pmp_entry. repeat case_match; intros [= <-];
    try (apply napot_range_ok; wf); split; simpl; try destruct (_ =? _); in_u_tac.
Qed.

Lemma pmp_cfg_byte_in_u s i : in_u 8 (pmp_cfg_byte s i).
Proof. unfold pmp_cfg_byte. destruct (_ <? _); apply uN_range; lia. Qed.

Lemma unpack_pmp_step_wf s i :
  wf_cpu s -> pmp_n s < 16 ->
  wf_cpu (unpack_pmp_step s i) /\ pmp_n s <= pmp_n (unpack_pmp_step s i) <= pmp_n s + 1.
Proof.
  intros Hs Hn. unfold unpack_pmp_step. destruct (pmp_entry s i) as [e|] eqn:He; [|auto with lia].
  pose proof (pmp_entry_ok _ _ _ Hs He). pose proof (wf_pmp_n _ Hs). simpl. split; [|lia].
  apply wf_with_pmp_n; [lia|]. apply wf_with_pmp; [apply arr_insert; [apply Hs|done]|].
  apply wf_with_pmpcfg; [apply arr_wr; [apply Hs|apply pmp_cfg_byte_in_u]|done].
Qed.

Lemma unpack_fold_wf l s :
  wf_cpu s -> pmp_n s + Z.of_nat (length l) <= 16 -> wf_cpu (foldl unpack_pmp_step s l).
Proof.
  revert s. induction l as [|i l IH]; intros s Hs Hn; simpl in *; [done|].
  destruct (unpack_pmp_step_wf s i Hs ltac:(lia)) as [Hs' Hn']. apply IH; [done|lia].
Qed.

Lemma wf_unpack_pmpaddrs s : wf_cpu s -> wf_cpu (unpack_pmpaddrs s).
Proof.
  intros Hs. unfold unpack_pmpaddrs. cbv zeta. apply wf_tlb_flush_all, unpack_fold_wf; [wf|].
  simpl. done.
Qed.

Lemma wf_csr_write_pmpcfg c v s : in_u 64 v -> wf_cpu s -> wf_cpu (csr_write_pmpcfg c v s).
Proof.
  intros Hv Hs. unfold csr_write_pmpcfg. cbv zeta. destruct (_ <=? _); [done|].
  apply wf_unpack_pmpaddrs. unfold set_csr_pmpcfg. apply wf_with_csr_pmpcfg; [|done].
  apply arr_wr; [apply Hs|]. apply foldl_inv; [by vm_compute|]. intros a i Ha Hi.
  apply elem_of_seqZ in Hi. apply lor_in_u; [lia|done|]. apply (shiftl_in_u 8); [lia..|].
  apply land_in_u_l; [lia|]. destruct (_ =? _); (apply land_in_u_r; [lia|by vm_compute]).
Qed.

Lemma wf_csr_write_pmpaddr n v s : in_u 64 v -> wf_cpu s -> wf_cpu (csr_write_pmpaddr n v s).
Proof.
  intros Hv Hs. unfold csr_write_pmpaddr, set_csr_pmpaddr. cbv zeta. repeat case_match; try done;
    apply wf_unpack_pmpaddrs, wf_with_csr_pmpaddr; try done; (apply arr_wr; [apply Hs|in_u_tac]).
Qed.

Lemma valid_satp_mode v :
  in_u 64 v -> (v >> 60) .& 15 = 0 \/ (v >> 60) .& 15 = 8 \/ (v >> 60) .& 15 = 9 ->
  valid_satp (v .& SATP_MASK).
Proof. intros Hv Hm. unfold valid_satp. rewrite Z.shiftr_land.
  change (SATP_MASK >> 60) with 15. exact Hm.
Qed.

Lemma wf_csr_write_satp v s : in_u 64 v -> wf_cpu s -> wf_cpu (csr_write_satp v s).2.
Proof.
  intros Hv Hs. unfold csr_write_satp. cbv zeta. destruct (_ && _); [exact Hs|]. cbn [snd].
  apply wf_tlb_flush_all.
  match goal with |- wf_cpu (if ?c then _ else _) => destruct c eqn:Hm end; [|exact Hs].
  apply wf_with_satp; [in_u_tac|apply valid_satp_mode; [done|lia]|done].
Qed.

Lemma wf_csr_write_tdata1 v s : in_u 64 v -> wf_cpu s -> wf_cpu (csr_write_tdata1 v s).
Proof.
  intros Hv Hs. unfold csr_write_tdata1, merge. cbv zeta. destruct (_ || _); [|done].
  assert (in_u 64 (rd (tdata1 s) (tselect s))) by wf.
  apply wf_with_tdata1; [|done]. apply arr_wr; [apply Hs|]. in_u_tac.
Qed.

Lemma wf_csr_write_tdata2 v s : in_u 64 v -> wf_cpu s -> wf_cpu (csr_write_tdata2 v s).
Proof.
  intros Hv Hs. unfold csr_write_tdata2. destruct (_ || _); [|done].
  apply wf_with_tdata2; [|done]. by apply arr_wr; [apply Hs|].
Qed.

Lemma wf_csr_write_dcsr v s : in_u 64 v -> wf_cpu s -> wf_cpu (csr_write_dcsr v s).
Proof.
  intros Hv Hs. unfold csr_write_dcsr, merge. cbv zeta. pose proof (wf_dcsr _ Hs). wf.
Qed.

Lemma epc_mask_in_u v s : in_u 64 v -> in_u 64 (v .& epc_mask s).
Proof. intros. by apply land_in_u_l. Qed.

Lemma tvec_align_in_u v : in_u 64 v -> in_u 64 (tvec_align v).
Proof. intros. unfold tvec_align. in_u_tac. Qed.

#[export] Hint Resolve wf_set_mstatus wf_unpack_pmpaddrs wf_csr_write_pmpcfg wf_csr_write_pmpaddr
  wf_csr_write_satp wf_csr_write_tdata1 wf_csr_write_tdata2 wf_csr_write_dcsr epc_mask_in_u
  tvec_align_in_u : wf.

Lemma tselect_zero v : u32 (v mod MAX_TRIGGERS) = 0.
Proof. change MAX_TRIGGERS with 1. by rewrite Z.mod_1_r. Qed.

Lemma wf_set_frm v s : in_u 3 v -> wf_cpu s -> wf_cpu (set_frm v s).
Proof.
  intros Hv Hs. unfold set_frm. rewrite uN_small by (apply (in_u_weaken 3); [lia|done]). wf.
Qed.

Lemma land_const_in_u w a c : 0 <= w -> in_u w c -> in_u w (a .& c).
Proof. apply land_in_u_r. Qed.

(** every assignment of the [switch] of [csr_write] stores a value of the field's type *)
Lemma wf_csr_update csr v s : in_u 64 v -> wf_cpu s -> wf_cpu (csr_update csr v s).2.
Proof.
  intros Hv Hs. unfold csr_update. cbv zeta.
  assert (in_u 3 (v .& 7)) by (apply land_in_u_r; [lia|by vm_compute]).
  assert (in_u 3 ((v >> 5) .& 7)) by (apply land_in_u_r; [lia|by vm_compute]).
  assert (in_u 5 (v .& 0x1f)) by (apply land_in_u_r; [lia|by vm_compute]).
  assert (in_u 64 (merge SSTATUS_MASK (mstatus s) v))
    by (pose proof (wf_mstatus _ Hs); unfold merge; in_u_tac).
  assert (in_u 64 (tvec_align v)) by wf.
  rewrite tselect_zero.
  repeat match goal with
  | |- wf_cpu (snd (if ?c then _ else _)) =>
      destruct c;
      [repeat case_match; first [exact Hs | cbn [snd]; solve [eauto 12 using wf_set_frm with wf nocore]]|]
  end.
  exact Hs.
Qed.

(** ** Reset *)

Lemma arr_replicate {A} n (P : A -> Prop) x : P x -> arr n P (replicate n x).
Proof. intros. split; [apply length_replicate|by apply Forall_replicate]. Qed.

Lemma in_u_pair w a b : in_u w a -> in_u w b -> in_u w a /\ in_u w b.
Proof. by split. Qed.

Lemma wf_cleared_cpu : wf_cpu cleared_cpu.
Proof.
  constructor; cbn -[replicate in_u arr]; lazymatch goal with
  | |- in_u _ _ => by apply in_u_0
  | |- arr _ (in_u _) _ => apply arr_replicate; by apply in_u_0
  | |- arr _ _ _ => apply arr_replicate; split; by apply in_u_0
  | |- valid_satp _ => by left
  | |- _ => first [lia | reflexivity]
  end.
Qed.

Lemma wf_riscv_cpu_init rv hart ce ci :
  in_u 64 rv -> in_u 64 hart -> wf_cpu (riscv_cpu_init rv hart ce ci).
Proof.
  intros Hrv Hh. unfold riscv_cpu_init. cbv zeta. change (seqZ 0 MAX_TRIGGERS) with [0]. cbn [foldl].
  pose proof wf_cleared_cpu as Hs. revert Hs. generalize cleared_cpu. intros s Hs.
  assert (in_u 64 (u64 (~~ 0))) by in_u_tac.
  assert (in_u 32 (misa s)) by apply Hs.
  apply wf_with_benchmark_exit_code. apply wf_tlb_flush_all. destruct ce, ci; simpl; solve [eauto 40 with wf nocore].
Qed.

(** [wf_compute] proves a concrete hart well formed by evaluation. *)
Ltac wf_compute :=
  constructor; unfold arr, pmp_ok, tlb_ok, valid_satp;
  lazymatch goal with
  | |- _ = _ => vm_compute; reflexivity
  | |- _ \/ _ => vm_compute; auto
  | |- ?P => refine (@bool_decide_unpack P _ _); vm_compute; exact I
  end.
