(* ===== verification/WorldInv.v ===== *)
(** * The invariant of the world

    What the hart relies on from the code it calls through function pointers
    (devices and CSR hooks), as classes; and that every memory access and CSR
    access keeps the hart well formed. *)

From S2P Require Import Prelude Riscv CpuState IoMem Mmu Csr Trap Invariant.

(** devices keep the hart well formed (they may raise interrupt lines) *)
Class WfDeviceIO (D : Type) {io : DeviceIO D} : Prop := {
  read_func_wf : forall o off sz (w : World D), wf_cpu (cpu w) -> wf_cpu (cpu (read_func o off sz w).2);
  write_func_wf : forall o off v sz (w : World D), wf_cpu (cpu w) -> wf_cpu (cpu (write_func o off v sz w))
}.

(** CSR hooks keep the hart well formed, leave the instruction counter to the
    interpreter and return a 64-bit value *)
Class WfHooks (D : Type) {hooks : MachineHooks D} : Prop := {
  csr_read_hook_wf : forall h f c (w : World D), csr_read_hook = Some h -> wf_cpu (cpu w) ->
    wf_cpu (cpu (h f c w).2) /\ insn_counter (cpu (h f c w).2) = insn_counter (cpu w)
    /\ in_u 64 (h f c w).1.2;
  csr_write_hook_wf : forall h f c v (w : World D), csr_write_hook = Some h -> wf_cpu (cpu w) ->
    wf_cpu (cpu (h f c v w).2) /\ insn_counter (cpu (h f c v w).2) = insn_counter (cpu w)
}.

Lemma tlb_flush_all_insn_counter s : insn_counter (tlb_flush_all s) = insn_counter s.
Proof. reflexivity. Qed.

Lemma set_mstatus_insn_counter v s : insn_counter (set_mstatus v s) = insn_counter s.
Proof. unfold set_mstatus. cbv zeta. by case_match. Qed.

Lemma unpack_insn_counter s : insn_counter (unpack_pmpaddrs s) = insn_counter s.
Proof.
  unfold unpack_pmpaddrs. cbv zeta. rewrite tlb_flush_all_insn_counter.
  apply (foldl_inv (fun s' => insn_counter s' = insn_counter s)); [done|].
  intros a i Ha _. unfold unpack_pmp_step. by case_match.
Qed.

(** a CSR write never touches the instruction counter *)
Lemma csr_update_insn_counter c v s : insn_counter (csr_update c v s).2 = insn_counter s.
Proof.
  unfold csr_update. cbv zeta.
  repeat match goal with
  | |- insn_counter (snd (if ?c then _ else _)) = _ => destruct c
  | |- _ => reflexivity
  | |- _ => cbn [snd]; first [apply set_mstatus_insn_counter]
  end.
  - unfold csr_write_satp. cbv zeta. repeat case_match; reflexivity.
  - unfold csr_write_tdata1. cbv zeta. repeat case_match; reflexivity.
  - unfold csr_write_tdata2. cbv zeta. repeat case_match; reflexivity.
  - unfold csr_write_pmpcfg. cbv zeta. cbn [snd]. case_match; [done|by rewrite unpack_insn_counter].
  - unfold csr_write_pmpaddr. cbv zeta. cbn [snd]. repeat case_match; first [done | by rewrite unpack_insn_counter].
Qed.

(** the value read from a CSR is a 64-bit word *)
Lemma get_mstatus_in_u s m : wf_cpu s -> in_u 64 (get_mstatus s m).
Proof.
  intros Hs. unfold get_mstatus. cbv zeta. pose proof (wf_mstatus _ Hs).
  assert (in_u 64 (fs s << MSTATUS_FS_SHIFT)) by
    (apply (shiftl_in_u 2); [lia|unfold MSTATUS_FS_SHIFT; lia|unfold MSTATUS_FS_SHIFT; lia|apply Hs]).
  case_match; in_u_tac.
Qed.

Lemma csr_value_in_u s c v : wf_cpu s -> csr_value s c = Some v -> in_u 64 v.
Proof.
  intros Hs. unfold csr_value. cbv zeta.
  pose proof (wf_fflags _ Hs). pose proof (wf_frm _ Hs).
  pose proof (wf_mie _ Hs). pose proof (wf_mip _ Hs). pose proof (wf_misa _ Hs).
  repeat match goal with
  | |- (if ?c then _ else _) = Some _ -> _ => destruct c
  end; intros [= <-];
  lazymatch goal with
  | |- in_u _ (get_mstatus _ _) => by apply get_mstatus_in_u
  | |- in_u _ (fflags _) => apply (in_u_weaken 5); [lia|assumption]
  | |- in_u _ (frm _) => apply (in_u_weaken 3); [lia|assumption]
  | |- in_u _ (fflags _ .| _) =>
      apply lor_in_u; [lia|apply (in_u_weaken 5); [lia|assumption]|];
      apply (shiftl_in_u 3); [lia..|assumption]
  | |- in_u _ (_ .& _) => apply land_in_u_l; [lia|]; apply in_u_32_64; assumption
  | |- in_u _ (_ .| _) => apply lor_in_u; [lia|apply in_u_32_64; assumption|by vm_compute]
  | |- in_u _ (rd _ _) => solve [eauto with wf nocore]
  | |- in_u _ (tselect _) => rewrite (wf_tselect _ Hs); by vm_compute
  | |- in_u _ 0 => by vm_compute
  | |- _ => first [solve [eauto with wf nocore] | apply in_u_32_64; solve [eauto with wf nocore]]
  end.
Qed.

Section World.
Context {D : Type} {io : DeviceIO D} {wio : WfDeviceIO D} {hooks : MachineHooks D} {whooks : WfHooks D}.
Implicit Types w : World D.

Abbreviation wfw w := (wf_cpu (cpu w)).

Lemma leaf_pte_in_u w va a p l i pte sh : in_u 64 va -> in_u 64 (leaf_pte w va a p l i pte sh).2.
Proof. intros Hva. unfold leaf_pte. cbv zeta. repeat case_match; cbn [snd]; in_u_tac. Qed.

Lemma walk_in_u w va a p l i pa n : in_u 64 va -> in_u 64 (walk w va a p l i pa n).2.
Proof.
  intros Hva. revert i pa. induction n as [|n IH]; intros i pa; cbn [walk]; cbv zeta; [by vm_compute|].
  destruct (riscv_phys_read _ _ _) as [pte f].
  destruct f; [by vm_compute|]. destruct (negb _); [by vm_compute|].
  destruct (negb _); [by apply leaf_pte_in_u|apply IH].
Qed.

Lemma get_phys_addr_in_u w va a : in_u 64 va -> in_u 64 (riscv_cpu_get_phys_addr w va a).2.
Proof.
  intros Hva. unfold riscv_cpu_get_phys_addr. cbv zeta.
  repeat (case_match; cbn [snd]; try done). by apply walk_in_u.
Qed.

Lemma wf_device_read pr off sz w : wfw w -> wfw (device_read pr off sz w).2.
Proof.
  intros Hw. unfold device_read. cbv zeta. destruct (tst _); [by apply read_func_wf|].
  destruct (_ && _); [|done].
  pose proof (read_func_wf (pr_opaque pr) (u32 off) 2 w Hw) as H1.
  destruct (read_func _ _ _ w) as [r w1]. cbn [snd] in H1.
  pose proof (read_func_wf (pr_opaque pr) (u32 (u32 off + 4)) 2 w1 H1) as H2.
  by destruct (read_func _ _ _ w1).
Qed.

Lemma wf_device_write pr off v sz w : wfw w -> wfw (device_write pr off v sz w).
Proof. intros Hw. unfold device_write. cbv zeta. repeat case_match; auto using write_func_wf. Qed.

Lemma wf_upd f w : wf_cpu (f (cpu w)) -> wfw (upd_cpu f w).
Proof. done. Qed.

Lemma wf_read_memory addr n w :
  in_u 64 addr -> wfw w -> wfw (riscv_cpu_read_memory addr n w).2.
Proof.
  intros Ha Hw. unfold riscv_cpu_read_memory. cbv zeta. destruct (negb _); [by apply wf_upd, wf_pend|].
  pose proof (get_phys_addr_in_u w addr ACCESS_READ Ha) as Hp.
  destruct (riscv_cpu_get_phys_addr _ _ _) as [err paddr]. cbn [snd] in Hp.
  destruct (negb _); [by apply wf_upd, wf_pend|].
  destruct (get_phys_mem_range_pmp _ _ _ _) as [[[i pr]|] [|]]; cbn [snd];
    try done; try by apply wf_upd, wf_pend.
  destruct (pr_is_ram pr).
  - apply wf_upd, wf_with_last_data_paddr; [done|]. by apply wf_fill_tlb_read.
  - pose proof (wf_device_read pr (u64 (paddr - pr_addr pr)) n w Hw) as H.
    destruct (device_read _ _ _ _) as [r w']. cbn [snd] in *. by apply wf_upd, wf_with_last_data_paddr.
Qed.

Lemma wf_write_memory addr v n w :
  in_u 64 addr -> wfw w -> wfw (riscv_cpu_write_memory addr v n w).2.
Proof.
  intros Ha Hw. unfold riscv_cpu_write_memory. cbv zeta. destruct (negb _); [by apply wf_upd, wf_pend|].
  pose proof (get_phys_addr_in_u w addr ACCESS_WRITE Ha) as Hp.
  destruct (riscv_cpu_get_phys_addr _ _ _) as [err paddr]. cbn [snd] in Hp.
  destruct (negb _); [by apply wf_upd, wf_pend|].
  destruct (get_phys_mem_range_pmp _ _ _ _) as [[[i pr]|] [|]]; cbn [snd];
    try by apply wf_upd, wf_pend.
  - apply wf_upd, wf_with_last_data_paddr; [done|]. destruct (pr_is_ram pr).
    + by apply wf_fill_tlb_write.
    + by apply wf_device_write.
  - by apply wf_upd, wf_with_last_data_paddr.
Qed.

Lemma wf_target_read sz addr w :
  in_u 64 addr -> wfw w -> wfw (target_read sz addr w).2.
Proof.
  intros Ha Hw. unfold target_read. cbv zeta.
  pose proof (wf_check_triggers MCONTROL_LOAD addr _ Ha Hw) as Ht.
  destruct (check_triggers _ _ _) as [f s]. cbn [snd] in Ht.
  assert (wfw (with_cpu s w)) as Hw' by done.
  destruct f; [done|]. destruct (negb _); [by apply wf_upd, wf_pend|]. destruct (_ =? _); [done|].
  pose proof (wf_read_memory addr (Z.log2 (sz / 8)) _ Ha Hw') as H.
  destruct (riscv_cpu_read_memory _ _ _) as [[r v] w']. by destruct (negb _).
Qed.

Lemma wf_target_write sz addr v w :
  in_u 64 addr -> wfw w -> wfw (target_write sz addr v w).2.
Proof.
  intros Ha Hw. unfold target_write. cbv zeta.
  pose proof (wf_check_triggers MCONTROL_STORE addr _ Ha Hw) as Ht.
  destruct (check_triggers _ _ _) as [f s]. cbn [snd] in Ht.
  assert (wfw (with_cpu s w)) as Hw' by done.
  destruct f; [done|]. destruct (negb _); [by apply wf_upd, wf_pend|]. destruct (_ =? _); [done|].
  by apply wf_write_memory.
Qed.

Lemma wf_insn_slow sz addr w : in_u 64 addr -> wfw w -> wfw (target_read_insn_slow sz addr w).2.
Proof.
  intros Ha Hw. unfold target_read_insn_slow. cbv zeta.
  destruct (riscv_cpu_get_phys_addr _ _ _) as [err paddr].
  destruct (negb _); [by apply wf_upd, wf_pend|].
  destruct (get_phys_mem_range_pmp _ _ _ _) as [[[i pr]|] [|]]; cbn [snd]; try by apply wf_upd, wf_pend.
  destruct (negb _); [by apply wf_upd, wf_pend|].
  match goal with |- context [if ?c then upd_cpu ?f w else w] =>
    assert (wfw (if c then upd_cpu f w else w)) as Hf by (destruct c; [by apply wf_fill_tlb_code|done]);
    revert Hf; generalize (if c then upd_cpu f w else w) end.
  intros w' Hw'. destruct (_ && _); [|done].
  destruct (riscv_cpu_get_phys_addr _ _ _) as [err' paddr'].
  destruct (negb _); [by apply wf_upd, wf_pend|].
  destruct (get_phys_mem_range_pmp _ _ _ _) as [[[i' pr']|] [|]]; cbn [snd]; try by apply wf_upd, wf_pend.
  destruct (negb _); [by apply wf_upd, wf_pend|done].
Qed.

Lemma wf_insn_u16 addr w : in_u 64 addr -> wfw w -> wfw (target_read_insn_u16 addr w).2.
Proof.
  intros Ha Hw. unfold target_read_insn_u16. cbv zeta. destruct (_ =? _); [done|].
  pose proof (wf_insn_slow 16 addr w Ha Hw).
  destruct (target_read_insn_slow _ _ _) as [[r v] w']. by destruct (negb _).
Qed.

(** reading a CSR: the hart stays well formed, the counter is kept, the value is a word *)
Lemma wf_csr_read f c ww w :
  wfw w ->
  wfw (csr_read f c ww w).2 /\ insn_counter (cpu (csr_read f c ww w).2) = insn_counter (cpu w)
  /\ in_u 64 (csr_read f c ww w).1.2.
Proof.
  intros Hw. unfold csr_read. destruct (csr_access_denied _ _ _); [split_and!; [done|done|by apply in_u_0]|].
  destruct csr_read_hook as [h|] eqn:Hh.
  - pose proof (csr_read_hook_wf h f c w Hh Hw) as (H1 & H2 & H3).
    destruct (h f c w) as [[r v] w']. cbn [fst snd] in *. destruct (r =? 0); [done|].
    destruct (csr_value _ _) as [v'|] eqn:Hv; cbn [fst snd]; [|split_and!; [done|done|by apply in_u_0]].
    split_and!; [done|done|by eapply csr_value_in_u].
  - cbn [fst snd]. destruct (csr_value _ _) as [v'|] eqn:Hv; cbn [fst snd]; [|split_and!; [done|done|by apply in_u_0]].
    split_and!; [done|done|by eapply csr_value_in_u].
Qed.

Lemma wf_csr_write f c v w :
  in_u 64 v -> wfw w ->
  wfw (csr_write f c v w).2 /\ insn_counter (cpu (csr_write f c v w).2) = insn_counter (cpu w).
Proof.
  intros Hv Hw. unfold csr_write.
  assert (forall w', wfw w' -> wfw (let '(r, s) := csr_update c v (cpu w') in (r, with_cpu s w')).2
    /\ insn_counter (cpu (let '(r, s) := csr_update c v (cpu w') in (r, with_cpu s w')).2)
       = insn_counter (cpu w')) as Hu.
  { intros w' Hw'. pose proof (wf_csr_update c v _ Hv Hw'). pose proof (csr_update_insn_counter c v (cpu w')).
    by destruct (csr_update _ _ _). }
  destruct csr_write_hook as [h|] eqn:Hh.
  - pose proof (csr_write_hook_wf h f c v w Hh Hw) as (H1 & H2).
    destruct (h f c v w) as [r w']. cbn [fst snd] in *. destruct (r =? 0); [done|].
    destruct (Hu w' H1) as [H3 H4]. split; [exact H3|]. by rewrite H4.
  - apply Hu, Hw.
Qed.

End World.
