(* ===== verification/InterpInv.v ===== *)
(** * The interpreter keeps its invariant, always stops and never aborts

    [pres] is a Hoare triple for the loop's monad: started in a state that
    satisfies [inv], a computation ends in such a state, whichever label it
    leaves through, and never through a failed assertion. *)

From S2P Require Import Prelude Riscv CpuState IoMem Mmu Csr Trap Insn IntArith SoftFp Exec FpExec Interp Invariant FpFlags WorldInv.

Create HintDb pres discriminated.
#[export] Hint Constants Opaque : pres.

Section Inv.
Context {D : Type} {io : DeviceIO D} {wio : WfDeviceIO D} {hooks : MachineHooks D} {whooks : WfHooks D}.

(** [start]: the instruction counter on entry; [n]: the instructions asked
    for; [nc]: the value of [n_cycles] during one turn of the loop *)
Variables start n nc : Z.

(** at most [n] cycles are left, and [n] fits an [int] *)
Hypothesis n_range : 0 <= n < 2 ^ 31.
Hypothesis nc_range : 0 <= nc <= n.

Record inv (st : IState D) : Prop := {
  inv_cpu : wf_cpu (cpu (iw st));
  inv_cycles : n_cycles st = nc;
  inv_addend : insn_counter_addend st = u64 (start + n)
}.

Definition post {A} (Q : A -> Prop) (r : IState D * (A + Exit)) : Prop :=
  inv r.1 /\ match r.2 with inl x => Q x | inr e => e <> XAbort end.

Definition pres {A} (m : M D A) (Q : A -> Prop) : Prop := forall st, inv st -> post Q (m st).

Definition any {A} (_ : A) : Prop := True.

(** ** The rules of the monad *)

Lemma pres_ret {A} (x : A) (Q : A -> Prop) : Q x -> pres (mret x) Q.
Proof. intros Hx st Hst. by split. Qed.

Lemma pres_bind {A B} (m : M D A) (f : A -> M D B) (Q : A -> Prop) (R : B -> Prop) :
  pres m Q -> (forall x, Q x -> pres (f x) R) -> pres (m ≫= f) R.
Proof.
  intros Hm Hf st Hst. destruct (Hm st Hst) as [H1 H2]. unfold mbind, M_bind.
  destruct (m st) as [st' [x|e]]; cbn [fst snd] in *; [by apply Hf|by split].
Qed.

Lemma pres_weaken {A} (m : M D A) (Q R : A -> Prop) :
  pres m Q -> (forall x, Q x -> R x) -> pres m R.
Proof.
  intros Hm HQ st Hst. destruct (Hm st Hst) as [H1 H2]. split; [done|]. destruct (m st).2; auto.
Qed.

Lemma pres_goto {A} e (Q : A -> Prop) : e <> XAbort -> pres (goto e) Q.
Proof. intros He st Hst. by split. Qed.

Lemma pres_gets {A} (f : RISCVCPUState -> A) (Q : A -> Prop) :
  (forall s, wf_cpu s -> Q (f s)) -> pres (gets f) Q.
Proof. intros Hf st Hst. split; [done|]. apply Hf, Hst. Qed.

Lemma pres_modify f : (forall s, wf_cpu s -> wf_cpu (f s)) -> pres (modify f) any.
Proof. intros Hf st [H1 H2 H3]. split; [|done]. constructor; [apply Hf, H1|done|done]. Qed.

Lemma pres_get_world : pres get_world (fun w => wf_cpu (cpu w)).
Proof. intros st Hst. split; [done|apply Hst]. Qed.

Lemma pres_set_world w : wf_cpu (cpu w) -> pres (set_world w) any.
Proof. intros Hw st [H1 H2 H3]. by split. Qed.

Lemma pres_get_pc : pres get_pc (in_u 64).
Proof. intros st Hst. split; [done|]. unfold get_pc, GET_PC. simpl. in_u_tac. Qed.

Lemma pres_next : pres NEXT_INSN any.
Proof. intros st [H1 H2 H3]. by split. Qed.
Lemma pres_c_next : pres C_NEXT_INSN any.
Proof. intros st [H1 H2 H3]. by split. Qed.

Lemma pres_jump k : pres (JUMP_INSN k) any.
Proof.
  intros st [H1 H2 H3]. split; [|done]. constructor; simpl; [|done|done].
  apply wf_with_next_addr; [apply H1|]. by apply wf_with_info.
Qed.

Lemma pres_illegal_if c : pres (illegal_if c) (fun _ => c = false).
Proof. destruct c; [by apply pres_goto|by apply pres_ret]. Qed.
Lemma pres_illegal_if' c : pres (illegal_if c) any.
Proof. destruct c; [by apply pres_goto|by apply pres_ret]. Qed.

Lemma pres_if {A} (c : bool) (m1 m2 : M D A) Q : pres m1 Q -> pres m2 Q -> pres (if c then m1 else m2) Q.
Proof. by destruct c. Qed.

(** ** The macros *)

Lemma pres_raise_pending c v : in_u 64 v -> pres (raise_pending c v) any.
Proof.
  intros Hv. eapply pres_bind; [apply pres_modify; intros; by apply wf_pend|].
  intros _ _. by apply pres_goto.
Qed.

Lemma pres_reg_read x : pres (reg_read x) (in_u 64).
Proof. apply pres_gets. intros. by apply wf_read_reg. Qed.

Lemma pres_reg_write x v : 0 < x < 32 -> pres (reg_write x v) any.
Proof. intros. apply pres_modify. intros. by apply wf_write_reg. Qed.

Lemma pres_reg_write_rd x v : 0 <= x < 32 -> pres (reg_write_rd x v) any.
Proof.
  intros. unfold reg_write_rd. destruct (x =? 0) eqn:E; [by apply pres_ret|].
  apply pres_reg_write. lia.
Qed.

Lemma pres_write_fp x v : pres (modify (write_fp_reg x v)) any.
Proof. apply pres_modify. intros. by apply wf_write_fp_reg. Qed.

Lemma pres_fs : pres (modify (with_fs 3)) any.
Proof. apply pres_modify. intros. apply wf_with_fs; [by vm_compute|done]. Qed.

Lemma pres_mem_read sz a : in_u 64 a -> pres (mem_read sz a) any.
Proof.
  intros Ha. eapply pres_bind; [apply pres_get_world|]. intros w Hw. cbv beta in Hw.
  pose proof (wf_target_read sz a w Ha Hw) as H. destruct (target_read sz a w) as [[err v] w'].
  eapply pres_bind; [by apply pres_set_world|]. intros _ _.
  destruct (negb _); [by apply pres_goto|by apply pres_ret].
Qed.

Lemma pres_mem_write sz a v : in_u 64 a -> pres (mem_write sz a v) any.
Proof.
  intros Ha. eapply pres_bind; [apply pres_get_world|]. intros w Hw. cbv beta in Hw.
  pose proof (wf_target_write sz a v w Ha Hw) as H. destruct (target_write sz a v w) as [err w'].
  eapply pres_bind; [by apply pres_set_world|]. intros _ _.
  destruct (negb _); [by apply pres_goto|by apply pres_ret].
Qed.

(** ** The instructions *)

#[local] Ltac leaf :=
  lazymatch goal with
  | |- pres (mret _) ?Q => first [is_evar Q; unify Q (@any _) | idtac]; apply pres_ret; first [done | exact I]
  | |- pres (goto _) _ => apply pres_goto; discriminate
  | |- pres (gets id) _ => apply (pres_gets id wf_cpu); intros ? Hs; exact Hs
  | |- pres (gets _) _ => apply (pres_gets _ any); intros; exact I
  | |- pres get_world _ => apply pres_get_world
  | |- pres get_pc _ => apply pres_get_pc
  | |- pres NEXT_INSN _ => apply pres_next
  | |- pres C_NEXT_INSN _ => apply pres_c_next
  | |- pres (JUMP_INSN _) _ => apply pres_jump
  | |- pres (illegal_if _) _ => first [apply pres_illegal_if | apply pres_illegal_if']
  | |- pres (raise_pending _ _) _ => apply pres_raise_pending; in_u_tac
  | |- pres (reg_read _) _ => apply pres_reg_read
  | |- pres (reg_write _ _) _ => apply pres_reg_write; lia
  | |- pres (reg_write_rd _ _) _ => apply pres_reg_write_rd; lia
  | |- pres (mem_read _ _) _ => apply pres_mem_read; in_u_tac
  | |- pres (mem_write _ _ _) _ => apply pres_mem_write; in_u_tac
  | |- pres (modify (write_fp_reg _ _)) _ => apply pres_write_fp
  | |- pres (modify (with_fs 3)) _ => apply pres_fs
  | |- pres (modify _) _ => apply pres_modify; intros; solve [eauto 8 with wf nocore]
  | |- pres _ _ => solve [eauto with pres nocore]
  end.

#[local] Ltac pstep :=
  cbv zeta;
  lazymatch goal with
  | |- pres (mbind _ (if _ then _ else _)) _ => apply (pres_bind _ _ any); [|intros ? ?]
  | |- pres (mbind _ (match _ with _ => _ end)) _ => apply (pres_bind _ _ any); [|intros ? ?]
  | |- pres (mbind _ (mbind _ _)) _ => apply (pres_bind _ _ any); [|intros ? ?]
  | |- pres (mbind _ _) _ => eapply pres_bind; [|intros ? ?]
  | |- pres (if ?c then _ else _) _ => destruct c eqn:?
  | |- pres (match ?x with _ => _ end) _ => destruct x
  | |- _ => leaf
  end; cbv beta in *.
#[local] Ltac ptac := repeat pstep.

Lemma field5 x : 0 <= x .& 0x1f < 32.
Proof. apply (land_in_u_r 5); [lia|by vm_compute]. Qed.

Lemma field_c x : 0 < (x .& 7) .| 8 < 32.
Proof.
  assert (in_u 4 ((x .& 7) .| 8)) as H.
  { apply lor_in_u; [lia| |by vm_compute]. apply land_in_u_r; [lia|by vm_compute]. }
  split; [|unfold in_u in H; lia].
  assert ((x .& 7) .| 8 <> 0); [|unfold in_u in H; lia].
  intros E. apply Z.lor_eq_0_iff in E. lia.
Qed.

Lemma pres_jump_to t k : pres (jump_to t k) any.
Proof. unfold jump_to. ptac. Qed.
Hint Resolve pres_jump_to : pres.

Lemma pres_c_quadrant0 insn : pres (c_quadrant0 insn) any.
Proof. pose proof (field_c (insn >> 2)). unfold c_quadrant0. ptac. Qed.

Lemma pres_c_arith insn : pres (c_arith insn) any.
Proof. pose proof (field_c (insn >> 7)). unfold c_arith. ptac. Qed.
Hint Resolve pres_c_arith : pres.

Lemma pres_c_branch insn t : pres (c_branch insn t) any.
Proof. unfold c_branch. ptac. Qed.
Hint Resolve pres_c_branch : pres.

Lemma pres_c_quadrant1 insn : pres (c_quadrant1 insn) any.
Proof. pose proof (field5 (insn >> 7)). unfold c_quadrant1. ptac. Qed.

Lemma pres_c_jump_mv_add insn rd rs2 : 0 <= rd < 32 -> pres (c_jump_mv_add insn rd rs2) any.
Proof. intros. unfold c_jump_mv_add. ptac. Qed.
Hint Resolve pres_c_jump_mv_add : pres.

Lemma pres_c_quadrant2 insn : pres (c_quadrant2 insn) any.
Proof. pose proof (field5 (insn >> 7)). unfold c_quadrant2. ptac. Qed.
Hint Resolve pres_c_quadrant0 pres_c_quadrant1 pres_c_quadrant2 : pres.

Lemma pres_lui insn rd : 0 <= rd < 32 -> pres (exec_lui insn rd) any.
Proof. intros. unfold exec_lui. ptac. Qed.
Lemma pres_auipc insn rd : 0 <= rd < 32 -> pres (exec_auipc insn rd) any.
Proof. intros. unfold exec_auipc. ptac. Qed.

Lemma pres_check_target t : pres (check_target t) any.
Proof. unfold check_target. ptac. Qed.
Hint Resolve pres_check_target : pres.

Lemma pres_jal insn rd : 0 <= rd < 32 -> pres (exec_jal insn rd) any.
Proof. intros. unfold exec_jal. ptac. Qed.
Lemma pres_jalr insn rd rs1 : 0 <= rd < 32 -> pres (exec_jalr insn rd rs1) any.
Proof. intros. unfold exec_jalr. ptac. Qed.
Lemma pres_branch insn rs1 rs2 : pres (exec_branch insn rs1 rs2) any.
Proof. unfold exec_branch. ptac. Qed.
Lemma pres_load insn rd rs1 : 0 <= rd < 32 -> pres (exec_load insn rd rs1) any.
Proof. intros. unfold exec_load. ptac. Qed.
Lemma pres_store insn rs1 rs2 : pres (exec_store insn rs1 rs2) any.
Proof. unfold exec_store. ptac. Qed.

Lemma pres_finish_op rd v : 0 <= rd < 32 -> pres (finish_op rd v) any.
Proof. intros. unfold finish_op. ptac. Qed.
Hint Resolve pres_finish_op : pres.

Lemma pres_op_imm insn rd rs1 : 0 <= rd < 32 -> pres (exec_op_imm insn rd rs1) any.
Proof. intros. unfold exec_op_imm. ptac. Qed.
Lemma pres_op_imm32 insn rd rs1 : 0 <= rd < 32 -> pres (exec_op_imm32 insn rd rs1) any.
Proof. intros. unfold exec_op_imm32. ptac. Qed.
Lemma pres_op_with f g insn rd rs1 rs2 : 0 <= rd < 32 -> pres (exec_op_with f g insn rd rs1 rs2) any.
Proof. intros. unfold exec_op_with. ptac. Qed.
Lemma pres_misc_mem insn : pres (exec_misc_mem insn) any.
Proof. unfold exec_misc_mem. ptac. Qed.
Hint Resolve pres_lui pres_auipc pres_jal pres_jalr pres_branch pres_load pres_store pres_op_imm
  pres_op_imm32 pres_misc_mem : pres.

(** ** System instructions *)

(** the counter the interpreter computes when [nc] cycles are left *)
Definition counter : Z := u64 (start + n - nc).

Lemma get_counter st : inv st -> GET_INSN_COUNTER st = counter.
Proof.
  intros [_ Hc Ha]. unfold GET_INSN_COUNTER, counter. rewrite Hc, Ha. unfold uN.
  by rewrite Zminus_mod_idemp_l.
Qed.

Lemma counter_delta : s32 (counter - start) = n - nc.
Proof.
  unfold counter, sN. replace (u64 (start + n - nc) - start + 2 ^ (32 - 1))
    with ((n - nc) + 2 ^ (32 - 1) + (- ((start + n - nc) / 2 ^ 64) * 2 ^ 32) * 2 ^ 32).
  - rewrite Z.mod_add by lia. rewrite Z.mod_small by lia. lia.
  - unfold uN. pose proof (Z.div_mod (start + n - nc) (2 ^ 64)). lia.
Qed.

Lemma update_counters_spec st :
  inv st ->
  exists st', update_counters start st = (st', inl tt) /\ inv st' /\ insn_counter (cpu (iw st')) = counter.
Proof.
  intros Hst. pose proof (get_counter st Hst) as Hc. destruct Hst as [H1 H2 H3].
  unfold update_counters, mbind, M_bind, get_istate, modify, gets. cbn.
  destruct (stop_the_counter _) eqn:Hs; cbn.
  - eexists. split; [reflexivity|]. cbn. rewrite Hc. split; [|done].
    constructor; [|done|done]. apply wf_with_insn_counter; [unfold counter; in_u_tac|exact H1].
  - rewrite Hc, counter_delta. destruct (n - nc <? 0) eqn:E; [lia|].
    eexists. split; [reflexivity|]. cbn. split; [|done]. constructor; [|done|done].
    cbn. apply wf_with_minstret; [in_u_tac|]. apply wf_with_mcycle; [in_u_tac|].
    apply wf_with_insn_counter; [unfold counter; in_u_tac|exact H1].
Qed.

Lemma pres_update_counters : pres (update_counters start) any.
Proof.
  intros st Hst. destruct (update_counters_spec st Hst) as (st' & -> & H & _). by split.
Qed.

Lemma do_csr_read_spec f c ww st :
  inv st -> post (in_u 64) (do_csr_read f c ww st)
  /\ insn_counter (cpu (iw (do_csr_read f c ww st).1)) = insn_counter (cpu (iw st)).
Proof.
  intros [H1 H2 H3]. unfold do_csr_read, mbind, M_bind, get_world. cbn.
  pose proof (wf_csr_read f c ww _ H1) as (H4 & H5 & H6).
  destruct (csr_read f c ww (iw st)) as [[err v] w']. cbn in *.
  unfold illegal_if. destruct (negb _); cbn; split; try done; by split.
Qed.

Lemma do_csr_write_spec f c v st :
  in_u 64 v -> inv st -> post any (do_csr_write f c v st)
  /\ insn_counter (cpu (iw (do_csr_write f c v st).1)) = insn_counter (cpu (iw st)).
Proof.
  intros Hv [H1 H2 H3]. unfold do_csr_write, mbind, M_bind, get_world. cbn.
  pose proof (wf_csr_write f c v _ Hv H1) as (H4 & H5).
  destruct (csr_write f c v (iw st)) as [err w']. cbn in *.
  unfold illegal_if. destruct (_ =? _); [cbn; split; try done; by split|].
  destruct (_ <? _); cbn; split; try done; by split.
Qed.

Lemma pres_do_csr_read f c ww : pres (do_csr_read f c ww) (in_u 64).
Proof. intros st Hst. by apply do_csr_read_spec. Qed.
Lemma pres_do_csr_write f c v : in_u 64 v -> pres (do_csr_write f c v) any.
Proof. intros Hv st Hst. by apply do_csr_write_spec. Qed.

Lemma pres_csr_finish e : pres (csr_finish e) any.
Proof. unfold csr_finish. ptac. Qed.
Hint Resolve pres_csr_finish pres_update_counters pres_do_csr_read : pres.

(** the counter is resynchronised after the write: the addend does not move *)
Lemma resync st :
  inv st -> insn_counter (cpu (iw st)) = counter ->
  inv (with_counters (u64 (insn_counter (cpu (iw st)) + n_cycles st)) (n_cycles st) (insn_executed st) st).
Proof.
  intros [H1 H2 H3] Hc. constructor; simpl; [done|done|]. rewrite Hc, H2. unfold counter, uN.
  rewrite Zplus_mod_idemp_l. f_equal. lia.
Qed.

Lemma pres_csrrw rd csr val :
  0 <= rd < 32 -> in_u 64 val -> pres (exec_csrrw start rd csr val) any.
Proof.
  intros Hrd Hval st Hst. unfold exec_csrrw.
  destruct (update_counters_spec st Hst) as (st1 & E1 & H1 & C1).
  unfold mbind, M_bind. rewrite E1.
  destruct (do_csr_read_spec 1 csr true st1 H1) as [[H2 Q2] C2].
  destruct (do_csr_read 1 csr true st1) as [st2 [v2|e2]]; cbn [fst snd] in *; [|by split].
  destruct (do_csr_write_spec 1 csr val st2 Hval H2) as [[H3 Q3] C3].
  destruct (do_csr_write 1 csr val st2) as [st3 [v3|e3]]; cbn [fst snd] in *; [|by split].
  pose proof (pres_reg_write_rd rd v2 Hrd st3 H3) as [H4 Q4].
  assert (insn_counter (cpu (iw (reg_write_rd rd v2 st3).1)) = counter) as C4.
  { rewrite <- C1, <- C2, <- C3. unfold reg_write_rd. by destruct (negb _). }
  destruct (reg_write_rd rd v2 st3) as [st4 [v4|e4]]; cbn [fst snd] in *; [|by split].
  unfold get_istate, gets, set_istate. cbn.
  by apply pres_csr_finish, resync.
Qed.

Lemma pres_csrrs rd rs1 f csr val :
  0 <= rd < 32 -> in_u 64 val -> pres (exec_csrrs start rd rs1 f csr val) any.
Proof.
  intros Hrd Hval. unfold exec_csrrs.
  eapply pres_bind; [apply pres_update_counters|intros _ _].
  eapply pres_bind; [apply pres_do_csr_read|intros v2 Hv2].
  apply (pres_bind _ _ any).
  - destruct (negb _); [|by apply pres_ret]. apply pres_do_csr_write.
    destruct (_ =? _); in_u_tac.
  - intros err _. ptac.
Qed.

Hint Resolve wf_handle_sret wf_handle_mret wf_handle_dret : wf.

Lemma pres_sret insn : pres (exec_sret insn) any.
Proof. unfold exec_sret. ptac. Qed.
Lemma pres_mret insn : pres (exec_mret insn) any.
Proof. unfold exec_mret. ptac. Qed.
Lemma pres_dret insn : pres (exec_dret insn) any.
Proof. unfold exec_dret. ptac. Qed.
Lemma pres_wfi insn : pres (exec_wfi insn) any.
Proof. unfold exec_wfi. ptac. Qed.
Lemma pres_sfence insn rs1 : pres (exec_sfence_vma insn rs1) any.
Proof. unfold exec_sfence_vma, tlb_flush_vaddr. ptac. Qed.
Lemma pres_ecall insn : pres (exec_ecall insn) any.
Proof. unfold exec_ecall. ptac. Qed.
Lemma pres_ebreak insn : pres (exec_ebreak insn) any.
Proof. unfold exec_ebreak. ptac. Qed.
Hint Resolve pres_sret pres_mret pres_dret pres_wfi pres_sfence pres_ecall pres_ebreak
  pres_csrrw pres_csrrs : pres.

Lemma pres_priv insn rs1 imm : pres (exec_priv insn rs1 imm) any.
Proof. unfold exec_priv. ptac. Qed.
Hint Resolve pres_priv : pres.

Lemma pres_system insn rd rs1 :
  0 <= rd < 32 -> 0 <= rs1 < 32 -> pres (exec_system start insn rd rs1) any.
Proof.
  intros Hrd Hrs1. unfold exec_system. cbv zeta. apply (pres_bind _ _ (in_u 64)).
  - destruct (tst _); [|apply pres_reg_read]. apply pres_ret. unfold in_u. lia.
  - intros val Hval. ptac.
Qed.

(** ** Atomics *)

Lemma pres_amo_read sz a : in_u 64 a -> pres (amo_read sz a) any.
Proof.
  intros Ha. eapply pres_bind; [apply pres_get_world|]. intros w Hw. cbv beta in Hw.
  pose proof (wf_target_read sz a w Ha Hw) as H. destruct (target_read sz a w) as [[err v] w'].
  eapply pres_bind; [by apply pres_set_world|]. intros _ _. ptac.
  apply pres_modify. intros s Hs. case_match; [by apply wf_with_pending_exception|done].
Qed.
Hint Resolve pres_amo_read : pres.

Lemma pres_op_a sz insn rs1 rs2 : pres (op_a sz insn rs1 rs2) any.
Proof. unfold op_a. ptac. Qed.
Hint Resolve pres_op_a : pres.

Lemma pres_amo insn rd rs1 rs2 : 0 <= rd < 32 -> pres (exec_amo insn rd rs1 rs2) any.
Proof. intros. unfold exec_amo. ptac. Qed.

(** ** Floating point *)

Lemma pres_with_flags f : flags_ok f -> pres (with_flags f) any.
Proof.
  intros Hf. eapply pres_bind; [apply (pres_gets _ (in_u 5)); intros; by apply wf_fflags|].
  intros fl Hfl. pose proof (Hf fl Hfl) as H. destruct (f fl) as [r fl']. cbn [snd] in H. ptac.
Qed.

#[local] Ltac fleaf := apply pres_with_flags; auto with mach.

Lemma pres_insn_rm rm : pres (insn_rm rm) any.
Proof. unfold insn_rm. ptac. Qed.
Lemma pres_fp_arg F x : pres (fp_arg F x) any.
Proof. unfold fp_arg. ptac. Qed.
Lemma pres_fp_put F rd v : pres (fp_put F rd v) any.
Proof. unfold fp_put. ptac. Qed.
Hint Resolve pres_insn_rm pres_fp_arg pres_fp_put : pres.
Hint Extern 1 (pres (with_flags _) _) => fleaf : pres.

Lemma pres_fp_template F imm rm rd rs1 rs2 m :
  0 <= rd < 32 -> fp_template F imm rm rd rs1 rs2 = Some m -> pres m any.
Proof.
  intros Hrd. unfold fp_template. cbv zeta.
  repeat (match goal with |- (if ?c then _ else _) = _ -> _ => destruct c end;
          [intros [= <-];
           unfold fp_binary, fp_sqrt, fp_sgnj, fp_minmax, fp_to_int, fp_compare, fp_from_int,
             fp_convert, fp_move_class, fp_move_from_int; ptac|]).
  discriminate.
Qed.

Lemma pres_fp insn rd rs1 rs2 : 0 <= rd < 32 -> pres (exec_fp insn rd rs1 rs2) any.
Proof.
  intros Hrd. unfold exec_fp. cbv zeta. pstep; [pstep|]. pstep; [pstep|].
  apply (pres_bind _ _ any); [|intros; apply pres_next].
  destruct (fp_template FP32 _ _ _ _ _) as [m|] eqn:E1; [by eapply pres_fp_template|].
  destruct (fp_template FP64 _ _ _ _ _) as [m|] eqn:E2; [by eapply pres_fp_template|].
  by apply pres_goto.
Qed.

Lemma pres_fma np na insn rd rs1 rs2 : pres (exec_fma np na insn rd rs1 rs2) any.
Proof. unfold exec_fma. ptac. Qed.
Lemma pres_fp_load insn rd rs1 : pres (exec_fp_load insn rd rs1) any.
Proof. unfold exec_fp_load. ptac. Qed.
Lemma pres_fp_store insn rs1 rs2 : pres (exec_fp_store insn rs1 rs2) any.
Proof. unfold exec_fp_store. ptac. Qed.
Hint Resolve pres_system pres_amo pres_fp pres_fp_load pres_fp_store : pres.

Lemma pres_exec_insn insn : pres (exec_insn start insn) any.
Proof.
  pose proof (field5 (insn >> 7)) as Hrd. pose proof (field5 (insn >> 15)) as Hrs1.
  unfold exec_insn, exec_op, exec_op32, exec_fmadd, exec_fmsub, exec_fnmsub, exec_fnmadd. cbv zeta.
  repeat lazymatch goal with |- pres (match ?x with _ => _ end) _ => destruct x end.
  all: lazymatch goal with
  | |- pres (goto _) _ => apply pres_goto; discriminate
  | |- pres (exec_op_with _ _ _ _ _ _) _ => apply pres_op_with; exact Hrd
  | |- pres (exec_fma _ _ _ _ _ _) _ => apply pres_fma
  | |- _ => solve [auto 2 with pres nocore]
  end.
Qed.

(** ** Fetching *)

Lemma pres_get_istate : pres get_istate inv.
Proof. intros st Hst. by split. Qed.
Lemma pres_set_istate st : inv st -> pres (set_istate st) any.
Proof. intros Hst st' _. by split. Qed.
Lemma inv_with_code p e a st : inv st -> inv (with_code p e a st).
Proof. intros [H1 H2 H3]. by constructor. Qed.

Lemma pres_modify_const s : wf_cpu s -> pres (modify (fun _ => s)) any.
Proof. intros. by apply pres_modify. Qed.

Lemma pres_check_execute : pres check_execute any.
Proof.
  unfold check_execute. eapply pres_bind; [apply (pres_gets id wf_cpu); by intros|]. intros s Hs.
  pose proof (wf_check_triggers MCONTROL_EXECUTE (pc s) s (wf_pc _ Hs) Hs) as H.
  destruct (check_triggers _ _ _) as [f s'].
  eapply pres_bind; [by apply pres_modify_const|]. intros _ _. ptac.
Qed.

Lemma pres_check_interrupt : pres check_interrupt any.
Proof.
  unfold check_interrupt. eapply pres_bind; [apply pres_get_world|]. intros w Hw. cbv beta in Hw.
  destruct (interrupt_enabled w); [|by apply pres_ret].
  pose proof (wf_raise_interrupt _ Hw) as H. destruct (raise_interrupt _) as [r s'].
  eapply pres_bind; [by apply pres_modify_const|]. intros _ _. ptac.
Qed.

Lemma pres_fetch_slow : pres fetch_slow any.
Proof.
  unfold fetch_slow. eapply pres_bind; [apply (pres_gets pc (in_u 64)); intros; by apply wf_pc|].
  intros addr Ha. eapply pres_bind; [apply pres_get_world|]. intros w Hw. cbv beta zeta in *.
  destruct (_ =? _).
  - eapply pres_bind; [apply pres_get_istate|]. intros st Hst.
    eapply pres_bind; [by apply pres_set_istate, inv_with_code|]. intros _ _.
    destruct (_ <=? _); [|by apply pres_ret]. destruct (_ =? 3); [|by apply pres_ret].
    pose proof (wf_insn_u16 (u64 (addr + 2)) w ltac:(in_u_tac) Hw) as H.
    destruct (target_read_insn_u16 _ _) as [[err ih] w'].
    eapply pres_bind; [by apply pres_set_world|]. intros _ _. ptac.
  - pose proof (wf_insn_slow 32 addr w Ha Hw) as H.
    destruct (target_read_insn_slow _ _ _) as [[err ih] w'].
    eapply pres_bind; [by apply pres_set_world|]. intros _ _. ptac.
Qed.
Hint Resolve pres_check_interrupt pres_fetch_slow pres_check_execute pres_exec_insn : pres.

Lemma pres_fetch : pres fetch any.
Proof.
  unfold fetch. eapply pres_bind; [apply pres_get_istate|]. intros st Hst. ptac.
Qed.
Hint Resolve pres_fetch : pres.

(** the turn of the loop once the cycle is counted *)
Lemma pres_turn : pres (check_execute;; insn ← fetch; exec_insn start insn) any.
Proof. ptac. Qed.

End Inv.

(** ** The loop *)

Section Loop.
Context {D : Type} {io : DeviceIO D} {wio : WfDeviceIO D} {hooks : MachineHooks D} {whooks : WfHooks D}.
Variables start n : Z.
Implicit Types st : IState D.
Hypothesis n_range : 0 <= n < 2 ^ 31 - 1.

(** one turn uses up one cycle, and the last one leaves the loop *)
Lemma loop_body_inv k st :
  0 <= k <= n -> inv start n (k + 1) st ->
  inv start n k (loop_body start st).1
  /\ (loop_body start st).2 <> inr XAbort /\ (k = 0 -> (loop_body start st).2 = inr XEnd).
Proof.
  intros Hk [H1 H2 H3]. unfold loop_body.
  assert (wf_cpu (with_pc (GET_PC st) (cpu (iw st)))) as H4
    by (apply wf_with_pc; [unfold GET_PC; in_u_tac|done]).
  unfold mbind, M_bind, get_pc, modify, get_istate, set_istate, goto.
  cbn -[check_execute exec_insn fetch]. destruct (n_cycles st - 1 =? 0) eqn:E; cbn -[check_execute exec_insn fetch].
  - split_and!; [|done|done]. constructor; cbn; [done|lia|done].
  - pose proof (pres_turn start n k ltac:(lia) Hk
      (with_counters (insn_counter_addend st) (n_cycles st - 1) (insn_executed st + 1)
        (with_iw (upd_cpu (with_pc (GET_PC st)) (iw st)) st))) as [H5 H6].
    { constructor; cbn; [done|lia|done]. }
    unfold mbind, M_bind in H5, H6. split_and!; [exact H5| |lia].
    intros Ha. match type of H6 with match ?r with _ => _ end =>
      assert (r = inr XAbort) as Hr by exact Ha; rewrite Hr in H6 end. done.
Qed.

(** with as many turns as cycles the loop always reaches a label *)
Lemma main_loop_stops fuel st :
  1 <= Z.of_nat fuel <= n + 1 -> inv start n (Z.of_nat fuel) st ->
  exists st' e k, main_loop fuel start st = Some (st', e) /\ e <> XAbort /\ e <> XJump
    /\ 0 <= k <= n /\ inv start n k st' /\ (k = 0 -> e = XEnd).
Proof.
  revert st. induction fuel as [|fuel IH]; intros st Hf Hst; [lia|].
  destruct (loop_body_inv (Z.of_nat fuel) st ltac:(lia)) as (H1 & H2 & H3).
  { by replace (Z.of_nat fuel + 1) with (Z.of_nat (S fuel)) by lia. }
  cbn [main_loop]. destruct (loop_body start st) as [st' r]. cbn [fst snd] in *.
  assert (r = inl tt \/ r = inr XJump -> 1 <= Z.of_nat fuel) as Hpos.
  { intros [-> | ->]; destruct fuel; try lia; by specialize (H3 eq_refl). }
  destruct r as [[]|e].
  - apply IH; [|done]. specialize (Hpos ltac:(by left)). lia.
  - assert (e = XJump \/ e <> XJump) as [-> | He] by (destruct (decide (e = XJump)); auto).
    + apply IH; [|done]. specialize (Hpos ltac:(by right)). lia.
    + exists st', e, (Z.of_nat fuel). split; [by destruct e|].
      split; [congruence|]. split; [done|]. split; [lia|]. split; [done|]. intros Hk.
      specialize (H3 Hk). congruence.
Qed.

(** ** The labels after the loop *)

(** the result of a run: it returned, the hart is well formed and the counter
    has advanced by at most [n] *)
Definition finished (r : Result) : Prop :=
  exists x (w : World D) j, r = Executed x w /\ wf_cpu (cpu w)
    /\ 0 <= j <= n /\ insn_counter (cpu w) = u64 (start + j).

Lemma s32_delta j : 0 <= j <= n -> s32 (u64 (start + j) - start) = j.
Proof.
  intros Hj. pose proof (counter_delta start n (n - j) ltac:(lia) ltac:(lia)) as H.
  unfold counter in H. replace (start + n - (n - j)) with (start + j) in H by lia. lia.
Qed.

Lemma do_end_spec (st : IState D) j :
  wf_cpu (cpu (iw st)) -> GET_INSN_COUNTER st = u64 (start + j) -> 0 <= j <= n ->
  finished (do_end start st).
Proof.
  intros Hw Hc Hj. unfold do_end. rewrite Hc.
  assert (wf_cpu (cpu (upd_cpu (with_insn_counter (u64 (start + j))) (iw st)))) as Hw'
    by (apply wf_with_insn_counter; [in_u_tac|done]).
  destruct (stop_the_counter _); [by eexists _, _, j|].
  change (insn_counter (cpu (upd_cpu (with_insn_counter (u64 (start + j))) (iw st)))) with (u64 (start + j)).
  rewrite s32_delta by done. destruct (j <? 0) eqn:E; [lia|].
  eexists _, _, j. split; [reflexivity|]. split_and!; [|lia|lia|done].
  cbn. apply wf_with_minstret; [in_u_tac|]. by apply wf_with_mcycle; [in_u_tac|].
Qed.

Lemma counter_mod a nc : u64 (u64 a - nc) = u64 (a - nc).
Proof. unfold uN. by rewrite Zminus_mod_idemp_l. Qed.

(** the exception label keeps the hart well formed; it gives back the cycle
    of the instruction that trapped unless it was an ecall *)
Lemma do_exception_spec (st : IState D) k :
  inv start n k st ->
  wf_cpu (cpu (iw (do_exception st))) /\ n_cycles (do_exception st) = k
  /\ exists c, 0 <= c <= 1 /\ insn_counter_addend (do_exception st) = u64 (start + n - c).
Proof.
  intros [H1 H2 H3]. unfold do_exception. cbv zeta.
  assert (wf_cpu (with_pc (GET_PC st) (cpu (iw st)))) as H4
    by (apply wf_with_pc; [unfold GET_PC; in_u_tac|done]).
  set (st1 := with_iw (upd_cpu (with_pc (GET_PC st)) (iw st)) st).
  destruct (0 <=? _); cbn [iw with_iw].
  - split; [|split].
    + cbn. apply wf_raise_exception2; [in_u_tac|]. by destruct (_ || _).
    + by destruct (_ || _).
    + destruct (_ || _); cbn.
      * exists 1. split; [lia|]. by rewrite H3, counter_mod.
      * exists 0. split; [lia|]. by rewrite H3, Z.sub_0_r.
  - split_and!; [done|done|]. exists 0. split; [lia|]. cbn. by rewrite H3, Z.sub_0_r.
Qed.

Lemma do_done_finished (st : IState D) k c :
  wf_cpu (cpu (iw st)) -> n_cycles st = k -> 1 <= k <= n ->
  0 <= c <= 1 -> insn_counter_addend st = u64 (start + n - c) ->
  finished (do_end start (do_done st)).
Proof.
  intros Hw Hk Hkn Hc Ha. apply (do_end_spec _ (n - c - (k - 1))); [done| |lia].
  unfold GET_INSN_COUNTER. cbn. rewrite Ha, Hk, counter_mod. f_equal. lia.
Qed.

Lemma do_exit_finished (st : IState D) e k :
  inv start n k st -> 0 <= k <= n -> e <> XAbort -> (k = 0 -> e = XEnd) ->
  finished (do_exit start st e).
Proof.
  intros Hst Hk He H0.
  assert (inv start n k (do_illegal st)) as Hill.
  { destruct Hst as [H1 H2 H3]. constructor; cbn; [|done|done]. apply wf_pend; [by apply in_u_0|done]. }
  assert (e <> XEnd -> 1 <= k) as Hk1 by (intros; destruct (decide (k = 0)); [tauto|lia]).
  destruct e; cbn [do_exit]; try done;
    try (destruct (do_exception_spec st k Hst) as (H1 & H2 & c & Hc & H3);
         apply (do_done_finished _ k c); try done; split; [by apply Hk1|lia]).
  - destruct (do_exception_spec _ k Hill) as (H1 & H2 & c & Hc & H3).
    apply (do_done_finished _ k c); try done. split; [by apply Hk1|lia].
  - destruct Hst as [H1 H2 H3]. apply (do_done_finished _ k 0); try done.
    + split; [by apply Hk1|lia].
    + by rewrite H3, Z.sub_0_r.
  - apply (do_end_spec _ (n - k)); [apply Hst| |lia].
    rewrite (get_counter start n k) by done. unfold counter. f_equal. lia.
Qed.

End Loop.

Section Top.
Context {D : Type} {io : DeviceIO D} {wio : WfDeviceIO D} {hooks : MachineHooks D} {whooks : WfHooks D}.

(** the interpreter returns with the hart well formed: it neither fails an
    assertion nor loops, and retires at most [n] instructions *)
Lemma riscv_cpu_interp64_finished n (w : World D) :
  0 <= n < 2 ^ 31 - 1 -> wf_cpu (cpu w) ->
  finished (insn_counter (cpu w)) n (riscv_cpu_interp64 n w).
Proof.
  intros Hn Hw. pose proof (wf_insn_counter _ Hw) as Hs. unfold riscv_cpu_interp64. cbv zeta.
  set (start := insn_counter (cpu w)) in *.
  match goal with |- context [upd_cpu ?f w] => set (w1 := upd_cpu f w) end.
  assert (wf_cpu (cpu w1)) as H1.
  { unfold w1. cbn. by apply wf_with_info, wf_with_most_recently_written_fp_reg,
      wf_with_most_recently_written_reg. }
  assert (insn_counter (cpu w1) = start) as Hc by done.
  destruct (n =? 0) eqn:E.
  { exists 0, w1, 0. split_and!; [done|done|lia|lia|]. rewrite Hc, Z.add_0_r, uN_small; done. }
  assert (forall w2, wf_cpu (cpu w2) ->
    finished start n (match main_loop (Z.to_nat (n + 1)) start
      (mkIState (upd_cpu (with_pending_exception (-1)) w2) 0 0
        (pc (cpu (upd_cpu (with_pending_exception (-1)) w2))) (u64 (start + n)) (n + 1) 0) with
      None => OutOfFuel | Some (st, e) => do_exit start st e end)) as Hrun.
  { intros w2 H2. edestruct (main_loop_stops start n Hn (Z.to_nat (n + 1)))
      as (st' & e & k & -> & He1 & He2 & Hk & Hst & H0); [lia| |by eapply do_exit_finished].
    rewrite Z2Nat.id by lia. constructor; [by apply wf_with_pending_exception|done|done]. }
  destruct (interrupt_enabled w1); [|by apply Hrun].
  pose proof (wf_raise_interrupt _ H1) as H2. destruct (raise_interrupt (cpu w1)) as [r s]. cbn [snd] in H2.
  destruct (negb _); [|by apply Hrun].
  apply (do_done_finished start n Hn _ n 1); [done|done|lia|lia|].
  cbn. by rewrite counter_mod.
Qed.

End Top.
