(* ===== verification/TrapProps.v ===== *)
(** * Properties of traps, returns and interrupts *)

From S2P Require Import Prelude Riscv CpuState Mmu Csr Trap Invariant.

(** ** Bits of mstatus *)

Ltac mstatus_unfold :=
  unfold MSTATUS_SIE, MSTATUS_MIE, MSTATUS_SPIE, MSTATUS_MPIE, MSTATUS_SPP, MSTATUS_MPP,
    MSTATUS_SPIE_SHIFT, MSTATUS_MPIE_SHIFT, MSTATUS_SPP_SHIFT, MSTATUS_MPP_SHIFT in *.


(** [set_priv] only changes the privilege and the TLBs *)
Lemma set_priv_priv p s : in_u 2 p -> priv (set_priv p s) = p.
Proof.
  intros Hp. unfold set_priv. destruct (Z.eqb_spec (priv s) p); simpl; [done|].
  apply uN_small. by apply (in_u_weaken 2).
Qed.
Lemma set_priv_mstatus p s : mstatus (set_priv p s) = mstatus s.
Proof. unfold set_priv. by destruct (negb _). Qed.
Lemma set_priv_mepc p s : mepc (set_priv p s) = mepc s.
Proof. unfold set_priv. by destruct (negb _). Qed.
Lemma set_priv_sepc p s : sepc (set_priv p s) = sepc s.
Proof. unfold set_priv. by destruct (negb _). Qed.
Lemma set_priv_cause p s : mcause (set_priv p s) = mcause s /\ scause (set_priv p s) = scause s.
Proof. unfold set_priv. by destruct (negb _). Qed.

(** ** Entry and return are inverses *)

(** the mstatus a machine (supervisor) trap stores, and what the return makes of it *)
Definition trap_m_status (m p : Z) : Z :=
  ((((m .& ~~ MSTATUS_MPIE) .| (notnot (m .& MSTATUS_MIE) << MSTATUS_MPIE_SHIFT)) .& ~~ MSTATUS_MPP)
    .| (p << MSTATUS_MPP_SHIFT)) .& ~~ MSTATUS_MIE.
Definition ret_m_status (m : Z) : Z :=
  let m := m .& ~~ MSTATUS_MIE in (m .| ((m >> 4) .& MSTATUS_MIE)) .| MSTATUS_MPIE.
Definition trap_s_status (m p : Z) : Z :=
  ((((m .& ~~ MSTATUS_SPIE) .| (notnot (m .& MSTATUS_SIE) << MSTATUS_SPIE_SHIFT)) .& ~~ MSTATUS_SPP)
    .| (p << MSTATUS_SPP_SHIFT)) .& ~~ MSTATUS_SIE.
Definition ret_s_status (m : Z) : Z :=
  let m := m .& ~~ MSTATUS_SIE in (m .| ((m >> 4) .& MSTATUS_SIE)) .| MSTATUS_SPIE.

Lemma raise_m_status c t s : delegated s c = false ->
  mstatus (raise_exception2 c t s) = trap_m_status (mstatus s) (priv s)
  /\ mepc (raise_exception2 c t s) = MEPC_TRUNCATE (pc s) /\ priv (raise_exception2 c t s) = PRV_M
  /\ mcause (raise_exception2 c t s) = c /\ mtval (raise_exception2 c t s) = MTVAL_TRUNCATE t
  /\ pc (raise_exception2 c t s) = trap_vector (mtvec s) c.
Proof.
  intros Hd. unfold raise_exception2. rewrite Hd. cbv zeta. unfold trap_to_m, set_priv. cbv zeta.
  destruct (negb _) eqn:E; cbn; split_and!; try done.
  apply negb_false_iff, Z.eqb_eq in E. exact E.
Qed.

Lemma raise_s_status c t s : delegated s c = true ->
  mstatus (raise_exception2 c t s) = trap_s_status (mstatus s) (priv s)
  /\ sepc (raise_exception2 c t s) = SEPC_TRUNCATE (pc s) /\ priv (raise_exception2 c t s) = PRV_S
  /\ scause (raise_exception2 c t s) = c /\ stval (raise_exception2 c t s) = STVAL_TRUNCATE t
  /\ pc (raise_exception2 c t s) = trap_vector (stvec s) c.
Proof.
  intros Hd. unfold raise_exception2. rewrite Hd. cbv zeta. unfold trap_to_s, set_priv. cbv zeta.
  destruct (negb _) eqn:E; cbn; split_and!; try done.
  apply negb_false_iff, Z.eqb_eq in E. exact E.
Qed.

Lemma with_mstatus_twice a b s : with_mstatus a (with_mstatus b s) = with_mstatus a s.
Proof. reflexivity. Qed.
Lemma mstatus_with a s : mstatus (with_mstatus a s) = a.
Proof. reflexivity. Qed.
Lemma mepc_with a s : mepc (with_mstatus a s) = mepc s.
Proof. reflexivity. Qed.
Lemma sepc_with a s : sepc (with_mstatus a s) = sepc s.
Proof. reflexivity. Qed.
Lemma fields_with_pc a s :
  pc (with_pc a s) = a /\ priv (with_pc a s) = priv s /\ mstatus (with_pc a s) = mstatus s.
Proof. split_and!; reflexivity. Qed.

Lemma mret_status s :
  mstatus (handle_mret s) = ret_m_status (mstatus s) .& ~~ MSTATUS_MPP
  /\ priv (handle_mret s) = (ret_m_status (mstatus s) .& MSTATUS_MPP) >> MSTATUS_MPP_SHIFT
  /\ pc (handle_mret s) = mepc s.
Proof.
  unfold handle_mret, ret_m_status. cbv zeta. rewrite !mstatus_with, !with_mstatus_twice.
  match goal with |- context [with_pc ?a ?x] => destruct (fields_with_pc a x) as (-> & -> & ->) end.
  by rewrite set_priv_mstatus, set_priv_mepc, mstatus_with, mepc_with, set_priv_priv by apply mpp_in_u.
Qed.

Lemma sret_status s :
  mstatus (handle_sret s) = ret_s_status (mstatus s) .& ~~ MSTATUS_SPP
  /\ priv (handle_sret s) = (ret_s_status (mstatus s) .& MSTATUS_SPP) >> MSTATUS_SPP_SHIFT
  /\ pc (handle_sret s) = sepc s.
Proof.
  unfold handle_sret, ret_s_status. cbv zeta. rewrite !mstatus_with, !with_mstatus_twice.
  match goal with |- context [with_pc ?a ?x] => destruct (fields_with_pc a x) as (-> & -> & ->) end.
  by rewrite set_priv_mstatus, set_priv_sepc, mstatus_with, sepc_with, set_priv_priv by apply spp_in_u.
Qed.



Lemma testbit_flag x k j i : 0 <= k -> 0 <= j -> 0 <= i ->
  Z.testbit (notnot (x .& (1 << k)) << j) i = (i =? j) && Z.testbit x k.
Proof.
  intros Hk Hj Hi. unfold notnot. rewrite (Z.shiftl_mul_pow2 1), Z.mul_1_l, tst_land_pow2 by lia.
  rewrite Z.shiftl_spec by lia. destruct (Z.eqb_spec i j) as [->|].
  - rewrite testbit_b2z by lia. by rewrite Z.sub_diag.
  - destruct (Z.lt_ge_cases i j); [by rewrite Z.testbit_neg_r by lia|].
    rewrite testbit_b2z by lia. by destruct (Z.eqb_spec (i - j) 0); [lia|].
Qed.

#[local] Ltac bool_cases :=
  repeat match goal with
  | |- context [?a =? ?b] => destruct (Z.eqb_spec a b); subst; try lia
  | |- context [?a <=? ?b] => destruct (Z.leb_spec a b); try lia
  | |- context [?a <? ?b] => destruct (Z.ltb_spec a b); try lia
  end; cbn [negb andb orb]; rewrite ?andb_true_r, ?andb_false_r, ?orb_false_r, ?orb_true_r; try reflexivity;
  try (f_equal; lia).
#[local] Ltac bits_of :=
  repeat first [ rewrite Z.land_spec | rewrite Z.lor_spec | rewrite Z.lnot_spec by lia
               | rewrite testbit_flag by lia | rewrite testbit_bit by lia ].

(** the bits of mstatus after a trap and after a return *)
Lemma trap_m_bits m p i : 0 <= i -> in_u 2 p ->
  Z.testbit (trap_m_status m p) i =
    if i =? 3 then false else if i =? 7 then Z.testbit m 3
    else if (11 <=? i) && (i <? 13) then Z.testbit p (i - 11) else Z.testbit m i.
Proof.
  intros Hi Hp. unfold trap_m_status. mstatus_unfold. bits_of.
  change (3 << 11) with (Z.ones 2 << 11).
  rewrite (testbit_mask 2), (testbit_shifted 2) by (done || lia). bool_cases.
Qed.

Lemma trap_s_bits m p i : 0 <= i -> in_u 1 p ->
  Z.testbit (trap_s_status m p) i =
    if i =? 1 then false else if i =? 5 then Z.testbit m 1
    else if i =? 8 then Z.testbit p 0 else Z.testbit m i.
Proof.
  intros Hi Hp. unfold trap_s_status. mstatus_unfold. bits_of.
  rewrite (testbit_shifted 1) by (done || lia). bool_cases.
Qed.

Lemma ret_m_bits m i : 0 <= i ->
  Z.testbit (ret_m_status m) i =
    if i =? 3 then Z.testbit m 7 else if i =? 7 then true else Z.testbit m i.
Proof.
  intros Hi. unfold ret_m_status. cbv zeta. mstatus_unfold. bits_of. rewrite Z.shiftr_spec by lia. bits_of.
  bool_cases.
Qed.

Lemma ret_s_bits m i : 0 <= i ->
  Z.testbit (ret_s_status m) i =
    if i =? 1 then Z.testbit m 5 else if i =? 5 then true else Z.testbit m i.
Proof.
  intros Hi. unfold ret_s_status. cbv zeta. mstatus_unfold. bits_of. rewrite Z.shiftr_spec by lia. bits_of.
  bool_cases.
Qed.

Lemma trap_mret_word m p : in_u 2 p ->
  ret_m_status (trap_m_status m p) .& ~~ MSTATUS_MPP = (m .| MSTATUS_MPIE) .& ~~ MSTATUS_MPP
  /\ (ret_m_status (trap_m_status m p) .& MSTATUS_MPP) >> MSTATUS_MPP_SHIFT = p.
Proof.
  intros Hp. split; apply Z.bits_inj'; intros i Hi.
  - rewrite !Z.land_spec, Z.lnot_spec, Z.lor_spec, ret_m_bits, !trap_m_bits by (done || lia).
    mstatus_unfold. rewrite testbit_bit by lia. change (3 << 11) with (Z.ones 2 << 11).
    rewrite (testbit_mask 2) by lia. bool_cases.
  - mstatus_unfold. rewrite Z.shiftr_spec, Z.land_spec, ret_m_bits, !trap_m_bits by (done || lia).
    change (3 << 11) with (Z.ones 2 << 11). rewrite (testbit_mask 2) by lia. bool_cases.
    symmetry. apply (testbit_high 2); (done || lia).
Qed.

Lemma trap_sret_word m p : in_u 1 p ->
  ret_s_status (trap_s_status m p) .& ~~ MSTATUS_SPP = (m .| MSTATUS_SPIE) .& ~~ MSTATUS_SPP
  /\ (ret_s_status (trap_s_status m p) .& MSTATUS_SPP) >> MSTATUS_SPP_SHIFT = p.
Proof.
  intros Hp. split; apply Z.bits_inj'; intros i Hi.
  - rewrite !Z.land_spec, Z.lnot_spec, Z.lor_spec, ret_s_bits, !trap_s_bits by (done || lia).
    mstatus_unfold. rewrite !testbit_bit by lia. bool_cases.
  - mstatus_unfold. rewrite Z.shiftr_spec, Z.land_spec, ret_s_bits, !trap_s_bits by (done || lia).
    rewrite testbit_bit by lia. bool_cases.
    symmetry. apply (testbit_high 1); (done || lia).
Qed.

(** ** Interrupt selection *)


Lemma first_set_spec mask l :
  (forall i, i ∈ l -> 0 <= i) ->
  (exists i, i ∈ l /\ Z.testbit mask i = true) ->
  exists l1 l2, l = l1 ++ first_set mask l :: l2 /\ Z.testbit mask (first_set mask l) = true
    /\ forall i, i ∈ l1 -> Z.testbit mask i = false.
Proof.
  induction l as [|j l IH]; intros Hp (i & Hi & Hb); [by apply not_elem_of_nil in Hi|].
  cbn [first_set]. rewrite tst_bit by (apply Hp; set_solver). destruct (Z.testbit mask j) eqn:Ej.
  - exists [], l. split_and!; [done|done|]. intros k Hk. by apply not_elem_of_nil in Hk.
  - destruct IH as (l1 & l2 & E & H1 & H2); [set_solver| |].
    + exists i. split; [|done]. apply elem_of_cons in Hi as [->|]; [congruence|done].
    + exists (j :: l1), l2. split_and!; [simpl; congruence|done|]. set_solver.
Qed.

Lemma log2_bit mask : 0 < mask -> Z.testbit mask (Z.log2 mask) = true
  /\ forall i, Z.log2 mask < i -> Z.testbit mask i = false.
Proof. intros Hm. split; [by apply Z.bit_log2|]. intros i Hi. apply Z.bits_above_log2; lia. Qed.

(** scanning positions [n] down to 1 finds the highest one *)
Lemma first_set_desc m n i : 1 <= i <= Z.of_nat n -> Z.testbit m i = true ->
  let r := first_set m (reverse (seqZ 1 (Z.of_nat n))) in
  i <= r <= Z.of_nat n /\ Z.testbit m r = true.
Proof.
  induction n as [|n IH]; intros Hi Hb; [lia|]. cbv zeta. rewrite seqZ_S, reverse_snoc. cbn [first_set].
  rewrite tst_bit by lia. destruct (Z.testbit m (1 + Z.of_nat n)) eqn:E; [split; [lia|done]|].
  destruct (decide (i = 1 + Z.of_nat n)) as [->|]; [congruence|].
  destruct IH as [H1 H2]; [lia|done|]. split; [lia|done].
Qed.

Lemma get_irq_platspecific_log2 mask :
  12 <= Z.log2 mask < 32 -> get_irq_platspecific mask = Z.log2 mask.
Proof.
  intros Hl. unfold get_irq_platspecific. cbv zeta.
  assert (0 < mask) as Hm by (destruct mask; cbn in Hl; lia). destruct (log2_bit mask Hm) as [Hb Ha].
  assert (forall i, 0 <= i -> Z.testbit (mask .& u32 (0xFFFFFFFF << 12)) i
            = Z.testbit mask i && ((12 <=? i) && (i <? 32))) as Hloc.
  { intros i Hi. rewrite Z.land_spec. f_equal. apply (testbit_mask 20 12); lia. }
  destruct (first_set_desc (mask .& u32 (0xFFFFFFFF << 12)) 31 (Z.log2 mask)) as [H1 H2]; [lia| |].
  - rewrite Hloc by lia. rewrite Hb. lia.
  - change (Z.of_nat 31) with 31 in *. revert H1 H2. generalize (first_set (mask .& u32 (0xFFFFFFFF << 12)) (reverse (seqZ 1 31))).
    intros r H1 H2. rewrite Hloc in H2 by lia. destruct (decide (r = Z.log2 mask)); [done|].
    rewrite Ha in H2 by lia. done.
Qed.


(** ** Properties *)

(** Taking a trap into machine mode and returning with MRET resumes at the
    trapped PC (truncated to the implemented address bits) with the trapped
    privilege, and restores MIE; MPIE is set and MPP cleared. *)
Lemma trap_mret_roundtrip c t s :
  wf_cpu s -> delegated s c = false ->
  let s' := handle_mret (raise_exception2 c t s) in
  pc s' = MEPC_TRUNCATE (pc s) /\ priv s' = priv s
  /\ mstatus s' = (mstatus s .| MSTATUS_MPIE) .& ~~ MSTATUS_MPP.
Proof.
  intros Hs Hd s'. destruct (raise_m_status c t s Hd) as (H1 & H2 & _).
  destruct (mret_status (raise_exception2 c t s)) as (E1 & E2 & E3).
  destruct (trap_mret_word (mstatus s) (priv s) (wf_priv _ Hs)) as [W1 W2].
  unfold s'. rewrite E1, E2, E3, H1, H2. done.
Qed.

(** The same for a trap delegated to supervisor mode and SRET. *)
Lemma trap_sret_roundtrip c t s :
  wf_cpu s -> delegated s c = true ->
  let s' := handle_sret (raise_exception2 c t s) in
  pc s' = SEPC_TRUNCATE (pc s) /\ priv s' = priv s
  /\ mstatus s' = (mstatus s .| MSTATUS_SPIE) .& ~~ MSTATUS_SPP.
Proof.
  intros Hs Hd s'. destruct (raise_s_status c t s Hd) as (H1 & H2 & _).
  destruct (sret_status (raise_exception2 c t s)) as (E1 & E2 & E3).
  assert (in_u 1 (priv s)) as Hp.
  { pose proof (wf_priv _ Hs) as Hp. unfold delegated in Hd. destruct (Z.leb_spec (priv s) PRV_S); [|done].
    unfold in_u, PRV_S in *. lia. }
  destruct (trap_sret_word (mstatus s) (priv s) Hp) as [W1 W2].
  unfold s'. rewrite E1, E2, E3, H1, H2. done.
Qed.

(** C33: taking a trap and returning with the instruction of the mode it went to
    (MRET, or SRET for a delegated one) resumes at the trapped PC, truncated to
    the implemented address bits, with the trapped privilege, and restores the
    interrupt enable: the mode's xPIE is set and its xPP cleared. *)
Theorem trap_return_roundtrip c t s :
  wf_cpu s ->
  let m := handle_mret (raise_exception2 c t s) in
  let r := handle_sret (raise_exception2 c t s) in
  if delegated s c
  then pc r = SEPC_TRUNCATE (pc s) /\ priv r = priv s /\ mstatus r = (mstatus s .| MSTATUS_SPIE) .& ~~ MSTATUS_SPP
  else pc m = MEPC_TRUNCATE (pc s) /\ priv m = priv s /\ mstatus m = (mstatus s .| MSTATUS_MPIE) .& ~~ MSTATUS_MPP.
Proof.
  intros Hs m r. destruct (delegated s c) eqn:Hd; [by apply trap_sret_roundtrip|by apply trap_mret_roundtrip].
Qed.


(** C28: the pending interrupts the hart may take are those both pending and
    enabled in mip and mie, and either for a mode above the current one or for
    the current one with its global enable set. *)
Theorem pending_irq_spec s i :
  wf_cpu s -> 0 <= i < 32 -> priv s = PRV_U \/ priv s = PRV_S \/ priv s = PRV_M ->
  Z.testbit (get_pending_irq_mask s) i =
    Z.testbit (mip s) i && Z.testbit (mie s) i
    && (if Z.testbit (mideleg s) i
        then (priv s <? PRV_S) || ((priv s =? PRV_S) && Z.testbit (mstatus s) 1)
        else (priv s <? PRV_M) || Z.testbit (mstatus s) 3).
Proof.
  intros Hs Hi Hp. unfold get_pending_irq_mask. cbv zeta. rewrite <- Z.land_spec.
  destruct (Z.eqb_spec (mip s .& mie s) 0) as [->|Hn]; [by rewrite Z.testbit_0_l|].
  rewrite Z.land_spec. f_equal. unfold MSTATUS_MIE, MSTATUS_SIE.
  rewrite !Z.shiftl_mul_pow2, !Z.mul_1_l, !tst_land_pow2 by lia.
  assert (forall x, Z.testbit (u32 x) i = Z.testbit x i) as Hu.
  { intros x. rewrite testbit_uN by lia. by destruct (Z.ltb_spec i 32); [|lia]. }
  destruct Hp as [-> |[-> | ->]]; cbn [PRV_U PRV_S PRV_M Z.eqb Pos.eqb Z.ltb Z.compare Pos.compare
      Pos.compare_cont orb andb].
  - rewrite Hu, Z.bits_m1 by lia. by destruct (Z.testbit (mideleg s) i).
  - destruct (Z.testbit (mstatus s) 1); rewrite ?Z.lor_spec, Hu, Z.lnot_spec by lia;
      by destruct (Z.testbit (mideleg s) i).
  - destruct (Z.testbit (mstatus s) 3); rewrite ?Hu, ?Z.lnot_spec, ?Z.testbit_0_l by lia;
      by destruct (Z.testbit (mideleg s) i).
Qed.

(** The interrupt chosen is pending, and no pending one has a higher
    priority: platform interrupts first, the highest number first, then the
    standard ones in the architecture's order. *)
Theorem get_irq_num_priority mask :
  in_u 32 mask -> mask <> 0 ->
  Z.testbit mask (get_irq_num mask) = true
  /\ (if mask <? 2 ^ 12
      then exists l1 l2, priorities = l1 ++ get_irq_num mask :: l2
             /\ forall i, i ∈ l1 -> Z.testbit mask i = false
      else forall i, get_irq_num mask < i -> Z.testbit mask i = false).
Proof.
  intros Hm H0. unfold in_u in Hm. destruct (log2_bit mask ltac:(lia)) as [Hb Ha].
  unfold get_irq_num. change (1 << 12) with (2 ^ 12).
  destruct (Z.ltb_spec mask (2 ^ 12)), (Z.leb_spec (2 ^ 12) mask); try lia.
  - destruct (first_set_spec mask priorities) as (l1 & l2 & E & E1 & E2).
    + intros i Hi. unfold priorities in Hi. set_solver by lia.
    + exists (Z.log2 mask). split; [|done].
      assert (0 <= Z.log2 mask < 12) as Hl by (split; [apply Z.log2_nonneg|apply Z.log2_lt_pow2; lia]).
      unfold priorities. rewrite !elem_of_cons. lia.
    + split; [done|]. by exists l1, l2.
  - assert (get_irq_platspecific mask = Z.log2 mask) as ->; [|by split].
    assert (12 <= Z.log2 mask < 32) as Hl.
    { split; [apply Z.log2_le_pow2; lia|apply Z.log2_lt_pow2; lia]. }
    by apply get_irq_platspecific_log2.
Qed.

(** ** Witnesses *)

Definition cpu_at (p pcv : Z) : RISCVCPUState :=
  with_medeleg 0xb109 (with_priv p (with_pc pcv (riscv_cpu_init 0 0 false false))).

Lemma cpu_at_wf p pcv : in_u 2 p -> in_u 64 pcv -> wf_cpu (cpu_at p pcv).
Proof.
  intros Hp Hv. unfold cpu_at. apply wf_with_medeleg; [by vm_compute|]. apply wf_with_priv; [done|].
  apply wf_with_pc; [done|]. apply wf_riscv_cpu_init; by apply in_u_0.
Qed.

(** an illegal instruction in supervisor mode goes to machine mode, a delegated
    breakpoint in user mode to supervisor mode *)
Lemma trap_return_roundtrip_witness :
  let s := cpu_at PRV_S 0x80001000 in
  let u := cpu_at PRV_U 0x80001000 in
  pc (handle_mret (raise_exception2 CAUSE_ILLEGAL_INSTRUCTION 0 s)) = MEPC_TRUNCATE 0x80001000
  /\ priv (handle_sret (raise_exception2 CAUSE_BREAKPOINT 0 u)) = PRV_U.
Proof.
  cbv zeta. split.
  - refine (proj1 (trap_return_roundtrip CAUSE_ILLEGAL_INSTRUCTION 0 (cpu_at PRV_S 0x80001000) _)).
    apply cpu_at_wf; unfold in_u, PRV_S; lia.
  - refine (proj1 (proj2 (trap_return_roundtrip CAUSE_BREAKPOINT 0 (cpu_at PRV_U 0x80001000) _))).
    apply cpu_at_wf; unfold in_u, PRV_U; lia.
Defined.


Lemma pending_irq_spec_witness :
  let s := with_mip 0x80 (with_mie 0x80 (cpu_at PRV_U 0)) in
  Z.testbit (get_pending_irq_mask s) 7 = true.
Proof.
  cbv zeta. rewrite pending_irq_spec; [reflexivity| |lia|by left].
  apply wf_with_mip; [by vm_compute|]. apply wf_with_mie; [by vm_compute|].
  apply cpu_at_wf; unfold in_u, PRV_U; lia.
Defined.

Lemma get_irq_num_priority_witness : Z.testbit 0x888 (get_irq_num 0x888) = true /\ get_irq_num 0x888 = 11.
Proof. split; [apply (get_irq_num_priority 0x888); by vm_compute|reflexivity]. Defined.
