(* ===== verification/CsrProps.v ===== *)
(** * Properties of control and status registers *)

From S2P Require Import Prelude Riscv CpuState Mmu Csr Trap Invariant PmpProps.

(** ** Merging *)

Lemma merge_bit mask a b i : Z.testbit (merge mask a b) i = if Z.testbit mask i then Z.testbit b i else Z.testbit a i.
Proof.
  unfold merge. rewrite Z.lor_spec, Z.land_spec, Z.land_spec. destruct (Z.lt_ge_cases i 0).
  - by rewrite !Z.testbit_neg_r by lia.
  - rewrite Z.lnot_spec by lia. destruct (Z.testbit mask i); cbn [negb]; by rewrite ?andb_false_r, ?andb_true_r, ?orb_false_r.
Qed.

(** the writable bits of mstatus: [MSTATUS_MASK] without FS, UXL and SXL *)
Definition mstatus_writable : Z := MSTATUS_MASK .& ~~ (MSTATUS_FS .| MSTATUS_UXL_MASK .| MSTATUS_SXL_MASK).

Lemma set_mstatus_fields v s :
  mstatus (set_mstatus v s) = merge mstatus_writable (mstatus s) v
  /\ fs (set_mstatus v s) = (v >> MSTATUS_FS_SHIFT) .& 3.
Proof.
  unfold set_mstatus. cbv zeta. split; [|reflexivity].
  match goal with |- context [if ?c then tlb_flush_all s else s] => destruct c end; reflexivity.
Qed.

(** [set_mstatus] touches mstatus, FS and the TLBs only *)
Definition same_machine (s s' : RISCVCPUState) : Prop :=
  priv s' = priv s /\ medeleg s' = medeleg s /\ mideleg s' = mideleg s /\ mtvec s' = mtvec s
  /\ mepc s' = mepc s /\ mcause s' = mcause s /\ mtval s' = mtval s /\ mscratch s' = mscratch s
  /\ mcounteren s' = mcounteren s /\ mcountinhibit s' = mcountinhibit s /\ misa s' = misa s
  /\ mhartid s' = mhartid s /\ tdata1 s' = tdata1 s /\ tdata2 s' = tdata2 s /\ dcsr s' = dcsr s
  /\ debug_mode s' = debug_mode s /\ csr_pmpcfg s' = csr_pmpcfg s /\ csr_pmpaddr s' = csr_pmpaddr s
  /\ pmp_n s' = pmp_n s /\ pmp s' = pmp s /\ pmpcfg s' = pmpcfg s
  /\ mcycle s' = mcycle s /\ minstret s' = minstret s /\ mhpmevent s' = mhpmevent s.

Lemma set_mstatus_machine v s : same_machine s (set_mstatus v s) /\ mie (set_mstatus v s) = mie s
  /\ mip (set_mstatus v s) = mip s.
Proof.
  unfold set_mstatus, same_machine. cbv zeta.
  match goal with |- context [if ?c then tlb_flush_all s else s] => destruct c end; split_and!; reflexivity.
Qed.

(** ** Supervisor confinement *)

(** what a supervisor may change of the machine's registers: the bits of
    sstatus in mstatus, the delegated interrupts in mie and mip *)
Definition confined (s s' : RISCVCPUState) : Prop :=
  same_machine s s'
  /\ mstatus s' .& ~~ SSTATUS_MASK = mstatus s .& ~~ SSTATUS_MASK
  /\ mie s' .& ~~ mideleg s = mie s .& ~~ mideleg s
  /\ mip s' .& ~~ mideleg s = mip s .& ~~ mideleg s.

Lemma merge_outside w mask a b : 0 <= w -> in_u w a -> in_u w mask ->
  uN w (merge mask a b) .& ~~ mask = a .& ~~ mask.
Proof.
  intros Hw Ha Hm. apply Z.bits_inj'. intros i Hi. rewrite !Z.land_spec, testbit_uN, merge_bit, Z.lnot_spec by lia.
  destruct (Z.ltb_spec i w); cbn [andb]; [by destruct (Z.testbit mask i); rewrite ?andb_false_r|].
  by rewrite (testbit_high w a), (testbit_high w mask) by (done || lia).
Qed.

Lemma confined_refl s s' : same_machine s s' -> mstatus s' = mstatus s -> mie s' = mie s -> mip s' = mip s ->
  confined s s'.
Proof. intros Hm E1 E2 E3. unfold confined. by rewrite E1, E2, E3. Qed.

Lemma confined_sstatus v s : confined s (set_mstatus (merge SSTATUS_MASK (mstatus s) v) s).
Proof.
  destruct (set_mstatus_machine (merge SSTATUS_MASK (mstatus s) v) s) as (H1 & H2 & H3).
  unfold confined. rewrite H2, H3, (proj1 (set_mstatus_fields _ s)). split_and!; try done.
  apply Z.bits_inj'. intros i Hi. rewrite !Z.land_spec, !merge_bit, Z.lnot_spec by lia.
  by destruct (Z.testbit mstatus_writable i), (Z.testbit SSTATUS_MASK i); rewrite ?andb_false_r.
Qed.

Ltac confined_tac := apply confined_refl; [unfold same_machine; split_and!; reflexivity|reflexivity..].

(** C25: a CSR write that supervisor privilege permits (the number asks for at
    most supervisor mode) never changes a machine-level register: not the
    delegation, trap, counter, trigger or PMP registers nor the privilege, only
    the sstatus bits of mstatus and the delegated bits of mie and mip. *)
Theorem supervisor_confined csr v s :
  wf_cpu s -> 0 <= csr < 2 ^ 12 -> (csr >> 8) .& 3 <= 1 -> confined s (csr_update csr v s).2.
Proof.
  intros Hs Hc Hp.
  assert (forall lo hi, (lo <=? csr) && (csr <=? hi) = true -> lo >> 8 = hi >> 8 -> 1 < (lo >> 8) .& 3 -> False) as Hrange.
  { intros lo hi [H1 H2]%andb_true_iff Hlo H3. apply Z.leb_le in H1, H2.
    assert (csr >> 8 = lo >> 8) as E; [|rewrite E in Hp; lia].
    rewrite !shiftr_div in Hlo |- * by lia. pose proof (Z.div_le_mono lo csr (2 ^ 8) eq_refl H1).
    pose proof (Z.div_le_mono csr hi (2 ^ 8) eq_refl H2). lia. }
  unfold csr_update. cbv zeta.
  repeat match goal with
  | |- confined _ (snd (if csr =? ?k then _ else _)) =>
      destruct (Z.eqb_spec csr k) as [->|];
      [first [exfalso; revert Hp; clear; vm_compute; congruence
             |confined_tac | idtac]|]
  end.
  - apply confined_sstatus.
  - split_and!; [unfold same_machine; split_and!; reflexivity|reflexivity| |reflexivity].
    apply merge_outside; [lia|apply Hs..].
  - split_and!; [unfold same_machine; split_and!; reflexivity|reflexivity|reflexivity|].
    apply merge_outside; [lia|apply Hs..].
  - unfold csr_write_satp. cbv zeta. repeat case_match; confined_tac.
  - destruct ((803 <=? csr) && (csr <=? 831)) eqn:E1.
    { exfalso. exact (Hrange _ _ E1 eq_refl eq_refl). }
    destruct ((csr =? CSR_PMPCFG 0) || (csr =? CSR_PMPCFG 2)) eqn:E2.
    { apply orb_true_iff in E2 as [->%Z.eqb_eq| ->%Z.eqb_eq]; exfalso; revert Hp; clear; vm_compute; congruence. }
    destruct ((CSR_PMPADDR 0 <=? csr) && (csr <=? CSR_PMPADDR 15)) eqn:E3.
    { exfalso. exact (Hrange _ _ E3 eq_refl eq_refl). }
    destruct (Z.eqb_spec csr 0xb00) as [->|]; [exfalso; revert Hp; clear; vm_compute; congruence|].
    destruct (Z.eqb_spec csr 0xb02) as [->|]; [exfalso; revert Hp; clear; vm_compute; congruence|].
    case_match; confined_tac.
Qed.

Lemma supervisor_confined_witness :
  confined pmp_demo (csr_update 0x100 (2 ^ 64 - 1) pmp_demo).2
  /\ mstatus (csr_update 0x100 (2 ^ 64 - 1) pmp_demo).2 = 0xa000c1922.
Proof.
  split; [|by vm_compute].
  apply (supervisor_confined 0x100 (2 ^ 64 - 1) pmp_demo); [apply pmp_demo_wf|lia|by vm_compute].
Defined.

(** ** Legalisation *)

(** what a write leaves in a CSR is legal: writing it back changes nothing *)
Lemma merge_self mask a : merge mask a a = a.
Proof. apply Z.bits_inj'. intros i Hi. rewrite merge_bit. by destruct (Z.testbit mask i). Qed.

Ltac bits_case := apply Z.bits_inj'; intros ?i ?Hi;
  repeat first [ rewrite Z.land_spec | rewrite Z.lor_spec | rewrite merge_bit
               | rewrite testbit_uN by lia | rewrite Z.lnot_spec by lia ].

Lemma merge_read w mask a b : 0 <= w ->
  uN w (merge mask (uN w (merge mask a b)) (uN w (merge mask a b) .& mask)) .& mask
  = uN w (merge mask a b) .& mask.
Proof.
  intros Hw. bits_case. destruct (Z.ltb_spec i w), (Z.testbit mask i); cbn [andb]; by rewrite ?andb_true_r, ?andb_false_r.
Qed.

Lemma merge_again w mask a b : 0 <= w ->
  uN w (merge mask (uN w (merge mask a b)) (uN w (merge mask a b))) = uN w (merge mask a b).
Proof. intros Hw. bits_case. destruct (Z.ltb_spec i w), (Z.testbit mask i); done. Qed.

Lemma land_again a m : (a .& m) .& m = a .& m.
Proof. by rewrite <- Z.land_assoc, Z.land_diag. Qed.

Lemma canonical_again v : CANONICAL_S49 (CANONICAL_S49 v) = CANONICAL_S49 v.
Proof.
  unfold CANONICAL_S49. apply Z.bits_inj'. intros i Hi.
  rewrite !testbit_uN, !Z.shiftr_spec, !testbit_sN, !Z.shiftl_spec, testbit_uN, Z.shiftr_spec, testbit_sN, Z.shiftl_spec by lia.
  destruct (Z.ltb_spec i 64); [|done]. cbn [andb].
  destruct (Z.ltb_spec (Z.min (i + (63 - 48)) (64 - 1) - (63 - 48)) 64); [|lia]. cbn [andb]. f_equal. lia.
Qed.

Lemma canonical_masked v m : m = ~~ 1 \/ m = ~~ 3 ->
  CANONICAL_S49 (CANONICAL_S49 (v .& m) .& m) = CANONICAL_S49 (v .& m).
Proof.
  intros Hm. rewrite <- (canonical_again (v .& m)) at 2. f_equal.
  unfold CANONICAL_S49. apply Z.bits_inj'. intros i Hi.
  rewrite !Z.land_spec, !testbit_uN, !Z.shiftr_spec, !testbit_sN, !Z.shiftl_spec, !Z.land_spec by lia.
  destruct (Z.ltb_spec i 64); [|done]. cbn [andb].
  destruct (Z.lt_ge_cases i 48) as [Hi48|Hi48].
  - replace (Z.min (i + (63 - 48)) (64 - 1) - (63 - 48)) with i by lia. by destruct (Z.testbit v i), (Z.testbit m i).
  - assert (Z.testbit m i = true) as ->; [|by rewrite andb_true_r].
    destruct Hm as [-> | ->]; rewrite Z.lnot_spec by lia;
      [rewrite (testbit_high 1)|rewrite (testbit_high 2)]; (done || lia).
Qed.

Lemma tvec_again v m : tvec_align (tvec_align v .& m) .& m = tvec_align v .& m.
Proof.
  assert (forall x, tst (x .& 1) = Z.testbit x 0) as Ht by (intros; apply (tst_land_pow2 x 0); lia).
  unfold tvec_align. rewrite !Ht, Z.land_spec. destruct (Z.testbit v 0) eqn:E.
  - destruct (_ && _); [|apply land_again]. bits_case. destruct (Z.testbit (~~ 255 + 1) i); by rewrite ?andb_false_r, ?andb_true_r, ?andb_diag, <- ?andb_assoc, ?andb_diag.
  - rewrite E. apply land_again.
Qed.

(** what a second write of mstatus must agree with, to change nothing *)
Lemma get_mstatus_legal M x s : wf_cpu s ->
  (forall i, 0 <= i -> Z.testbit mstatus_writable i = true -> Z.testbit x i = Z.testbit (mstatus s) i) ->
  (forall i, 13 <= i < 15 -> Z.testbit x i = Z.testbit (mstatus s) i || Z.testbit (fs s) (i - 13)) ->
  get_mstatus (set_mstatus x s) M = get_mstatus s M.
Proof.
  intros Hs Hw Hf. unfold get_mstatus. destruct (set_mstatus_fields x s) as [-> ->].
  assert (merge mstatus_writable (mstatus s) x .| (((x >> MSTATUS_FS_SHIFT) .& 3) << MSTATUS_FS_SHIFT)
          = mstatus s .| (fs s << MSTATUS_FS_SHIFT)) as ->; [|done].
  change MSTATUS_FS_SHIFT with 13. assert (in_u 2 ((x >> 13) .& 3)) by (apply land_in_u_r; [lia|by vm_compute]).
  apply Z.bits_inj'. intros i Hi.
  rewrite !Z.lor_spec, !(testbit_shifted 2), merge_bit by (apply Hs || done || lia).
  assert ((if Z.testbit mstatus_writable i then Z.testbit x i else Z.testbit (mstatus s) i) = Z.testbit (mstatus s) i) as ->
    by (destruct (Z.testbit mstatus_writable i) eqn:E; auto).
  destruct (Z.leb_spec 13 i), (Z.ltb_spec i (13 + 2)); cbn [andb]; try done.
  change 3 with (Z.ones 2). rewrite Z.land_spec, Z.shiftr_spec, testbit_ones' by lia.
  replace (i - 13 + 13) with i by lia. destruct (Z.ltb_spec (i - 13) 2); [|lia]. rewrite andb_true_r, Hf by lia.
  by destruct (Z.testbit (mstatus s) i).
Qed.

(** a bit of the value read, below SD *)
Lemma get_mstatus_bit M s i : wf_cpu s -> 0 <= i < 63 -> Z.testbit M i = true ->
  Z.testbit (get_mstatus s M) i
  = Z.testbit (mstatus s) i || ((13 <=? i) && (i <? 15) && Z.testbit (fs s) (i - 13)).
Proof.
  intros Hs Hi HM. unfold get_mstatus. cbv zeta. change MSTATUS_FS_SHIFT with 13.
  match goal with |- Z.testbit (if ?c then ?a .| ?b else ?a) i = _ =>
    assert (Z.testbit (if c then a .| b else a) i = Z.testbit a i) as -> end.
  { case_match; [|done]. rewrite Z.lor_spec, testbit_bit by lia. destruct (Z.eqb_spec i 63); [lia|]. by rewrite orb_false_r. }
  by rewrite Z.land_spec, HM, Z.lor_spec, (testbit_shifted 2), andb_true_r by (apply Hs || lia).
Qed.

Lemma mstatus_writable_bits i : 0 <= i -> Z.testbit mstatus_writable i = true -> i < 63 /\ (i < 13 \/ 15 <= i).
Proof.
  intros Hi Hb. destruct (Z.lt_ge_cases i 63) as [Hlt|Hge];
    [|rewrite (testbit_high 63) in Hb; [done|lia|by vm_compute|done]].
  split; [done|]. destruct (decide (i = 13)) as [->|]; [done|]. destruct (decide (i = 14)) as [->|]; [done|lia].
Qed.

Lemma mstatus_again s : wf_cpu s ->
  get_mstatus (set_mstatus (get_mstatus s (u64 (-1))) s) (u64 (-1)) = get_mstatus s (u64 (-1)).
Proof.
  intros Hs. assert (forall i, 0 <= i < 63 -> Z.testbit (u64 (-1)) i = true) as Hm.
  { intros i Hi. rewrite testbit_uN, Z.bits_m1 by lia. destruct (Z.ltb_spec i 64); [done|lia]. }
  apply get_mstatus_legal; [done|intros i Hi Hb|intros i Hi].
  - apply mstatus_writable_bits in Hb as [H1 H2]; [|done]. rewrite get_mstatus_bit by (try apply Hm; (done || lia)).
    destruct (Z.leb_spec 13 i), (Z.ltb_spec i 15); cbn [andb]; rewrite ?orb_false_r; (done || lia).
  - rewrite get_mstatus_bit by (try apply Hm; (done || lia)).
    destruct (Z.leb_spec 13 i), (Z.ltb_spec i 15); cbn [andb]; (done || lia).
Qed.

Lemma sstatus_again s : wf_cpu s ->
  get_mstatus (set_mstatus (merge SSTATUS_MASK (mstatus s) (get_mstatus s SSTATUS_MASK)) s) SSTATUS_MASK
  = get_mstatus s SSTATUS_MASK.
Proof.
  intros Hs. apply get_mstatus_legal; [done|intros i Hi Hb|intros i Hi]; rewrite merge_bit.
  - apply mstatus_writable_bits in Hb as [H1 H2]; [|done]. destruct (Z.testbit SSTATUS_MASK i) eqn:E; [|done].
    rewrite get_mstatus_bit by (done || lia).
    destruct (Z.leb_spec 13 i), (Z.ltb_spec i 15); cbn [andb]; rewrite ?orb_false_r; (done || lia).
  - assert (Z.testbit SSTATUS_MASK i = true) as E by (assert (i = 13 \/ i = 14) as [-> | ->] by lia; done).
    rewrite E, get_mstatus_bit by (done || lia).
    destruct (Z.leb_spec 13 i), (Z.ltb_spec i 15); cbn [andb]; (done || lia).
Qed.

Lemma tdata1_again v s : tselect s = 0 -> length (tdata1 s) = 1%nat ->
  let s' := csr_write_tdata1 v s in
  rd (tdata1 (csr_write_tdata1 (rd (tdata1 s') 0) s')) 0 = rd (tdata1 s') 0.
Proof.
  intros Hz Hl s'. assert (tselect s' = 0 /\ debug_mode s' = debug_mode s /\ length (tdata1 s') = 1%nat) as (Hz' & Hd & Hl').
  { unfold s', csr_write_tdata1. cbv zeta. destruct (_ || _); [|done]. split_and!; [done|done|by apply (eq_trans (length_wr _ _ _))]. }
  unfold csr_write_tdata1 at 1. cbv zeta. rewrite Hz', Hd.
  destruct (negb (tst (rd (tdata1 s') 0 .& MCONTROL_DMODE)) || debug_mode s) eqn:E; [|done].
  change (tdata1 (with_tdata1 ?x s')) with x. rewrite rd_wr_eq by lia.
  assert (exists t mask, rd (tdata1 s') 0 = merge mask t (v .| 0x2080000000000000)
    /\ mask = if debug_mode s then 0x20800000000011df + 0x800000000000000 else 0x20800000000011df) as (t & mask & Et & Em).
  { unfold s', csr_write_tdata1 in E |- *. cbv zeta in E |- *. rewrite Hz in *.
    destruct (negb (tst (rd (tdata1 s) 0 .& MCONTROL_DMODE)) || debug_mode s) eqn:E'; [|congruence].
    change (tdata1 (with_tdata1 ?x s)) with x. rewrite rd_wr_eq by lia. eauto. }
  rewrite <- Em, Et. apply Z.bits_inj'. intros i Hi. rewrite merge_bit, Z.lor_spec, !merge_bit, Z.lor_spec.
  destruct (Z.testbit mask i); [|done]. by destruct (Z.testbit v i), (Z.testbit 0x2080000000000000 i).
Qed.

Lemma tdata2_again v s : tselect s = 0 -> length (tdata2 s) = 1%nat ->
  let s' := csr_write_tdata2 v s in
  rd (tdata2 (csr_write_tdata2 (rd (tdata2 s') 0) s')) 0 = rd (tdata2 s') 0.
Proof.
  intros Hz Hl s'. unfold csr_write_tdata2 at 1. destruct (_ || _); [|done].
  assert (tselect s' = 0 /\ length (tdata2 s') = 1%nat) as [Hz' Hl'].
  { unfold s', csr_write_tdata2. destruct (_ || _); [|done]. split; [done|by apply (eq_trans (length_wr _ _ _))]. }
  change (tdata2 (with_tdata2 ?x s')) with x. rewrite Hz', rd_wr_eq by lia. done.
Qed.

(** a 64-bit word is its eight bytes *)
Lemma word_of_bytes a b : in_u 64 a -> in_u 64 b ->
  (forall n, 0 <= n < 8 -> u8 (a >> (n * 8)) = u8 (b >> (n * 8))) -> a = b.
Proof.
  intros Ha Hb H. apply Z.bits_inj'. intros i Hi. destruct (Z.lt_ge_cases i 64);
    [|by rewrite (testbit_high 64 a), (testbit_high 64 b) by (done || lia)].
  specialize (H (i / 8) ltac:(split; [apply Z.div_pos; lia|apply Z.div_lt_upper_bound; lia])).
  apply (f_equal (fun x => Z.testbit x (i mod 8))) in H. pose proof (Z.mod_pos_bound i 8 ltac:(lia)).
  pose proof (Z_div_mod_eq_full i 8). rewrite !testbit_uN, !Z.shiftr_spec in H by lia.
  destruct (Z.ltb_spec (i mod 8) 8); [|lia]. cbn [andb] in H.
  by replace (i mod 8 + i / 8 * 8) with i in H by lia.
Qed.

Lemma pmpcfg_again v s : wf_cpu s -> in_u 64 v ->
  let s' := csr_write_pmpcfg 0 v s in
  rd (csr_pmpcfg (csr_write_pmpcfg 0 (rd (csr_pmpcfg s') 0) s')) 0 = rd (csr_pmpcfg s') 0.
Proof.
  intros Hs Hv s'. assert (wf_cpu s') as Hs' by (by apply wf_csr_write_pmpcfg).
  assert (forall x, wf_cpu x -> in_u 64 (rd (csr_pmpcfg x) 0)) as Hw by (intros x Hx; apply rd_in_u; [lia|apply Hx]).
  apply word_of_bytes; [by apply Hw, wf_csr_write_pmpcfg; [apply Hw|]|by apply Hw|]. intros n Hn.
  assert (forall x, u8 (rd (csr_pmpcfg x) 0 >> (n * 8)) = pmp_cfg_byte x n) as Hb
    by (intros x; unfold pmp_cfg_byte; destruct (Z.ltb_spec n 8); [done|lia]).
  rewrite Hb, pmpcfg_write_byte, Hb by done.
  destruct (Z.testbit (pmp_cfg_byte s' n) 7); unfold s'; rewrite pmpcfg_write_byte by done; apply land_again.
Qed.

Lemma pmpaddr_again n v s : wf_cpu s -> 0 <= n < 16 ->
  let s' := csr_write_pmpaddr n v s in
  rd (csr_pmpaddr (csr_write_pmpaddr n (rd (csr_pmpaddr s') n) s')) n = rd (csr_pmpaddr s') n.
Proof.
  intros Hs Hn s'. destruct (wf_csr_pmpaddr _ Hs) as [Hl _].
  set (blocked := fun s : RISCVCPUState =>
    (PMP_N <=? n) || tst ((rd (csr_pmpcfg s) (Z.quot n 8) >> (n * 8)) .& PMPCFG_L)
    || ((((rd (csr_pmpcfg s) (Z.quot n 8) >> (n * 8)) >> 8) .& PMPCFG_A_MASK =? PMPCFG_A_TOR)
        && tst (((rd (csr_pmpcfg s) (Z.quot n 8) >> (n * 8)) >> 8) .& PMPCFG_L))).
  assert (forall x t, csr_pmpcfg (csr_write_pmpaddr n x t) = csr_pmpcfg t
    /\ csr_pmpaddr (csr_write_pmpaddr n x t) =
         if blocked t then csr_pmpaddr t else wr (csr_pmpaddr t) n (x .& PMPADDR_MASK)) as Hspec.
  { intros x t. unfold csr_write_pmpaddr, blocked. cbv zeta. destruct (_ <=? n); [done|]. cbn [orb].
    destruct (tst (_ .& _)); [done|]. cbn [orb]. destruct (_ && _); [done|].
    match goal with |- context [unpack_pmpaddrs ?y] => by destruct (unpack_frame y) as (_ & _ & _ & [-> ->]) end. }
  destruct (Hspec (rd (csr_pmpaddr s') n) s') as [_ ->].
  assert (blocked s' = blocked s) as -> by (unfold blocked, s'; by rewrite (proj1 (Hspec v s))).
  destruct (blocked s) eqn:E; [done|].
  assert (csr_pmpaddr s' = wr (csr_pmpaddr s) n (v .& PMPADDR_MASK)) as -> by (unfold s'; by rewrite (proj2 (Hspec v s)), E).
  rewrite !rd_wr_eq by (rewrite ?length_wr; lia). apply land_again.
Qed.

Lemma satp_again v s : (satp s .& SATP_MASK) = satp s -> in_u 64 v -> wf_cpu s ->
  let s' := (csr_write_satp v s).2 in satp (csr_write_satp (satp s') s').2 = satp s'.
Proof.
  intros Ha Hv Hs s'. assert (satp s' .& SATP_MASK = satp s') as Hm.
  { unfold s', csr_write_satp. cbv zeta. destruct (_ && _); [done|]. cbn [snd].
    match goal with |- context [if ?c then with_satp ?x s else s] => destruct c end; [apply land_again|done]. }
  unfold csr_write_satp at 1. cbv zeta. destruct (_ && _); [done|]. cbn [snd].
  match goal with |- context [if ?c then with_satp ?x s' else s'] => destruct c end; done.
Qed.


Lemma frm_again v : u8 (u8 (v .& 7) .& 7) = u8 (v .& 7).
Proof.
  assert (in_u 3 (v .& 7)) by (apply land_in_u_r; [lia|by vm_compute]).
  rewrite (uN_small 8 (v .& 7)) by (apply (in_u_weaken 3); [lia|done]).
  rewrite land_again. apply uN_small, (in_u_weaken 3); [lia|done].
Qed.

Lemma fcsr_again v :
  let r := (v .& 0x1f) .| (u8 ((v >> 5) .& 7) << 5) in (r .& 0x1f) .| (u8 ((r >> 5) .& 7) << 5) = r.
Proof.
  assert (in_u 5 (v .& 0x1f)) as Ha by (apply land_in_u_r; [lia|by vm_compute]).
  assert (in_u 3 ((v >> 5) .& 7)) as Hb by (apply land_in_u_r; [lia|by vm_compute]).
  rewrite (uN_small 8 ((v >> 5) .& 7)) by (apply (in_u_weaken 3); [lia|done]).
  revert Ha Hb. generalize (v .& 0x1f) ((v >> 5) .& 7). intros a b Ha Hb r.
  assert (r .& 0x1f = a) as ->.
  { unfold r. apply Z.bits_inj'. intros i Hi. change 0x1f with (Z.ones 5).
    rewrite Z.land_spec, Z.lor_spec, (testbit_shifted 3), testbit_ones' by (done || lia).
    destruct (Z.ltb_spec i 5), (Z.leb_spec 5 i); try lia; cbn [andb]; rewrite ?orb_false_r, ?andb_true_r, ?andb_false_r; [done|].
    symmetry. by apply (testbit_high 5). }
  assert (r >> 5 = b) as ->.
  { unfold r. rewrite Z.shiftr_lor, Z.shiftr_shiftl_l, Z.sub_diag, Z.shiftl_0_r by lia.
    rewrite (shiftr_div 5 a), Z.div_small by (done || lia). apply Z.lor_0_l. }
  change 7 with (Z.ones 3). rewrite land_ones_uN, (uN_small 3), uN_small by (done || lia || (apply (in_u_weaken 3); [lia|done])).
  done.
Qed.

Lemma inhibit_again v : u32 (u32 (v .& ~~ 2) .& ~~ 2) = u32 (v .& ~~ 2).
Proof. bits_case. destruct (Z.ltb_spec i 32); [|done]. cbn [andb]. by rewrite <- andb_assoc, andb_diag. Qed.

Lemma tdata1_tselect v s : tselect (csr_write_tdata1 v s) = tselect s.
Proof. unfold csr_write_tdata1. cbv zeta. by case_match. Qed.
Lemma tdata2_tselect v s : tselect (csr_write_tdata2 v s) = tselect s.
Proof. unfold csr_write_tdata2. by case_match. Qed.

Lemma epc_mask_cases s : epc_mask s = ~~ 1 \/ epc_mask s = ~~ 3.
Proof. unfold epc_mask. case_match; auto. Qed.

Ltac csr_cbn := cbn [csr_update csr_value fst snd Z.eqb Pos.eqb Z.leb Z.compare Pos.compare Pos.compare_cont
  andb orb CSR_PMPCFG CSR_PMPADDR].

(** the registers numbered by position *)
Ltac csr_skip c :=
  unfold csr_value, csr_update, CSR_PMPCFG, CSR_PMPADDR in *; cbv zeta;
  repeat match goal with
  | |- context [c =? ?k] => rewrite (proj2 (Z.eqb_neq c k)) by lia
  | |- context [?k <=? c] => first [rewrite (proj2 (Z.leb_le k c)) by lia | rewrite (proj2 (Z.leb_gt k c)) by lia]
  | |- context [c <=? ?k] => first [rewrite (proj2 (Z.leb_le c k)) by lia | rewrite (proj2 (Z.leb_gt c k)) by lia]
  end; cbn [andb orb snd].

Lemma csr_hpm c v s : 0x323 <= c <= 0x33f ->
  csr_value s c = Some (rd (mhpmevent s) (c .& 0x1F))
  /\ (csr_update c v s).2 = with_mhpmevent (wr (mhpmevent s) (c .& 0x1F) (v .& (HPM_EVENT_SETMASK .| HPM_EVENT_EVENTMASK))) s.
Proof. intros Hc. split; csr_skip c; reflexivity. Qed.

Lemma csr_pmpaddr_n c v s : CSR_PMPADDR 0 <= c <= CSR_PMPADDR 15 ->
  csr_value s c = Some (rd (csr_pmpaddr s) (c - CSR_PMPADDR 0))
  /\ (csr_update c v s).2 = csr_write_pmpaddr (c - CSR_PMPADDR 0) v s.
Proof. intros Hc. split; csr_skip c; reflexivity. Qed.

(** the registers numbered by position, and the counters *)
Definition csr_high (c : Z) : Prop :=
  0x323 <= c <= 0x33f \/ c = CSR_PMPCFG 0 \/ c = CSR_PMPCFG 2 \/ CSR_PMPADDR 0 <= c <= CSR_PMPADDR 15
  \/ c = 0xb00 \/ c = 0xb02 \/ 0xb03 <= c <= 0xb1f.

Lemma csr_high_dec c : {csr_high c} + {~ csr_high c}.
Proof. unfold csr_high. apply decide. apply _. Qed.

Lemma csr_high_again c v s r : wf_cpu s -> in_u 64 v -> csr_high c ->
  let s' := (csr_update c v s).2 in
  csr_value s' c = Some r -> csr_value (csr_update c r s').2 c = Some r.
Proof.
  intros Hs Hv Hc s'. destruct Hc as [Hc|[->|[->|[Hc|[->|[->|Hc]]]]]].
  - unfold s'. rewrite !(proj2 (csr_hpm c _ _ Hc)), !(proj1 (csr_hpm c 0 _ Hc)). intros [= <-].
    apply (f_equal Some). destruct (wf_mhpmevent _ Hs) as [Hl _].
    assert (0 <= c .& 0x1F < 32) as Hi by (assert (in_u 5 (c .& 0x1F)) as H5 by (apply land_in_u_r; [lia|by vm_compute]); exact H5).
    assert (forall x t, mhpmevent (with_mhpmevent x t) = x) as Hk by reflexivity.
    rewrite !Hk, !rd_wr_eq by (rewrite ?length_wr, Hl; lia).
    apply land_again.
  - assert (forall x t, csr_value t (CSR_PMPCFG 0) = Some (rd (csr_pmpcfg t) 0)
      /\ (csr_update (CSR_PMPCFG 0) x t).2 = csr_write_pmpcfg 0 x t) as Hk by (split; reflexivity).
    unfold s'. rewrite !(proj2 (Hk _ _)), !(proj1 (Hk 0 _)). intros <-%Some_inj.
    apply (f_equal Some), (pmpcfg_again v s Hs Hv).
  - assert (forall x t, (csr_update (CSR_PMPCFG 2) x t).2 = t) as Ht by reflexivity.
    unfold s'. by rewrite !Ht.
  - unfold s'. rewrite !(proj2 (csr_pmpaddr_n c _ _ Hc)), !(proj1 (csr_pmpaddr_n c 0 _ Hc)). intros [= <-].
    apply (f_equal Some). apply pmpaddr_again; [done|]. unfold CSR_PMPADDR in *. lia.
  - assert (forall x t, csr_value t 0xb00 = (if counter_access_ok t 0xb00 then Some (mcycle t) else None)
      /\ (csr_update 0xb00 x t).2 = with_mcycle x t) as Hk by (split; reflexivity).
    unfold s'. rewrite !(proj2 (Hk _ _)), !(proj1 (Hk 0 _)).
    assert (forall x t, counter_access_ok (with_mcycle x t) 0xb00 = counter_access_ok t 0xb00) as Hc by reflexivity.
    rewrite !Hc. destruct (counter_access_ok s 0xb00); [|done]. intros <-%Some_inj. reflexivity.
  - assert (forall x t, csr_value t 0xb02 = (if counter_access_ok t 0xb02 then Some (minstret t) else None)
      /\ (csr_update 0xb02 x t).2 = with_minstret x t) as Hk by (split; reflexivity).
    unfold s'. rewrite !(proj2 (Hk _ _)), !(proj1 (Hk 0 _)).
    assert (forall x t, counter_access_ok (with_minstret x t) 0xb02 = counter_access_ok t 0xb02) as Hc by reflexivity.
    rewrite !Hc. destruct (counter_access_ok s 0xb02); [|done]. intros <-%Some_inj. reflexivity.
  - assert (forall x t, (csr_update c x t).2 = t) as Ht by (intros x t; csr_skip c; done).
    unfold s'. by rewrite !Ht.
Qed.

Ltac legal L := intros [= <-]; exact (f_equal Some L).



(** ** The debug control register *)

(** Writing dcsr in debug mode stops the counters exactly when bit 0 of
    the value (the low bit of the privilege to return to) is set, whatever its
    stopcount and stoptime bits are: the condition [dcsr & 0x600 != 0] of the
    source parses as [dcsr & (0x600 != 0)]. *)
Theorem dcsr_stop_counter v s :
  debug_mode s = true ->
  let s' := (csr_update 0x7b0 v s).2 in
  stop_the_counter s' = Z.testbit v 0
  /\ (dcsr s' .& 0x603 = v .& 0x603).
Proof.
  intros Hd s'. assert (s' = csr_write_dcsr v s) as -> by (unfold s'; csr_cbn; by rewrite Hd).
  unfold csr_write_dcsr. cbv zeta. change (dcsr (with_dcsr ?x s)) with x.
  split.
  - change (b2z (negb (0x600 =? 0))) with (2 ^ 0). change (stop_the_counter (with_stop_the_counter ?b ?t)) with b.
    rewrite tst_land_pow2, merge_bit by lia. done.
  - apply Z.bits_inj'. intros i Hi.
    change (dcsr (with_stop_the_counter ?b (with_dcsr ?x s))) with x. rewrite !Z.land_spec, merge_bit.
    destruct (Z.testbit 0x603 i); by rewrite ?andb_true_r, ?andb_false_r.
Qed.

(** stopcount and stoptime set, and the counters run *)
Lemma dcsr_stop_counter_witness :
  let s' := (csr_update 0x7b0 0x600 (with_debug_mode true pmp_demo)).2 in
  stop_the_counter s' = false /\ dcsr s' .& 0x600 = 0x600.
Proof. split; [apply (dcsr_stop_counter 0x600 (with_debug_mode true pmp_demo)); reflexivity|by vm_compute]. Defined.
