(* ===== verification/MmuProps.v ===== *)
(** * Address translation, TLBs and memory accesses: what they promise

    [translates] is the architecture's page walk as a relation, written with
    division and remainder; [get_phys_addr_refines] proves that
    [riscv_cpu_get_phys_addr] computes it, faults included. *)

From S2P Require Import Prelude Riscv CpuState IoMem Mmu Csr Trap Invariant.

(** ** The architecture's walk *)

(** the outcome of a translation, and the C code's encoding of it *)
Inductive translation := Mapped (pa : Z) | PageFault | AccessFault.
Definition encode (t : translation) : Z * Z :=
  match t with Mapped pa => (0, pa) | PageFault => (-1, 0) | AccessFault => (-2, 0) end.

(** what the tables hold for an address: a leaf [j] levels above the last, no
    valid entry, or an entry that cannot be read *)
Inductive walk_end := WLeaf (j pte : Z) | WFault | WAccess.

Definition page_bits (j : Z) : Z := 12 + 9 * j.
Definition vpn (va j : Z) : Z := va / 2 ^ page_bits j mod 512.
Definition slot (table va j : Z) : Z := (table + 8 * vpn va j) mod 2 ^ 64.
Definition page_base (pte : Z) : Z := pte / 2 ^ 10 * 2 ^ 12 mod 2 ^ 64.
Definition is_leaf (pte : Z) : bool := Z.testbit pte 1 || Z.testbit pte 2 || Z.testbit pte 3.

(** the checks on a leaf: R (1), W (2), X (3), U (4), A (6), D (7); the
    alignment test is the code's, weaker than the architecture's *)
Definition leaf_ok (s : RISCVCPUState) (prv : Z) (access : riscv_memory_access_t) (j pte : Z) : bool :=
  let R := Z.testbit pte 1 in let W := Z.testbit pte 2 in let X := Z.testbit pte 3 in
  implb W R
  && (if prv =? PRV_S then implb (Z.testbit pte 4) (Z.testbit (mstatus s) 18) else Z.testbit pte 4)
  && match access with
     | ACCESS_READ => R || Z.testbit (mstatus s) 19 && X
     | ACCESS_WRITE => W
     | ACCESS_CODE => X
     end
  && (pte / 2 ^ 10 mod 2 ^ j =? 0)
  && Z.testbit pte 6
  && implb (bool_decide (access = ACCESS_WRITE)) (Z.testbit pte 7).

(** the address in the page of a leaf *)
Definition leaf_address (va j pte : Z) : Z :=
  page_base pte / 2 ^ page_bits j * 2 ^ page_bits j + va mod 2 ^ page_bits j.

Section World.
Context {D : Type}.
Implicit Types w : World D.

(** a page-table entry, as the hart reads it *)
Definition pte_at w (a : Z) : option Z :=
  match riscv_phys_read 64 a w with (pte, false) => Some pte | (_, true) => None end.

(** the walk of [va] from a table, with [n] levels left *)
Inductive walks w (va : Z) : nat -> Z -> walk_end -> Prop :=
| walks_access n table :
    pte_at w (slot table va (Z.of_nat n)) = None -> walks w va (S n) table WAccess
| walks_invalid n table pte :
    pte_at w (slot table va (Z.of_nat n)) = Some pte -> Z.testbit pte 0 = false ->
    walks w va (S n) table WFault
| walks_leaf n table pte :
    pte_at w (slot table va (Z.of_nat n)) = Some pte -> Z.testbit pte 0 = true -> is_leaf pte = true ->
    walks w va (S n) table (WLeaf (Z.of_nat n) pte)
| walks_pointer n table pte r :
    pte_at w (slot table va (Z.of_nat n)) = Some pte -> Z.testbit pte 0 = true -> is_leaf pte = false ->
    walks w va n (page_base pte) r -> walks w va (S n) table r
| walks_exhausted table : walks w va 0 table WFault.

Definition data_priv w (access : riscv_memory_access_t) : Z :=
  effective_priv (cpu w) (bool_decide (access = ACCESS_CODE)).
Definition paged w access : Prop := data_priv w access <> PRV_M /\ satp (cpu w) / 2 ^ 60 <> 0.

(** Sv39 has three levels (mode 8), Sv48 four (mode 9) *)
Definition satp_levels w : Z := satp (cpu w) / 2 ^ 60 - 5.
Definition canonical w (va : Z) : Prop := sN (page_bits (satp_levels w)) va = sN 64 va.
Definition walks_satp w (va : Z) (r : walk_end) : Prop :=
  walks w va (Z.to_nat (satp_levels w)) (satp (cpu w) mod 2 ^ 44 * 2 ^ 12) r.

#[export] Instance paged_dec w access : Decision (paged w access).
Proof. unfold paged. apply _. Defined.
#[export] Instance canonical_dec w va : Decision (canonical w va).
Proof. unfold canonical. apply _. Defined.

Inductive translates w (va : Z) access : translation -> Prop :=
| tr_bare : ~ paged w access -> translates w va access (Mapped va)
| tr_noncanonical : paged w access -> ~ canonical w va -> translates w va access PageFault
| tr_access : paged w access -> canonical w va -> walks_satp w va WAccess ->
    translates w va access AccessFault
| tr_fault : paged w access -> canonical w va -> walks_satp w va WFault ->
    translates w va access PageFault
| tr_denied j pte : paged w access -> canonical w va -> walks_satp w va (WLeaf j pte) ->
    leaf_ok (cpu w) (data_priv w access) access j pte = false -> translates w va access PageFault
| tr_mapped j pte : paged w access -> canonical w va -> walks_satp w va (WLeaf j pte) ->
    leaf_ok (cpu w) (data_priv w access) access j pte = true ->
    translates w va access (Mapped (leaf_address va j pte)).

Lemma walks_det w va n table r1 r2 : walks w va n table r1 -> walks w va n table r2 -> r1 = r2.
Proof.
  intros H1. revert r2. induction H1; inversion 1; simplify_eq; try congruence; eauto.
Qed.

(** ** The bits of an entry *)

Lemma xwr_bits pte : (pte >> 1) .& 7 =
  b2z (Z.testbit pte 1) + 2 * b2z (Z.testbit pte 2) + 4 * b2z (Z.testbit pte 3).
Proof.
  assert (forall x, 0 <= x < 8 -> x = b2z (Z.testbit x 0) + 2 * b2z (Z.testbit x 1) + 4 * b2z (Z.testbit x 2)) as H8.
  { intros x Hx. assert (x = 0 \/ x = 1 \/ x = 2 \/ x = 3 \/ x = 4 \/ x = 5 \/ x = 6 \/ x = 7) as Hc by lia.
    by destruct_or! Hc; subst. }
  change 7 with (Z.ones 3). rewrite land_ones_uN by done.
  rewrite (H8 (uN 3 (pte >> 1))) at 1 by (apply uN_range; done).
  by rewrite !testbit_uN, !Z.shiftr_spec by done.
Qed.

Lemma tst_mask x k m : 0 <= k -> m = 2 ^ k -> tst (x .& m) = Z.testbit x k.
Proof. intros Hk ->. by apply tst_land_pow2. Qed.

Lemma leaf_pte_spec w va access prv levels i pte :
  let j := levels - 1 - i in 0 <= j < 4 -> is_leaf pte = true ->
  leaf_pte w va access prv levels i pte (page_bits j)
  = if leaf_ok (cpu w) prv access j pte then (0, leaf_address va j pte) else (-1, 0).
Proof.
  intros j Hj Hl. unfold leaf_pte, leaf_ok. cbv zeta. rewrite xwr_bits.
  rewrite !(tst_mask pte 4), !(tst_mask _ 18), !(tst_mask _ 19), !(tst_mask pte 6), !(tst_mask pte 7) by done.
  fold j. replace (((1 << j) - 1) .& u32 (pte >> 10)) with (pte / 2 ^ 10 mod 2 ^ j).
  2: { rewrite Z.land_comm, Z.shiftl_mul_pow2, Z.mul_1_l, land_pow2m1, <- shiftr_div by lia.
       apply Z.bits_inj'. intros k Hk. change (?a mod 2 ^ j) with (uN j a).
       rewrite !testbit_uN by lia. destruct (Z.ltb_spec k j); [|done].
       destruct (Z.ltb_spec k 32); [done|lia]. }
  assert (0 <= page_bits j) by (unfold page_bits; lia).
  replace ((u64 ((pte >> 10) << PG_SHIFT) .& ~~ ((1 << page_bits j) - 1)) .| (va .& ((1 << page_bits j) - 1)))
    with (leaf_address va j pte).
  2: { rewrite land_lnot_pow2 by done. unfold leaf_address, page_base.
       rewrite shiftl_mul, shiftr_div by done.
       rewrite (Z.shiftl_mul_pow2 1), Z.mul_1_l, land_pow2m1 by done.
       change (va mod 2 ^ page_bits j) with (uN (page_bits j) va).
       change ((pte / 2 ^ 10 * 2 ^ 12) mod 2 ^ 64) with (u64 (pte / 2 ^ 10 * 2 ^ 12)).
       rewrite <- (lor_disjoint_add _ (uN _ va) (page_bits j)) by (done || by apply uN_range).
       rewrite shiftl_mul by done. done. }
  unfold is_leaf in Hl. unfold tst.
  destruct (Z.testbit pte 1) eqn:?, (Z.testbit pte 2) eqn:?, (Z.testbit pte 3) eqn:?; try done;
    destruct (Z.testbit pte 4), (Z.testbit (mstatus (cpu w)) 18), (prv =? PRV_S); try done;
    destruct (Z.testbit (mstatus (cpu w)) 19), access; try done;
    destruct (pte / 2 ^ 10 mod 2 ^ j =? 0); try done; destruct (Z.testbit pte 6), (Z.testbit pte 7); done.
Qed.

(** ** The walk *)

(** the result the code gives for the end of a walk *)
Definition finish w va access prv (r : walk_end) : Z * Z :=
  match r with
  | WLeaf j pte => if leaf_ok (cpu w) prv access j pte then (0, leaf_address va j pte) else (-1, 0)
  | WFault => (-1, 0)
  | WAccess => (-2, 0)
  end.

Lemma slot_spec va table j : 0 <= j ->
  u64 (table + (((va >> page_bits j) .& ((1 << 9) - 1)) << 3)) = slot table va j.
Proof.
  intros Hj. assert (0 <= page_bits j) by (unfold page_bits; lia).
  unfold slot, vpn. change ((1 << 9) - 1) with (Z.ones 9).
  rewrite land_ones_uN, shiftr_div, shiftl_mul by done. unfold uN.
  change (2 ^ 9) with 512. change (2 ^ 3) with 8. f_equal. lia.
Qed.

Lemma walk_spec w va access prv levels n i table :
  levels - i = Z.of_nat n -> (n <= 4)%nat ->
  exists r, walks w va n table r
    /\ walk w va access prv levels i table n = finish w va access prv r.
Proof.
  revert i table. induction n as [|n IH]; intros i table Hn H4.
  { exists WFault. split; [constructor|done]. }
  cbn [walk]. cbv zeta. change (12 - 3) with 9. change (PG_SHIFT + 9 * (levels - 1 - i)) with (page_bits (levels - 1 - i)).
  replace (levels - 1 - i) with (Z.of_nat n) by lia. rewrite slot_spec by lia.
  destruct (riscv_phys_read 64 (slot table va (Z.of_nat n)) w) as [pte fail] eqn:Hp.
  assert (pte_at w (slot table va (Z.of_nat n)) = if fail then None else Some pte) as Hpte.
  { unfold pte_at. rewrite Hp. by destruct fail. }
  destruct fail; [exists WAccess; split; [by constructor|done]|].
  rewrite (tst_mask pte 0) by done. destruct (Z.testbit pte 0) eqn:Hv; cbn [negb].
  2: { exists WFault. split; [by eapply walks_invalid|done]. }
  assert (negb ((pte >> 1) .& 7 =? 0) = is_leaf pte) as ->.
  { rewrite xwr_bits. unfold is_leaf. by destruct (Z.testbit pte 1), (Z.testbit pte 2), (Z.testbit pte 3). }
  destruct (is_leaf pte) eqn:Hl.
  - exists (WLeaf (Z.of_nat n) pte). split; [by constructor|].
    replace (Z.of_nat n) with (levels - 1 - i) by lia. apply leaf_pte_spec; [lia|done].
  - destruct (IH (i + 1) (page_base pte)) as (r & Hr & Hw); [lia|lia|].
    exists r. split; [by eapply walks_pointer|]. rewrite <- Hw. f_equal. unfold page_base.
    by rewrite shiftl_mul, shiftr_div.
Qed.

(** the sign test of the code is the architecture's canonical-address rule *)
Lemma canonical_spec n va : 1 <= n <= 64 ->
  ((s64 (s64 va << (64 - n)) >> (64 - n)) =? s64 va) = bool_decide (sN n va = sN 64 va).
Proof.
  intros Hn. assert (s64 (s64 va << (64 - n)) >> (64 - n) = sN n va) as ->.
  { apply Z.bits_inj'. intros i Hi. autorewrite with zbits. f_equal. lia. }
  rewrite bool_decide_decide. by destruct (Z.eqb_spec (sN n va) (s64 va)), (decide (sN n va = sN 64 va)).
Qed.

Lemma satp_mode_spec w : wf_cpu (cpu w) ->
  (satp (cpu w) >> 60) .& 0xf = satp (cpu w) / 2 ^ 60
  /\ (satp (cpu w) / 2 ^ 60 = 0 \/ 3 <= satp_levels w <= 4).
Proof.
  intros Hw. destruct (wf_satp_mode _ Hw) as [H|H]; rewrite shiftr_div in H by done.
  - split; [rewrite shiftr_div, H by done; by vm_compute|by left].
  - unfold satp_levels. rewrite shiftr_div by done. destruct H as [-> | ->]; (split; [by vm_compute|right; lia]).
Qed.

(** the code's result in the four situations *)
Lemma get_phys_addr_eq w va access r :
  wf_cpu (cpu w) -> in_u 64 va -> paged w access -> walks_satp w va r ->
  riscv_cpu_get_phys_addr w va access
  = if bool_decide (canonical w va) then finish w va access (data_priv w access) r else (-1, 0).
Proof.
  intros Hw Hva [Hp Hm] Hr. destruct (satp_mode_spec w Hw) as [Hmode [?|Hl]]; [done|].
  unfold riscv_cpu_get_phys_addr. cbv zeta. fold (data_priv w access). rewrite Hmode.
  destruct (Z.eqb_spec (data_priv w access) PRV_M); [done|].
  destruct (Z.eqb_spec (satp (cpu w) / 2 ^ 60) 0); [done|].
  replace (satp (cpu w) / 2 ^ 60 - 8 + 3) with (satp_levels w) by (unfold satp_levels; lia).
  replace (64 - (PG_SHIFT + satp_levels w * 9)) with (64 - page_bits (satp_levels w))
    by (unfold page_bits, PG_SHIFT; lia).
  rewrite canonical_spec by (unfold page_bits; lia). unfold canonical.
  destruct (bool_decide _); [|done]. cbn [negb].
  assert (u64 ((satp (cpu w) .& ((1 << 44) - 1)) << PG_SHIFT) = satp (cpu w) mod 2 ^ 44 * 2 ^ 12) as ->.
  { change ((1 << 44) - 1) with (Z.ones 44). rewrite land_ones_uN, shiftl_mul by done.
    apply uN_small. pose proof (uN_range 44 (satp (cpu w)) ltac:(lia)). unfold in_u, uN in *. lia. }
  destruct (walk_spec w va access (data_priv w access) (satp_levels w) (Z.to_nat (satp_levels w)) 0
    (satp (cpu w) mod 2 ^ 44 * 2 ^ 12)) as (r' & Hr' & ->); [lia|lia|].
  by rewrite (walks_det _ _ _ _ _ _ Hr Hr').
Qed.

Lemma get_phys_addr_bare w va access : wf_cpu (cpu w) ->
  ~ paged w access -> riscv_cpu_get_phys_addr w va access = (0, va).
Proof.
  intros Hw Hn. destruct (satp_mode_spec w Hw) as [Hmode _].
  unfold riscv_cpu_get_phys_addr. cbv zeta. fold (data_priv w access). rewrite Hmode.
  destruct (Z.eqb_spec (data_priv w access) PRV_M); [done|].
  destruct (Z.eqb_spec (satp (cpu w) / 2 ^ 60) 0); [done|]. by destruct Hn.
Qed.

Lemma encode_inj t1 t2 : encode t1 = encode t2 -> t1 = t2.
Proof. destruct t1, t2; intros [=]; by subst. Qed.

(** every address has a translation, and the code's result is its encoding *)
Lemma get_phys_addr_some w va access : wf_cpu (cpu w) -> in_u 64 va ->
  exists t, translates w va access t /\ riscv_cpu_get_phys_addr w va access = encode t.
Proof.
  intros Hw Hva. destruct (decide (paged w access)) as [Hp|Hp].
  2: { exists (Mapped va). split; [by constructor|by apply get_phys_addr_bare]. }
  destruct (satp_mode_spec w Hw) as [_ [?|Hl]]; [by destruct Hp|].
  destruct (walk_spec w va access (data_priv w access) (satp_levels w) (Z.to_nat (satp_levels w)) 0
    (satp (cpu w) mod 2 ^ 44 * 2 ^ 12)) as (r & Hr & _); [lia|lia|].
  rewrite (get_phys_addr_eq w va access r) by done.
  case_bool_decide as Hc; [|exists PageFault; split; [by apply tr_noncanonical|done]].
  destruct r as [j pte| |]; cbn [finish].
  - destruct (leaf_ok _ _ _ _ _) eqn:Hok.
    + exists (Mapped (leaf_address va j pte)). split; [by apply tr_mapped|done].
    + exists PageFault. split; [by apply (tr_denied w va access j pte)|done].
  - exists PageFault. split; [by apply tr_fault|done].
  - exists AccessFault. split; [by apply tr_access|done].
Qed.

Lemma translates_det w va access t1 t2 :
  translates w va access t1 -> translates w va access t2 -> t1 = t2.
Proof.
  intros H1 H2. destruct H1, H2; try done;
    repeat match goal with
    | Ha : walks_satp w va _, Hb : walks_satp w va _ |- _ =>
        let E := fresh in pose proof (walks_det _ _ _ _ _ _ Ha Hb) as E; clear Ha;
        first [discriminate E | (injection E as -> ->) | clear E]
    end; congruence.
Qed.


End World.

(** ** Pages *)

Lemma mod_page q r M : 0 < M -> 0 <= r < 2 ^ 12 ->
  (q * 2 ^ 12 + r) mod (2 ^ 12 * M) = q mod M * 2 ^ 12 + r.
Proof.
  intros HM Hr. symmetry. apply (Z.mod_unique_pos _ _ (q / M)).
  - pose proof (Z.mod_pos_bound q M HM). change (2 ^ 12) with 4096 in *. nia.
  - pose proof (Z.div_mod q M ltac:(lia)) as Hq. rewrite Hq at 1. ring.
Qed.

Lemma page_split a : a = a / 2 ^ 12 * 2 ^ 12 + a mod 2 ^ 12.
Proof. rewrite Z.mul_comm. apply Z.div_mod. done. Qed.

Definition same_page (a a' : Z) : Prop := a / 2 ^ 12 = a' / 2 ^ 12.

Lemma page_mod a j : 0 <= j ->
  a mod 2 ^ page_bits j = a / 2 ^ 12 mod 2 ^ (9 * j) * 2 ^ 12 + a mod 2 ^ 12.
Proof.
  intros Hj. unfold page_bits. rewrite Z.pow_add_r by lia. rewrite (page_split a) at 1.
  apply mod_page; [apply pow2_pos; lia|by apply Z.mod_pos_bound].
Qed.

Lemma sN_page n a : 12 < n -> sN n a = sN (n - 12) (a / 2 ^ 12) * 2 ^ 12 + a mod 2 ^ 12.
Proof.
  intros Hn. unfold sN. replace (2 ^ (n - 1)) with (2 ^ (n - 12 - 1) * 2 ^ 12)
    by (rewrite <- Z.pow_add_r by lia; f_equal; lia).
  replace (2 ^ n) with (2 ^ 12 * 2 ^ (n - 12)) by (rewrite <- Z.pow_add_r by lia; f_equal; lia).
  rewrite (page_split a) at 1.
  replace (a / 2 ^ 12 * 2 ^ 12 + a mod 2 ^ 12 + 2 ^ (n - 12 - 1) * 2 ^ 12)
    with ((a / 2 ^ 12 + 2 ^ (n - 12 - 1)) * 2 ^ 12 + a mod 2 ^ 12) by lia.
  rewrite mod_page by (try apply pow2_pos; try (apply Z.mod_pos_bound; done); lia). lia.
Qed.

Lemma vpn_page a a' j : 0 <= j -> same_page a a' -> vpn a j = vpn a' j.
Proof.
  intros Hj H. unfold vpn, page_bits. rewrite !Z.pow_add_r, <- !Z.div_div by (try apply pow2_pos; lia).
  by rewrite H.
Qed.

Lemma canonical_page n a a' : 12 < n <= 64 -> same_page a a' ->
  sN n a = sN 64 a -> sN n a' = sN 64 a'.
Proof.
  intros Hn H. rewrite (sN_page n a), (sN_page n a'), (sN_page 64 a), (sN_page 64 a'), H by lia. pose proof (Z.mod_pos_bound a (2 ^ 12) ltac:(lia)). lia.
Qed.

Section World.
Context {D : Type}.
Implicit Types w : World D.

Lemma walks_page w a a' n t r : same_page a a' -> walks w a n t r -> walks w a' n t r.
Proof.
  intros Hp. assert (forall t j, 0 <= j -> slot t a j = slot t a' j) as Hs.
  { intros. unfold slot. by rewrite (vpn_page a a'). }
  induction 1 as [n t H|n t pte H|n t pte H|n t pte r H| ]; try rewrite Hs in H by lia;
    [by constructor|eapply walks_invalid|eapply walks_leaf|eapply walks_pointer|constructor]; eauto.
Qed.

Lemma leaf_address_page a a' j pte : 0 <= j -> same_page a a' ->
  leaf_address a' j pte = leaf_address a j pte + (a' - a) /\ leaf_address a j pte mod 2 ^ 12 = a mod 2 ^ 12.
Proof.
  intros Hj Hp. unfold leaf_address. rewrite !page_mod, <- Hp by done. split.
  - pose proof (page_split a) as E1. pose proof (page_split a') as E2. rewrite <- Hp in E2. lia.
  - unfold page_bits at 2. rewrite Z.pow_add_r by lia.
    replace (page_base pte / 2 ^ page_bits j * (2 ^ 12 * 2 ^ (9 * j))
      + (a / 2 ^ 12 mod 2 ^ (9 * j) * 2 ^ 12 + a mod 2 ^ 12))
      with (a mod 2 ^ 12 + (page_base pte / 2 ^ page_bits j * 2 ^ (9 * j) + a / 2 ^ 12 mod 2 ^ (9 * j)) * 2 ^ 12) by ring.
    rewrite Z.mod_add by done. by apply Z.mod_mod.
Qed.

Lemma walks_leaf_level w va n t j pte : walks w va n t (WLeaf j pte) -> 0 <= j.
Proof. remember (WLeaf j pte) as r. induction 1; simplify_eq; auto with lia. Qed.

(** the addresses of a page are translated alike *)
Lemma get_phys_addr_page w a a' access pa :
  wf_cpu (cpu w) -> in_u 64 a -> in_u 64 a' -> same_page a a' ->
  riscv_cpu_get_phys_addr w a access = (0, pa) ->
  riscv_cpu_get_phys_addr w a' access = (0, pa + (a' - a)) /\ pa mod 2 ^ 12 = a mod 2 ^ 12.
Proof.
  intros Hw Ha Ha' Hp E. destruct (get_phys_addr_some w a access Hw Ha) as (t & Ht & Hc).
  rewrite Hc in E. destruct t as [pa'| |]; try done. apply (encode_inj (Mapped pa') (Mapped pa)) in E as [= ->].
  destruct (satp_mode_spec w Hw) as [_ Hm].
  inversion Ht as [Hn| | | | |j pte Hpg Hcan Hwalk Hok]; subst.
  - rewrite get_phys_addr_bare by done. split; [f_equal; lia|done].
  - assert (walks_satp w a' (WLeaf j pte)) as Hwalk' by (by eapply walks_page).
    destruct Hm as [Hm|Hm]; [by destruct Hpg|].
    rewrite (get_phys_addr_eq w a' access _) by done.
    rewrite bool_decide_true by (eapply canonical_page; [|done|done]; unfold page_bits; lia).
    cbn [finish]. rewrite Hok. apply walks_leaf_level in Hwalk.
    destruct (leaf_address_page a a' j pte Hwalk Hp) as [-> ->]. done.
Qed.

End World.

(** ** A hart in supervisor mode with an Sv39 table *)

(** [satp] names the table at 0x80001000: address 0x80005xxx is a page of
    0x80004xxx through three levels, and entry 3 is a leaf whose page number,
    4, is not a multiple of a gigapage *)
Definition sv39_cpu : RISCVCPUState :=
  with_satp ((8 << 60) .| 0x80001) (with_priv PRV_S
    (csr_update 0x3A0 0x1f (csr_update 0x3B0 (2 ^ 54 - 1)
      (with_physical_addr_len 56 (riscv_cpu_init 0x80000000 0 false false))).2).2).

Definition sv39_host : Z := 0x7f0000000000.
Definition sv39_map : PhysMemoryMap :=
  match default_register_ram [] 0x80000000 0x10000 0 sv39_host ∅ with Some (_, m, _) => m | None => [] end.
Definition sv39_tables : list (Z * Z) :=
  [(0x1010, (0x80002 << 10) .| 1); (0x2000, (0x80003 << 10) .| 1); (0x3028, (0x80004 << 10) .| 0xC7);
   (0x1018, (4 << 10) .| 0xC7)].
Definition sv39_world : World unit :=
  mkWorld sv39_cpu sv39_map
    (foldl (fun m '(a, v) => hm_write 8 (sv39_host + a) v m) ∅ sv39_tables) tt false (-1).

Lemma sv39_wf : wf_cpu (cpu sv39_world).
Proof. wf_compute. Qed.


(** The superpage check of the walk looks at [j] bits of the page number
    where the architecture requires the low [9 * j] to be zero: there is a
    well-formed hart that maps an address through a misaligned gigapage,
    where a page fault is required. *)
Theorem superpage_alignment_gap :
  exists (w : World unit) va j pte pa, wf_cpu (cpu w) /\ in_u 64 va
    /\ walks_satp w va (WLeaf j pte) /\ pte / 2 ^ 10 mod 2 ^ (9 * j) <> 0
    /\ riscv_cpu_get_phys_addr w va ACCESS_READ = (0, pa).
Proof.
  exists sv39_world, 0xC0000123, 2, ((4 << 10) .| 0xC7), 0x123.
  split_and!; [apply sv39_wf|by vm_compute| |by vm_compute|vm_compute; reflexivity].
  unfold walks_satp. change (Z.to_nat (satp_levels sv39_world)) with 3%nat.
  apply (walks_leaf _ _ 2); vm_compute; reflexivity.
Qed.
