(* ===== verification/TlbProps.v ===== *)
(** * The software TLBs

    A TLB entry saves the translation, the PMP check and the range lookup of
    an earlier access to the same page.  [tlb_coherent] says that every entry
    that can hit would be granted again by the slow path, at the same host
    address: the fast path is then the slow path ([tlb_fast_path]), and CSR
    writes and fills keep the TLBs coherent.  What breaks coherence: a PMP
    boundary inside a page ([tlb_pmp_bypass]) and a trap taken while MPRV is
    set ([trap_stale_tlb]). *)

From S2P Require Import Prelude Riscv CpuState IoMem Mmu Csr Trap Invariant WorldInv PmpProps CsrProps MmuProps.

(** ** Frames: what a translation depends on *)

(** the registers that translation and protection read *)
Record same_translation (s s' : RISCVCPUState) : Prop := {
  same_priv : forall b, effective_priv s' b = effective_priv s b;
  same_sum : Z.testbit (mstatus s') 18 = Z.testbit (mstatus s) 18;
  same_mxr : Z.testbit (mstatus s') 19 = Z.testbit (mstatus s) 19;
  same_satp : satp s' = satp s;
  same_pmp_n : pmp_n s' = pmp_n s;
  same_pmp : pmp s' = pmp s;
  same_pmpcfg : pmpcfg s' = pmpcfg s;
  same_len : physical_addr_len s' = physical_addr_len s
}.

Lemma pmp_scan_frame s s' prv a z p i n :
  pmp s' = pmp s -> pmpcfg s' = pmpcfg s -> pmp_scan s' prv a z p i n = pmp_scan s prv a z p i n.
Proof.
  intros H1 H2. revert i. induction n as [|n IH]; intros i; cbn [pmp_scan]; [done|].
  cbv zeta. by rewrite H1, H2, IH.
Qed.

Lemma pmp_access_frame s s' a z p : same_translation s s' ->
  riscv_cpu_pmp_access_ok s' a z p = riscv_cpu_pmp_access_ok s a z p.
Proof.
  intros []. unfold riscv_cpu_pmp_access_ok. cbv zeta.
  rewrite same_len0, same_priv0, same_pmp_n0. case_match; [done|]. by apply pmp_scan_frame.
Qed.

Section World.
Context {D : Type}.
Implicit Types w : World D.

Lemma get_range_frame s w a z p : same_translation (cpu w) s ->
  get_phys_mem_range_pmp (with_cpu s w) a z p = get_phys_mem_range_pmp w a z p.
Proof. intros H. unfold get_phys_mem_range_pmp. by rewrite (pmp_access_frame (cpu w)). Qed.

Lemma pte_frame s w a : same_translation (cpu w) s -> pte_at (with_cpu s w) a = pte_at w a.
Proof.
  intros H. unfold pte_at, riscv_phys_read. by rewrite get_range_frame.
Qed.

Lemma walks_frame s w va n t r : same_translation (cpu w) s ->
  walks w va n t r -> walks (with_cpu s w) va n t r.
Proof.
  intros Hs. induction 1; [eapply walks_access|eapply walks_invalid|eapply walks_leaf|eapply walks_pointer
    |eapply walks_exhausted]; try rewrite pte_frame by done; eauto.
Qed.

Lemma translates_frame s w va access t : same_translation (cpu w) s ->
  translates w va access t -> translates (with_cpu s w) va access t.
Proof.
  intros Hs. assert (forall prv j pte, leaf_ok s prv access j pte = leaf_ok (cpu w) prv access j pte) as Hl.
  { intros. unfold leaf_ok. by rewrite (same_sum _ _ Hs), (same_mxr _ _ Hs). }
  assert (paged (with_cpu s w) access <-> paged w access) as Hp.
  { unfold paged, data_priv. simpl. by rewrite (same_priv _ _ Hs), (same_satp _ _ Hs). }
  assert (canonical (with_cpu s w) va <-> canonical w va) as Hc.
  { unfold canonical, satp_levels. simpl. by rewrite (same_satp _ _ Hs). }
  assert (forall r, walks_satp w va r -> walks_satp (with_cpu s w) va r) as Hw.
  { intros r Hr. unfold walks_satp, satp_levels. simpl. rewrite (same_satp _ _ Hs).
    by apply walks_frame. }
  assert (data_priv (with_cpu s w) access = data_priv w access) as Hd.
  { unfold data_priv. simpl. by rewrite (same_priv _ _ Hs). }
  induction 1; [eapply tr_bare|eapply tr_noncanonical|eapply tr_access|eapply tr_fault|eapply tr_denied
    |eapply tr_mapped]; rewrite ?Hp, ?Hc, ?Hd; simpl; rewrite ?Hl; eauto.
Qed.

(** translation, when it depends on the same registers *)
Lemma get_phys_addr_frame s w va access :
  wf_cpu (cpu w) -> wf_cpu s -> in_u 64 va -> same_translation (cpu w) s ->
  riscv_cpu_get_phys_addr (with_cpu s w) va access = riscv_cpu_get_phys_addr w va access.
Proof.
  intros Hw Hs Hva Hf. destruct (get_phys_addr_some w va access Hw Hva) as (t & Ht & ->).
  destruct (get_phys_addr_some (with_cpu s w) va access Hs Hva) as (t' & Ht' & ->).
  f_equal. apply (translates_det (with_cpu s w) va access); [done|by apply translates_frame].
Qed.

(** ** Coherence *)

Definition tlb_of (access : riscv_memory_access_t) (s : RISCVCPUState) : list TLBEntry :=
  match access with ACCESS_READ => tlb_read s | ACCESS_WRITE => tlb_write s | ACCESS_CODE => tlb_code s end.
Definition perm_of (access : riscv_memory_access_t) : Z :=
  match access with ACCESS_READ => PMPCFG_R | ACCESS_WRITE => PMPCFG_W | ACCESS_CODE => PMPCFG_X end.
Definition entry_for access (s : RISCVCPUState) (a : Z) : TLBEntry := tlb_entry (tlb_of access s) (tlb_index a).

(** the slow path grants the access, in RAM at [ptr] *)
Definition grants w access (a k ptr : Z) : Prop :=
  exists pa i pr, riscv_cpu_get_phys_addr w a access = (0, pa)
    /\ get_phys_mem_range_pmp w pa (2 ^ k) (perm_of access) = (Some (i, pr), false)
    /\ pr_is_ram pr = true /\ ptr = ram_ptr pr pa.

(** an aligned access of [2 ^ k] bytes *)
Definition access_ok (a k : Z) : Prop := in_u 64 a /\ 0 <= k <= 3 /\ a mod 2 ^ k = 0.

Definition tlb_coherent w access : Prop :=
  forall a k, access_ok a k ->
    let e := entry_for access (cpu w) a in
    vaddr e = a / 2 ^ 12 * 2 ^ 12 -> grants w access a k (u64 (mem_addend e + a)).

Lemma grants_frame s w access a k ptr :
  wf_cpu (cpu w) -> wf_cpu s -> in_u 64 a -> same_translation (cpu w) s ->
  grants w access a k ptr -> grants (with_cpu s w) access a k ptr.
Proof.
  intros Hw Hs Ha Hf (pa & i & pr & H1 & H2 & H3 & H4). exists pa, i, pr.
  rewrite get_phys_addr_frame, get_range_frame by done. done.
Qed.

Lemma access_ok_compute a k :
  (bool_decide (in_u 64 a) && (0 <=? k) && (k <=? 3) && (a mod 2 ^ k =? 0))%bool = true -> access_ok a k.
Proof. intros H. unfold access_ok. rewrite !andb_true_iff, bool_decide_eq_true, !Z.leb_le, Z.eqb_eq in H. tauto. Qed.

(** no entry of a flushed TLB can hit *)
Definition flushed access (s : RISCVCPUState) : Prop :=
  forall a, vaddr (entry_for access s a) = 2 ^ 64 - 1.

Lemma tlb_index_range a : 0 <= tlb_index a < 256.
Proof.
  unfold tlb_index. change (TLB_SIZE - 1) with (Z.ones 8). rewrite land_ones_uN by done.
  apply (uN_range 8). done.
Qed.

Definition tlb_sized (s : RISCVCPUState) : Prop := forall access, length (tlb_of access s) = 256%nat.

Lemma wf_tlb_sized s : wf_cpu s -> tlb_sized s.
Proof. intros Hs []; apply Hs. Qed.

Lemma flush_flushed access s : tlb_sized s -> flushed access (tlb_flush_all s).
Proof.
  intros Hs a. pose proof (tlb_index_range a) as Hi. unfold entry_for, tlb_entry.
  replace (tlb_of access (tlb_flush_all s)) with (tlb_invalidate <$> tlb_of access s) by (by destruct access).
  destruct (lookup_lt_is_Some_2 (tlb_of access s) (Z.to_nat (tlb_index a))) as [e He]; [rewrite Hs; lia|].
  rewrite (list_lookup_total_correct _ _ (tlb_invalidate e)); [done|]. by rewrite list_lookup_fmap, He.
Qed.

Lemma flushed_coherent w access : flushed access (cpu w) -> tlb_coherent w access.
Proof.
  intros Hf a k [Ha _] e He. exfalso. unfold e in He. rewrite Hf in He.
  unfold in_u in Ha. change (2 ^ 64) with (2 ^ 52 * 2 ^ 12) in He. change (2 ^ 12) with 4096 in *. lia.
Qed.

(** a change that flushes, or touches nothing that translation reads *)
Definition tlb_safe (s s' : RISCVCPUState) : Prop :=
  (forall access, flushed access s') \/ same_translation s s' /\ forall access, tlb_of access s' = tlb_of access s.

Lemma tlb_safe_coherent s w access :
  wf_cpu (cpu w) -> wf_cpu s -> tlb_safe (cpu w) s -> tlb_coherent w access -> tlb_coherent (with_cpu s w) access.
Proof.
  intros Hw Hs [Hf|[Hf Hl]] Hc; [by apply flushed_coherent|]. intros a k Hk e He.
  unfold e, entry_for in *. simpl in *. rewrite Hl in *. apply grants_frame; [done..|apply Hk|done|].
  by apply Hc.
Qed.

End World.

#[export] Instance same_translation_refl : Reflexive same_translation.
Proof. by constructor. Qed.

(** ** CSR writes *)

Ltac tlb_same := right; split; [constructor; reflexivity|by intros []].

Lemma flushed_frame access s s' : tlb_of access s' = tlb_of access s -> flushed access s -> flushed access s'.
Proof. intros H Hf a. unfold entry_for. rewrite H. apply Hf. Qed.

Lemma unpack_flushed access s : tlb_sized s -> flushed access (unpack_pmpaddrs s).
Proof.
  intros Hs. unfold unpack_pmpaddrs. cbv zeta. apply flush_flushed, foldl_inv.
  - intros []; [apply (Hs ACCESS_READ)|apply (Hs ACCESS_WRITE)|apply (Hs ACCESS_CODE)].
  - intros a i Ha _ acc. unfold unpack_pmp_step. destruct (pmp_entry a i); [|apply Ha].
    destruct acc; [apply (Ha ACCESS_READ)|apply (Ha ACCESS_WRITE)|apply (Ha ACCESS_CODE)].
Qed.

Lemma lor3_bit x a b c i : 0 <= i -> 0 <= a -> 0 <= b -> 0 <= c ->
  tst (x .& (((1 << a) .| (1 << b)) .| (1 << c))) = false -> i = a \/ i = b \/ i = c -> Z.testbit x i = false.
Proof.
  intros Hi Ha Hb Hc Ht Hor. unfold tst in Ht. apply negb_false_iff, Z.eqb_eq in Ht.
  assert (Z.testbit (x .& (((1 << a) .| (1 << b)) .| (1 << c))) i = false) as H by (by rewrite Ht, Z.testbit_0_l).
  rewrite Z.land_spec, !Z.lor_spec, !testbit_bit in H by done.
  destruct (Z.testbit x i); [|done]. destruct (Z.eqb_spec i a), (Z.eqb_spec i b), (Z.eqb_spec i c); done || lia.
Qed.

(** the privilege of data accesses, from the bits of mstatus *)
Lemma effective_priv_eq s b :
  effective_priv s b = if Z.testbit (mstatus s) 17 && negb b then (mstatus s >> 11) .& 3 else priv s.
Proof. unfold effective_priv. by rewrite (tst_mask _ 17). Qed.

(** without a flush, mstatus keeps MPRV, SUM and MXR, and MPP if MPRV is set *)
Lemma set_mstatus_safe v s : wf_cpu s -> tlb_safe s (set_mstatus v s).
Proof.
  intros Hs. unfold set_mstatus. cbv zeta.
  match goal with |- tlb_safe _ (with_mstatus _ (with_fs _ (if ?c then _ else _))) => destruct c eqn:E end.
  { left. intros access. eapply flushed_frame; [|apply (flush_flushed _ s), wf_tlb_sized, Hs]. by destruct access. }
  apply orb_false_iff in E as [E1 E2]. right. split; [|by intros []].
  assert (forall i, i = 17 \/ i = 18 \/ i = 19 -> Z.testbit (mstatus s) i = Z.testbit v i) as Hb.
  { intros i Hi. apply (lor3_bit _ 17 18 19 i) in E1; [|lia..]. rewrite Z.lxor_spec in E1.
    by destruct (Z.testbit (mstatus s) i), (Z.testbit v i). }
  match goal with |- same_translation s ?x => set (s' := x) end.
  assert (mstatus s' = merge mstatus_writable (mstatus s) v) as Hm by reflexivity.
  constructor; try reflexivity; [|by rewrite Hm, merge_bit, (Hb 18) by lia|by rewrite Hm, merge_bit, (Hb 19) by lia].
  - intros b. rewrite !effective_priv_eq, Hm, merge_bit.
    replace (Z.testbit mstatus_writable 17) with true by done. rewrite <- Hb by lia.
    destruct (Z.testbit (mstatus s) 17) eqn:E17; [|done]. destruct b; [done|]. cbn [andb negb].
    rewrite (tst_mask _ 17), E17 in E2 by done. cbn [andb] in E2. unfold tst in E2.
    apply negb_false_iff, Z.eqb_eq in E2. change 3 with (Z.ones 2). rewrite !land_ones_uN by done.
    apply uN_bits_eq; [lia|]. apply Forall_forall. intros i Hi%elem_of_seqZ.
    rewrite !Z.shiftr_spec, merge_bit by lia.
    assert (Z.testbit mstatus_writable (i + 11) = true) as ->
      by (assert (i = 0 \/ i = 1) as [-> | ->] by lia; done).
    assert (Z.testbit ((mstatus s .^ v) .& MSTATUS_MPP) (i + 11) = false) as Hx by (by rewrite E2, Z.testbit_0_l).
    change MSTATUS_MPP with (Z.ones 2 << 11) in Hx. rewrite Z.land_spec, testbit_mask, Z.lxor_spec in Hx by lia.
    replace ((11 <=? i + 11) && (i + 11 <? 11 + 2)) with true in Hx by lia. rewrite andb_true_r in Hx.
    by destruct (Z.testbit (mstatus s) (i + 11)), (Z.testbit v (i + 11)).
Qed.

Lemma csr_update_safe c v s : wf_cpu s -> tlb_safe s (csr_update c v s).2.
Proof.
  intros Hs. unfold csr_update. cbv zeta.
  repeat match goal with
  | |- tlb_safe _ (snd (if ?c then _ else _)) => destruct c
  | |- _ => tlb_same
  | |- _ => cbn [snd]; first [by apply set_mstatus_safe]
  end.
  - unfold csr_write_satp. cbv zeta. destruct (_ && _); [tlb_same|]. cbn [snd]. left. intros access. apply flush_flushed.
    destruct (_ || _); [|by apply wf_tlb_sized]. intros []; apply Hs.
  - unfold csr_write_tdata1. cbv zeta. repeat case_match; tlb_same.
  - unfold csr_write_tdata2. cbv zeta. repeat case_match; tlb_same.
  - unfold csr_write_pmpcfg. cbv zeta. cbn [snd]. case_match; [tlb_same|]. left; intros access; apply unpack_flushed.
    intros []; apply Hs.
  - unfold csr_write_pmpaddr. cbv zeta. cbn [snd]. repeat case_match; try tlb_same; left; intros access; apply unpack_flushed;
      intros []; apply Hs.
Qed.

(** ** The fast path *)

Section World.
Context {D : Type} {io : DeviceIO D}.
Implicit Types w : World D.

Lemma aligned_test a k : access_ok a k -> a .& ((1 << k) - 1) = 0.
Proof.
  intros (_ & Hk & Ha). rewrite Z.shiftl_mul_pow2, Z.mul_1_l, land_pow2m1 by lia. exact Ha.
Qed.

(** for an aligned access the tag test compares the page *)
Lemma tag_page a k : access_ok a k -> a .& ~~ (PG_MASK .& ~~ (2 ^ k - 1)) = a / 2 ^ 12 * 2 ^ 12.
Proof.
  intros (_ & Hk & Ha). rewrite <- land_lnot_pow2 by done. change ((1 << 12) - 1) with PG_MASK.
  apply Z.bits_inj'. intros i Hi. rewrite !Z.land_spec, !Z.lnot_spec, Z.land_spec, Z.lnot_spec by done.
  replace (2 ^ k - 1) with (Z.ones k) by (rewrite Z.ones_equiv; lia). rewrite testbit_ones' by lia.
  destruct (Z.ltb_spec i k); [|by rewrite andb_true_r].
  assert (Z.testbit a i = false) as ->; [|done].
  transitivity (Z.testbit (uN k a) i); [|by unfold uN; rewrite Ha, Z.testbit_0_l].
  rewrite testbit_uN by lia. by destruct (Z.ltb_spec i k); [|lia].
Qed.

Lemma check_triggers_none t a s : (check_triggers t a s).1 = false -> check_triggers t a s = (false, s).
Proof.
  unfold check_triggers. cbv zeta. destruct (debug_mode s); [done|].
  change (Z.to_nat MAX_TRIGGERS) with 1%nat. cbn [trigger_loop].
  destruct (trigger_fires _ _ _ _); [|done]. by destruct (_ && _).
Qed.

(** host bytes are bytes *)
Definition bytes_ok (m : HostMem) : Prop := map_Forall (fun _ v => in_u 8 v) m.

Lemma hm_byte_in_u m a : bytes_ok m -> in_u 8 (hm_byte m a).
Proof. intros Hm. unfold hm_byte. destruct (m !! a) eqn:E; [by apply (Hm a)|by vm_compute]. Qed.

Lemma hm_read_in_u n a m : bytes_ok m -> in_u (8 * Z.of_nat n) (hm_read n a m).
Proof.
  intros Hm. revert a. induction n as [|n IH]; intros a; cbn [hm_read]; [by vm_compute|].
  apply lor_in_u; [lia|apply (in_u_weaken 8); [lia|by apply hm_byte_in_u]|].
  apply (shiftl_in_u (8 * Z.of_nat n)); [lia..|apply IH].
Qed.

Lemma read_granted w a k ptr : access_ok a k -> grants w ACCESS_READ a k ptr ->
  (riscv_cpu_read_memory a k w).1 = (0, load (Z.to_nat (2 ^ k)) ptr w).
Proof.
  intros Hk (pa & i & pr & H1 & H2 & H3 & ->). unfold riscv_cpu_read_memory. cbv zeta.
  rewrite (aligned_test a k Hk), H1. cbn [Z.eqb negb]. rewrite Z.shiftl_mul_pow2, Z.mul_1_l by apply Hk.
  cbn [perm_of] in H2. rewrite H2, H3. done.
Qed.

Lemma write_granted w a v k ptr : access_ok a k -> grants w ACCESS_WRITE a k ptr ->
  (riscv_cpu_write_memory a v k w).1 = 0
  /\ hmem (riscv_cpu_write_memory a v k w).2 = hm_write (Z.to_nat (2 ^ k)) ptr v (hmem w).
Proof.
  intros Hk (pa & i & pr & H1 & H2 & H3 & ->). unfold riscv_cpu_write_memory. cbv zeta.
  rewrite (aligned_test a k Hk), H1. cbn [Z.eqb negb]. rewrite Z.shiftl_mul_pow2, Z.mul_1_l by apply Hk.
  cbn [perm_of] in H2. rewrite H2, H3. done.
Qed.

Lemma access_size a k : access_ok a k ->
  8 * 2 ^ k / 8 = 2 ^ k /\ Z.log2 (2 ^ k) = k.
Proof. intros (_ & Hk & _). split; [rewrite Z.mul_comm; by apply Z.div_mul|apply Z.log2_pow2; lia]. Qed.


End World.

(** ** Fills *)

(** the whole page of [pa] is one RAM range, and PMP grants all of it *)
Definition page_granted {D} (w : World D) access (pa : Z) : Prop :=
  exists i pr, pr_is_ram pr = true /\ forall pa' k, same_page pa pa' -> access_ok pa' k ->
    get_phys_mem_range_pmp w pa' (2 ^ k) (perm_of access) = (Some (i, pr), false).

(** the entry a fill writes *)
Definition new_entry (a ptr : Z) : TLBEntry := mkTLBEntry (a .& ~~ PG_MASK) (u64 (ptr - a)).

Lemma tlb_index_page a a' : same_page a a' -> tlb_index a = tlb_index a'.
Proof. intros H. unfold tlb_index, PG_SHIFT. rewrite !shiftr_div by done. by rewrite H. Qed.

Lemma tlb_set_lookup l a e a' : length l = 256%nat ->
  tlb_entry (tlb_set l (tlb_index a) e) (tlb_index a')
  = if tlb_index a =? tlb_index a' then e else tlb_entry l (tlb_index a').
Proof.
  intros Hl. pose proof (tlb_index_range a). pose proof (tlb_index_range a'). unfold tlb_entry, tlb_set.
  destruct (Z.eqb_spec (tlb_index a) (tlb_index a')) as [E|E].
  - rewrite <- E. apply list_lookup_total_insert_eq. lia.
  - apply list_lookup_total_insert_ne. lia.
Qed.

Lemma host_address phys base pa a a' :
  u64 (u64 (u64 (phys + u64 (pa - base)) - a) + a') = u64 (phys + u64 (pa + (a' - a) - base)).
Proof.
  assert (forall x y, u64 (phys + u64 x) = u64 (phys + u64 y) <-> u64 (phys + x) = u64 (phys + y)) as H.
  { intros. unfold uN. by rewrite !Zplus_mod_idemp_r. }
  unfold uN. rewrite Zplus_mod_idemp_r, Zminus_mod_idemp_l, Zplus_mod_idemp_l, Zplus_mod_idemp_r.
  f_equal. lia.
Qed.

Section World.
Context {D : Type} {io : DeviceIO D}.
Implicit Types w : World D.

Lemma fill_coherent w s access a pa i pr :
  wf_cpu (cpu w) -> wf_cpu s -> in_u 64 a ->
  riscv_cpu_get_phys_addr w a access = (0, pa) -> pr_is_ram pr = true ->
  (forall pa' k, same_page pa pa' -> access_ok pa' k ->
    get_phys_mem_range_pmp w pa' (2 ^ k) (perm_of access) = (Some (i, pr), false)) ->
  same_translation (cpu w) s ->
  tlb_of access s = tlb_set (tlb_of access (cpu w)) (tlb_index a) (new_entry a (ram_ptr pr pa)) ->
  tlb_coherent w access -> tlb_coherent (with_cpu s w) access.
Proof.
  intros Hw Hs Ha Hpa Hram Hpage Hf Hl Hc a' k Hk e He. apply grants_frame; [done..|apply Hk|done|].
  unfold e, entry_for in *. simpl cpu in *. rewrite Hl, tlb_set_lookup in * by (by apply wf_tlb_sized).
  destruct (Z.eqb_spec (tlb_index a) (tlb_index a')) as [Hi|Hi]; [|by apply Hc].
  unfold new_entry in He. simpl vaddr in He. change PG_MASK with ((1 << 12) - 1) in He.
  rewrite land_lnot_pow2 in He by done. assert (same_page a a') as Hp by (unfold same_page; lia).
  destruct (get_phys_addr_page w a a' access pa) as [Hpa' Hmod]; [done..|apply Hk|done|done|].
  assert (in_u 64 (pa + (a' - a))) as Hin.
  { pose proof (get_phys_addr_in_u w a' access (proj1 Hk)) as H. by rewrite Hpa' in H. }
  exists (pa + (a' - a)), i, pr. split_and!; [done| |done|].
  - destruct Hk as (Ha' & Hk & Hal).
    pose proof (page_split a) as E1. pose proof (page_split a') as E2. pose proof (page_split pa) as E3.
    rewrite <- Hp in E2. assert (pa + (a' - a) = pa / 2 ^ 12 * 2 ^ 12 + a' mod 2 ^ 12) as E by lia. rewrite E in *.
    assert (0 <= a' mod 2 ^ 12 < 2 ^ 12) by (by apply Z.mod_pos_bound).
    apply Hpage; [unfold same_page; by rewrite Z.div_add_l, (Z.div_small (a' mod _)), Z.add_0_r by done|].
    split_and!; [done|lia|lia|]. replace (2 ^ 12) with (2 ^ (12 - k) * 2 ^ k) at 2 by (rewrite <- Z.pow_add_r by lia; f_equal; lia).
    rewrite Z.mul_assoc, Z.add_comm, Z.mod_add by (apply Z.pow_nonzero; lia).
    rewrite <- Hal. apply Z.mod_mod_divide. exists (2 ^ (12 - k)). rewrite <- Z.pow_add_r by lia. f_equal. lia.
  - unfold new_entry, ram_ptr. simpl mem_addend. apply host_address.
Qed.

Lemma upd_cpu_coherent w access (f : RISCVCPUState -> RISCVCPUState) :
  wf_cpu (cpu w) -> wf_cpu (f (cpu w)) -> same_translation (cpu w) (f (cpu w)) ->
  (forall access, tlb_of access (f (cpu w)) = tlb_of access (cpu w)) ->
  tlb_coherent w access -> tlb_coherent (upd_cpu f w) access.
Proof. intros Hw Hf Hs Hl Hc. apply tlb_safe_coherent; [done|done|by right|done]. Qed.

(** C35: a slow-path load keeps the load TLB coherent, and the next access to
    its page hits, whenever the page is all RAM that PMP grants: the entry it
    fills stands for every aligned access of the page. *)
Theorem read_fill_coherent w a k pa :
  wf_cpu (cpu w) -> access_ok a k -> riscv_cpu_get_phys_addr w a ACCESS_READ = (0, pa) ->
  page_granted w ACCESS_READ pa -> tlb_coherent w ACCESS_READ ->
  let w' := (riscv_cpu_read_memory a k w).2 in
  tlb_coherent w' ACCESS_READ
  /\ forall a', same_page a a' -> vaddr (entry_for ACCESS_READ (cpu w') a') = a' / 2 ^ 12 * 2 ^ 12.
Proof.
  intros Hw Hk Hpa (i & pr & Hram & Hpage) Hc. destruct Hk as (Ha & Hk & Hal).
  assert (access_ok pa k) as Hpk.
  { split_and!; [|lia|lia|].
    - pose proof (get_phys_addr_in_u w a ACCESS_READ Ha) as H. by rewrite Hpa in H.
    - destruct (get_phys_addr_page w a a ACCESS_READ pa) as [_ Hm]; [done..|].
      assert (forall x, x mod 2 ^ k = (x mod 2 ^ 12) mod 2 ^ k) as Hx.
      { intros x. symmetry. apply Z.mod_mod_divide. exists (2 ^ (12 - k)). rewrite <- Z.pow_add_r by lia. f_equal. lia. }
      by rewrite Hx, Hm, <- Hx. }
  pose proof (Hpage pa k eq_refl Hpk) as Hr. cbn [perm_of] in Hr.
  set (s := with_last_data_paddr pa (fill_tlb_read a pa (ram_ptr pr pa) (cpu w))).
  assert ((riscv_cpu_read_memory a k w).2 = with_cpu s w) as ->.
  { unfold riscv_cpu_read_memory. cbv zeta. rewrite (aligned_test a k) by (unfold access_ok; auto).
    rewrite Hpa, Z.shiftl_mul_pow2, Z.mul_1_l by lia. cbn [Z.eqb negb]. by rewrite Hr, Hram. }
  assert (wf_cpu s) as Hs by (apply wf_with_last_data_paddr; [apply Hpk|]; apply wf_fill_tlb_read; in_u_tac || done).
  assert (tlb_read s = tlb_set (tlb_read (cpu w)) (tlb_index a) (new_entry a (ram_ptr pr pa))) as Hl by reflexivity.
  cbv zeta. split.
  - eapply (fill_coherent w s ACCESS_READ a pa i pr); try done; by constructor.
  - intros a' Hp. unfold entry_for. simpl cpu. cbn [tlb_of]. rewrite Hl, tlb_set_lookup by apply Hw.
    rewrite (tlb_index_page a a' Hp), Z.eqb_refl. unfold new_entry. simpl.
    change PG_MASK with ((1 << 12) - 1). by rewrite land_lnot_pow2, Hp by done.
Qed.

End World.

Section World.
Context {D : Type}.
Implicit Types w : World D.

(** C7: no CSR write leaves a stale TLB entry: whatever CSR and value, if
    every entry of a TLB that can hit agreed with translation, PMP and the
    memory map before the write, every one does after it, because the write
    changes nothing they depend on or flushes the TLBs. *)
Theorem csr_write_tlb_coherent w access csr v :
  wf_cpu (cpu w) -> in_u 64 v -> tlb_coherent w access ->
  tlb_coherent (with_cpu (csr_update csr v (cpu w)).2 w) access.
Proof.
  intros Hw Hv Hc. apply tlb_safe_coherent; [done|by apply wf_csr_update|by apply csr_update_safe|done].
Qed.

End World.

(** ** Two ways to a stale entry *)

(** the only range of the Sv39 hart *)
Definition sv39_ram : PhysMemoryRange := {|
  pr_addr := 0x80000000; pr_org_size := 0x10000; pr_size := 0x10000; pr_is_ram := true;
  pr_devram_flags := 0; pr_phys_mem := sv39_host; pr_dirty_bits_size := 0; pr_dirty_bits := None;
  pr_dirty_bits_tab := []; pr_dirty_bits_index := 0; pr_opaque := 0; pr_devio_flags := 0 |}.

(** the hart of the Sv39 tables after a load from the page at 0x80005000 *)
Definition sv39_filled : World unit :=
  with_cpu (with_last_data_paddr 0x80004000 (fill_tlb_read 0x80005000 0x80004000
    (ram_ptr sv39_ram 0x80004000) (cpu sv39_world))) sv39_world.

Lemma flushed_forall access s : wf_cpu s ->
  Forall (fun e => vaddr e = 2 ^ 64 - 1) (tlb_of access s) -> flushed access s.
Proof.
  intros Hs Hf a. pose proof (tlb_index_range a). unfold entry_for, tlb_entry.
  destruct (lookup_lt_is_Some_2 (tlb_of access s) (Z.to_nat (tlb_index a))) as [e He];
    [rewrite wf_tlb_sized by done; lia|].
  rewrite (list_lookup_total_correct _ _ _ He). by apply (Forall_lookup_1 _ _ _ _ Hf He).
Qed.

Lemma sv39_flushed access : flushed access (cpu sv39_world).
Proof.
  apply flushed_forall; [apply sv39_wf|]. destruct access; apply (bool_decide_unpack _); vm_compute; exact I.
Qed.

Lemma sv39_map_eq : mem_map sv39_world = [sv39_ram].
Proof. vm_compute; reflexivity. Qed.

Lemma sv39_page pa k : same_page 0x80004000 pa -> access_ok pa k ->
  get_phys_mem_range_pmp sv39_world pa (2 ^ k) PMPCFG_R = (Some (0%nat, sv39_ram), false).
Proof.
  intros Hp [Hin _]. unfold same_page in Hp. change (0x80004000 / 2 ^ 12) with 0x80004 in Hp.
  pose proof (page_split pa) as Hs. pose proof (Z.mod_pos_bound pa (2 ^ 12) ltac:(done)) as Hm.
  rewrite <- Hp in Hs. change (2 ^ 12) with 4096 in *. assert (0x80004000 <= pa < 0x80005000) as Hr by lia.
  unfold get_phys_mem_range_pmp, riscv_cpu_pmp_access_ok. cbv zeta.
  change (physical_addr_len (cpu sv39_world)) with 56. rewrite shiftr_div by done.
  rewrite (Z.div_small pa) by (change (2 ^ 56) with 0x100000000000000; lia). cbn [Z.eqb negb].
  change (effective_priv (cpu sv39_world) (tst (PMPCFG_R .& PMPCFG_X))) with PRV_S.
  change (Z.to_nat (pmp_n (cpu sv39_world))) with 1%nat. cbn [pmp_scan].
  replace (pmp (cpu sv39_world) !!! Z.to_nat 0) with (mkPmp 0 0x20000000000) by (vm_compute; reflexivity).
  replace (rd (pmpcfg (cpu sv39_world)) 0) with 0x1f by (vm_compute; reflexivity). simpl lo. simpl hi.
  rewrite (proj2 (Z.leb_le _ _)) by (apply uN_range; done).
  rewrite (proj2 (Z.ltb_lt _ _)) by lia.
  cbv [andb orb]. cbn [negb]. unfold get_phys_mem_range.
  rewrite sv39_map_eq. cbn [length find_range lookup list_lookup]. unfold in_range.
  change (pr_addr sv39_ram) with 0x80000000. change (pr_size sv39_ram) with 0x10000.
  rewrite (proj2 (Z.leb_le _ _)) by lia.
  change (u64 (0x80000000 + 0x10000)) with 0x80010000. by rewrite (proj2 (Z.ltb_lt pa 0x80010000)) by lia.
Qed.

Lemma fill_same p a b ptr s : same_translation s (with_last_data_paddr p (fill_tlb_read a b ptr s)).
Proof. constructor; reflexivity. Qed.
Lemma fill_entry p a b ptr s :
  tlb_of ACCESS_READ (with_last_data_paddr p (fill_tlb_read a b ptr s))
  = tlb_set (tlb_of ACCESS_READ s) (tlb_index a) (new_entry a ptr).
Proof. reflexivity. Qed.

Lemma sv39_filled_coherent : tlb_coherent sv39_filled ACCESS_READ.
Proof.
  unfold sv39_filled. eapply (fill_coherent sv39_world _ ACCESS_READ 0x80005000 0x80004000 0 sv39_ram).
  - apply sv39_wf.
  - wf_compute.
  - by vm_compute.
  - vm_compute; reflexivity.
  - vm_compute; reflexivity.
  - apply sv39_page.
  - apply fill_same.
  - apply fill_entry.
  - apply flushed_coherent, sv39_flushed.
Qed.

Lemma sv39_filled_wf : wf_cpu (cpu sv39_filled).
Proof. wf_compute. Qed.

Lemma csr_write_tlb_coherent_witness :
  tlb_coherent (with_cpu (csr_update 0x340 7 (cpu sv39_filled)).2 sv39_filled) ACCESS_READ.
Proof.
  apply (csr_write_tlb_coherent sv39_filled ACCESS_READ 0x340 7);
    [apply sv39_filled_wf|by vm_compute|apply sv39_filled_coherent].
Defined.

Lemma sv39_bytes : bytes_ok (hmem sv39_filled).
Proof. apply (bool_decide_unpack _). vm_compute. exact I. Qed.

(** the machine has no devices *)
#[local] Instance no_devices : DeviceIO unit :=
  {| read_func _ _ _ w := (0, w); write_func _ _ _ _ w := w |}.


Lemma read_fill_coherent_witness :
  vaddr (entry_for ACCESS_READ (cpu (riscv_cpu_read_memory 0x80005000 3 sv39_world).2) 0x80005ff8) = 0x80005000.
Proof.
  refine (proj2 (read_fill_coherent sv39_world 0x80005000 3 0x80004000 sv39_wf _ _ _ _) 0x80005ff8 _).
  - by apply access_ok_compute.
  - vm_compute; reflexivity.
  - exists 0%nat, sv39_ram. split; [done|apply sv39_page].
  - apply flushed_coherent, sv39_flushed.
  - vm_compute; reflexivity.
Defined.

(** a supervisor without translation, and four bytes at 0x80004ff8 that PMP
    denies it *)
Definition pmp_hole_world : World unit :=
  mkWorld (with_priv PRV_S
    (csr_update 0x3A0 0x1f10 (csr_update 0x3B1 (2 ^ 54 - 1) (csr_update 0x3B0 (0x80004ff8 >> 2)
      (with_physical_addr_len 56 (riscv_cpu_init 0x80000000 0 false false))).2).2).2)
    sv39_map (hm_write 4 (sv39_host + 0x4ff8) 0x5ec2e7 ∅) tt false (-1).

(** The load TLB is filled for a whole page on the strength of a PMP check
    of the bytes of one access: there is a well-formed hart that is refused
    four bytes by PMP and reads them after a load from elsewhere in the page. *)
Theorem tlb_pmp_bypass :
  exists (w : World unit) a a' v, wf_cpu (cpu w) /\ access_ok a 3 /\ access_ok a' 2
    /\ (target_read 32 a' w).1 = (-1, 0)
    /\ (target_read 32 a' (target_read 64 a w).2).1 = (0, v) /\ v <> 0.
Proof.
  exists pmp_hole_world, 0x80004000, 0x80004ff8, 0x5ec2e7.
  split; [wf_compute|]. do 2 (split; [by apply access_ok_compute|]).
  split; [vm_compute; reflexivity|]. split; [vm_compute; reflexivity|done].
Qed.

(** the Sv39 hart in machine mode, with MPRV set and MPP the supervisor *)
Definition mprv_world : World unit :=
  with_cpu (with_priv PRV_M (set_mstatus ((1 << 17) .| (1 << 11)) (cpu sv39_world))) sv39_world.
Definition mprv_filled : World unit := (target_read 64 0x80005000 mprv_world).2.

(** A trap taken in machine mode while MPRV is set changes MPP, and with it
    the privilege and the translation of loads, and flushes nothing: there is
    a well-formed hart on which a load through the TLB gives the slow path's
    result before the trap, and another value than the slow path after it. *)
Theorem trap_stale_tlb :
  exists (w : World unit) cause tval a, wf_cpu (cpu w) /\ access_ok a 3
    /\ (target_read 64 a w).1 = (riscv_cpu_read_memory a 3 w).1
    /\ let w' := upd_cpu (raise_exception2 cause tval) w in
       (target_read 64 a w').1.1 = 0 /\ (riscv_cpu_read_memory a 3 w').1.1 = 0
       /\ (target_read 64 a w').1.2 <> (riscv_cpu_read_memory a 3 w').1.2.
Proof.
  exists (with_hmem (hm_write 8 (sv39_host + 0x5000) 0x1234 (hmem mprv_filled)) mprv_filled), CAUSE_MACHINE_ECALL, 0, 0x80005000.
  split; [wf_compute|]. split; [by apply access_ok_compute|].
  split; [vm_compute; reflexivity|]. cbv zeta. split; [vm_compute; reflexivity|].
  split; [vm_compute; reflexivity|]. vm_compute. discriminate.
Qed.
