(* ===== verification/IoMemProps.v ===== *)
(** * Host memory and the memory map: what loads, stores and lookups promise

    Bytes written to host memory are the bytes read back and nothing else
    changes; a store through the hart is what a later load of the hart sees;
    the last registered range that contains an address serves it; the dirty
    bitmap marks exactly the pages written. *)

From S2P Require Import Prelude Riscv CpuState IoMem Mmu Csr Trap Invariant WorldInv MmuProps TlbProps.

#[local] Existing Instance no_devices.

(** ** Host memory *)

Lemma hm_byte_insert (m : HostMem) a v b : hm_byte (<[a := v]> m) b = if decide (a = b) then v else hm_byte m b.
Proof. unfold hm_byte, HostMem in *. rewrite (lookup_insert (M := gmap Z)). by case_decide. Qed.

Lemma hm_byte_write_out n a v m b : ~ (a <= b < a + Z.of_nat n) -> hm_byte (hm_write n a v m) b = hm_byte m b.
Proof.
  revert a v m. induction n as [|n IH]; intros a v m Hb; cbn [hm_write]; [done|].
  rewrite IH, hm_byte_insert, decide_False by lia. done.
Qed.

Lemma hm_read_write n a v m : hm_read n a (hm_write n a v m) = uN (8 * Z.of_nat n) v.
Proof.
  revert a v m. induction n as [|n IH]; intros a v m; cbn [hm_read hm_write]; [change (uN _ v) with (v mod 1); by rewrite Z.mod_1_r|].
  rewrite IH, hm_byte_write_out, hm_byte_insert, decide_True by lia.
  apply Z.bits_inj'. intros i Hi. rewrite Z.lor_spec, Z.shiftl_spec, (testbit_uN 8), (testbit_uN (8 * Z.of_nat (S n))) by lia.
  destruct (Z.ltb_spec i 8).
  - rewrite (Z.testbit_neg_r _ (i - 8)), orb_false_r by lia. destruct (Z.ltb_spec i (8 * Z.of_nat (S n))); [by rewrite andb_true_l|lia].
  - rewrite testbit_uN, Z.shiftr_spec by lia. cbn [andb orb]. replace (i - 8 + 8) with i by lia. f_equal.
    destruct (Z.ltb_spec (i - 8) (8 * Z.of_nat n)), (Z.ltb_spec i (8 * Z.of_nat (S n))); done || lia.
Qed.

Lemma hm_read_frame n a m m' :
  (forall b, a <= b < a + Z.of_nat n -> hm_byte m' b = hm_byte m b) -> hm_read n a m' = hm_read n a m.
Proof.
  revert a. induction n as [|n IH]; intros a H; cbn [hm_read]; [done|].
  rewrite H, IH by (intros; try apply H; lia). done.
Qed.

Lemma hm_read_write_out n a v m k b :
  b + Z.of_nat k <= a \/ a + Z.of_nat n <= b -> hm_read k b (hm_write n a v m) = hm_read k b m.
Proof. intros H. apply hm_read_frame. intros. apply hm_byte_write_out. lia. Qed.

(** ** Stores and loads through the hart *)

Section World.
Context {D : Type} {io : DeviceIO D}.
Implicit Types w : World D.

Lemma find_range_alter (f : PhysMemoryRange -> PhysMemoryRange) (s : PhysMemoryMap) j pa n :
  (forall pr, in_range (f pr) pa = in_range pr pa) ->
  find_range (alter f j s) pa n
  = (fun '(i, pr) => (i, if decide (i = j) then f pr else pr)) <$> find_range s pa n.
Proof.
  intros Hf. induction n as [|n IH]; cbn [find_range]; [done|]. unfold PhysMemoryMap in *.
  destruct (decide (n = j)) as [->|Hn].
  - rewrite list_lookup_alter_eq. destruct (s !! j) as [pr|] eqn:E; cbn; [|done].
    rewrite Hf. destruct (in_range pr pa); [|done]. cbn. by rewrite decide_True.
  - rewrite list_lookup_alter_ne by done. destruct (s !! n) as [pr|]; [|done].
    destruct (in_range pr pa); [|done]. cbn. by rewrite decide_False.
Qed.

Lemma set_dirty_frame pr o : let pr' := phys_mem_set_dirty_bit pr o in
  pr_addr pr' = pr_addr pr /\ pr_size pr' = pr_size pr /\ pr_is_ram pr' = pr_is_ram pr
  /\ pr_phys_mem pr' = pr_phys_mem pr.
Proof. unfold phys_mem_set_dirty_bit. by destruct (pr_dirty_bits pr). Qed.

(** a range is found again after its dirty bits change *)
Lemma get_range_dirty (s : PhysMemoryMap) i pr (o : PhysMemoryRange -> Z) pa :
  get_phys_mem_range s pa = Some (i, pr) ->
  get_phys_mem_range (alter (fun pr => phys_mem_set_dirty_bit pr (o pr)) i s) pa
  = Some (i, phys_mem_set_dirty_bit pr (o pr)).
Proof.
  intros H. unfold get_phys_mem_range, PhysMemoryMap in *. rewrite length_alter, find_range_alter, H.
  - cbn. by rewrite decide_True.
  - intros pr'. unfold in_range. by destruct (set_dirty_frame pr' (o pr')) as (-> & -> & _ & _).
Qed.

(** C8: what a store leaves in memory a load reads back: after a store of
    [2 ^ k] bytes to RAM at an aligned address succeeds, a load of the same
    address gives the value stored, cut to its width, provided the address
    still has the same translation (the store may overwrite a page table);
    bytes of host memory outside the store keep their value. *)
Theorem store_load_roundtrip w a v k pa i pr :
  wf_cpu (cpu w) -> access_ok a k ->
  riscv_cpu_get_phys_addr w a ACCESS_WRITE = (0, pa) ->
  get_phys_mem_range_pmp w pa (2 ^ k) PMPCFG_W = (Some (i, pr), false) -> pr_is_ram pr = true ->
  let w' := (riscv_cpu_write_memory a v k w).2 in
  riscv_cpu_get_phys_addr w' a ACCESS_READ = (0, pa) ->
  riscv_cpu_pmp_access_ok (cpu w) pa (2 ^ k) PMPCFG_R = true ->
  (riscv_cpu_write_memory a v k w).1 = 0
  /\ (riscv_cpu_read_memory a k w').1 = (0, uN (8 * 2 ^ k) v)
  /\ (forall n b, b + Z.of_nat n <= ram_ptr pr pa \/ ram_ptr pr pa + 2 ^ k <= b ->
        load n b w' = load n b w).
Proof.
  intros Hw Hk Hpa Hr Hram w' Hpa' Hpmp.
  assert (0 <= 2 ^ k) as H2 by (apply Z.pow_nonneg; lia).
  set (s' := with_last_data_paddr pa (fill_tlb_write a pa (ram_ptr pr pa) (cpu w))).
  assert (riscv_cpu_write_memory a v k w
    = (0, mkWorld s' (alter (fun pr => phys_mem_set_dirty_bit pr (u64 (pa - pr_addr pr))) i (mem_map w))
           (hm_write (Z.to_nat (2 ^ k)) (ram_ptr pr pa) v (hmem w)) (dev w) (cosim w) (pending_interrupt w))) as E.
  { unfold riscv_cpu_write_memory. cbv zeta. rewrite (aligned_test a k Hk), Hpa.
    rewrite Z.shiftl_mul_pow2, Z.mul_1_l by apply Hk. cbn [Z.eqb negb]. by rewrite Hr, Hram. }
  assert (w' = (riscv_cpu_write_memory a v k w).2) as Hw' by reflexivity. rewrite E in Hw'. cbn [snd] in Hw'.
  rewrite E. split; [done|]. split.
  - unfold riscv_cpu_read_memory. cbv zeta. rewrite (aligned_test a k Hk), Hpa'.
    rewrite Z.shiftl_mul_pow2, Z.mul_1_l by apply Hk. cbn [Z.eqb negb].
    assert (get_phys_mem_range_pmp w' pa (2 ^ k) PMPCFG_R
      = (Some (i, phys_mem_set_dirty_bit pr (u64 (pa - pr_addr pr))), false)) as ->.
    { unfold get_phys_mem_range_pmp in *. destruct (riscv_cpu_pmp_access_ok (cpu w) pa (2 ^ k) PMPCFG_W); [|done].
      rewrite Hw'. cbn [cpu mem_map]. rewrite (pmp_access_frame (cpu w)), Hpmp by by constructor. cbn [negb] in *.
      rewrite (get_range_dirty (mem_map w) i pr (fun pr => u64 (pa - pr_addr pr))); [done|congruence]. }
    destruct (set_dirty_frame pr (u64 (pa - pr_addr pr))) as (E1 & _ & E3 & E4). rewrite E3, Hram. cbn [fst].
    rewrite Hw'. unfold load, ram_ptr. simpl hmem. rewrite E1, E4. fold (ram_ptr pr pa).
    by rewrite hm_read_write, Z2Nat.id.
  - intros n b Hb. rewrite Hw'. unfold load. simpl hmem. apply hm_read_write_out. lia.
Qed.

End World.

Lemma store_load_roundtrip_witness :
  let w' := (riscv_cpu_write_memory 0x80005000 0x1122334455667788 2 sv39_world).2 in
  (riscv_cpu_read_memory 0x80005000 2 w').1 = (0, 0x55667788).
Proof.
  refine (proj1 (proj2 (store_load_roundtrip sv39_world 0x80005000 0x1122334455667788 2 0x80004000 0 sv39_ram
    sv39_wf _ _ _ _ _ _))); try (vm_compute; reflexivity). by apply access_ok_compute.
Defined.

(** ** Range lookup *)

Lemma find_range_spec (s : PhysMemoryMap) pa n i pr : (n <= length s)%nat ->
  find_range s pa n = Some (i, pr) <->
  s !! i = Some pr /\ (i < n)%nat /\ in_range pr pa = true
  /\ forall j pr', (i < j < n)%nat -> s !! j = Some pr' -> in_range pr' pa = false.
Proof.
  unfold PhysMemoryMap in *. induction n as [|n IH]; intros Hn; cbn [find_range]; [split; [done|lia]|].
  unfold PhysMemoryMap. destruct (lookup_lt_is_Some_2 s n) as [x Hx]; [lia|]. rewrite Hx.
  destruct (in_range x pa) eqn:E.
  - split.
    + intros [= <- <-]. split_and!; [done|lia|done|lia].
    + intros (Hi & Hlt & Hin & Hlast). destruct (decide (i = n)) as [->|]; [congruence|].
      rewrite (Hlast n x) in E; [done|lia|done].
  - rewrite IH by lia. split; intros (Hi & Hlt & Hin & Hlast).
    + split_and!; [done|lia|done|]. intros j pr' Hj Hp. destruct (decide (j = n)); [congruence|].
      apply (Hlast j); [lia|done].
    + split_and!; [done|destruct (decide (i = n)); [congruence|lia]|done|].
      intros j pr' Hj. apply Hlast. lia.
Qed.

(** An address belongs to the range registered last among those that
    contain it: the lookup returns range [i] exactly when [i] contains the
    address and no later range does, and nothing exactly when none does. *)
Theorem get_phys_mem_range_spec (s : PhysMemoryMap) pa :
  (forall i pr, get_phys_mem_range s pa = Some (i, pr) <->
     s !! i = Some pr /\ in_range pr pa = true
     /\ forall j pr', (i < j)%nat -> s !! j = Some pr' -> in_range pr' pa = false)
  /\ (get_phys_mem_range s pa = None <-> forall i pr, s !! i = Some pr -> in_range pr pa = false).
Proof.
  assert (forall i pr, get_phys_mem_range s pa = Some (i, pr) <->
     s !! i = Some pr /\ in_range pr pa = true
     /\ forall j pr', (i < j)%nat -> s !! j = Some pr' -> in_range pr' pa = false) as H.
  { intros i pr. unfold get_phys_mem_range. rewrite find_range_spec by done. split.
    - intros (Hi & _ & Hin & Hlast). split_and!; [done|done|]. intros j pr' Hj Hp.
      apply (Hlast j); [split; [done|by eapply lookup_lt_Some]|done].
    - intros (Hi & Hin & Hlast). split_and!; [done|by eapply lookup_lt_Some|done|].
      intros j pr' [Hj _]. by apply Hlast. }
  split; [done|]. split.
  - intros Hn. assert (forall n, (n <= length s)%nat -> find_range s pa n = None ->
      forall i pr, (i < n)%nat -> s !! i = Some pr -> in_range pr pa = false) as Hf.
    { induction n as [|n IH]; intros Hle Hf i pr Hi Hp; [lia|]. cbn [find_range] in Hf. unfold PhysMemoryMap in *.
      destruct (lookup_lt_is_Some_2 s n) as [x Hx]; [lia|]. rewrite Hx in Hf.
      destruct (in_range x pa) eqn:E; [done|]. destruct (decide (i = n)) as [->|]; [congruence|].
      eapply IH; [lia|done| |done]. lia. }
    intros i pr Hp. eapply Hf; [done|done|by eapply lookup_lt_Some|done].
  - intros Hn. destruct (get_phys_mem_range s pa) as [[i pr]|] eqn:E; [|done].
    destruct (proj1 (H i pr) eq_refl) as (Hi & Hin & _). by rewrite (Hn i pr Hi) in Hin.
Qed.

(** ** Dirty bits *)

(** two bitmaps of [n] words, one of them in use *)
Definition dirty_ok (n : nat) (pr : PhysMemoryRange) : Prop :=
  exists t l0 l1, pr_dirty_bits pr = Some t /\ pr_dirty_bits_index pr = Z.of_nat t /\ (t < 2)%nat
    /\ pr_dirty_bits_tab pr = [l0; l1] /\ arr n (in_u 32) l0 /\ arr n (in_u 32) l1
    /\ pr_dirty_bits_size pr = 4 * Z.of_nat n.

(** an offset of a page the bitmaps have a bit for *)
Definition page_ok (n : nat) (o : Z) : Prop := 0 <= o < 2 ^ 17 * Z.of_nat n.
Definition page_bit (bits : list Z) (o : Z) : bool := Z.testbit (rd bits (o / 2 ^ 12 / 32)) (o / 2 ^ 12 mod 32).

Lemma page_of o : o >> DEVRAM_PAGE_SIZE_LOG2 = o / 2 ^ 12.
Proof. by apply (shiftr_div 12). Qed.

Lemma alter_lookup {A} (f : A -> A) (l : list A) i x : l !! i = Some x -> alter f i l = <[i := f x]> l.
Proof.
  intros Hx. apply list_eq. intros j. destruct (decide (i = j)) as [<-|Hj].
  - rewrite list_lookup_alter_eq, Hx, list_lookup_insert_eq by (by eapply lookup_lt_Some). done.
  - by rewrite list_lookup_alter_ne, list_lookup_insert_ne by done.
Qed.

Lemma is_dirty_page pr t o : pr_dirty_bits pr = Some t -> 0 <= o ->
  phys_mem_is_dirty_bit pr o = page_bit (pr_dirty_bits_tab pr !!! t) o.
Proof.
  intros Ht Ho. unfold phys_mem_is_dirty_bit, page_bit. rewrite Ht. cbv zeta.
  rewrite page_of. change 0x1f with (Z.ones 5). rewrite land_ones_uN, (shiftr_div 5) by done.
  rewrite tst_bit; [done|]. by apply uN_range.
Qed.

Lemma set_dirty_bits pr t n o : pr_dirty_bits pr = Some t -> arr n (in_u 32) (pr_dirty_bits_tab pr !!! t) ->
  (t < length (pr_dirty_bits_tab pr))%nat -> page_ok n o ->
  exists bits, phys_mem_set_dirty_bit pr o
      = with_dirty pr (Some t) (<[t := bits]> (pr_dirty_bits_tab pr)) (pr_dirty_bits_index pr)
    /\ arr n (in_u 32) bits
    /\ forall o', 0 <= o' -> page_bit bits o' = page_bit (pr_dirty_bits_tab pr !!! t) o' || (o / 2 ^ 12 =? o' / 2 ^ 12).
Proof.
  intros Ht [Hn Hall] Htl Ho. unfold phys_mem_set_dirty_bit. rewrite Ht. cbv zeta.
  destruct (lookup_lt_is_Some_2 (pr_dirty_bits_tab pr) t Htl) as [l Hl].
  rewrite (list_lookup_total_correct _ _ _ Hl) in *. rewrite page_of. set (p := o / 2 ^ 12).
  rewrite (shiftr_div 5) by done.
  assert (0 <= p < 32 * Z.of_nat n) as Hp.
  { unfold page_ok in Ho. unfold p. split; [apply Z.div_pos; lia|]. apply Z.div_lt_upper_bound; lia. }
  change (2 ^ 5) with 32. assert (0 <= p / 32 < Z.of_nat n) as Hw by (split; [apply Z.div_pos; lia|apply Z.div_lt_upper_bound; lia]).
  change 0x1f with (Z.ones 5). rewrite land_ones_uN by done. pose proof (uN_range 5 p ltac:(done)) as Hm.
  unfold in_u in Hm. change (2 ^ 5) with 32 in Hm.
  eexists. split; [f_equal; by apply alter_lookup|]. split.
  - split; [by rewrite length_wr|]. apply wr_Forall; [done|]. apply lor_in_u; [done|by apply rd_in_u|by apply uN_range].
  - intros o' Ho'. unfold page_bit. set (p' := o' / 2 ^ 12). assert (0 <= p') by (apply Z.div_pos; lia).
    pose proof (Z.mod_pos_bound p' 32 ltac:(lia)) as Hm'. pose proof (Z.div_mod p 32 ltac:(lia)) as E1.
    pose proof (Z.div_mod p' 32 ltac:(lia)) as E2. change (uN 5 p) with (p mod 32) in *.
    destruct (decide (p' / 32 = p / 32)) as [E|E].
    + rewrite E, rd_wr_eq by lia. rewrite Z.lor_spec, testbit_uN, testbit_bit by lia.
      destruct (Z.ltb_spec (p' mod 32) 32); [|lia]. cbn [andb]. f_equal.
      destruct (Z.eqb_spec (p' mod 32) (p mod 32)), (Z.eqb_spec p p'); done || lia.
    + rewrite rd_wr_ne by (try apply Z.div_pos; lia). destruct (Z.eqb_spec p p') as [->|]; [done|].
      by rewrite orb_false_r.
Qed.

Lemma dirty_ok_set n pr o : dirty_ok n pr -> page_ok n o ->
  dirty_ok n (phys_mem_set_dirty_bit pr o)
  /\ forall o', 0 <= o' ->
       phys_mem_is_dirty_bit (phys_mem_set_dirty_bit pr o) o'
       = phys_mem_is_dirty_bit pr o' || (o / 2 ^ 12 =? o' / 2 ^ 12).
Proof.
  intros (t & l0 & l1 & Ht & Hi & Ht2 & Htab & H0 & H1 & Hs) Ho.
  assert (arr n (in_u 32) (pr_dirty_bits_tab pr !!! t)) as Ha
    by (rewrite Htab; destruct t as [|[|]]; done || lia).
  destruct (set_dirty_bits pr t n o) as (bits & E & Hb & Hbit); [done|done|rewrite Htab; simpl; lia|done|].
  rewrite E. split.
  - destruct t as [|[|]]; [exists 0%nat, bits, l1|exists 1%nat, l0, bits|lia]; rewrite Htab; split_and!; done.
  - intros o' Ho'. rewrite !(is_dirty_page _ t) by done. rewrite <- Hbit by done. cbn [pr_dirty_bits_tab with_dirty].
    f_equal. rewrite list_lookup_total_insert_eq; [done|]. rewrite Htab. simpl. lia.
Qed.

Lemma rd_replicate n i : rd (replicate n 0) i = 0.
Proof.
  rewrite rd_lookup. destruct (replicate n 0 !! Z.to_nat i) eqn:E; [|done].
  apply lookup_replicate in E as [-> _]. done.
Qed.

Lemma get_dirty_spec {O} (flush : Z -> Z -> O -> O) n pr op : dirty_ok n pr ->
  let '(bits, pr', _) := default_get_dirty_bits flush pr op in
  dirty_ok n pr' /\ (forall o, 0 <= o -> page_bit bits o = phys_mem_is_dirty_bit pr o)
  /\ forall o, 0 <= o -> phys_mem_is_dirty_bit pr' o = false.
Proof.
  intros (t & l0 & l1 & Ht & Hi & Ht2 & Htab & H0 & H1 & Hs).
  unfold default_get_dirty_bits. cbv zeta. rewrite Ht, Hs, Hi, (Z.mul_comm 4), Z.div_mul, Nat2Z.id by done.
  assert (Z.to_nat (Z.of_nat t .^ 1) = (1 - t)%nat) as -> by (destruct t as [|[|]]; done || lia).
  assert (forall l, arr n (in_u 32) l -> replicate n 0 ++ drop n l = replicate n 0) as Hrep.
  { intros l [Hl _]. rewrite drop_ge by lia. apply app_nil_r. }
  assert (arr n (in_u 32) (replicate n 0)) as Hz.
  { split; [apply length_replicate|]. apply Forall_replicate. by vm_compute. }
  assert (forall pr' t', pr_dirty_bits pr' = Some t' -> pr_dirty_bits_tab pr' !!! t' = replicate n 0 ->
    forall o, 0 <= o -> phys_mem_is_dirty_bit pr' o = false) as Hclean.
  { intros pr' t' E1 E2 o Ho. rewrite (is_dirty_page _ t') by done. rewrite E2. unfold page_bit.
    by rewrite rd_replicate, Z.testbit_0_l. }
  split_and!.
  - destruct t as [|[|]]; [exists 1%nat, l0, (replicate n 0)|exists 0%nat, (replicate n 0), l1|lia];
      rewrite Htab; cbn; rewrite Hrep by done; split_and!; first [done | lia].
  - intros o Ho. by rewrite (is_dirty_page _ t).
  - eapply Hclean; [done|]. cbn. rewrite Htab. destruct t as [|[|]]; [cbn; by apply Hrep|cbn; by apply Hrep|lia].
Qed.

(** The dirty bitmap tracks the pages written: marking an offset makes its
    page dirty and leaves every other page as it was; taking the bitmap
    returns the dirty pages, in the layout the caller reads, and leaves the
    range with no dirty page and a well-formed pair of bitmaps again. *)
Theorem dirty_bits_track {O} (flush : Z -> Z -> O -> O) n pr o op :
  dirty_ok n pr -> page_ok n o ->
  let marked := phys_mem_set_dirty_bit pr o in
  let '(bits, clean, _) := default_get_dirty_bits flush marked op in
  dirty_ok n marked /\ dirty_ok n clean
  /\ forall o', 0 <= o' ->
       phys_mem_is_dirty_bit marked o' = phys_mem_is_dirty_bit pr o' || (o / 2 ^ 12 =? o' / 2 ^ 12)
       /\ page_bit bits o' = phys_mem_is_dirty_bit marked o'
       /\ phys_mem_is_dirty_bit clean o' = false.
Proof.
  intros Hpr Ho marked. destruct (dirty_ok_set n pr o Hpr Ho) as [Hm Hset]. fold marked in Hm, Hset.
  pose proof (get_dirty_spec flush n marked op Hm) as Hg.
  destruct (default_get_dirty_bits flush marked op) as [[bits clean] op']. destruct Hg as (Hc & Hb & Hz).
  split_and!; [done|done|]. intros o' Ho'. split_and!; auto.
Qed.

(** 256 KiB of RAM with dirty bits, as registration leaves it *)
Definition dirty_ram : PhysMemoryRange :=
  match default_register_ram [] 0x80000000 0x40000 DEVRAM_FLAG_DIRTY_BITS sv39_host ∅ with
  | Some (_, [pr], _) => pr | _ => sv39_ram end.

Lemma dirty_bits_track_witness :
  phys_mem_is_dirty_bit (phys_mem_set_dirty_bit dirty_ram 0x3f008) 0x3fff8 = true
  /\ phys_mem_is_dirty_bit (phys_mem_set_dirty_bit dirty_ram 0x3f008) 0x3e000 = false.
Proof.
  assert (dirty_ok 2 dirty_ram) as Hd.
  { exists 0%nat, [0; 0], [0; 0]. split_and!; try reflexivity; try lia;
      split; try reflexivity; repeat constructor; by vm_compute. }
  assert (page_ok 2 0x3f008) as Ho by (unfold page_ok; lia).
  pose proof (dirty_bits_track (fun _ _ (u : unit) => u) 2 dirty_ram 0x3f008 tt Hd Ho) as H. cbv zeta in H.
  destruct (default_get_dirty_bits _ _ _) as [[bits clean] u]. destruct H as (_ & _ & H). split.
  - destruct (H 0x3fff8 ltac:(lia)) as [-> _]. vm_compute. reflexivity.
  - destruct (H 0x3e000 ltac:(lia)) as [-> _]. vm_compute. reflexivity.
Defined.
