(* ===== verification/Uart.v ===== *)
(** * The serial ports (dw_apb_uart.cpp, riscv_machine.cpp)

    The Synopsys-style UART and the SiFive UART.  The character device behind
    them and the interrupt line are function pointers the code is given: the
    class [UartEnv] on the environment [E] they act on.  A register access that
    fails an assertion is [None]; the debug output is left out, and with it the
    static variables that only it reads. *)

From S2P Require Import Prelude.

(** ** The DW APB UART *)

Record DW_apb_uart_state := mkUart {
  rx_fifo : list Z;
  rx_fifo_len : Z;
  last_irq_level : Z;
  div_latch : Z;
  rhr : Z;
  ier : Z;
  isr : Z;
  fcr : Z;
  lcr : Z;
  mcr : Z;
  lsr : Z;
  msr : Z;
  spr : Z
}.

Definition set_last_irq_level v s :=
  mkUart (rx_fifo s) (rx_fifo_len s) v (div_latch s) (rhr s) (ier s) (isr s) (fcr s) (lcr s) (mcr s) (lsr s) (msr s) (spr s).
Definition set_div_latch v s :=
  mkUart (rx_fifo s) (rx_fifo_len s) (last_irq_level s) v (rhr s) (ier s) (isr s) (fcr s) (lcr s) (mcr s) (lsr s) (msr s) (spr s).
Definition set_rhr v s :=
  mkUart (rx_fifo s) (rx_fifo_len s) (last_irq_level s) (div_latch s) v (ier s) (isr s) (fcr s) (lcr s) (mcr s) (lsr s) (msr s) (spr s).
Definition set_ier v s :=
  mkUart (rx_fifo s) (rx_fifo_len s) (last_irq_level s) (div_latch s) (rhr s) v (isr s) (fcr s) (lcr s) (mcr s) (lsr s) (msr s) (spr s).
Definition set_isr v s :=
  mkUart (rx_fifo s) (rx_fifo_len s) (last_irq_level s) (div_latch s) (rhr s) (ier s) v (fcr s) (lcr s) (mcr s) (lsr s) (msr s) (spr s).
Definition set_lcr v s :=
  mkUart (rx_fifo s) (rx_fifo_len s) (last_irq_level s) (div_latch s) (rhr s) (ier s) (isr s) (fcr s) v (mcr s) (lsr s) (msr s) (spr s).
Definition set_mcr v s :=
  mkUart (rx_fifo s) (rx_fifo_len s) (last_irq_level s) (div_latch s) (rhr s) (ier s) (isr s) (fcr s) (lcr s) v (lsr s) (msr s) (spr s).
Definition set_lsr v s :=
  mkUart (rx_fifo s) (rx_fifo_len s) (last_irq_level s) (div_latch s) (rhr s) (ier s) (isr s) (fcr s) (lcr s) (mcr s) v (msr s) (spr s).
Definition set_msr v s :=
  mkUart (rx_fifo s) (rx_fifo_len s) (last_irq_level s) (div_latch s) (rhr s) (ier s) (isr s) (fcr s) (lcr s) (mcr s) (lsr s) v (spr s).
Definition set_spr v s :=
  mkUart (rx_fifo s) (rx_fifo_len s) (last_irq_level s) (div_latch s) (rhr s) (ier s) (isr s) (fcr s) (lcr s) (mcr s) (lsr s) (msr s) v.

(** [calloc]: every register is 0 after creation *)
Definition uart_init : DW_apb_uart_state := mkUart (replicate 8 0) 0 0 0 0 0 0 0 0 0 0 0 0.

Definition FEATURE_THRE_MODE_USER : bool := true.
Definition FEATURE_LSR_STATUS_CLEAR : Z := 0.
Definition uart_reg_rhr : Z := 0.
Definition uart_reg_ier : Z := 1.
Definition uart_reg_isr : Z := 2.
Definition uart_reg_lcr : Z := 3.
Definition uart_reg_mcr : Z := 4.
Definition uart_reg_lsr : Z := 5.
Definition uart_reg_msr : Z := 6.
Definition uart_reg_spr : Z := 7.

(** [cs->read_data(opaque, &byte, 1)] with the byte's old value: the count and
    the byte after the call; [cs->write_data]; [set_irq(s->irq, level)]. *)
Class UartEnv (E : Type) := {
  read_data : Z -> E -> Z * Z * E;
  write_data : Z -> E -> E;
  set_irq : Z -> E -> E
}.

(** divisor latch access bit *)
Definition dlab (s : DW_apb_uart_state) : bool := tst (lcr s .& (1 << 7)).

(** the interrupt identification of the highest-priority pending source *)
Definition isr_nibble (s : DW_apb_uart_state) : Z :=
  if tst (ier s .& 4) && tst (lsr s .& 30) then 6
  else if tst (ier s .& 1) && tst (lsr s .& 1) then 4
  else if tst (ier s .& 2) && tst (lsr s .& 32) then 2
  else if tst (ier s .& 8) && negb ((msr s .& 15) =? 15) then 0
  else 1.

Section Uart.
Context {E : Type} {env : UartEnv E}.

(** the registers and the environment *)
Definition Dev : Type := DW_apb_uart_state * E.
Definition upd (f : DW_apb_uart_state -> DW_apb_uart_state) (d : Dev) : Dev := (f d.1, d.2).

Definition update_isr (d : Dev) : Dev :=
  let d := upd (fun s => set_isr (u8 ((isr s .& 0xF0) + isr_nibble s)) s) d in
  let irq_level := b2z (negb (tst (isr d.1 .& 1))) in
  if negb (last_irq_level d.1 =? irq_level) then
    (set_last_irq_level irq_level d.1, set_irq irq_level d.2)
  else d.

Definition dw_apb_uart_poll (d : Dev) : Dev :=
  if negb (tst (lsr d.1 .& 1)) then
    let '(ret, c, e) := read_data (rhr d.1) d.2 in
    let s := set_rhr c d.1 in
    update_isr (set_lsr (lsr s .| b2z (negb (ret =? 0))) s, e)
  else d.

Definition read_rhr (d : Dev) : Z * Dev :=
  if dlab d.1 then (div_latch d.1 .& 255, d)
  else
    let res := rhr d.1 in
    let d := upd (fun s => set_lsr (lsr s .& ~~ (1 << 0)) s) d in
    let d := if FEATURE_LSR_STATUS_CLEAR =? 0 then upd (fun s => set_lsr (lsr s .& ~~ 30) s) d else d in
    (res, update_isr d).

Definition write_thr (val : Z) (d : Dev) : Dev :=
  if dlab d.1 then upd (fun s => set_div_latch (u16 ((div_latch s .& ~~ 255) + val)) s) d
  else
    let d := (d.1, write_data val d.2) in
    let d := upd (fun s => set_lsr (lsr s .& ~~ ((1 << 5) .| (1 << 6))) s) d in
    dw_apb_uart_poll (update_isr d).

Definition read_ier (d : Dev) : Z * Dev :=
  if dlab d.1 then (u8 (div_latch d.1 >> 8), d) else (ier d.1, d).

Definition write_ier (val : Z) (d : Dev) : Dev :=
  if dlab d.1 then upd (fun s => set_div_latch (u16 ((div_latch s .& 255) + val * 256)) s) d
  else update_isr (upd (set_ier (val .& (if FEATURE_THRE_MODE_USER then 0xFF else 0x7F))) d).

Definition read_isr (d : Dev) : Z * Dev := (isr d.1, d).
Definition write_fcr (val : Z) (d : Dev) : Dev := d.
Definition read_lcr (d : Dev) : Z * Dev := (lcr d.1, d).
Definition write_lcr (val : Z) (d : Dev) : Dev := upd (set_lcr val) d.
Definition read_mcr (d : Dev) : Z * Dev := (mcr d.1, d).
Definition write_mcr (val : Z) (d : Dev) : Dev := upd (set_mcr val) d.

Definition read_lsr (d : Dev) : Z * Dev :=
  let d := upd (fun s => set_lsr (lsr s .| ((1 << 6) .| (1 << 5))) s) d in
  let d := upd (fun s =>
    set_lsr (lsr s .& ~~ ((1 << 1) .| (1 << 2) .| (1 << 3) .| (1 << 4) .| (1 << 7))) s) d in
  let d := update_isr (dw_apb_uart_poll d) in
  (lsr d.1, d).

Definition read_msr (d : Dev) : Z * Dev :=
  let res := msr d.1 in
  (res, update_isr (upd (fun s => set_msr (msr s .& ~~ 15) s) d)).

Definition read_spr (d : Dev) : Z * Dev := (spr d.1, d).
Definition write_spr (val : Z) (d : Dev) : Dev := upd (set_spr val) d.

(** the two assertions on the offset *)
Definition uart_offset_ok (offset : Z) : bool := (offset mod 4 =? 0) && (offset <? 256).

Definition dw_apb_uart_read (offset : Z) (d : Dev) : option (Z * Dev) :=
  if negb (uart_offset_ok offset) then None
  else
    let r := offset / 4 in
    Some (
      if r =? uart_reg_rhr then read_rhr d
      else if r =? uart_reg_ier then read_ier d
      else if r =? uart_reg_isr then read_isr d
      else if r =? uart_reg_lcr then read_lcr d
      else if r =? uart_reg_mcr then read_mcr d
      else if r =? uart_reg_lsr then read_lsr d
      else if r =? uart_reg_msr then read_msr d
      else if r =? uart_reg_spr then read_spr d
      else (0, d)).

Definition dw_apb_uart_write (offset val : Z) (d : Dev) : option Dev :=
  let val := val .& 255 in
  if negb (uart_offset_ok offset) then None
  else
    let r := offset / 4 in
    Some (
      if r =? uart_reg_rhr then write_thr val d
      else if r =? uart_reg_ier then write_ier val d
      else if r =? uart_reg_isr then write_fcr val d
      else if r =? uart_reg_lcr then write_lcr val d
      else if r =? uart_reg_mcr then write_mcr val d
      else if r =? uart_reg_spr then write_spr val d
      else d).

(** ** The SiFive UART *)

Record SiFiveUARTState := mkSiFive {
  sf_rx_fifo_len : Z;
  sf_ie : Z;
  sf_txctrl : Z;
  sf_rxctrl : Z;
  sf_div : Z
}.
Definition sifive_init : SiFiveUARTState := mkSiFive 0 0 0 0 0.

Definition SIFIVE_UART_TXFIFO : Z := 0.
Definition SIFIVE_UART_RXFIFO : Z := 4.
Definition SIFIVE_UART_TXCTRL : Z := 8.
Definition SIFIVE_UART_RXCTRL : Z := 12.
Definition SIFIVE_UART_IE : Z := 16.
Definition SIFIVE_UART_IP : Z := 20.
Definition SIFIVE_UART_DIV : Z := 24.
Definition SIFIVE_UART_IP_RXWM : Z := 2.

(** [garbage] is the unset local byte the read is given; it is not returned
    unless the device reports that it wrote it *)
Definition uart_read (offset garbage : Z) (s : SiFiveUARTState) (e : E) : Z * E :=
  if offset =? SIFIVE_UART_RXFIFO then
    let '(ret, r, e) := read_data garbage e in
    (if negb (ret =? 0) then r else 0x80000000, e)
  else if offset =? SIFIVE_UART_TXFIFO then (0, e)
  else if offset =? SIFIVE_UART_IE then (sf_ie s, e)
  else if offset =? SIFIVE_UART_IP then (if negb (sf_rx_fifo_len s =? 0) then SIFIVE_UART_IP_RXWM else 0, e)
  else if offset =? SIFIVE_UART_TXCTRL then (sf_txctrl s, e)
  else if offset =? SIFIVE_UART_RXCTRL then (sf_rxctrl s, e)
  else if offset =? SIFIVE_UART_DIV then (sf_div s, e)
  else (0, e).

(** [uart_update_irq] only prints a message *)
Definition uart_write (offset val : Z) (s : SiFiveUARTState) (e : E) : SiFiveUARTState * E :=
  if offset =? SIFIVE_UART_TXFIFO then (s, write_data (u8 val) e)
  else if offset =? SIFIVE_UART_IE then (mkSiFive (sf_rx_fifo_len s) val (sf_txctrl s) (sf_rxctrl s) (sf_div s), e)
  else if offset =? SIFIVE_UART_TXCTRL then (mkSiFive (sf_rx_fifo_len s) (sf_ie s) val (sf_rxctrl s) (sf_div s), e)
  else if offset =? SIFIVE_UART_RXCTRL then (mkSiFive (sf_rx_fifo_len s) (sf_ie s) (sf_txctrl s) val (sf_div s), e)
  else if offset =? SIFIVE_UART_DIV then (mkSiFive (sf_rx_fifo_len s) (sf_ie s) (sf_txctrl s) (sf_rxctrl s) val, e)
  else (s, e).

End Uart.
