(* ===== verification/UartProps.v ===== *)
(** * What the serial port guarantees

    The input path is a queue that no access reorders, drops or repeats, and
    the interrupt line follows the enabled sources. *)

From S2P Require Import Prelude Uart.

#[local] Arguments Z.testbit : simpl never.

(** every register holds a value of its C type *)
Record wf_uart (s : DW_apb_uart_state) : Prop := {
  wf_last_irq_level : last_irq_level s = 0 \/ last_irq_level s = 1;
  wf_div_latch : in_u 16 (div_latch s);
  wf_rhr : in_u 8 (rhr s);
  wf_ier : in_u 8 (ier s);
  wf_isr : in_u 8 (isr s);
  wf_lcr : in_u 8 (lcr s);
  wf_mcr : in_u 8 (mcr s);
  wf_lsr : in_u 8 (lsr s);
  wf_msr : in_u 8 (msr s);
  wf_spr : in_u 8 (spr s)
}.

(** the character device writes a byte *)
Class WfUartEnv (E : Type) {env : UartEnv E} : Prop := {
  read_data_byte : forall c e, in_u 8 c -> in_u 8 (read_data c e).1.2
}.

Ltac wf_uart_tac := match goal with H : wf_uart _ |- _ => destruct H end;
  constructor; cbn [last_irq_level div_latch rhr ier isr lcr mcr lsr msr spr set_last_irq_level
    set_div_latch set_rhr set_ier set_isr set_lcr set_mcr set_lsr set_msr set_spr];
  first [assumption | in_u_tac | idtac].

Lemma isr_nibble_range s : 0 <= isr_nibble s <= 6.
Proof. unfold isr_nibble. repeat case_match; lia. Qed.

(** the status register: the FIFO bits kept, the low nibble the identification *)
Lemma isr_value x k : 0 <= k < 16 -> u8 ((x .& 0xF0) + k) = x .& 0xF0 .| k.
Proof.
  intros Hk. assert (x .& 0xF0 = (x >> 4 .& 15) << 4) as Hx.
  { apply Z.bits_inj'. intros i Hi. rewrite Z.land_spec, Z.shiftl_spec by lia.
    destruct (Z.ltb_spec i 4).
    - rewrite (Z.testbit_neg_r _ (i - 4)) by lia.
      assert (i = 0 \/ i = 1 \/ i = 2 \/ i = 3) as [-> | [-> | [-> | ->]]] by lia; by rewrite andb_false_r.
    - rewrite Z.land_spec, Z.shiftr_spec by lia. replace (i - 4 + 4) with i by lia. f_equal.
      change 0xF0 with (15 << 4). by rewrite Z.shiftl_spec by lia. }
  assert (in_u 4 (x >> 4 .& 15)) by in_u_tac.
  rewrite Hx, lor_disjoint_add by (unfold in_u; lia). unfold in_u in *.
  rewrite shiftl_mul by lia. apply uN_small. unfold in_u. lia.
Qed.

Lemma isr_bit0 x k : 0 <= k < 16 -> tst (u8 ((x .& 0xF0) + k) .& 1) = tst (k .& 1).
Proof.
  intros Hk. rewrite isr_value by done. change 1 with (2 ^ 0). rewrite !tst_land_pow2 by lia.
  rewrite Z.lor_spec, Z.land_spec. change (Z.testbit 0xF0 0) with false. by rewrite andb_false_r.
Qed.

Lemma isr_low x k : 0 <= k < 16 -> u8 ((x .& 0xF0) + k) .& 0xF = k.
Proof.
  intros Hk. rewrite isr_value by done. rewrite Z.land_lor_distr_l, <- Z.land_assoc.
  change (0xF0 .& 0xF) with 0. rewrite Z.land_0_r, Z.lor_0_l.
  change 0xF with (Z.ones 4). rewrite land_ones_uN by lia. by apply uN_small.
Qed.

(** an enabled source is pending *)
Definition uart_pending (s : DW_apb_uart_state) : bool :=
  (Z.testbit (ier s) 2 && tst (lsr s .& 30)) || (Z.testbit (ier s) 0 && Z.testbit (lsr s) 0)
  || (Z.testbit (ier s) 1 && Z.testbit (lsr s) 5) || (Z.testbit (ier s) 3 && negb (msr s .& 15 =? 15)).

Lemma isr_nibble_pending s : negb (tst (isr_nibble s .& 1)) = uart_pending s.
Proof.
  unfold isr_nibble, uart_pending.
  change (ier s .& 4) with (ier s .& 2 ^ 2). change (ier s .& 1) with (ier s .& 2 ^ 0).
  change (ier s .& 2) with (ier s .& 2 ^ 1). change (ier s .& 8) with (ier s .& 2 ^ 3).
  change (lsr s .& 1) with (lsr s .& 2 ^ 0). change (lsr s .& 32) with (lsr s .& 2 ^ 5).
  rewrite !tst_land_pow2 by lia.
  repeat (match goal with |- context [if ?c then _ else _] => destruct c eqn:? end; simpl; [done|]). done.
Qed.

(** ** Accesses *)

Inductive access := Rd (offset : Z) | Wr (offset val : Z).

Section Access.
Context {E : Type} {env : UartEnv E}.
Implicit Types d : DW_apb_uart_state * E.

(** the value read (0 for a write) and the device afterwards *)
Definition do_access (a : access) d : option (Z * (DW_apb_uart_state * E)) :=
  match a with
  | Rd offset => dw_apb_uart_read offset d
  | Wr offset val => match dw_apb_uart_write offset val d with Some d => Some (0, d) | None => None end
  end.

Fixpoint run_accesses (l : list access) d : option (list Z * (DW_apb_uart_state * E)) :=
  match l with
  | [] => Some ([], d)
  | a :: l =>
      match do_access a d with
      | Some (v, d) => match run_accesses l d with Some (vs, d) => Some (v :: vs, d) | None => None end
      | None => None
      end
  end.

(** the register an access works on; [None] is an assertion failure *)
Lemma do_access_cases (P : option (Z * (DW_apb_uart_state * E)) -> Prop) a d :
  P None -> P (Some (0, d)) ->
  P (Some (read_rhr d)) -> P (Some (read_ier d)) -> P (Some (read_isr d)) -> P (Some (read_lcr d)) ->
  P (Some (read_mcr d)) -> P (Some (read_lsr d)) -> P (Some (read_msr d)) -> P (Some (read_spr d)) ->
  (forall v, in_u 8 v -> P (Some (0, write_thr v d)) /\ P (Some (0, write_ier v d))
    /\ P (Some (0, write_lcr v d)) /\ P (Some (0, write_mcr v d)) /\ P (Some (0, write_spr v d))) ->
  P (do_access a d).
Proof.
  intros H0 H1 H2 H3 H4 H5 H6 H7 H8 H9 H10. destruct a as [off|off v]; simpl.
  - unfold dw_apb_uart_read. destruct (negb _); [done|]. by repeat (case_match; [done|]).
  - unfold dw_apb_uart_write. cbv zeta. destruct (negb _); [done|].
    destruct (H10 (v .& 255)) as (? & ? & ? & ? & ?); [in_u_tac|].
    by repeat (case_match; [done|]).
Qed.

(** what every call of the environment keeps, every access keeps *)
Lemma do_access_env (Q : E -> Prop) a d v d' :
  (forall c e, Q e -> Q (read_data c e).2) -> (forall c e, Q e -> Q (write_data c e)) ->
  (forall l e, Q e -> Q (set_irq l e)) ->
  do_access a d = Some (v, d') -> Q d.2 -> Q d'.2.
Proof.
  intros Hr Hw Hi Ha Hd.
  assert (forall d, Q d.2 -> Q (update_isr d).2) as Hu.
  { intros d0 H0. unfold update_isr. cbv zeta. case_match; simpl; auto. }
  assert (forall d, Q d.2 -> Q (dw_apb_uart_poll d).2) as Hp.
  { intros d0 H0. unfold dw_apb_uart_poll. case_match; [|done]. pose proof (Hr (rhr d0.1) _ H0).
    destruct (read_data _ _) as [[ret c] e]. cbv zeta. by apply Hu. }
  revert Ha. apply (do_access_cases (fun r => r = Some (v, d') -> Q d'.2)); try done; try by intros [= <- <-].
  - unfold read_rhr. case_match; intros [= <- <-]; [done|]. by apply Hu.
  - unfold read_ier. case_match; by intros [= <- <-].
  - intros [= <- <-]. by apply Hu, Hp.
  - intros [= <- <-]. by apply Hu.
  - intros b _. unfold write_thr, write_ier. split_and!; intros [= <- <-]; try done; case_match; try done.
    + apply Hp, Hu. by apply Hw.
    + by apply Hu.
Qed.

Context (line : E -> Z).

(** the line the interrupt controller sees is the level last set *)
Definition tracked d : Prop := line d.2 = last_irq_level d.1.

(** the line is up exactly when an enabled source is pending, and the status
    register names the most urgent one *)
Definition synced d : Prop :=
  line d.2 = b2z (uart_pending d.1) /\ last_irq_level d.1 = b2z (uart_pending d.1)
  /\ isr d.1 .& 0xF = isr_nibble d.1.

Lemma synced_tracked d : synced d -> tracked d.
Proof. unfold tracked. intros (-> & -> & _). done. Qed.

Hypothesis set_irq_line : forall l e, line (set_irq l e) = l.
Hypothesis read_data_line : forall c e, line (read_data c e).2 = line e.
Hypothesis write_data_line : forall c e, line (write_data c e) = line e.

Lemma update_isr_synced d : tracked d -> synced (update_isr d).
Proof.
  intros Ht. unfold update_isr. cbv zeta. cbn [fst snd upd].
  set (s1 := set_isr _ d.1).
  assert (isr_nibble s1 = isr_nibble d.1 /\ uart_pending s1 = uart_pending d.1) as [Hn Hp] by done.
  pose proof (isr_nibble_range d.1).
  assert (negb (tst (isr s1 .& 1)) = uart_pending d.1) as Hl.
  { unfold s1. cbn [set_isr isr]. rewrite isr_bit0 by lia. apply isr_nibble_pending. }
  assert (isr s1 .& 0xF = isr_nibble d.1) as Hi by (apply isr_low; lia).
  rewrite Hl. unfold tracked in Ht. destruct (Z.eqb_spec (last_irq_level s1) (b2z (uart_pending d.1))) as [Hq|Hq]; simpl.
  - unfold synced, upd. cbn [fst snd]. fold s1. by rewrite Ht, Hp, Hi.
  - unfold synced. simpl. by rewrite set_irq_line.
Qed.

Lemma tracked_upd f d : last_irq_level (f d.1) = last_irq_level d.1 -> tracked d -> tracked (upd f d).
Proof. unfold tracked. simpl. by intros ->. Qed.

Lemma poll_tracked d : tracked d -> tracked (dw_apb_uart_poll d).
Proof.
  intros Ht. unfold dw_apb_uart_poll. destruct (negb _); [|done].
  pose proof (read_data_line (rhr d.1) d.2) as Hl. destruct (read_data _ _) as [[ret c] e].
  cbv zeta. apply synced_tracked, update_isr_synced. unfold tracked. simpl. by rewrite <- Ht, <- Hl.
Qed.

Lemma poll_synced d : synced d -> synced (dw_apb_uart_poll d).
Proof.
  intros Hs. pose proof (synced_tracked _ Hs) as Ht. unfold dw_apb_uart_poll. destruct (negb _); [|done].
  pose proof (read_data_line (rhr d.1) d.2) as Hl. destruct (read_data _ _) as [[ret c] e].
  cbv zeta. apply update_isr_synced. unfold tracked. simpl. by rewrite <- Ht, <- Hl.
Qed.

(** the accesses that recompute the line *)
Lemma read_lsr_synced d : tracked d -> synced (read_lsr d).2.
Proof. intros Ht. unfold read_lsr. cbn [snd]. by apply update_isr_synced, poll_tracked. Qed.

Lemma do_access_tracked a d v d' : do_access a d = Some (v, d') -> tracked d -> tracked d'.
Proof.
  intros Ha Ht. pose proof update_isr_synced. pose proof synced_tracked.
  revert Ha. apply (do_access_cases (fun r => r = Some (v, d') -> tracked d')); try done; try by intros [= <- <-].
  - unfold read_rhr. case_match; intros [= <- <-]; auto.
  - unfold read_ier. case_match; by intros [= <- <-].
  - intros [= <- <-]. apply synced_tracked. by apply read_lsr_synced.
  - intros [= <- <-]. auto.
  - intros b _. unfold write_thr, write_ier. split_and!; intros [= <- <-]; try done.
    + case_match; [done|]. apply poll_tracked, synced_tracked, update_isr_synced. unfold tracked. simpl.
      by rewrite write_data_line.
    + case_match; auto.
Qed.

Lemma do_access_synced a d v d' : do_access a d = Some (v, d') -> synced d -> synced d'.
Proof.
  intros Ha Hs. pose proof (synced_tracked _ Hs) as Ht. pose proof update_isr_synced.
  revert Ha. apply (do_access_cases (fun r => r = Some (v, d') -> synced d')); try done; try by intros [= <- <-].
  - unfold read_rhr. case_match; intros [= <- <-]; auto.
  - unfold read_ier. case_match; by intros [= <- <-].
  - intros [= <- <-]. by apply read_lsr_synced.
  - intros [= <- <-]. auto.
  - intros b _. unfold write_thr, write_ier. split_and!; intros [= <- <-]; try done.
    + case_match; [done|]. apply poll_synced, update_isr_synced. unfold tracked. simpl.
      by rewrite write_data_line.
    + case_match; auto.
Qed.

(** Once the driver has read the line status register, the interrupt line
    is up exactly when a source is both enabled and pending, and the status
    register names the source of highest priority, whatever accesses follow. *)
Theorem uart_irq_line l1 l2 d vs d' :
  tracked d -> run_accesses (l1 ++ Rd (4 * uart_reg_lsr) :: l2) d = Some (vs, d') ->
  line d'.2 = b2z (uart_pending d'.1) /\ isr d'.1 .& 0xF = isr_nibble d'.1.
Proof.
  intros Ht Hr. assert (synced d') as (H1 & _ & H3); [|done].
  assert (forall l d vs, synced d -> run_accesses l d = Some (vs, d') -> synced d') as Hs.
  { induction l as [|a l IH]; simpl; intros d0 vs0 H0; [by intros [= <- <-]|].
    destruct (do_access a d0) as [[v d1]|] eqn:Ha; [|done].
    destruct (run_accesses l d1) as [[vs1 d2]|] eqn:Hl; [|done]. intros [= <- <-].
    eapply IH; [|done]. by eapply do_access_synced. }
  revert d vs Ht Hr. induction l1 as [|a l1 IH]; intros d vs Ht; simpl.
  - destruct (run_accesses l2 _) as [[vs1 d1]|] eqn:Hl; [|done]. intros [= <- <-].
    eapply Hs; [|exact Hl]. by apply read_lsr_synced.
  - destruct (do_access a d) as [[v d1]|] eqn:Ha; [|done].
    destruct (run_accesses _ d1) as [[vs1 d2]|] eqn:Hl; [|done]. intros [= <- <-].
    eapply IH; [|done]. by eapply do_access_tracked.
Qed.

End Access.

(** ** The receive queue *)

(** the environment delivers the bytes of [chars] in order *)
Class InputStream (E : Type) {env : UartEnv E} (chars : E -> list Z) : Prop := {
  read_data_chars : forall c e,
    match chars e with
    | [] => (read_data c e).1 = (0, c) /\ chars (read_data c e).2 = []
    | b :: l => (read_data c e).1.1 <> 0 /\ (read_data c e).1.2 = b /\ chars (read_data c e).2 = l
    end;
  write_data_chars : forall c e, chars (write_data c e) = chars e;
  set_irq_chars : forall l e, chars (set_irq l e) = chars e
}.

Section Queue.
Context {E : Type} {env : UartEnv E} (chars : E -> list Z) {stream : InputStream E chars}.
Implicit Types d : DW_apb_uart_state * E.

(** the bytes received and not yet read: the holding register, then the stream *)
Definition rx_queue d : list Z :=
  (if Z.testbit (lsr d.1) 0 then [rhr d.1] else []) ++ chars d.2.

Definition nonempty (l : list Z) : bool := match l with [] => false | _ => true end.

Lemma update_isr_frame d :
  lsr (update_isr d).1 = lsr d.1 /\ rhr (update_isr d).1 = rhr d.1 /\ lcr (update_isr d).1 = lcr d.1
  /\ chars (update_isr d).2 = chars d.2.
Proof. unfold update_isr. cbv zeta. destruct (negb _); simpl; by rewrite ?(set_irq_chars (chars := chars)). Qed.

Lemma rx_queue_update_isr d : rx_queue (update_isr d) = rx_queue d.
Proof. unfold rx_queue. by destruct (update_isr_frame d) as (-> & -> & _ & ->). Qed.

Lemma dlab_update_isr d : dlab (update_isr d).1 = dlab d.1.
Proof. unfold dlab. by destruct (update_isr_frame d) as (_ & _ & -> & _). Qed.

Lemma rx_queue_upd f d :
  Z.testbit (lsr (f d.1)) 0 = Z.testbit (lsr d.1) 0 -> rhr (f d.1) = rhr d.1 -> rx_queue (upd f d) = rx_queue d.
Proof. unfold rx_queue. simpl. by intros -> ->. Qed.

Lemma lsr_bit0 x : tst (x .& 1) = Z.testbit x 0.
Proof. change 1 with (2 ^ 0). by rewrite tst_land_pow2. Qed.

(** polling moves a byte from the stream to the register when there is room *)
Lemma poll_queue d :
  rx_queue (dw_apb_uart_poll d) = rx_queue d
  /\ (Z.testbit (lsr (dw_apb_uart_poll d).1) 0 = nonempty (rx_queue d))
  /\ dlab (dw_apb_uart_poll d).1 = dlab d.1.
Proof.
  unfold dw_apb_uart_poll. rewrite lsr_bit0.
  destruct (Z.testbit (lsr d.1) 0) eqn:Hb; simpl.
  - unfold rx_queue. rewrite Hb. split_and!; try done.
  - pose proof (read_data_chars (chars := chars) (rhr d.1) d.2) as Hr. unfold rx_queue at 2. rewrite Hb. simpl.
    destruct (read_data _ _) as [[ret c] e]. simpl in Hr. rewrite rx_queue_update_isr, dlab_update_isr.
    assert (forall r, lsr (update_isr (set_lsr r (set_rhr c d.1), e)).1 = r) as Hl.
    { intros r. apply update_isr_frame. }
    rewrite Hl, Z.lor_spec, Hb. unfold rx_queue. rewrite Hb. simpl. rewrite Z.lor_spec, Hb. simpl.
    destruct (chars d.2) as [|b l].
    + destruct Hr as [[= -> ->] ->]. by rewrite testbit_b2z.
    + destruct Hr as (Hr & -> & ->). rewrite testbit_b2z by lia. by destruct (Z.eqb_spec ret 0).
Qed.

Lemma read_lsr_queue d :
  rx_queue (read_lsr d).2 = rx_queue d /\ Z.testbit (read_lsr d).1 0 = nonempty (rx_queue d)
  /\ dlab (read_lsr d).2.1 = dlab d.1 /\ lsr (read_lsr d).2.1 = (read_lsr d).1.
Proof.
  unfold read_lsr. cbn [fst snd]. rewrite rx_queue_update_isr, dlab_update_isr.
  match goal with |- context [dw_apb_uart_poll ?d'] => pose proof (poll_queue d') as (H1 & H2 & H3); set (d1 := d') in * end.
  assert (rx_queue d1 = rx_queue d) as Hq.
  { unfold d1. rewrite !rx_queue_upd; try done.
    - simpl. by rewrite Z.lor_spec, orb_false_r.
    - simpl. rewrite Z.land_spec. by rewrite andb_true_r. }
  assert (lsr (update_isr (dw_apb_uart_poll d1)).1 = lsr (dw_apb_uart_poll d1).1) as Hl by apply update_isr_frame.
  rewrite Hl, H1, H2, H3, Hq. done.
Qed.

Lemma read_rhr_queue d : dlab d.1 = false ->
  rx_queue (read_rhr d).2 = (if Z.testbit (lsr d.1) 0 then tail (rx_queue d) else rx_queue d)
  /\ (Z.testbit (lsr d.1) 0 = true -> head (rx_queue d) = Some (read_rhr d).1)
  /\ dlab (read_rhr d).2.1 = false.
Proof.
  intros Hd. unfold read_rhr. rewrite Hd. cbn [fst snd]. rewrite rx_queue_update_isr, dlab_update_isr.
  split_and!; [| |done].
  - unfold rx_queue. simpl. rewrite !Z.land_spec. change (Z.testbit (~~ (1 << 0)) 0) with false.
    rewrite andb_false_r. simpl. by destruct (Z.testbit (lsr d.1) 0).
  - unfold rx_queue. by intros ->.
Qed.

Lemma read_msr_queue d : rx_queue (read_msr d).2 = rx_queue d.
Proof. unfold read_msr. cbn [snd]. by rewrite rx_queue_update_isr. Qed.

Lemma write_queue v d :
  rx_queue (write_thr v d) = rx_queue d /\ rx_queue (write_ier v d) = rx_queue d.
Proof.
  unfold write_thr, write_ier. split; case_match; try done.
  - match goal with |- context [dw_apb_uart_poll ?d'] => destruct (poll_queue d') as (-> & _) end.
    rewrite rx_queue_update_isr, rx_queue_upd; try done.
    + unfold rx_queue. simpl. by rewrite (write_data_chars (chars := chars)).
    + simpl. rewrite Z.land_spec. by rewrite andb_true_r.
  - by rewrite rx_queue_update_isr.
Qed.

(** an access leaves the queue alone, except the read of a full holding
    register, which takes its head *)
Lemma do_access_queue a d v d' :
  do_access a d = Some (v, d') ->
  rx_queue d' = rx_queue d
  \/ (a = Rd (4 * uart_reg_rhr) /\ Z.testbit (lsr d.1) 0 = true /\ rx_queue d = v :: rx_queue d').
Proof.
  destruct a as [off|off b]; simpl.
  - unfold dw_apb_uart_read, uart_offset_ok. destruct (negb _) eqn:Ho; [done|].
    apply negb_false_iff, andb_true_iff in Ho as [Ho _]. apply Z.eqb_eq in Ho.
    destruct (Z.eqb_spec (off / 4) uart_reg_rhr) as [H0|_].
    + assert (off = 0) as -> by (unfold uart_reg_rhr in H0; pose proof (Z.div_mod off 4); lia). intros [= Hv].
      destruct (dlab d.1) eqn:Hd; [left; unfold read_rhr in Hv; rewrite Hd in Hv; by simplify_eq|].
      pose proof (read_rhr_queue d Hd) as (H1 & H2 & _). rewrite Hv in *. simpl in *.
      destruct (Z.testbit (lsr d.1) 0) eqn:Hb; [|by left]. right. split_and!; [done|done|].
      specialize (H2 eq_refl). rewrite H1. by destruct (rx_queue d); simplify_eq/=.
    + intros [= Hv]. left. change d' with (v, d').2. rewrite <- Hv.
      repeat (case_match; [first [done | apply read_lsr_queue | apply read_msr_queue
        | unfold read_ier; by case_match]|]). done.
  - unfold dw_apb_uart_write. cbv zeta. destruct (negb _); [done|]. intros [= _ <-]. left.
    destruct (write_queue (b .& 255) d) as [H1 H2].
    repeat (case_match; [done|]). done.
Qed.

(** the driver: read the line status, then the byte if one is ready *)
Fixpoint uart_drain (n : nat) d : list Z * (DW_apb_uart_state * E) :=
  match n with
  | O => ([], d)
  | S n =>
      let '(lsr, d) := read_lsr d in
      if tst (lsr .& 1) then
        let '(b, d) := read_rhr d in
        let '(l, d) := uart_drain n d in (b :: l, d)
      else ([], d)
  end.

Lemma uart_drain_queue n d : dlab d.1 = false ->
  uart_drain n d = (take n (rx_queue d), (uart_drain n d).2)
  /\ rx_queue (uart_drain n d).2 = drop n (rx_queue d).
Proof.
  revert d. induction n as [|n IH]; intros d Hd; cbn [uart_drain]; [by rewrite take_0, drop_0|].
  pose proof (read_lsr_queue d) as (H1 & H2 & H3 & H4). destruct (read_lsr d) as [r d1]. simpl in *.
  rewrite lsr_bit0, H2. destruct (rx_queue d) as [|b l] eqn:Hq; simpl; [done|].
  rewrite Hd in H3. pose proof (read_rhr_queue d1 H3) as (H5 & H6 & H7).
  rewrite H4, H2, H1 in *. specialize (H6 eq_refl). simpl in *.
  destruct (read_rhr d1) as [b' d2]. simpl in *. simplify_eq.
  destruct (IH d2 H7) as [H8 H9]. destruct (uart_drain n d2) as [l2 d3]. by simplify_eq/=.
Qed.

(** C36: the bytes a driver takes from the port are the bytes the device
    delivered, in order, none lost and none twice: every access keeps the queue
    of received bytes except the read of a full holding register, which takes
    its head; and the loop that reads the status and then the byte empties it. *)
Theorem uart_rx_queue a d v d' n :
  do_access a d = Some (v, d') ->
  (rx_queue d' = rx_queue d
   \/ (a = Rd (4 * uart_reg_rhr) /\ Z.testbit (lsr d.1) 0 = true /\ rx_queue d = v :: rx_queue d'))
  /\ (dlab d.1 = false -> (length (rx_queue d) <= n)%nat ->
      (uart_drain n d).1 = rx_queue d /\ rx_queue (uart_drain n d).2 = []).
Proof.
  intros Ha. split; [by apply do_access_queue|]. intros Hd Hn.
  destruct (uart_drain_queue n d Hd) as [-> ->]. simpl. by rewrite take_ge, drop_ge.
Qed.

End Queue.

(** ** A port with a buffered console *)

Record Buffer := mkBuffer { input : list Z; output : list Z; level : Z }.
#[export] Instance buffer_env : UartEnv Buffer := {|
  read_data old e := match input e with
    | [] => (0, old, e)
    | b :: l => (1, b, mkBuffer l (output e) (level e))
    end;
  write_data c e := mkBuffer (input e) (output e ++ [c]) (level e);
  set_irq l e := mkBuffer (input e) (output e) l
|}.

#[export] Instance buffer_stream : InputStream Buffer input.
Proof. split; [|done|done]. intros c e. simpl. by destruct (input e) eqn:Hi; simpl; split_and!. Qed.

Lemma buffer_read_level c e : level (read_data c e).2 = level e.
Proof. unfold read_data, buffer_env. by destruct (input e). Qed.

(** "AB" waiting; the receive interrupt is enabled, then the status is read *)
Definition buffer_port : DW_apb_uart_state * Buffer := (uart_init, mkBuffer [65; 66] [] 0).

Lemma uart_irq_line_witness :
  match run_accesses [Wr 4 1; Rd 20] buffer_port with
  | Some (_, d) => level d.2 = 1 /\ isr d.1 .& 0xF = 4
  | None => False
  end.
Proof.
  destruct (run_accesses [Wr 4 1; Rd 20] buffer_port) as [[vs d]|] eqn:Hr; [|discriminate].
  destruct (uart_irq_line (env := buffer_env) level (fun _ _ => eq_refl)
    buffer_read_level (fun _ _ => eq_refl)
    [Wr 4 1] [] buffer_port vs d eq_refl Hr) as [H1 H2].
  rewrite H1, H2. vm_compute in Hr. injection Hr as _ <-. split; reflexivity.
Defined.

Lemma uart_rx_queue_witness : (uart_drain 2 buffer_port).1 = [65; 66].
Proof.
  destruct (uart_rx_queue input (Rd 28) buffer_port 0 buffer_port 2 eq_refl) as [_ H].
  destruct (H eq_refl ltac:(simpl; lia)) as [-> _]. reflexivity.
Defined.

(** ** Registers keep their widths *)

Section Widths.
Context {E : Type} {env : UartEnv E} {wenv : WfUartEnv E}.
Implicit Types d : DW_apb_uart_state * E.

Lemma wf_update_isr d : wf_uart d.1 -> wf_uart (update_isr d).1.
Proof.
  intros Hw. unfold update_isr. cbv zeta. case_match; simpl.
  - wf_uart_tac. destruct (negb (tst _)); simpl; auto.
  - wf_uart_tac.
Qed.

Lemma wf_poll d : wf_uart d.1 -> wf_uart (dw_apb_uart_poll d).1.
Proof.
  intros Hw. unfold dw_apb_uart_poll. case_match; [|done].
  pose proof (read_data_byte (rhr d.1) d.2 (wf_rhr _ Hw)). destruct (read_data _ _) as [[ret c] e].
  cbv zeta. apply wf_update_isr. simpl in *. wf_uart_tac.
Qed.

(** every access keeps every register in its type, and reads return a byte *)
Lemma wf_do_access a d v d' : do_access a d = Some (v, d') -> wf_uart d.1 -> wf_uart d'.1 /\ in_u 8 v.
Proof.
  intros Ha Hw. revert Ha.
  apply (do_access_cases (fun r => r = Some (v, d') -> wf_uart d'.1 /\ in_u 8 v)); try done;
    try (intros [= <- <-]; split; [done|apply Hw]).
  - intros [= <- <-]. split; [done|by apply in_u_0].
  - unfold read_rhr. case_match; intros [= <- <-]; (split; [|in_u_tac || apply Hw]); [done|].
    apply wf_update_isr. simpl. wf_uart_tac.
  - unfold read_ier. case_match; intros [= <- <-]; (split; [done|in_u_tac || apply Hw]).
  - intros [= <- <-].
    assert (wf_uart (read_lsr d).2.1) as H.
    { unfold read_lsr. cbn [snd]. apply wf_update_isr, wf_poll. simpl. wf_uart_tac. }
    split; [exact H|apply H].
  - unfold read_msr. intros [= <- <-]. split; [|apply Hw]. apply wf_update_isr. simpl. wf_uart_tac.
  - intros b Hb. unfold write_thr, write_ier.
    split_and!; intros [= <- <-]; (split; [|by apply in_u_0]); try (simpl; wf_uart_tac; fail).
    + case_match; [simpl; wf_uart_tac|]. apply wf_poll, wf_update_isr. simpl. wf_uart_tac.
    + case_match; [simpl; wf_uart_tac|]. apply wf_update_isr. simpl. wf_uart_tac.
Qed.

End Widths.
