(* ===== verification/Machine.v ===== *)
(** * The machine's devices: CLINT, PLIC and how the hart reaches them (riscv_machine.cpp)

    [RISCVMachine] holds the harts, the interrupt controller, the serial ports
    and the console.  A hart runs on the [World] of Mmu.v, whose device state is
    then a [Board]: the machine and the index of the hart that runs.  The code's
    [cpu_state[i]] are pointers: a device that changes a hart changes the one
    that runs too, so [board_sync] writes the running hart into the machine
    before a device works and takes it back afterwards. *)

From S2P Require Import Prelude Riscv CpuState Cutils IoMem Mmu Trap Uart.

Definition MAX_CPUS : Z := 8.
Definition PLIC_BASE_ADDR : Z := 0x10000000.
Definition PLIC_SIZE : Z := 0x2000000.
Definition CLINT_BASE_ADDR : Z := 0x02000000.
Definition CLINT_SIZE : Z := 0x000c0000.
Definition CPU_FREQUENCY : Z := 2000000000.
Definition RTC_FREQ : Z := 1000000.
Definition RTC_FREQ_DIV : Z := CPU_FREQUENCY / RTC_FREQ.
Definition VIRTIO_BASE_ADDR : Z := 0x40010000.
Definition VIRTIO_SIZE : Z := 0x1000.
Definition VIRTIO_IRQ : Z := 4.
Definition UART0_BASE_ADDR : Z := 0x54000000.
Definition UART0_SIZE : Z := 32.
Definition DW_APB_UART0_BASE_ADDR : Z := 0x12002000.
Definition DW_APB_UART0_SIZE : Z := 0x1000.
Definition DW_APB_UART0_IRQ : Z := 3.
Definition DW_APB_UART1_BASE_ADDR : Z := 0x12007000.
Definition DW_APB_UART1_SIZE : Z := 0x1000.
Definition DW_APB_UART1_IRQ : Z := 15.

(** The console's callbacks ([CharacterDevice]) on its state [C]. *)
Class Console (C : Type) := {
  console_read : Z -> C -> Z * Z * C;
  console_write : Z -> C -> C
}.

Record RISCVMachine (C : Type) := mkMachine {
  cpu_state : list RISCVCPUState;
  plic_pending_irq : Z;
  plic_served_irq : Z;
  plic_priority : list Z;
  dw_apb_uart : DW_apb_uart_state;
  sifive_uart : SiFiveUARTState;
  console : C;
  common_cosim : bool;
  common_pending_interrupt : Z
}.
#[global] Arguments mkMachine {C}.
#[global] Arguments cpu_state {C}.
#[global] Arguments plic_pending_irq {C}.
#[global] Arguments plic_served_irq {C}.
#[global] Arguments plic_priority {C}.
#[global] Arguments dw_apb_uart {C}.
#[global] Arguments sifive_uart {C}.
#[global] Arguments console {C}.
#[global] Arguments common_cosim {C}.
#[global] Arguments common_pending_interrupt {C}.

Section Machine.
Context {C : Type} {con : Console C}.
Implicit Types m : RISCVMachine C.

Definition set_cpu_state l m : RISCVMachine C := mkMachine l (plic_pending_irq m) (plic_served_irq m)
  (plic_priority m) (dw_apb_uart m) (sifive_uart m) (console m) (common_cosim m) (common_pending_interrupt m).
Definition set_plic p s m : RISCVMachine C := mkMachine (cpu_state m) p s
  (plic_priority m) (dw_apb_uart m) (sifive_uart m) (console m) (common_cosim m) (common_pending_interrupt m).
Definition set_plic_priority l m : RISCVMachine C := mkMachine (cpu_state m) (plic_pending_irq m) (plic_served_irq m)
  l (dw_apb_uart m) (sifive_uart m) (console m) (common_cosim m) (common_pending_interrupt m).
Definition set_dw_apb_uart u m : RISCVMachine C := mkMachine (cpu_state m) (plic_pending_irq m) (plic_served_irq m)
  (plic_priority m) u (sifive_uart m) (console m) (common_cosim m) (common_pending_interrupt m).
Definition set_sifive_uart u m : RISCVMachine C := mkMachine (cpu_state m) (plic_pending_irq m) (plic_served_irq m)
  (plic_priority m) (dw_apb_uart m) u (console m) (common_cosim m) (common_pending_interrupt m).
Definition set_console c m : RISCVMachine C := mkMachine (cpu_state m) (plic_pending_irq m) (plic_served_irq m)
  (plic_priority m) (dw_apb_uart m) (sifive_uart m) c (common_cosim m) (common_pending_interrupt m).

Definition ncpus m : Z := Z.of_nat (length (cpu_state m)).
(** [m->cpu_state[i]]: [None] is the NULL pointer of an absent hart *)
Definition hart m (i : Z) : option RISCVCPUState := cpu_state m !! Z.to_nat i.
Definition set_hart (i : Z) (s : RISCVCPUState) m : RISCVMachine C :=
  set_cpu_state (<[Z.to_nat i := s]> (cpu_state m)) m.
Definition upd_hart (i : Z) (f : RISCVCPUState -> RISCVCPUState) m : RISCVMachine C :=
  set_cpu_state (alter f (Z.to_nat i) (cpu_state m)) m.

(** [riscv_cpu_set_mip] on a hart of the machine *)
Definition hart_set_mip m (mask : Z) (s : RISCVCPUState) : RISCVCPUState :=
  cpu (riscv_cpu_set_mip mask (mkWorld s [] ∅ tt (common_cosim m) (common_pending_interrupt m))).

(** [cpu_state[0]->mcycle]; a machine has at least one hart *)
Definition mcycle0 m : Z := match hart m 0 with Some s => mcycle s | None => 0 end.
Definition rtc_get_time m : Z := mcycle0 m / RTC_FREQ_DIV.

(** ** CLINT *)

(** the value truncated to the access size *)
Definition clint_size (val size_log2 : Z) : Z :=
  if size_log2 =? 1 then val .& 0xffff else if size_log2 =? 2 then val .& 0xffffffff else val.

Definition clint_read (offset size_log2 : Z) m : Z :=
  let val :=
    if offset <? 0x4000 then
      match hart m (offset >> 2) with
      | Some s => b2z (negb ((riscv_cpu_get_mip s .& MIP_MSIP) =? 0))
      | None => 0
      end
    else if offset =? 0xbff8 then u32 (rtc_get_time m)
    else if offset =? 0xbffc then u32 (rtc_get_time m >> 32)
    else if offset <? 0xbff8 then
      match hart m ((offset - 0x4000) >> 3) with
      | Some s => if tst ((offset >> 2) .& 1) then u32 (timecmp s >> 32) else u32 (timecmp s)
      | None => 0
      end
    else 0 in
  clint_size val size_log2.

(** [~0xffffffff] is an unsigned int: zero *)
Definition clint_write (offset val size_log2 : Z) m : RISCVMachine C :=
  let val := clint_size val size_log2 in
  if offset <? 0x4000 then
    if tst (val .& 1) then upd_hart (offset >> 2) (hart_set_mip m MIP_MSIP) m
    else upd_hart (offset >> 2) (riscv_cpu_reset_mip MIP_MSIP) m
  else if offset =? 0xbff8 then
    let mtime := u64 ((rtc_get_time m .& 0xFFFFFFFF00000000) + val) in
    upd_hart 0 (with_mcycle (u64 (mtime * RTC_FREQ_DIV))) m
  else if offset =? 0xbffc then
    let mtime := u64 ((rtc_get_time m .& 0xFFFFFFFF) + (val << 32)) in
    upd_hart 0 (with_mcycle (u64 (mtime * RTC_FREQ_DIV))) m
  else if offset <? 0xbff8 then
    upd_hart ((offset - 0x4000) >> 3) (fun s =>
      riscv_cpu_reset_mip MIP_MTIP
        (if tst ((offset >> 2) .& 1)
         then with_timecmp ((timecmp s .& 0xffffffff) .| (val << 32)) s
         else with_timecmp ((timecmp s .& u32 (~~ 0xffffffff)) .| val) s)) m
  else m.

(** ** PLIC *)

Definition plic_mask m : Z := plic_pending_irq m .& u32 (~~ plic_served_irq m).

(** one hart's external interrupt lines: context 0 drives SEIP, context 1 MEIP *)
Definition plic_update_hart m (s : RISCVCPUState) : RISCVCPUState :=
  foldl (fun s ctx =>
    let mip_mask := if ctx =? 0 then MIP_SEIP else MIP_MEIP in
    if tst (plic_mask m .& rd (plic_enable_irq s) ctx) then hart_set_mip m mip_mask s
    else riscv_cpu_reset_mip mip_mask s) s [0; 1].

(** [None]: the hart does not exist and a NULL pointer is followed *)
Definition plic_update_mip (hartid : Z) m : option (RISCVMachine C) :=
  match hart m hartid with
  | Some s => Some (set_hart hartid (plic_update_hart m s) m)
  | None => None
  end.

Definition in_region (offset base size : Z) : bool := (base <=? offset) && (offset <? base + size).

(** [None]: the assertion on the size fails, or a NULL pointer is followed *)
Definition plic_read (offset size_log2 : Z) m : option (Z * RISCVMachine C) :=
  if negb (size_log2 =? 2) then None
  else if in_region offset PLIC_PRIORITY_BASE (PLIC_NUM_SOURCES << 2) then
    Some (rd (plic_priority m) ((offset - PLIC_PRIORITY_BASE) >> 2), m)
  else if in_region offset PLIC_PENDING_BASE (PLIC_NUM_SOURCES >> 3) then
    Some (if offset =? PLIC_PENDING_BASE then plic_pending_irq m else 0, m)
  else if in_region offset PLIC_ENABLE_BASE (PLIC_ENABLE_STRIDE * MAX_CPUS) then
    let addrid := (offset - PLIC_ENABLE_BASE) / PLIC_ENABLE_STRIDE in
    let hartid := addrid / 2 in
    Some (match hart m hartid with Some s => rd (plic_enable_irq s) (addrid mod 2) | None => 0 end, m)
  else if in_region offset PLIC_CONTEXT_BASE (PLIC_CONTEXT_STRIDE * MAX_CPUS) then
    let hartid := (offset - PLIC_CONTEXT_BASE) / PLIC_CONTEXT_STRIDE in
    let wordid := (offset .& (PLIC_CONTEXT_STRIDE - 1)) >> 2 in
    if wordid =? 1 then
      let mask := plic_mask m in
      if negb (mask =? 0) then
        let i := ctz32 mask in
        let m := set_plic (plic_pending_irq m .& u32 (~~ (1 << i))) (plic_served_irq m .| (1 << i)) m in
        match plic_update_mip hartid m with Some m => Some (i, m) | None => None end
      else Some (0, m)
    else Some (0, m)
  else Some (0, m).

Definition plic_write (offset val size_log2 : Z) m : option (RISCVMachine C) :=
  if negb (size_log2 =? 2) then None
  else if in_region offset PLIC_PRIORITY_BASE (PLIC_NUM_SOURCES << 2) then
    Some (set_plic_priority (wr (plic_priority m) ((offset - PLIC_PRIORITY_BASE) >> 2) (val .& 7)) m)
  else if in_region offset PLIC_PENDING_BASE (PLIC_NUM_SOURCES >> 3) then Some m
  else if in_region offset PLIC_ENABLE_BASE (PLIC_ENABLE_STRIDE * MAX_CPUS) then
    let addrid := (offset - PLIC_ENABLE_BASE) / PLIC_ENABLE_STRIDE in
    let hartid := addrid / 2 in
    Some (upd_hart hartid (fun s => with_plic_enable_irq (wr (plic_enable_irq s) (addrid mod 2) val) s) m)
  else if in_region offset PLIC_CONTEXT_BASE (PLIC_CONTEXT_STRIDE * MAX_CPUS) then
    let wordid := (offset .& (PLIC_CONTEXT_STRIDE - 1)) >> 2 in
    if wordid =? 0 then Some (set_plic_priority (wr (plic_priority m) wordid val) m)
    else if wordid =? 1 then
      let irq := val .& 31 in
      Some (set_plic (plic_pending_irq m) (plic_served_irq m .& u32 (~~ (1 << irq))) m)
    else Some m
  else Some m.

(** every hart's lines are recomputed *)
Definition plic_set_irq (irq_num state : Z) m : RISCVMachine C :=
  let mask := u32 (1 << irq_num) in
  let m := set_plic (if negb (state =? 0) then plic_pending_irq m .| mask
                     else plic_pending_irq m .& u32 (~~ mask)) (plic_served_irq m) m in
  set_cpu_state (map (plic_update_hart m) (cpu_state m)) m.

(** ** The timer *)

(** [None]: the hart does not exist *)
Definition virt_machine_get_sleep_duration (hartid ms_delay : Z) m : option (Z * RISCVMachine C) :=
  match hart m hartid with
  | None => None
  | Some s =>
      let '(ms_delay, m) :=
        if negb (tst (riscv_cpu_get_mip s .& MIP_MTIP)) && (0 <? rtc_get_time m) then
          let ms_delay1 := s64 (timecmp s - rtc_get_time m) in
          if ms_delay1 <=? 0 then (0, set_hart hartid (hart_set_mip m MIP_MTIP s) m)
          else
            let ms_delay1 := Z.quot ms_delay1 (RTC_FREQ / 1000) in
            (if ms_delay1 <? ms_delay then ms_delay1 else ms_delay, m)
        else (ms_delay, m) in
      let awake := match hart m hartid with Some s => negb (riscv_cpu_get_power_down s) | None => false end in
      Some (if awake then 0 else ms_delay, m)
  end.

(** ** The harts' view of the devices *)

(** the UARTs act on the machine: the console, and PLIC input [DW_APB_UART0_IRQ] *)
#[export] Instance machine_uart_env : UartEnv (RISCVMachine C) := {|
  read_data old m := let '(ret, c, con') := console_read old (console m) in (ret, c, set_console con' m);
  write_data c m := set_console (console_write c (console m)) m;
  set_irq level m := plic_set_irq DW_APB_UART0_IRQ level m
|}.

(** what the callbacks of a range are: [pr->opaque] and the functions *)
Definition DEV_SIFIVE_UART : Z := 1.
Definition DEV_DW_APB_UART : Z := 2.
Definition DEV_CLINT : Z := 3.
Definition DEV_PLIC : Z := 4.

Definition machine_read (opaque offset size_log2 : Z) m : option (Z * RISCVMachine C) :=
  if opaque =? DEV_SIFIVE_UART then
    let '(val, m) := uart_read offset 0 (sifive_uart m) m in Some (u32 val, m)
  else if opaque =? DEV_DW_APB_UART then
    match dw_apb_uart_read offset (dw_apb_uart m, m) with
    | Some (val, (u, m)) => Some (val, set_dw_apb_uart u m)
    | None => None
    end
  else if opaque =? DEV_CLINT then Some (clint_read offset size_log2 m, m)
  else if opaque =? DEV_PLIC then plic_read offset size_log2 m
  else Some (0, m).

Definition machine_write (opaque offset val size_log2 : Z) m : option (RISCVMachine C) :=
  if opaque =? DEV_SIFIVE_UART then
    let '(u, m) := uart_write offset val (sifive_uart m) m in Some (set_sifive_uart u m)
  else if opaque =? DEV_DW_APB_UART then
    match dw_apb_uart_write offset val (dw_apb_uart m, m) with
    | Some (u, m) => Some (set_dw_apb_uart u m)
    | None => None
    end
  else if opaque =? DEV_CLINT then Some (clint_write offset val size_log2 m)
  else if opaque =? DEV_PLIC then plic_write offset val size_log2 m
  else Some m.

(** [crashed]: an assertion failed or a NULL pointer was followed *)
Record Board := mkBoard { machine : RISCVMachine C; running : Z; crashed : bool }.

Definition sync (w : World Board) : RISCVMachine C :=
  set_hart (running (dev w)) (cpu w) (machine (dev w)).
Definition back (m : RISCVMachine C) (w : World Board) : World Board :=
  let s := match hart m (running (dev w)) with Some s => s | None => cpu w end in
  with_cpu s (with_dev (mkBoard m (running (dev w)) (crashed (dev w))) w).
Definition crash (w : World Board) : World Board :=
  with_dev (mkBoard (machine (dev w)) (running (dev w)) true) w.

(** the callbacks' [offset] and [val] parameters are [uint32_t] *)
#[export] Instance board_io : DeviceIO Board := {|
  read_func opaque offset size_log2 w :=
    match machine_read opaque (u32 offset) size_log2 (sync w) with
    | Some (val, m) => (val, back m w)
    | None => (0, crash w)
    end;
  write_func opaque offset val size_log2 w :=
    match machine_write opaque (u32 offset) (u32 val) size_log2 (sync w) with
    | Some m => back m w
    | None => crash w
    end
|}.

End Machine.
#[global] Arguments Board C : clear implicits.
