(* ===== verification/MachineProps.v ===== *)
(** * What the machine's devices guarantee

    The machine's invariant, when an access stops the emulator, the interrupt
    controller's claim protocol, the timer's registers. *)

From S2P Require Import Prelude Riscv CpuState Cutils IoMem Mmu Csr Trap Invariant WorldInv Uart UartProps Machine.

(** the console returns bytes *)
Class WfConsole (C : Type) {con : Console C} : Prop := {
  console_read_byte : forall old c, in_u 8 old -> in_u 8 (console_read old c).1.2
}.

Record wf_sifive (s : SiFiveUARTState) : Prop := {
  wf_sf_ie : in_u 32 (sf_ie s);
  wf_sf_txctrl : in_u 32 (sf_txctrl s);
  wf_sf_rxctrl : in_u 32 (sf_rxctrl s);
  wf_sf_div : in_u 32 (sf_div s)
}.

(** [n] harts, and every register of the devices holds a value of its C type *)
Record wf_regs {C} (n : nat) (m : RISCVMachine C) : Prop := {
  wf_ncpus : length (cpu_state m) = n;
  wf_pending : in_u 32 (plic_pending_irq m);
  wf_served : in_u 32 (plic_served_irq m);
  wf_priority : arr (Z.to_nat PLIC_NUM_SOURCES + 1) (in_u 32) (plic_priority m);
  wf_dw_apb_uart : wf_uart (dw_apb_uart m);
  wf_sifive_uart : wf_sifive (sifive_uart m)
}.

(** the harts of the set [I] are well formed *)
Definition harts_ok {C} (I : nat -> Prop) (m : RISCVMachine C) : Prop :=
  forall i s, I i -> cpu_state m !! i = Some s -> wf_cpu s.

Definition wf_machine {C} (n : nat) (m : RISCVMachine C) : Prop :=
  wf_regs n m /\ harts_ok (fun _ => True) m.

Section Machine.
Context {C : Type} {con : Console C} {I : nat -> Prop} {n : nat}.
Implicit Types m : RISCVMachine C.

(** ** Operations on one hart *)

Lemma hart_set_mip_wf m mask s : wf_cpu s -> in_u 32 mask -> wf_cpu (hart_set_mip m mask s).
Proof.
  intros Hs Hm. unfold hart_set_mip, riscv_cpu_set_mip. cbv zeta.
  assert (wf_cpu (with_mip (mip s .| mask) s)) by (apply wf_with_mip; [apply lor_in_u; [lia|apply Hs|done]|done]).
  case_match; simpl; [by apply wf_with_power_down_flag|done].
Qed.

Lemma reset_mip_wf mask s : wf_cpu s -> wf_cpu (riscv_cpu_reset_mip mask s).
Proof. intros Hs. unfold riscv_cpu_reset_mip. apply wf_with_mip; [|done]. apply land_in_u_l; [lia|apply Hs]. Qed.

Lemma plic_update_hart_wf m s : wf_cpu s -> wf_cpu (plic_update_hart m s).
Proof.
  intros Hs. unfold plic_update_hart. apply (foldl_inv wf_cpu); [done|].
  intros s' ctx Hs' _. cbv zeta. case_match; [|by apply reset_mip_wf].
  apply hart_set_mip_wf; [done|]. case_match; by vm_compute.
Qed.

(** ** The harts *)

Lemma upd_hart_harts i f m : (forall s, wf_cpu s -> wf_cpu (f s)) -> harts_ok I m -> harts_ok I (upd_hart i f m).
Proof.
  intros Hf Hm j s Hj. simpl. rewrite list_lookup_alter. case_decide; [subst j|by apply Hm].
  intros (s' & Hs & ->)%fmap_Some. apply Hf. by eapply Hm.
Qed.

Lemma plic_set_irq_harts i l m : harts_ok I m -> harts_ok I (plic_set_irq i l m).
Proof.
  intros Hm j s Hj. unfold plic_set_irq. simpl. rewrite list_lookup_fmap.
  intros (s' & Hs & ->)%fmap_Some. apply plic_update_hart_wf. by eapply Hm.
Qed.

Lemma plic_update_mip_harts i m m' : plic_update_mip i m = Some m' -> harts_ok I m -> harts_ok I m'.
Proof.
  unfold plic_update_mip, hart. destruct (cpu_state m !! Z.to_nat i) as [s|] eqn:Hs; [|done].
  intros [= <-] Hm j s' Hj. simpl. rewrite list_lookup_insert. case_decide as Hd; [|by apply Hm].
  intros [= <-]. apply plic_update_hart_wf. destruct Hd as [<- _]. by eapply Hm.
Qed.

Lemma plic_read_harts off sz m v m' : plic_read off sz m = Some (v, m') -> harts_ok I m -> harts_ok I m'.
Proof.
  intros Hr Hm. revert Hr. unfold plic_read. cbv zeta.
  repeat (case_match; [try done; try by intros [= <- <-]|]); try by intros [= <- <-].
  intros [= <- <-]. by eapply plic_update_mip_harts.
Qed.

Lemma plic_write_harts off v sz m m' :
  in_u 32 v -> plic_write off v sz m = Some m' -> harts_ok I m -> harts_ok I m'.
Proof.
  intros Hv Hr Hm. revert Hr. unfold plic_write. cbv zeta.
  repeat (case_match; try done; try by intros [= <-]).
  intros [= <-]. apply upd_hart_harts; [|done].
  intros s Hs. apply wf_with_plic_enable_irq; [|done]. by apply arr_wr; [apply Hs|].
Qed.

Lemma clint_write_harts off v sz m : harts_ok I m -> harts_ok I (clint_write off v sz m).
Proof.
  intros Hm. unfold clint_write. cbv zeta.
  assert (forall x, in_u 64 (u64 x)) by (intros x; apply uN_range; lia).
  repeat case_match; try done; apply upd_hart_harts; try done; intros s Hs;
    first [ apply hart_set_mip_wf; [done|by vm_compute] | apply reset_mip_wf | idtac ];
    auto using wf_with_timecmp, wf_with_mcycle.
Qed.

Lemma env_harts m :
  (forall c, harts_ok I m -> harts_ok I (read_data c m).2) /\ (forall c, harts_ok I m -> harts_ok I (write_data c m))
  /\ (forall l, harts_ok I m -> harts_ok I (set_irq l m)).
Proof.
  split_and!; simpl; [|done|intros l; apply plic_set_irq_harts].
  intros c Hm. by destruct (console_read c (console m)) as [[ret b] con'].
Qed.

Lemma dw_access_harts a m v u m' :
  do_access a (dw_apb_uart m, m) = Some (v, (u, m')) -> harts_ok I m -> harts_ok I m'.
Proof.
  intros Ha Hm. apply (do_access_env (harts_ok I) a (dw_apb_uart m, m) v (u, m')); try done;
    intros; by apply env_harts.
Qed.

Lemma uart_read_frame (P : RISCVMachine C -> Prop) off g s m :
  (P m -> P (read_data g m).2) -> P m -> P (uart_read off g s m).2.
Proof.
  intros Hr Hm. unfold uart_read. specialize (Hr Hm).
  case_match; [by destruct (read_data _ _) as [[ret r] e]|]. by repeat (case_match; [done|]).
Qed.

Lemma uart_write_frame (P : RISCVMachine C -> Prop) off v s m :
  (P m -> P (write_data (u8 v) m)) -> P m -> P (uart_write off v s m).2.
Proof. intros Hw Hm. specialize (Hw Hm). unfold uart_write. by repeat case_match. Qed.

Lemma machine_read_harts o off sz m v m' :
  machine_read o off sz m = Some (v, m') -> harts_ok I m -> harts_ok I m'.
Proof.
  intros Hr Hm. revert Hr. unfold machine_read.
  repeat match goal with |- (if ?c then _ else _) = _ -> _ => destruct c end; intros Hr; try by simplify_eq.
  - pose proof (uart_read_frame (harts_ok I) off 0 (sifive_uart m) m (proj1 (env_harts m) 0) Hm).
    destruct (uart_read _ _ _ _) as [r1 m1]. by simplify_eq/=.
  - destruct (dw_apb_uart_read _ _) as [[r [u m1]]|] eqn:Hd; [|done]. simplify_eq.
    by apply (dw_access_harts (Rd off) m v u m1 Hd Hm).
  - by eapply plic_read_harts.
Qed.

Lemma machine_write_harts o off v sz m m' :
  in_u 32 v -> machine_write o off v sz m = Some m' -> harts_ok I m -> harts_ok I m'.
Proof.
  intros Hv Hr Hm. revert Hr. unfold machine_write.
  repeat match goal with |- (if ?c then _ else _) = _ -> _ => destruct c end; intros Hr; simplify_eq; try done.
  - pose proof (uart_write_frame (harts_ok I) off v (sifive_uart m) m (proj1 (proj2 (env_harts m)) _) Hm).
    destruct (uart_write _ _ _ _) as [u1 m1]. by simplify_eq.
  - destruct (dw_apb_uart_write _ _ _) as [[u m1]|] eqn:Hd; [|done]. simplify_eq.
    apply (dw_access_harts (Wr off v) m 0 u m1); [|done]. simpl. by rewrite Hd.
  - by apply clint_write_harts.
  - by eapply plic_write_harts.
Qed.

(** ** The registers *)

Ltac regs := match goal with H : wf_regs _ _ |- _ => destruct H end;
  constructor; simpl; rewrite ?length_alter, ?length_insert, ?length_map; try done.

Lemma upd_hart_regs i f m : wf_regs n m -> wf_regs n (upd_hart i f m).
Proof. intros. regs. Qed.
Lemma set_plic_regs p q m : in_u 32 p -> in_u 32 q -> wf_regs n m -> wf_regs n (set_plic p q m).
Proof. intros. regs. Qed.
Lemma set_plic_priority_regs i v m :
  in_u 32 v -> wf_regs n m -> wf_regs n (set_plic_priority (wr (plic_priority m) i v) m).
Proof. intros. regs. by apply arr_wr. Qed.
Lemma set_dw_apb_uart_regs u m : wf_uart u -> wf_regs n m -> wf_regs n (set_dw_apb_uart u m).
Proof. intros. regs. Qed.
Lemma set_sifive_uart_regs u m : wf_sifive u -> wf_regs n m -> wf_regs n (set_sifive_uart u m).
Proof. intros. regs. Qed.
Lemma set_console_regs c m : wf_regs n m -> wf_regs n (set_console c m).
Proof. intros. regs. Qed.

Lemma bit32_in_u i : 0 <= i < 32 -> in_u 32 (1 << i).
Proof.
  intros Hi. unfold in_u. rewrite shiftl_mul by lia.
  pose proof (pow2_pos i ltac:(lia)). pose proof (Z.pow_lt_mono_r 2 i 32). lia.
Qed.

Lemma plic_set_irq_regs i l m : 0 <= i < 32 -> wf_regs n m -> wf_regs n (plic_set_irq i l m).
Proof.
  intros Hi Hm. unfold plic_set_irq. cbv zeta.
  assert (in_u 32 (u32 (1 << i))) by (apply uN_range; lia). pose proof (wf_pending _ _ Hm).
  regs. case_match; [by apply lor_in_u|by apply land_in_u_l].
Qed.

Lemma plic_update_mip_regs i m m' : plic_update_mip i m = Some m' -> wf_regs n m -> wf_regs n m'.
Proof. unfold plic_update_mip. destruct (hart m i); [|done]. intros [= <-] ?. regs. Qed.

Lemma plic_mask_in_u m : wf_regs n m -> in_u 32 (plic_mask m).
Proof. intros Hm. apply land_in_u_l; [lia|apply Hm]. Qed.

(** the claim: the source moved from pending to in service *)
Definition plic_claimed (i : Z) m : RISCVMachine C :=
  set_plic (plic_pending_irq m .& u32 (~~ (1 << i))) (plic_served_irq m .| (1 << i)) m.

Lemma plic_claimed_regs i m : 0 <= i < 32 -> wf_regs n m -> wf_regs n (plic_claimed i m).
Proof.
  intros Hi Hm. apply set_plic_regs; [| |done].
  - apply land_in_u_l; [lia|apply Hm].
  - apply lor_in_u; [lia|apply Hm|by apply bit32_in_u].
Qed.

Lemma plic_read_regs off sz m v m' :
  plic_read off sz m = Some (v, m') -> wf_machine n m -> wf_regs n m' /\ in_u 32 v.
Proof.
  intros Hr [Hm Hh]. revert Hr. unfold plic_read. cbv zeta.
  assert (in_u 32 0) by (by apply in_u_0).
  repeat (case_match; [try done; try (intros [= <- <-]; split; [done|])|]); try by intros [= <- <-].
  - apply (arr_rd 32 (Z.to_nat PLIC_NUM_SOURCES + 1)); [lia|apply Hm].
  - apply Hm.
  - done.
  - eapply arr_rd; [lia|]. apply wf_plic_enable_irq. by eapply Hh.
  - by apply in_u_0.
  - match goal with H : negb (plic_mask m =? 0) = true |- _ => apply negb_true_iff, Z.eqb_neq in H as Hz end.
    intros [= <- <-]. destruct (ctz32_spec _ (plic_mask_in_u m Hm) Hz) as [Hi _]. split.
    + eapply plic_update_mip_regs; [done|]. by apply plic_claimed_regs.
    + apply (in_u_weaken 5); unfold in_u; lia.
Qed.

Lemma plic_write_regs off v sz m m' :
  in_u 32 v -> plic_write off v sz m = Some m' -> wf_regs n m -> wf_regs n m'.
Proof.
  intros Hv Hr Hm. revert Hr. unfold plic_write. cbv zeta.
  repeat (case_match; [try done; intros [= <-]|]); try by intros [= <-].
  - apply set_plic_priority_regs; [in_u_tac|done].
  - done.
  - by apply upd_hart_regs.
  - repeat case_match; intros [= <-]; [by apply set_plic_priority_regs| |done|done].
    apply set_plic_regs; [apply Hm| |done]. apply land_in_u_l; [lia|apply Hm].
Qed.

Lemma clint_read_in_u off sz m : in_u 32 (clint_read off sz m).
Proof.
  unfold clint_read. cbv zeta. match goal with |- in_u _ (clint_size ?v _) => assert (in_u 32 v) as Hv end.
  { repeat case_match; first [apply uN_range; lia | by apply in_u_0 | apply in_u_b2z; lia]. }
  revert Hv. match goal with |- in_u _ ?v -> _ => generalize v end. intros v Hv.
  unfold clint_size. repeat case_match; first [done | by apply land_in_u_l].
Qed.

Lemma clint_write_regs off v sz m : wf_regs n m -> wf_regs n (clint_write off v sz m).
Proof. intros Hm. unfold clint_write. cbv zeta. repeat case_match; try done; by apply upd_hart_regs. Qed.

(** the machine as the serial port's environment *)
#[export] Instance machine_uart_wf {wcon : WfConsole C} : WfUartEnv (RISCVMachine C).
Proof.
  split. intros c m Hc. simpl. pose proof (console_read_byte c (console m) Hc).
  by destruct (console_read c (console m)) as [[ret b] con'].
Qed.

Lemma env_regs m :
  (forall c, wf_regs n m -> wf_regs n (read_data c m).2) /\ (forall c, wf_regs n m -> wf_regs n (write_data c m))
  /\ (forall l, wf_regs n m -> wf_regs n (set_irq l m)).
Proof.
  split_and!; simpl.
  - intros c Hm. destruct (console_read c (console m)) as [[ret b] con']. by apply set_console_regs.
  - intros c. by apply set_console_regs.
  - intros l. apply plic_set_irq_regs. unfold DW_APB_UART0_IRQ. lia.
Qed.

Lemma dw_access_regs {wcon : WfConsole C} a m v u m' :
  do_access a (dw_apb_uart m, m) = Some (v, (u, m')) -> wf_regs n m ->
  wf_regs n (set_dw_apb_uart u m') /\ in_u 8 v.
Proof.
  intros Ha Hm. destruct (wf_do_access _ _ _ _ Ha) as [Hu Hv]; [by eapply wf_dw_apb_uart|]. split; [|done].
  apply set_dw_apb_uart_regs; [done|].
  apply (do_access_env (wf_regs n) a (dw_apb_uart m, m) v (u, m')); try done; intros; by apply env_regs.
Qed.

Lemma uart_write_wf off v m : in_u 32 v -> wf_regs n m -> wf_sifive (uart_write off v (sifive_uart m) m).1.
Proof.
  intros Hv Hm. pose proof (wf_sifive_uart _ _ Hm) as [? ? ? ?]. unfold uart_write. by repeat case_match.
Qed.

Lemma machine_read_wf {wcon : WfConsole C} o off sz m v m' :
  machine_read o off sz m = Some (v, m') -> wf_machine n m -> wf_regs n m' /\ in_u 32 v.
Proof.
  intros Hr [Hm Hh]. revert Hr. unfold machine_read.
  repeat match goal with |- (if ?c then _ else _) = _ -> _ => destruct c end; intros Hr.
  - pose proof (uart_read_frame (wf_regs n) off 0 (sifive_uart m) m (proj1 (env_regs m) 0) Hm).
    destruct (uart_read _ _ _ _) as [r1 m1]. simplify_eq/=. split; [done|]. apply uN_range. lia.
  - destruct (dw_apb_uart_read _ _) as [[r [u m1]]|] eqn:Hd; [|done]. simplify_eq.
    destruct (dw_access_regs (Rd off) m v u m1 Hd Hm) as [H1 H2]. split; [done|].
    apply (in_u_weaken 8); [lia|done].
  - simplify_eq. split; [done|apply clint_read_in_u].
  - by eapply plic_read_regs.
  - simplify_eq. split; [done|by apply in_u_0].
Qed.

Lemma machine_write_wf {wcon : WfConsole C} o off v sz m m' :
  in_u 32 v -> machine_write o off v sz m = Some m' -> wf_regs n m -> wf_regs n m'.
Proof.
  intros Hv Hr Hm. revert Hr. unfold machine_write.
  repeat match goal with |- (if ?c then _ else _) = _ -> _ => destruct c end; intros Hr; simplify_eq; try done.
  - pose proof (uart_write_frame (wf_regs n) off v (sifive_uart m) m (proj1 (proj2 (env_regs m)) _) Hm).
    pose proof (uart_write_wf off v m Hv Hm). destruct (uart_write _ _ _ _) as [u1 m1].
    simplify_eq. by apply set_sifive_uart_regs.
  - destruct (dw_apb_uart_write _ _ _) as [[u m1]|] eqn:Hd; [|done]. simplify_eq.
    apply (dw_access_regs (Wr off v) m 0 u m1); [|done]. simpl. by rewrite Hd.
  - by apply clint_write_regs.
  - by eapply plic_write_regs.
Qed.

End Machine.

(** ** Boards *)

Section Board.
Context {C : Type} {con : Console C}.
Implicit Types m : RISCVMachine C.
Implicit Types w : World (Board C).

Definition runs (w : World (Board C)) : nat := Z.to_nat (running (dev w)).

Lemma sync_harts w : wf_cpu (cpu w) -> harts_ok (eq (runs w)) (sync w).
Proof.
  intros Hw j s <-. unfold sync. simpl. rewrite list_lookup_insert. case_decide as Hd; [by intros [= <-]|].
  intros Hs%lookup_lt_Some. by destruct Hd.
Qed.

Lemma back_cpu m w : harts_ok (eq (runs w)) m -> wf_cpu (cpu w) -> wf_cpu (cpu (back m w)).
Proof.
  intros Hm Hw. unfold back, hart. simpl. destruct (cpu_state m !! _) as [s|] eqn:Hs; [|done]. by eapply Hm.
Qed.

(** what the memory component is promised, for any console *)
#[export] Instance board_wf_io : WfDeviceIO (Board C).
Proof.
  split.
  - intros o off sz w Hw. simpl. destruct (machine_read _ _ _ _) as [[v m]|] eqn:Hr; [|done].
    apply back_cpu; [|done]. eapply machine_read_harts; [exact Hr|]. by apply sync_harts.
  - intros o off v sz w Hw. simpl. destruct (machine_write _ _ _ _ _) as [m|] eqn:Hr; [|done].
    apply back_cpu; [|done]. eapply machine_write_harts; [|exact Hr|by apply sync_harts].
    apply uN_range. lia.
Qed.

(** one of the machine's [n] harts runs, and the machine is well formed *)
Definition wf_board (n : nat) (w : World (Board C)) : Prop := (runs w < n)%nat /\ wf_machine n (sync w).

Lemma set_hart_same i s m : hart m i = Some s -> set_hart i s m = m.
Proof. intros Hh. unfold set_hart, set_cpu_state. rewrite list_insert_id by done. by destruct m. Qed.

Lemma sync_back n m w : wf_regs n m -> (runs w < n)%nat -> sync (back m w) = m.
Proof.
  intros Hm Hi. unfold sync, back. simpl. unfold hart at 1.
  destruct (cpu_state m !! Z.to_nat (running (dev w))) as [s|] eqn:Hs; [by apply set_hart_same|].
  apply lookup_ge_None_1 in Hs. rewrite (wf_ncpus _ _ Hm) in Hs. unfold runs in Hi. lia.
Qed.

Lemma back_wf n m w : wf_machine n m -> (runs w < n)%nat -> wf_board n (back m w).
Proof. intros Hm Hi. split; [done|]. by rewrite (sync_back n) by apply Hm || done. Qed.


(** ** When an access stops the emulator *)

(** the hart whose claim register is at [off] *)
Definition claim_hart (off : Z) : option Z :=
  if in_region off PLIC_CONTEXT_BASE (PLIC_CONTEXT_STRIDE * MAX_CPUS)
     && (off mod PLIC_CONTEXT_STRIDE / 4 =? 1)
  then Some ((off - PLIC_CONTEXT_BASE) / PLIC_CONTEXT_STRIDE) else None.

Lemma word_in_context off : (off .& (PLIC_CONTEXT_STRIDE - 1)) >> 2 = off mod PLIC_CONTEXT_STRIDE / 4.
Proof. unfold PLIC_CONTEXT_STRIDE. rewrite shiftr_div by lia. by rewrite (land_pow2m1 12). Qed.

(** the context registers are above every other region *)
Lemma context_region off : in_region off PLIC_CONTEXT_BASE (PLIC_CONTEXT_STRIDE * MAX_CPUS) = true ->
  in_region off PLIC_PRIORITY_BASE (PLIC_NUM_SOURCES << 2) = false
  /\ in_region off PLIC_PENDING_BASE (PLIC_NUM_SOURCES >> 3) = false
  /\ in_region off PLIC_ENABLE_BASE (PLIC_ENABLE_STRIDE * MAX_CPUS) = false.
Proof.
  unfold in_region, PLIC_CONTEXT_BASE, PLIC_PRIORITY_BASE, PLIC_PENDING_BASE, PLIC_ENABLE_BASE, PLIC_CONTEXT_STRIDE,
    PLIC_ENABLE_STRIDE, MAX_CPUS, PLIC_NUM_SOURCES.
  change (127 << 2) with 508. change (127 >> 3) with 15. lia.
Qed.

(** what a read of the claim register does *)
Lemma plic_read_claim off h m : claim_hart off = Some h ->
  plic_read off 2 m =
    if plic_mask m =? 0 then Some (0, m)
    else match plic_update_mip h (plic_claimed (ctz32 (plic_mask m)) m) with
         | Some m' => Some (ctz32 (plic_mask m), m')
         | None => None
         end.
Proof.
  unfold claim_hart. destruct (in_region _ _ _) eqn:Hr; [|done]. simpl. destruct (Z.eqb_spec (off mod PLIC_CONTEXT_STRIDE / 4) 1) as [H1|]; [|done].
  intros [= <-]. destruct (context_region _ Hr) as (H2 & H3 & H4).
  unfold plic_read. cbv zeta. rewrite H2, H3, H4, Hr, word_in_context, H1. simpl. by destruct (_ =? 0).
Qed.

(** any other read leaves the machine alone *)
Lemma plic_read_other off m : claim_hart off = None -> exists v, plic_read off 2 m = Some (v, m).
Proof.
  unfold claim_hart, plic_read. cbv zeta. rewrite word_in_context. change (negb (2 =? 2)) with false. cbn [andb].
  destruct (in_region off PLIC_CONTEXT_BASE _); simpl; intros; repeat case_match; try done; eauto.
Qed.

Lemma hart_ncpus i m : 0 <= i -> hart m i = None <-> ncpus m <= i.
Proof. intros Hi. unfold hart, ncpus. rewrite lookup_ge_None. lia. Qed.

Lemma claim_hart_nonneg off h : claim_hart off = Some h -> 0 <= h.
Proof.
  unfold claim_hart, in_region. destruct (_ && _) eqn:Hb; [|done]. intros [= <-].
  apply Z.div_pos; [lia|done].
Qed.

Lemma plic_read_crash off m :
  plic_read off 2 m = None <-> exists h, claim_hart off = Some h /\ plic_mask m <> 0 /\ ncpus m <= h.
Proof.
  destruct (claim_hart off) as [h|] eqn:Hc.
  - rewrite (plic_read_claim _ _ _ Hc). unfold plic_update_mip.
    pose proof (hart_ncpus h (plic_claimed (ctz32 (plic_mask m)) m) (claim_hart_nonneg _ _ Hc)) as Hh.
    change (ncpus (plic_claimed _ m)) with (ncpus m) in Hh.
    destruct (Z.eqb_spec (plic_mask m) 0); [by split; [|intros (? & ? & ? & ?)]|].
    destruct (hart _ h) as [s|]; split; try done.
    + intros (h' & [= <-] & _ & Hle). by apply Hh in Hle.
    + intros _. exists h. split_and!; [done|done|by apply Hh].
  - destruct (plic_read_other off m Hc) as [v ->]. split; [done|]. by intros (h & ? & _).
Qed.

(** An access fails an assertion or follows a NULL pointer exactly when it
    reads or writes a serial port at an offset that is not a multiple of four
    below 256, the interrupt controller with a size other than four bytes, or
    reads the claim register of an absent hart while an interrupt is pending. *)
Theorem device_crash_spec o off sz v m :
  (machine_read o off sz m = None <->
    (o = DEV_DW_APB_UART /\ ~ (off mod 4 = 0 /\ off < 256))
    \/ (o = DEV_PLIC /\ (sz <> 2
        \/ exists h, claim_hart off = Some h /\ plic_mask m <> 0 /\ ncpus m <= h)))
  /\ (machine_write o off v sz m = None <->
    (o = DEV_DW_APB_UART /\ ~ (off mod 4 = 0 /\ off < 256)) \/ (o = DEV_PLIC /\ sz <> 2)).
Proof.
  assert (uart_offset_ok off = true <-> off mod 4 = 0 /\ off < 256) as Ho by (unfold uart_offset_ok; lia).
  unfold machine_read, machine_write, DEV_SIFIVE_UART, DEV_DW_APB_UART, DEV_CLINT, DEV_PLIC.
  destruct (Z.eqb_spec o 1) as [->|]; [|destruct (Z.eqb_spec o 2) as [->|]; [|destruct (Z.eqb_spec o 3) as [->|];
    [|destruct (Z.eqb_spec o 4) as [->|]; [|intuition (done || lia)]]]].
  - destruct (uart_read _ _ _ _), (uart_write _ _ _ _). intuition (done || lia).
  - rewrite <- Ho. unfold dw_apb_uart_read, dw_apb_uart_write. cbv zeta.
    destruct (uart_offset_ok off); simpl.
    + split; repeat match goal with |- context [let '(_, _) := ?x in _] => destruct x end; intuition (done || lia).
    + intuition (done || lia).
  - intuition (done || lia).
  - destruct (Z.eq_dec sz 2) as [->|Hs].
    + rewrite plic_read_crash. split; [intuition (done || lia)|]. split; [|intuition (done || lia)].
      unfold plic_write. cbv zeta. by repeat case_match.
    + unfold plic_read, plic_write. apply Z.eqb_neq in Hs. rewrite Hs. simpl. intuition (done || lia).
Qed.

(** ** The claim protocol *)

(** source [i] waits: pending and not in service *)
Definition waiting m (i : Z) : Prop :=
  0 <= i < 32 /\ Z.testbit (plic_pending_irq m) i = true /\ Z.testbit (plic_served_irq m) i = false.

Lemma plic_mask_bit m i : 0 <= i < 32 ->
  Z.testbit (plic_mask m) i = Z.testbit (plic_pending_irq m) i && negb (Z.testbit (plic_served_irq m) i).
Proof.
  intros Hi. unfold plic_mask. rewrite Z.land_spec, testbit_uN, Z.lnot_spec by lia.
  destruct (Z.ltb_spec i 32); [done|lia].
Qed.

Lemma waiting_mask m i : waiting m i <-> 0 <= i < 32 /\ Z.testbit (plic_mask m) i = true.
Proof.
  unfold waiting. split; intros (Hi & H); (split; [done|]); rewrite plic_mask_bit in * by done.
  - by destruct H as [-> ->].
  - apply andb_true_iff in H as [H1 H2%negb_true_iff]. done.
Qed.

Lemma bits_nonzero n x : 0 <= n -> in_u n x -> x <> 0 <-> exists i, 0 <= i < n /\ Z.testbit x i = true.
Proof.
  intros Hn Hx. split.
  - intros H0. exists (Z.log2 x). unfold in_u in Hx. pose proof (log2_in_u n x ltac:(lia) Hx).
    split; [|by apply Z.bit_log2; lia]. pose proof (Z.log2_nonneg x). lia.
  - intros (i & _ & Hi) ->. by rewrite Z.testbit_0_l in Hi.
Qed.

Lemma clear_bit x i j : 0 <= i < 32 -> 0 <= j < 32 ->
  Z.testbit (x .& u32 (~~ (1 << i))) j = Z.testbit x j && negb (j =? i).
Proof.
  intros Hi Hj. rewrite Z.land_spec, testbit_uN, Z.lnot_spec, testbit_bit by lia.
  destruct (Z.ltb_spec j 32); [done|lia].
Qed.

Lemma set_bit x i j : 0 <= i -> 0 <= j -> Z.testbit (x .| (1 << i)) j = Z.testbit x j || (j =? i).
Proof. intros Hi Hj. by rewrite Z.lor_spec, testbit_bit by lia. Qed.

Lemma plic_update_mip_regs_same h m m' : plic_update_mip h m = Some m' ->
  plic_pending_irq m' = plic_pending_irq m /\ plic_served_irq m' = plic_served_irq m.
Proof. unfold plic_update_mip. destruct (hart m h); [|done]. by intros [= <-]. Qed.

(** the lowest waiting source *)
Lemma ctz_waiting n m : wf_regs n m -> plic_mask m <> 0 ->
  waiting m (ctz32 (plic_mask m)) /\ forall j, waiting m j -> ctz32 (plic_mask m) <= j.
Proof.
  intros Hm Hz. destruct (ctz32_spec _ (plic_mask_in_u m Hm) Hz) as (Hi & Hb & Hl).
  split; [by apply waiting_mask|]. intros j (Hj & Hjb)%waiting_mask.
  destruct (Z.le_gt_cases (ctz32 (plic_mask m)) j); [done|exfalso].
  assert (Z.testbit (uN (ctz32 (plic_mask m)) (plic_mask m)) j = false) as Hf by (by rewrite Hl, Z.testbit_0_l).
  rewrite testbit_uN in Hf by lia. destruct (Z.ltb_spec j (ctz32 (plic_mask m))); [|lia].
  by rewrite Hjb in Hf.
Qed.

(** A read of an existing hart's claim register takes the lowest source that
    is pending and not in service, moves it from pending to in service and
    leaves every other source as it was; when no source waits it returns 0 and
    changes nothing. *)
Theorem plic_claim_spec n off h m :
  wf_regs n m -> claim_hart off = Some h -> h < ncpus m ->
  (plic_read off 2 m = Some (0, m) /\ forall i, ~ waiting m i)
  \/ exists i m', plic_read off 2 m = Some (i, m') /\ waiting m i /\ (forall j, waiting m j -> i <= j)
       /\ (forall j, 0 <= j < 32 ->
             Z.testbit (plic_pending_irq m') j = Z.testbit (plic_pending_irq m) j && negb (j =? i)
             /\ Z.testbit (plic_served_irq m') j = Z.testbit (plic_served_irq m) j || (j =? i))
       /\ ~ waiting m' i.
Proof.
  intros Hm Hc Hh. rewrite (plic_read_claim _ _ _ Hc).
  destruct (Z.eqb_spec (plic_mask m) 0) as [H0|H0]; [left|right].
  - split; [done|]. intros i [_ Hi]%waiting_mask. by rewrite H0, Z.testbit_0_l in Hi.
  - destruct (ctz_waiting n m Hm H0) as [Hw Hmin]. set (i := ctz32 (plic_mask m)) in *.
    destruct (plic_update_mip h (plic_claimed i m)) as [m'|] eqn:Hu.
    + exists i, m'. destruct (plic_update_mip_regs_same _ _ _ Hu) as [Hp Hs]. destruct Hw as [Hi Hw].
      assert (forall j, 0 <= j < 32 ->
             Z.testbit (plic_pending_irq m') j = Z.testbit (plic_pending_irq m) j && negb (j =? i)
             /\ Z.testbit (plic_served_irq m') j = Z.testbit (plic_served_irq m) j || (j =? i)) as Hb.
      { intros j Hj. rewrite Hp, Hs. simpl. split; [by apply clear_bit|apply set_bit; lia]. }
      split_and!; try done. intros (_ & H1 & _). rewrite (proj1 (Hb i Hi)), Z.eqb_refl, andb_false_r in H1. done.
    + exfalso. unfold plic_update_mip in Hu. destruct (hart (plic_claimed i m) h) eqn:Hn; [done|].
      apply (hart_ncpus h) in Hn; [|by eapply claim_hart_nonneg]. change (ncpus (plic_claimed i m)) with (ncpus m) in Hn. lia.
Qed.

(** the controller's operations: a register is read or written, an input changes *)
Inductive plic_op := PlicRead (off : Z) | PlicWrite (off val : Z) | PlicIrq (irq level : Z).

Definition plic_do (o : plic_op) m : option (Z * RISCVMachine C) :=
  match o with
  | PlicRead off => plic_read off 2 m
  | PlicWrite off val => match plic_write off val 2 m with Some m => Some (0, m) | None => None end
  | PlicIrq irq level => Some (0, plic_set_irq irq level m)
  end.

Fixpoint plic_run (l : list plic_op) m : option (RISCVMachine C) :=
  match l with
  | [] => Some m
  | o :: l => match plic_do o m with Some (_, m) => plic_run l m | None => None end
  end.

(** the completion of source [i]: its number is written to a claim register *)
Definition completes (i : Z) (o : plic_op) : Prop :=
  exists off val, o = PlicWrite off val /\ claim_hart off <> None /\ val .& 31 = i.

Lemma plic_do_served o m v m' i :
  0 <= i < 32 -> plic_do o m = Some (v, m') -> ~ completes i o ->
  Z.testbit (plic_served_irq m) i = true -> Z.testbit (plic_served_irq m') i = true.
Proof.
  intros Hi Ho Hc Hs. destruct o as [off|off val|irq level]; simpl in Ho.
  - destruct (claim_hart off) as [h|] eqn:Hh.
    + rewrite (plic_read_claim _ _ _ Hh) in Ho. destruct (_ =? 0); [by simplify_eq|].
      destruct (plic_update_mip _ _) as [m1|] eqn:Hu; [|done]. simplify_eq.
      destruct (plic_update_mip_regs_same _ _ _ Hu) as [_ ->]. simpl.
      rewrite Z.lor_spec, Hs. done.
    + destruct (plic_read_other off m Hh) as [v' Hr]. rewrite Hr in Ho. by simplify_eq.
  - destruct (plic_write off val 2 m) as [m1|] eqn:Hw; [|done]. simplify_eq. revert Hw. unfold plic_write. cbv zeta.
    destruct (in_region off PLIC_CONTEXT_BASE (PLIC_CONTEXT_STRIDE * MAX_CPUS)) eqn:Hr.
    + destruct (context_region _ Hr) as (-> & -> & ->). simpl. rewrite word_in_context.
      destruct (_ =? 0); [by intros [= <-]|]. destruct (Z.eqb_spec (off mod PLIC_CONTEXT_STRIDE / 4) 1) as [H1|]; [|by intros [= <-]].
      intros [= <-]. simpl. rewrite clear_bit; [|change 31 with (Z.ones 5); rewrite land_ones_uN by lia|done].
      * rewrite Hs. simpl. destruct (Z.eqb_spec i (val .& 31)) as [->|]; [|done].
        exfalso. apply Hc. exists off, val. split_and!; [done| |done]. unfold claim_hart. by rewrite Hr, H1.
      * pose proof (uN_range 5 val ltac:(lia)) as Hu. unfold in_u in Hu. lia.
    + simpl. by repeat (case_match; try by intros [= <-]).
  - by simplify_eq.
Qed.

(** registers are written with 32-bit values, inputs are numbered below 32 *)
Definition op_ok (o : plic_op) : Prop :=
  match o with PlicRead _ => True | PlicWrite _ val => in_u 32 val | PlicIrq irq _ => 0 <= irq < 32 end.

Lemma plic_do_wf n o m v m' : op_ok o -> plic_do o m = Some (v, m') -> wf_machine n m -> wf_machine n m'.
Proof.
  intros Ho Hd Hm. destruct o as [off|off val|irq level]; simpl in Hd.
  - split; [by eapply plic_read_regs|by eapply plic_read_harts, Hm].
  - destruct (plic_write off val 2 m) as [m1|] eqn:Hw; [|done]. simplify_eq.
    split; [by eapply plic_write_regs, Hm|by eapply plic_write_harts, Hm].
  - simplify_eq. split; [by apply plic_set_irq_regs, Hm|by apply plic_set_irq_harts, Hm].
Qed.

(** C12: the controller never hands out a source twice: between a claim that
    returned it and its completion, whatever registers are accessed by whichever
    hart and however the input lines move, no claim returns it again. *)
Theorem plic_exclusive n h off m i m1 l m2 off' h' i' m3 :
  wf_machine n m -> claim_hart off = Some h -> plic_mask m <> 0 -> plic_read off 2 m = Some (i, m1) ->
  plic_run l m1 = Some m2 -> Forall (fun o => op_ok o /\ ~ completes i o) l ->
  claim_hart off' = Some h' -> plic_mask m2 <> 0 -> plic_read off' 2 m2 = Some (i', m3) ->
  i' <> i.
Proof.
  intros Hm Hc H0 Hr Hl Hf Hc' H0' Hr'.
  assert (wf_machine n m1) as Hm1 by (by apply (plic_do_wf n (PlicRead off) m i m1)).
  rewrite (plic_read_claim _ _ _ Hc) in Hr. rewrite (plic_read_claim _ _ _ Hc') in Hr'.
  destruct (Z.eqb_spec (plic_mask m) 0); [done|]. destruct (Z.eqb_spec (plic_mask m2) 0); [done|].
  destruct (ctz_waiting n m (proj1 Hm) H0) as [[Hi _] _].
  destruct (plic_update_mip _ _) as [m1'|] eqn:Hu in Hr; [|done].
  destruct (plic_update_mip _ _) as [m3'|] eqn:Hu' in Hr'; [|done]. simplify_eq.
  assert (Z.testbit (plic_served_irq m1) (ctz32 (plic_mask m)) = true) as Hs.
  { destruct (plic_update_mip_regs_same _ _ _ Hu) as [_ ->]. simpl.
    rewrite set_bit, Z.eqb_refl by lia. by rewrite orb_true_r. }
  clear Hu Hu' H0 Hm Hc. revert m1 Hm1 Hs Hl. induction Hf as [|o l [Hk Ho] Hf IH]; simpl; intros m1 Hm1 Hs Hl.
  - simplify_eq. destruct (ctz_waiting n m2 (proj1 Hm1) H0') as [(_ & _ & Hs') _].
    intros He. rewrite He in Hs'. congruence.
  - destruct (plic_do o m1) as [[v m1']|] eqn:Hd; [|done].
    apply (IH m1'); [by eapply plic_do_wf|by eapply plic_do_served|done].
Qed.

(** ** The interrupt lines *)

(** a waiting source is enabled in the hart's context [ctx] *)
Definition context_active m (s : RISCVCPUState) (ctx : Z) : Prop :=
  exists i, waiting m i /\ Z.testbit (rd (plic_enable_irq s) ctx) i = true.

Lemma context_active_mask n m s ctx : wf_regs n m -> wf_cpu s ->
  tst (plic_mask m .& rd (plic_enable_irq s) ctx) = true <-> context_active m s ctx.
Proof.
  intros Hm Hs. unfold tst. rewrite negb_true_iff, Z.eqb_neq.
  rewrite (bits_nonzero 32); [|lia|by eapply land_in_u_l, plic_mask_in_u]. unfold context_active.
  split.
  - intros (i & Hi & Hb). rewrite Z.land_spec in Hb. apply andb_true_iff in Hb as [H1 H2].
    exists i. split; [by apply waiting_mask|done].
  - intros (i & [Hi H1]%waiting_mask & H2). exists i. split; [done|]. by rewrite Z.land_spec, H1, H2.
Qed.

Lemma hart_set_mip_frame m mask s :
  mip (hart_set_mip m mask s) = mip s .| mask /\ plic_enable_irq (hart_set_mip m mask s) = plic_enable_irq s.
Proof. unfold hart_set_mip, riscv_cpu_set_mip. cbv zeta. by case_match. Qed.

(** bit [k] of a hart's pending interrupts set or cleared *)
Definition set_line m (b : bool) (k : Z) (s : RISCVCPUState) : RISCVCPUState :=
  if b then hart_set_mip m (1 << k) s else riscv_cpu_reset_mip (1 << k) s.

Lemma set_line_mip m b k s i : 0 <= k -> 0 <= i ->
  Z.testbit (mip (set_line m b k s)) i = (if i =? k then b else Z.testbit (mip s) i)
  /\ plic_enable_irq (set_line m b k s) = plic_enable_irq s.
Proof.
  intros Hk Hi. unfold set_line. destruct b.
  - destruct (hart_set_mip_frame m (1 << k) s) as [-> ->]. split; [|done].
    rewrite set_bit by lia. by destruct (i =? k); rewrite ?orb_true_r, ?orb_false_r.
  - split; [|done]. unfold riscv_cpu_reset_mip. simpl. rewrite Z.land_spec, Z.lnot_spec, testbit_bit by lia.
    by destruct (i =? k); rewrite ?andb_false_r, ?andb_true_r.
Qed.

Lemma plic_update_hart_lines m s :
  plic_update_hart m s =
    let s1 := set_line m (tst (plic_mask m .& rd (plic_enable_irq s) 0)) 9 s in
    set_line m (tst (plic_mask m .& rd (plic_enable_irq s1) 1)) 11 s1.
Proof. reflexivity. Qed.

Lemma plic_update_hart_mip m s i : 0 <= i ->
  Z.testbit (mip (plic_update_hart m s)) i =
    (if i =? 11 then tst (plic_mask m .& rd (plic_enable_irq s) 1)
     else if i =? 9 then tst (plic_mask m .& rd (plic_enable_irq s) 0)
     else Z.testbit (mip s) i)
  /\ plic_enable_irq (plic_update_hart m s) = plic_enable_irq s.
Proof.
  intros Hi. rewrite plic_update_hart_lines. cbv zeta.
  match goal with |- context [set_line m ?b 11 ?s1] => destruct (set_line_mip m b 11 s1 i ltac:(lia) Hi) as [-> ->] end.
  match goal with |- context [set_line m ?b 9 ?s1] => destruct (set_line_mip m b 9 s1 i ltac:(lia) Hi) as [-> ->] end.
  done.
Qed.

(** When an input of the controller changes, every hart's external interrupt
    bits become: pending for the supervisor (bit 9) iff a waiting source is
    enabled in its first context, for the machine (bit 11) iff one is enabled in
    its second; no other bit of [mip] changes, and the input's pending bit is
    the level. *)
Theorem plic_set_irq_spec n irq level m i s :
  wf_machine n m -> 0 <= irq < 32 -> hart m i = Some s ->
  exists s', hart (plic_set_irq irq level m) i = Some s'
    /\ (Z.testbit (mip s') 9 = true <-> context_active (plic_set_irq irq level m) s 0)
    /\ (Z.testbit (mip s') 11 = true <-> context_active (plic_set_irq irq level m) s 1)
    /\ (forall j, 0 <= j -> j <> 9 -> j <> 11 -> Z.testbit (mip s') j = Z.testbit (mip s) j)
    /\ (forall j, 0 <= j < 32 -> Z.testbit (plic_pending_irq (plic_set_irq irq level m)) j =
          if j =? irq then tst level else Z.testbit (plic_pending_irq m) j).
Proof.
  intros Hm Hirq Hs. set (m' := plic_set_irq irq level m).
  assert (wf_regs n m') as Hm' by (by apply plic_set_irq_regs, Hm).
  assert (hart m' i = Some (plic_update_hart m' s)) as Hh.
  { unfold m', plic_set_irq, hart in *. simpl. by rewrite list_lookup_fmap, Hs. }
  assert (wf_cpu s) as Hw by (by eapply Hm).
  exists (plic_update_hart m' s). split; [done|].
  rewrite <- !(context_active_mask n) by done. split_and!.
  - by rewrite (proj1 (plic_update_hart_mip m' s 9 ltac:(lia))).
  - by rewrite (proj1 (plic_update_hart_mip m' s 11 ltac:(lia))).
  - intros j Hj H9 H11. rewrite (proj1 (plic_update_hart_mip m' s j Hj)).
    destruct (Z.eqb_spec j 11); [done|]. by destruct (Z.eqb_spec j 9).
  - intros j Hj. unfold m', plic_set_irq. simpl. fold (tst level).
    assert (u32 (1 << irq) = 1 << irq) as -> by (apply uN_small; by apply bit32_in_u).
    destruct (tst level).
    + rewrite set_bit by lia. by destruct (j =? irq); rewrite ?orb_true_r, ?orb_false_r.
    + rewrite clear_bit by done. by destruct (j =? irq); rewrite ?andb_false_r, ?andb_true_r.
Qed.

(** ** The timer *)

Lemma hart_upd_hart h f m s : hart m h = Some s -> hart (upd_hart h f m) h = Some (f s).
Proof. unfold hart, upd_hart. simpl. intros Hs. by rewrite list_lookup_alter_eq, Hs. Qed.

(** the address of a word of the comparator decodes to its hart and half *)
Lemma clint_cmp_offset h (b : bool) off : 0 <= h < 4095 -> off = 0x4000 + 8 * h + 4 * b2z b ->
  (off <? 0x4000) = false /\ (off =? 0xbff8) = false /\ (off =? 0xbffc) = false /\ (off <? 0xbff8) = true
  /\ (off - 0x4000) >> 3 = h /\ tst ((off >> 2) .& 1) = b.
Proof.
  intros Hh ->. assert (0 <= 4 * b2z b <= 4) by (destruct b; simpl; lia).
  split_and!; [lia..| |].
  - rewrite shiftr_div by lia. change (2 ^ 3) with 8.
    replace (0x4000 + 8 * h + 4 * b2z b - 0x4000) with (4 * b2z b + h * 8) by lia.
    rewrite Z.div_add, Z.div_small by lia. lia.
  - rewrite tst_bit by lia.
    replace (0x4000 + 8 * h + 4 * b2z b) with ((2 * (2048 + h) + b2z b) << 2) by (rewrite shiftl_mul by lia; lia).
    rewrite Z.shiftl_spec by lia. change (2 - 2) with 0.
    destruct b; simpl; [apply Z.testbit_odd_0|]. rewrite Z.add_0_r. apply Z.testbit_even_0.
Qed.

Ltac clint_cmp h b off :=
  let H := fresh in
  destruct (clint_cmp_offset h b off) as (H1 & H2 & H3 & H4 & H5 & H6); [assumption|simpl; lia|];
  rewrite ?H1, ?H2, ?H3, ?H4, ?H5, ?H6; clear H1 H2 H3 H4 H5 H6; cbv iota.

(** the comparator's two words *)
Lemma clint_write_lo h v m : 0 <= h < 4095 -> in_u 32 v ->
  clint_write (0x4000 + 8 * h) v 2 m =
    upd_hart h (fun s => riscv_cpu_reset_mip MIP_MTIP (with_timecmp v s)) m.
Proof.
  intros Hh Hv. unfold clint_write, clint_size. cbv zeta. simpl (2 =? _). cbv iota.
  change 0xffffffff with (Z.ones 32). rewrite land_ones_uN, uN_small by done || lia.
  clint_cmp h false (0x4000 + 8 * h). change (u32 (~~ Z.ones 32)) with 0.
  unfold upd_hart. f_equal. apply list_alter_ext; [|done]. intros s _. by rewrite Z.land_0_r, Z.lor_0_l.
Qed.

Lemma clint_write_hi h v m : 0 <= h < 4095 -> in_u 32 v ->
  clint_write (0x4000 + 8 * h + 4) v 2 m =
    upd_hart h (fun s => riscv_cpu_reset_mip MIP_MTIP (with_timecmp (v * 2 ^ 32 + u32 (timecmp s)) s)) m.
Proof.
  intros Hh Hv. unfold clint_write, clint_size. cbv zeta. simpl (2 =? _). cbv iota.
  change 0xffffffff with (Z.ones 32). rewrite land_ones_uN, (uN_small _ v) by done || lia.
  clint_cmp h true (0x4000 + 8 * h + 4).
  unfold upd_hart. f_equal. apply list_alter_ext; [|done]. intros s _. rewrite land_ones_uN by lia.
  rewrite Z.lor_comm, lor_disjoint_add; [done|lia|]. apply uN_range. lia.
Qed.

Lemma clint_read_timecmp h m s : 0 <= h < 4095 -> hart m h = Some s ->
  clint_read (0x4000 + 8 * h) 2 m = u32 (timecmp s) /\ clint_read (0x4000 + 8 * h + 4) 2 m = u32 (timecmp s >> 32).
Proof.
  intros Hh Hs. unfold clint_read, clint_size. cbv zeta. simpl (2 =? _). cbv iota.
  change 0xffffffff with (Z.ones 32). rewrite !land_ones_uN by lia. split.
  - clint_cmp h false (0x4000 + 8 * h). rewrite Hs. by rewrite uN_idem.
  - clint_cmp h true (0x4000 + 8 * h + 4). rewrite Hs. by rewrite uN_idem.
Qed.

(** A driver that writes the low and then the high word of a hart's
    comparator sets it to the 64-bit value, which reads back, and clears the
    timer interrupt; the other order leaves the high word zero, since a write
    of the low word clears it. *)
Theorem clint_timecmp_order h lo hi m s :
  0 <= h < 4095 -> hart m h = Some s -> in_u 32 lo -> in_u 32 hi ->
  let a := 0x4000 + 8 * h in
  let m1 := clint_write (a + 4) hi 2 (clint_write a lo 2 m) in
  let m2 := clint_write a lo 2 (clint_write (a + 4) hi 2 m) in
  (exists s1, hart m1 h = Some s1 /\ timecmp s1 = hi * 2 ^ 32 + lo /\ Z.testbit (mip s1) 7 = false
     /\ clint_read a 2 m1 = lo /\ clint_read (a + 4) 2 m1 = hi)
  /\ (exists s2, hart m2 h = Some s2 /\ timecmp s2 = lo /\ clint_read (a + 4) 2 m2 = 0).
Proof.
  intros Hh Hs Hlo Hhi a m1 m2.
  assert (u32 lo = lo) as Hl by (by apply uN_small).
  assert (exists s1, hart m1 h = Some s1 /\ timecmp s1 = hi * 2 ^ 32 + lo /\ Z.testbit (mip s1) 7 = false) as (s1 & H1 & H2 & H3).
  { unfold m1, a. rewrite clint_write_hi, clint_write_lo by done. eexists. split_and!.
    - by apply hart_upd_hart, hart_upd_hart.
    - simpl. by rewrite Hl.
    - unfold riscv_cpu_reset_mip at 1. cbn [mip with_mip]. rewrite Z.land_spec. change (Z.testbit (~~ MIP_MTIP) 7) with false. by rewrite andb_false_r. }
  assert (exists s2, hart m2 h = Some s2 /\ timecmp s2 = lo) as (s2 & H4 & H5).
  { unfold m2, a. rewrite clint_write_lo, clint_write_hi by done. eexists. split; [by apply hart_upd_hart, hart_upd_hart|done]. }
  destruct (clint_read_timecmp h m1 s1 Hh H1) as [H6 H7]. destruct (clint_read_timecmp h m2 s2 Hh H4) as [_ H8].
  split; [exists s1|exists s2]; split_and!; try done.
  - unfold a. rewrite H6, H2. unfold uN. rewrite Z.add_comm, Z.mod_add by done. by apply Z.mod_small.
  - unfold a. rewrite H7, H2, shiftr_div by lia. rewrite Z.div_add_l by done.
    rewrite Z.div_small by done. rewrite Z.add_0_r. by apply uN_small.
  - unfold a. rewrite H8, H5, shiftr_div by lia. by rewrite Z.div_small.
Qed.

Lemma rtc_get_time_hart m s : hart m 0 = Some s -> rtc_get_time m = mcycle s / 2000.
Proof. intros Hs. unfold rtc_get_time, mcycle0. by rewrite Hs. Qed.

(** the high and the low word of a 64-bit value *)
Lemma low_word t v : in_u 64 t -> in_u 32 v ->
  u64 ((t .& 0xFFFFFFFF00000000) + v) = t / 2 ^ 32 * 2 ^ 32 + v
  /\ u64 ((t .& 0xFFFFFFFF) + (v << 32)) = v * 2 ^ 32 + u32 t.
Proof.
  intros Ht Hv. change 0xFFFFFFFF with (Z.ones 32). rewrite land_ones_uN, shiftl_mul by lia.
  assert (t .& 0xFFFFFFFF00000000 = t / 2 ^ 32 * 2 ^ 32) as ->.
  { rewrite <- land_lnot_pow2 by lia. apply Z.bits_inj'. intros i Hi. rewrite !Z.land_spec.
    destruct (Z.ltb_spec i 64); [|by rewrite (testbit_high 64 t)]. f_equal.
    change 0xFFFFFFFF00000000 with (u64 (~~ ((1 << 32) - 1))). rewrite testbit_uN by lia.
    by destruct (Z.ltb_spec i 64); [|lia]. }
  unfold in_u in *. pose proof (uN_range 32 t ltac:(lia)) as Hu. unfold in_u in Hu.
  change (2 ^ 64) with (2 ^ 32 * 2 ^ 32) in Ht.
  assert (0 <= t / 2 ^ 32 < 2 ^ 32) by (split; [apply Z.div_pos; lia|apply Z.div_lt_upper_bound; lia]).
  rewrite (Z.add_comm (v * 2 ^ 32)). split; apply uN_small; unfold in_u; change (2 ^ 64) with (2 ^ 32 * 2 ^ 32); nia.
Qed.

(** A write of either word of [mtime] replaces that word of the time, and
    the time reads back as written exactly when it is below 2^64 / 2000: the
    counter behind it runs 2000 times faster and wraps around. *)
Theorem clint_mtime_bounds m s v :
  hart m 0 = Some s -> in_u 64 (mcycle s) -> in_u 32 v ->
  let t := rtc_get_time m in
  let lo := t / 2 ^ 32 * 2 ^ 32 + v in
  let hi := v * 2 ^ 32 + u32 t in
  let m1 := clint_write 0xbff8 v 2 m in
  let m2 := clint_write 0xbffc v 2 m in
  rtc_get_time m1 = (lo * 2000) mod 2 ^ 64 / 2000 /\ (rtc_get_time m1 = lo <-> lo * 2000 < 2 ^ 64)
  /\ rtc_get_time m2 = (hi * 2000) mod 2 ^ 64 / 2000 /\ (rtc_get_time m2 = hi <-> hi * 2000 < 2 ^ 64)
  /\ clint_read 0xbff8 2 m = u32 t /\ clint_read 0xbffc 2 m = u32 (t >> 32).
Proof.
  intros Hs Hc Hv t lo hi m1 m2.
  assert (t = mcycle s / 2000) as Ht by (by apply rtc_get_time_hart).
  assert (in_u 64 t) as Ht64.
  { rewrite Ht. unfold in_u in *. split; [apply Z.div_pos; lia|apply Z.div_lt_upper_bound; lia]. }
  destruct (low_word t v Ht64 Hv) as [Hlo Hhi].
  assert (forall x, 0 <= x -> x * 2000 mod 2 ^ 64 / 2000 = x <-> x * 2000 < 2 ^ 64) as Hx.
  { intros x Hx. split.
    - intros He. destruct (Z.lt_ge_cases (x * 2000) (2 ^ 64)); [done|exfalso].
      pose proof (Z.mod_pos_bound (x * 2000) (2 ^ 64) ltac:(lia)).
      pose proof (Z.mul_div_le (x * 2000 mod 2 ^ 64) 2000 ltac:(lia)). lia.
    - intros Hl. rewrite Z.mod_small by lia. by rewrite Z.div_mul. }
  assert (0 <= lo /\ 0 <= hi) as [Hl0 Hh0].
  { unfold in_u in Hv, Ht64. pose proof (uN_range 32 t ltac:(lia)) as Hu. unfold in_u in Hu.
    pose proof (Z.div_pos t (2 ^ 32)). unfold lo, hi. lia. }
  assert (u32 v .& 0xffffffff = v) as Hsz.
  { change 0xffffffff with (Z.ones 32). rewrite land_ones_uN by lia. rewrite !uN_small; try done. by rewrite uN_small. }
  assert (rtc_get_time m1 = (lo * 2000) mod 2 ^ 64 / 2000) as H1.
  { unfold m1, clint_write, clint_size. simpl. rewrite <- (uN_small 32 v) at 1 by done. rewrite Hsz.
    erewrite rtc_get_time_hart; [|by apply hart_upd_hart]. simpl. fold t. by rewrite Hlo. }
  assert (rtc_get_time m2 = (hi * 2000) mod 2 ^ 64 / 2000) as H2.
  { unfold m2, clint_write, clint_size. simpl. rewrite <- (uN_small 32 v) at 1 by done. rewrite Hsz.
    erewrite rtc_get_time_hart; [|by apply hart_upd_hart]. simpl. fold t. by rewrite Hhi. }
  rewrite H1, H2. split_and!; try done; try by apply Hx.
  - unfold clint_read, clint_size. simpl. fold t. change 0xffffffff with (Z.ones 32). rewrite land_ones_uN, uN_idem by lia. done.
  - unfold clint_read, clint_size. simpl. fold t. change 0xffffffff with (Z.ones 32). rewrite land_ones_uN, uN_idem by lia. done.
Qed.

(** Waiting for an event raises a hart's timer interrupt exactly when the
    time has started and the comparator, as a signed distance from the time, is
    not ahead: so when it is at most the time, or 2^63 or more beyond it, the
    all-ones value that should mean "never" included. *)
Theorem timer_fires m h s ms d m' s' s0 :
  hart m h = Some s -> hart m 0 = Some s0 -> in_u 64 (mcycle s0) -> in_u 64 (timecmp s) ->
  virt_machine_get_sleep_duration h ms m = Some (d, m') -> hart m' h = Some s' ->
  let t := rtc_get_time m in
  Z.testbit (mip s') 7 = Z.testbit (mip s) 7
     || ((0 <? t) && ((timecmp s <=? t) || (t + 2 ^ 63 <=? timecmp s))).
Proof.
  intros Hs Hs0 Hc Hcmp Hd Hs' t. unfold virt_machine_get_sleep_duration in Hd. rewrite Hs in Hd.
  fold t in Hd. unfold riscv_cpu_get_mip in Hd. change MIP_MTIP with (2 ^ 7) in Hd at 1.
  rewrite tst_land_pow2 in Hd by lia.
  assert (0 <= t < 2 ^ 63) as Ht.
  { unfold t. rewrite (rtc_get_time_hart _ _ Hs0). unfold in_u in Hc.
    split; [apply Z.div_pos; lia|apply Z.div_lt_upper_bound; lia]. }
  assert ((s64 (timecmp s - t) <=? 0) = (timecmp s <=? t) || (t + 2 ^ 63 <=? timecmp s)) as Hsg.
  { unfold in_u in Hcmp. unfold sN. change (64 - 1) with 63. change (2 ^ 64) with (2 * 2 ^ 63) in *.
    destruct (Z.lt_ge_cases (timecmp s - t + 2 ^ 63) 0).
    - replace (timecmp s - t + 2 ^ 63) with (timecmp s - t + 3 * 2 ^ 63 + (-1) * (2 * 2 ^ 63)) by lia.
      rewrite Z.mod_add, Z.mod_small by lia. lia.
    - destruct (Z.lt_ge_cases (timecmp s - t + 2 ^ 63) (2 * 2 ^ 63)).
      + rewrite Z.mod_small by lia. lia.
      + replace (timecmp s - t + 2 ^ 63) with (timecmp s - t - 2 ^ 63 + 1 * (2 * 2 ^ 63)) by lia.
        rewrite Z.mod_add, Z.mod_small by lia. lia. }
  rewrite Hsg in Hd. destruct (Z.testbit (mip s) 7) eqn:Hb; simpl in Hd.
  - assert (s' = s) as -> by congruence. by rewrite Hb.
  - destruct (0 <? t); simpl in Hd; [|assert (s' = s) as -> by congruence; by rewrite Hb].
    destruct (_ || _) eqn:Ho; simpl in Hd; simplify_eq.
    + unfold set_hart, hart in Hs'. simpl in Hs'. rewrite list_lookup_insert_eq in Hs'; [|by eapply lookup_lt_Some].
      simplify_eq. rewrite (proj1 (hart_set_mip_frame _ _ _)). change MIP_MTIP with (1 << 7).
      rewrite set_bit by lia. by rewrite Hb.
    + by rewrite Hb.
Qed.

End Board.

(** ** A machine of two harts with a silent console *)

#[export] Instance no_console : Console unit := {| console_read old c := (0, old, c); console_write _ c := c |}.
#[export] Instance no_console_wf : WfConsole unit.
Proof. split. done. Qed.

Definition two_hart (h : Z) : RISCVCPUState :=
  with_mcycle 4000 (with_plic_enable_irq [0; 0x18] (with_physical_addr_len 56 (riscv_cpu_init 0x10000 h false false))).
Definition two_machine : RISCVMachine unit :=
  mkMachine [two_hart 0; two_hart 1] 0 0 (replicate 128 0) uart_init sifive_init tt false (-1).
Definition two_world : World (Board unit) := mkWorld (two_hart 0) [] ∅ (mkBoard two_machine 0 false) false (-1).

Lemma two_hart_wf h : in_u 64 h -> wf_cpu (two_hart h).
Proof.
  intros Hh. unfold two_hart. apply wf_with_mcycle; [by vm_compute|].
  apply wf_with_plic_enable_irq; [split; [done|]; repeat constructor; by vm_compute|].
  apply wf_with_physical_addr_len; [lia|]. by apply wf_riscv_cpu_init.
Qed.

Lemma uart_init_wf : wf_uart uart_init.
Proof. constructor; simpl; auto; by vm_compute. Qed.

Lemma two_machine_wf : wf_machine 2 two_machine.
Proof.
  split.
  - split; [reflexivity|by vm_compute|by vm_compute| |apply uart_init_wf|split; by vm_compute].
    split; [reflexivity|]. apply Forall_replicate. by vm_compute.
  - intros i s _. destruct i as [|[|i]]; simpl; [| |done]; intros [= <-]; apply two_hart_wf; by vm_compute.
Qed.


(** source 4 is raised, hart 0 claims it for its machine context *)
Lemma plic_claim_spec_witness :
  exists i m', plic_read 0x200004 2 (plic_set_irq 4 1 two_machine) = Some (i, m') /\ i = 4.
Proof.
  destruct (plic_claim_spec 2 0x200004 0 (plic_set_irq 4 1 two_machine)) as [[_ H]|(i & m' & H1 & H2 & H3 & _)].
  - apply plic_set_irq_regs; [lia|apply two_machine_wf].
  - reflexivity.
  - reflexivity.
  - exfalso. apply (H 4). split; [lia|split; reflexivity].
  - exists i, m'. split; [exact H1|]. vm_compute in H1. injection H1 as <- _. reflexivity.
Defined.

(** hart 0 claims source 4, it is raised again with source 5, hart 1 claims *)
Lemma plic_exclusive_witness :
  match plic_read 0x200004 2 (plic_set_irq 4 1 two_machine) with
  | Some (i, m1) =>
      match plic_run [PlicIrq 4 1; PlicIrq 5 1] m1 with
      | Some m2 => match plic_read 0x201004 2 m2 with Some (i', _) => i' <> i | None => False end
      | None => False
      end
  | None => False
  end.
Proof.
  destruct (plic_read 0x200004 2 (plic_set_irq 4 1 two_machine)) as [[i m1]|] eqn:H1; [|discriminate].
  destruct (plic_run [PlicIrq 4 1; PlicIrq 5 1] m1) as [m2|] eqn:H2; [|discriminate].
  assert (plic_mask m2 <> 0 /\ i = 4) as [Hm Hi].
  { vm_compute in H1. injection H1 as <- <-. injection H2 as <-. split; [vm_compute; discriminate|reflexivity]. }
  destruct (plic_read 0x201004 2 m2) as [[i' m3]|] eqn:H3.
  - apply (plic_exclusive 2 0 0x200004 (plic_set_irq 4 1 two_machine) i m1 [PlicIrq 4 1; PlicIrq 5 1]
      m2 0x201004 1 i' m3); try reflexivity; try assumption.
    + split; [apply plic_set_irq_regs; [lia|apply two_machine_wf]|apply plic_set_irq_harts, two_machine_wf].
    + vm_compute. discriminate.
    + repeat constructor; simpl; try lia; intros (? & ? & ? & _); discriminate.
  - vm_compute in H1. injection H1 as _ <-. vm_compute in H2. injection H2 as <-. vm_compute in H3. discriminate.
Defined.

Lemma plic_set_irq_spec_witness :
  match hart (plic_set_irq 3 1 two_machine) 1 with
  | Some s' => Z.testbit (mip s') 11 = true
  | None => False
  end.
Proof.
  destruct (plic_set_irq_spec 2 3 1 two_machine 1 (two_hart 1) two_machine_wf ltac:(lia) eq_refl)
    as (s' & -> & _ & H & _).
  apply H. exists 3. split; [split; [lia|split; reflexivity]|reflexivity].
Defined.

Lemma clint_timecmp_order_witness :
  clint_read 0x400c 2 (clint_write 0x400c 5 2 (clint_write 0x4008 7 2 two_machine)) = 5.
Proof.
  destruct (clint_timecmp_order 1 7 5 two_machine (two_hart 1) ltac:(lia) eq_refl ltac:(by vm_compute) ltac:(by vm_compute))
    as [(s1 & _ & _ & _ & _ & H) _]. exact H.
Defined.

Lemma clint_mtime_bounds_witness : rtc_get_time (clint_write 0xbffc 0x210000 2 two_machine) <> 0x210000 * 2 ^ 32 + 2.
Proof.
  destruct (clint_mtime_bounds two_machine (two_hart 0) 0x210000 eq_refl ltac:(by vm_compute) ltac:(by vm_compute))
    as (_ & _ & _ & H & _). intros E. apply H in E. vm_compute in E. discriminate.
Defined.

(** a comparator set to "never" fires at once *)
Lemma timer_fires_witness :
  match virt_machine_get_sleep_duration 1 10
    (upd_hart 1 (with_timecmp (2 ^ 64 - 1)) two_machine) with
  | Some (_, m') => match hart m' 1 with Some s' => Z.testbit (mip s') 7 = true | None => False end
  | None => False
  end.
Proof.
  set (m := upd_hart 1 (with_timecmp (2 ^ 64 - 1)) two_machine).
  destruct (virt_machine_get_sleep_duration 1 10 m) as [[d m']|] eqn:Hd; [|discriminate].
  destruct (hart m' 1) as [s'|] eqn:Hs.
  - rewrite (timer_fires m 1 (with_timecmp (2 ^ 64 - 1) (two_hart 1)) 10 d m' s' (two_hart 0)
      eq_refl eq_refl ltac:(by vm_compute) ltac:(by vm_compute) Hd Hs). reflexivity.
  - vm_compute in Hd. injection Hd as _ <-. discriminate.
Defined.
