(* ===== verification/Fdt.v ===== *)
(** * The flattened device tree (riscv_machine.cpp)

    [FDTState] and its writer: nodes, properties, the string table, the image.
    The arrays the state grows with [realloc] are the lists of the bytes written
    to them, with the capacity beside them.  Strings are lists of bytes without
    the terminating NUL.  The sizes are small [int]s; they do not wrap here. *)

From Stdlib Require Import String Ascii.
From S2P Require Import Prelude CpuState Cutils Machine.

(** the bytes of a string literal *)
Definition str (s : string) : list Z :=
  List.map (fun a => Z.of_N (N_of_ascii a)) (list_ascii_of_string s).

Definition FDT_MAGIC : Z := 0xd00dfeed.
Definition FDT_VERSION : Z := 17.
Definition FDT_BEGIN_NODE : Z := 1.
Definition FDT_END_NODE : Z := 2.
Definition FDT_PROP : Z := 3.
Definition FDT_NOP : Z := 4.
Definition FDT_END : Z := 9.

Record FDTState := mkFdt {
  tab : list Z;
  tab_size : Z;
  open_node_count : Z;
  string_table : list Z;
  string_table_size : Z
}.

Definition len (l : list Z) : Z := Z.of_nat (length l).

(** in 32-bit words *)
Definition tab_len (s : FDTState) : Z := len (tab s) / 4.
Definition string_table_len (s : FDTState) : Z := len (string_table s).

Definition fdt_init : FDTState := mkFdt [] 0 0 [] 0.

Definition fdt_alloc_len (n : Z) (s : FDTState) : FDTState :=
  if tab_size s <? n
  then mkFdt (tab s) (max_int n (Z.quot (tab_size s * 3) 2)) (open_node_count s) (string_table s) (string_table_size s)
  else s.

(** bytes stored at the end of [tab] *)
Definition tab_store (l : list Z) (s : FDTState) : FDTState :=
  mkFdt (tab s ++ l) (tab_size s) (open_node_count s) (string_table s) (string_table_size s).

(** [cpu_to_be32] on a little-endian host, stored in memory *)
Definition be32_bytes (v : Z) : list Z := put_le32 (bswap_32 (u32 v)).

Definition fdt_put32 (v : Z) (s : FDTState) : FDTState :=
  let s := fdt_alloc_len (tab_len s + 1) s in
  tab_store (be32_bytes v) s.

(** the data is zero padded *)
Definition fdt_put_data (data : list Z) (s : FDTState) : FDTState :=
  let len1 := (len data + 3) / 4 in
  let s := fdt_alloc_len (tab_len s + len1) s in
  tab_store (data ++ replicate (Z.to_nat (- len data .& 3)) 0) s.

Definition with_open_node_count (n : Z) (s : FDTState) : FDTState :=
  mkFdt (tab s) (tab_size s) n (string_table s) (string_table_size s).

Definition fdt_begin_node (name : list Z) (s : FDTState) : FDTState :=
  let s := fdt_put32 FDT_BEGIN_NODE s in
  let s := fdt_put_data (name ++ [0]) s in
  with_open_node_count (open_node_count s + 1) s.

(** the digits of [%PRIx64] *)
Definition hex_digit (d : Z) : Z := if d <? 10 then 48 + d else 87 + d.
Fixpoint hex_digits (fuel : nat) (n : Z) (acc : list Z) : list Z :=
  match fuel with
  | O => acc
  | S fuel =>
      let acc := hex_digit (n mod 16) :: acc in
      if n / 16 =? 0 then acc else hex_digits fuel (n / 16) acc
  end.

(** [snprintf] keeps what fits in [buf] *)
Definition fdt_begin_node_num (name : list Z) (n : Z) (s : FDTState) : FDTState :=
  let buf := take 255 (name ++ [64] ++ hex_digits 16 (u64 n) []) in
  fdt_begin_node buf s.

Definition fdt_end_node (s : FDTState) : FDTState :=
  let s := fdt_put32 FDT_END_NODE s in
  with_open_node_count (open_node_count s - 1) s.

(** the string at a position: the bytes before the next NUL *)
Fixpoint cstr (l : list Z) : option (list Z) :=
  match l with
  | [] => None
  | b :: l => if b =? 0 then Some [] else match cstr l with Some s => Some (b :: s) | None => None end
  end.

Definition string_at (tbl : list Z) (pos : Z) : option (list Z) := cstr (drop (Z.to_nat pos) tbl).

(** the search loop: the position of [name], if any *)
Fixpoint find_string (fuel : nat) (tbl : list Z) (pos : Z) (name : list Z) : option Z :=
  match fuel with
  | O => None
  | S fuel =>
      if pos <? len tbl then
        match string_at tbl pos with
        | Some s => if decide (s = name) then Some pos else find_string fuel tbl (pos + len s + 1) name
        | None => None
        end
      else None
  end.

Definition fdt_get_string_offset (name : list Z) (s : FDTState) : Z * FDTState :=
  match find_string (S (length (string_table s))) (string_table s) 0 name with
  | Some pos => (pos, s)
  | None =>
      let name_size := len name + 1 in
      let new_len := string_table_len s + name_size in
      let size :=
        if string_table_size s <? new_len then max_int new_len (Z.quot (string_table_size s * 3) 2)
        else string_table_size s in
      (string_table_len s,
       mkFdt (tab s) (tab_size s) (open_node_count s) (string_table s ++ name ++ [0]) size)
  end.

Definition fdt_prop (prop_name data : list Z) (s : FDTState) : FDTState :=
  let s := fdt_put32 FDT_PROP s in
  let s := fdt_put32 (len data) s in
  let '(off, s) := fdt_get_string_offset prop_name s in
  let s := fdt_put32 off s in
  fdt_put_data data s.

Definition fdt_prop_tab_u32 (prop_name tab : list Z) (s : FDTState) : FDTState :=
  let s := fdt_put32 FDT_PROP s in
  let s := fdt_put32 (len tab * 4) s in
  let '(off, s) := fdt_get_string_offset prop_name s in
  let s := fdt_put32 off s in
  foldl (fun s v => fdt_put32 v s) s tab.

Definition fdt_prop_u32 (prop_name : list Z) (val : Z) : FDTState -> FDTState :=
  fdt_prop_tab_u32 prop_name [u32 val].
Definition fdt_prop_u64 (prop_name : list Z) (val : Z) : FDTState -> FDTState :=
  fdt_prop_tab_u32 prop_name [u32 (val >> 32); u32 val].
Definition fdt_prop_tab_u64_2 (prop_name : list Z) (v0 v1 : Z) : FDTState -> FDTState :=
  fdt_prop_tab_u32 prop_name [u32 (v0 >> 32); u32 v0; u32 (v1 >> 32); u32 v1].
Definition fdt_prop_str (prop_name s : list Z) : FDTState -> FDTState :=
  fdt_prop prop_name (s ++ [0]).
Definition fdt_prop_tab_str (prop_name : list Z) (l : list (list Z)) : FDTState -> FDTState :=
  fdt_prop prop_name (concat (List.map (fun s => s ++ [0]) l)).

(** the loop that stores zeros up to a multiple of 8 *)
Fixpoint align8 (fuel : nat) (pos : Z) : list Z :=
  match fuel with
  | O => []
  | S fuel => if (pos .& 7) =? 0 then [] else 0 :: align8 fuel (pos + 1)
  end.

(** the size of [struct fdt_header] and [struct fdt_reserve_entry] *)
Definition fdt_header_size : Z := 40.
Definition fdt_reserve_entry_size : Z := 16.

(** the image; [None]: the assertion that every node is closed fails *)
Definition fdt_output (s : FDTState) : option (list Z) :=
  if negb (open_node_count s =? 0) then None
  else
    let s := fdt_put32 FDT_END s in
    let dt_struct_size := tab_len s * 4 in
    let dt_strings_size := string_table_len s in
    let off_dt_struct := fdt_header_size in
    let pos := off_dt_struct + dt_struct_size in
    let pad1 := align8 8 pos in
    let off_mem_rsvmap := pos + len pad1 in
    let off_dt_strings := off_mem_rsvmap + fdt_reserve_entry_size in
    let pos := off_dt_strings + dt_strings_size in
    let pad2 := align8 8 pos in
    let totalsize := pos + len pad2 in
    Some (be32_bytes FDT_MAGIC ++ be32_bytes totalsize ++ be32_bytes off_dt_struct
          ++ be32_bytes off_dt_strings ++ be32_bytes off_mem_rsvmap ++ be32_bytes FDT_VERSION
          ++ be32_bytes 16 ++ be32_bytes 0 ++ be32_bytes dt_strings_size ++ be32_bytes dt_struct_size
          ++ tab s ++ pad1 ++ replicate 16 0 ++ string_table s ++ pad2).

(** ** The machine's description *)

(** the frame buffer's geometry ([FBDevice]) *)
Record FBDevice := mkFb { fb_size : Z; fb_width : Z; fb_height : Z; fb_stride : Z }.
Definition FRAMEBUFFER_BASE_ADDR : Z := 0x41000000.

(** the fields of the machine that its start-up fixes *)
Record MachineConfig := mkConfig {
  ram_size : Z;
  ram_base_addr : Z;
  plic_base_addr : Z;
  plic_size : Z;
  clint_base_addr : Z;
  clint_size_cfg : Z;
  virtio_count : Z;
  fb_dev : option FBDevice;
  reset_vector : Z;
  compact_bootrom : bool;
  custom_extension : bool;
  clear_ids : bool
}.

#[local] Notation "s ▷ f" := (f s) (at level 49, left associativity, only parsing).

Definition isa_string (misa : Z) : list Z :=
  str "rv64" ++ List.map (Z.add 97) (List.filter (fun i => tst (misa .& (1 << i))) (seqZ 0 26)).

(** one CPU's node; its interrupt controller's handle is [intc_phandle] *)
Definition fdt_cpu_node (hartid misa intc_phandle : Z) (s : FDTState) : FDTState :=
  s ▷ fdt_begin_node_num (str "cpu") hartid
    ▷ fdt_prop_str (str "device_type") (str "cpu")
    ▷ fdt_prop_u32 (str "reg") hartid
    ▷ fdt_prop_str (str "status") (str "okay")
    ▷ fdt_prop_str (str "compatible") (str "riscv")
    ▷ fdt_prop_str (str "riscv,isa") (isa_string misa)
    ▷ fdt_prop_str (str "mmu-type") (str "riscv,sv48")
    ▷ fdt_prop_u32 (str "clock-frequency") CPU_FREQUENCY
    ▷ fdt_begin_node (str "interrupt-controller")
    ▷ fdt_prop_u32 (str "#interrupt-cells") 1
    ▷ fdt_prop (str "interrupt-controller") []
    ▷ fdt_prop_str (str "compatible") (str "riscv,cpu-intc")
    ▷ fdt_prop_u32 (str "phandle") intc_phandle
    ▷ fdt_prop_u32 (str "linux,phandle") intc_phandle
    ▷ fdt_end_node
    ▷ fdt_end_node.

(** the loop over the harts: [hartid2handle], [cur_phandle] and the tree after it *)
Fixpoint fdt_cpu_nodes (hartid cur_phandle : Z) (misas : list Z) (s : FDTState) : list Z * Z * FDTState :=
  match misas with
  | [] => ([], cur_phandle, s)
  | misa :: misas =>
      let intc_phandle := cur_phandle in
      let s := fdt_cpu_node hartid misa intc_phandle s in
      let '(handles, cur_phandle, s) := fdt_cpu_nodes (hartid + 1) (cur_phandle + 1) misas s in
      (intc_phandle :: handles, cur_phandle, s)
  end.

(** two interrupts of every hart *)
Definition hart_interrupts (hartid2handle : list Z) (irq0 irq1 : Z) : list Z :=
  concat (List.map (fun handle => [handle; irq0; handle; irq1]) hartid2handle).

Definition fdt_virtio_node (plic_phandle i : Z) (s : FDTState) : FDTState :=
  s ▷ fdt_begin_node_num (str "virtio") (VIRTIO_BASE_ADDR + i * VIRTIO_SIZE)
    ▷ fdt_prop_str (str "compatible") (str "virtio,mmio")
    ▷ fdt_prop_tab_u64_2 (str "reg") (VIRTIO_BASE_ADDR + i * VIRTIO_SIZE) VIRTIO_SIZE
    ▷ fdt_prop_tab_u32 (str "interrupts-extended") [plic_phandle; VIRTIO_IRQ + i]
    ▷ fdt_end_node.

Definition fdt_uart_node (plic_phandle base_addr irq : Z) (s : FDTState) : FDTState :=
  s ▷ fdt_begin_node_num (str "uart") base_addr
    ▷ fdt_prop_tab_u64_2 (str "reg") base_addr DW_APB_UART0_SIZE
    ▷ fdt_prop_u32 (str "current-speed") 115200
    ▷ fdt_prop_u32 (str "clock-frequency") 25000000
    ▷ fdt_prop_u32 (str "reg-shift") 2
    ▷ fdt_prop_u32 (str "reg-io-width") 4
    ▷ fdt_prop_str (str "compatible") (str "ns16550a")
    ▷ fdt_prop_u32 (str "interrupt-parent") plic_phandle
    ▷ fdt_prop_u32 (str "interrupts") irq
    ▷ fdt_end_node.

Definition fdt_framebuffer_node (fb : FBDevice) (s : FDTState) : FDTState :=
  s ▷ fdt_begin_node_num (str "framebuffer") FRAMEBUFFER_BASE_ADDR
    ▷ fdt_prop_str (str "compatible") (str "simple-framebuffer")
    ▷ fdt_prop_tab_u64_2 (str "reg") FRAMEBUFFER_BASE_ADDR (fb_size fb)
    ▷ fdt_prop_u32 (str "width") (fb_width fb)
    ▷ fdt_prop_u32 (str "height") (fb_height fb)
    ▷ fdt_prop_u32 (str "stride") (fb_stride fb)
    ▷ fdt_prop_str (str "format") (str "a8r8g8b8")
    ▷ fdt_end_node.

Definition fdt_soc_node (cfg : MachineConfig) (hartid2handle : list Z) (plic_phandle : Z) (s : FDTState) : FDTState :=
  let s := s ▷ fdt_begin_node (str "soc")
    ▷ fdt_prop_u32 (str "#address-cells") 2
    ▷ fdt_prop_u32 (str "#size-cells") 2
    ▷ fdt_prop_tab_str (str "compatible") [str "ucbbar,dromajo-bar-soc"; str "simple-bus"]
    ▷ fdt_prop (str "ranges") []
    ▷ fdt_begin_node_num (str "clint") (clint_base_addr cfg)
    ▷ fdt_prop_str (str "compatible") (str "riscv,clint0")
    ▷ fdt_prop_tab_u32 (str "interrupts-extended") (hart_interrupts hartid2handle 3 7)
    ▷ fdt_prop_tab_u64_2 (str "reg") (clint_base_addr cfg) (clint_size_cfg cfg)
    ▷ fdt_end_node
    ▷ fdt_begin_node_num (str "plic") (plic_base_addr cfg)
    ▷ fdt_prop_u32 (str "#interrupt-cells") 1
    ▷ fdt_prop (str "interrupt-controller") []
    ▷ fdt_prop_str (str "compatible") (str "riscv,plic0")
    ▷ fdt_prop_u32 (str "riscv,ndev") 31
    ▷ fdt_prop_tab_u64_2 (str "reg") (plic_base_addr cfg) (plic_size cfg)
    ▷ fdt_prop_tab_u32 (str "interrupts-extended") (hart_interrupts hartid2handle 9 11)
    ▷ fdt_prop_u32 (str "phandle") plic_phandle
    ▷ fdt_end_node in
  let s := foldl (fun s i => fdt_virtio_node plic_phandle i s) s (seqZ 0 (virtio_count cfg)) in
  let s := s ▷ fdt_uart_node plic_phandle DW_APB_UART0_BASE_ADDR DW_APB_UART0_IRQ
             ▷ fdt_uart_node plic_phandle DW_APB_UART1_BASE_ADDR DW_APB_UART1_IRQ in
  let s := match fb_dev cfg with Some fb => fdt_framebuffer_node fb s | None => s end in
  fdt_end_node s.

Definition fdt_chosen_node (cmd_line : option (list Z)) (initrd_start initrd_end : Z) (s : FDTState) : FDTState :=
  let s := s ▷ fdt_begin_node (str "chosen") ▷ fdt_prop_str (str "bootargs") (default [] cmd_line) in
  let s := if tst initrd_start && (initrd_start <? initrd_end)
           then s ▷ fdt_prop_u64 (str "linux,initrd-start") initrd_start
                  ▷ fdt_prop_u64 (str "linux,initrd-end") initrd_end
           else s in
  fdt_end_node s.

(** the tree of a machine whose harts have the given [misa]s, when no file
    holds it *)
Definition riscv_build_fdt (cfg : MachineConfig) (misas : list Z) (cmd_line : option (list Z))
    (initrd_start initrd_end : Z) : option (list Z) :=
  let s := fdt_init ▷ fdt_begin_node []
    ▷ fdt_prop_u32 (str "#address-cells") 2
    ▷ fdt_prop_u32 (str "#size-cells") 2
    ▷ fdt_prop_str (str "compatible") (str "ucbbar,dromajo-bar_dev")
    ▷ fdt_prop_str (str "model") (str "ucbbar,dromajo-bare")
    ▷ fdt_begin_node (str "cpus")
    ▷ fdt_prop_u32 (str "#address-cells") 1
    ▷ fdt_prop_u32 (str "#size-cells") 0
    ▷ fdt_prop_u32 (str "timebase-frequency") RTC_FREQ in
  let '(hartid2handle, cur_phandle, s) := fdt_cpu_nodes 0 1 misas s in
  let s := s ▷ fdt_end_node
    ▷ fdt_begin_node_num (str "memory") (ram_base_addr cfg)
    ▷ fdt_prop_str (str "device_type") (str "memory")
    ▷ fdt_prop_tab_u32 (str "reg") [u32 (ram_base_addr cfg >> 32); u32 (ram_base_addr cfg);
                                     u32 (ram_size cfg >> 32); u32 (ram_size cfg)]
    ▷ fdt_end_node
    ▷ fdt_soc_node cfg hartid2handle cur_phandle
    ▷ fdt_chosen_node cmd_line initrd_start initrd_end
    ▷ fdt_end_node in
  fdt_output s.
