(* ===== verification/FdtProps.v ===== *)
(** * What the device tree's image says

    A reader of the format, written from its specification, gets back from the
    image the calls that made it; the buffers are never written past their
    capacity; and the image built for a machine describes that machine. *)

From Stdlib Require Import String.
From S2P Require Import Prelude CpuState Cutils Machine Fdt.

(** ** The tree and its reader *)

Inductive fdt_event := BeginNode (name : list Z) | EndNode | Property (name data : list Z).

#[export] Instance fdt_event_eq_dec : EqDecision fdt_event.
Proof. solve_decision. Defined.

(** a node: its name, its properties, the nodes in it *)
Inductive dt_node := DtNode (name : list Z) (props : list (list Z * list Z)) (children : list dt_node).

Fixpoint flatten (t : dt_node) : list fdt_event :=
  match t with
  | DtNode name props children =>
      BeginNode name :: map (fun p => Property p.1 p.2) props
      ++ concat (map flatten children) ++ [EndNode]
  end.

Definition align4 (n : Z) : Z := (n + 3) / 4 * 4.
Definition word (b : list Z) (pos : Z) : Z := get_be32 (take 4 (drop (Z.to_nat pos) b)).

(** the structure block, with the block of strings beside it *)
Fixpoint parse_struct (fuel : nat) (strings b : list Z) : option (list fdt_event) :=
  match fuel with
  | O => None
  | S fuel =>
      let rest n := drop (Z.to_nat n) b in
      let node := word b 0 in
      if decide (length b < 4)%nat then None
      else if node =? 1 then
        match cstr (rest 4) with
        | Some name =>
            match parse_struct fuel strings (rest (4 + align4 (len name + 1))) with
            | Some l => Some (BeginNode name :: l)
            | None => None
            end
        | None => None
        end
      else if node =? 2 then
        match parse_struct fuel strings (rest 4) with Some l => Some (EndNode :: l) | None => None end
      else if node =? 3 then
        let n := word b 4 in
        match string_at strings (word b 8), parse_struct fuel strings (rest (12 + align4 n)) with
        | Some name, Some l => Some (Property name (take (Z.to_nat n) (rest 12)) :: l)
        | _, _ => None
        end
      else if node =? 4 then parse_struct fuel strings (rest 4)
      else if node =? 9 then if decide (rest 4 = []) then Some [] else None
      else None
  end.

(** bytes [pos, pos + n) *)
Definition slice (b : list Z) (pos n : Z) : list Z := take (Z.to_nat n) (drop (Z.to_nat pos) b).

(** the header is checked: magic number, total size, versions, an 8-byte aligned
    and empty reservation map *)
Definition fdt_parse (img : list Z) : option (list fdt_event) :=
  let off_struct := word img 8 in
  let off_strings := word img 12 in
  let off_rsvmap := word img 16 in
  if (word img 0 =? 0xd00dfeed) && (word img 4 =? len img) && (word img 20 =? 17) && (word img 24 <=? 17)
     && (off_rsvmap mod 8 =? 0) && bool_decide (slice img off_rsvmap 16 = replicate 16 0)
  then parse_struct (S (length img)) (slice img off_strings (word img 32)) (slice img off_struct (word img 36))
  else None.

(** ** Bytes and strings *)

Lemma len_app l1 l2 : len (l1 ++ l2) = len l1 + len l2.
Proof. unfold len. rewrite length_app. lia. Qed.
Lemma len_nonneg l : 0 <= len l.
Proof. unfold len. lia. Qed.
Lemma len_cons x l : len (x :: l) = len l + 1.
Proof. unfold len. simpl. lia. Qed.
Lemma len_replicate n x : len (replicate n x) = Z.of_nat n.
Proof. unfold len. by rewrite length_replicate. Qed.

Lemma be32_bytes_put v : be32_bytes v = put_be32 (u32 v).
Proof.
  unfold be32_bytes. rewrite put_be32_rev. assert (in_u 32 (u32 v)) as Hv by (apply uN_range; lia).
  rewrite <- bswap_32_bytes by done. rewrite put_be32_rev.
  unfold put_le32 at 2. change (reverse [?a; ?b; ?c; ?d]) with [d; c; b; a].
  rewrite put_get_le32 by (apply uN_range; lia). done.
Qed.

Lemma len_be32 v : len (be32_bytes v) = 4.
Proof. reflexivity. Qed.

Lemma word_be32 v l : in_u 32 v -> word (be32_bytes v ++ l) 0 = v.
Proof.
  intros Hv. unfold word. change (take 4 (drop (Z.to_nat 0) (be32_bytes v ++ l))) with (be32_bytes v).
  rewrite be32_bytes_put, uN_small by done. by apply get_put_be32.
Qed.

Lemma drop_len_app l1 l2 n : n = len l1 -> drop (Z.to_nat n) (l1 ++ l2) = l2.
Proof. intros ->. unfold len. by rewrite Nat2Z.id, drop_app_length. Qed.

Lemma take_len_app l1 l2 n : n = len l1 -> take (Z.to_nat n) (l1 ++ l2) = l1.
Proof. intros ->. unfold len. by rewrite Nat2Z.id, take_app_length. Qed.

Lemma word_app l1 l2 pos : pos = len l1 -> word (l1 ++ l2) pos = word l2 0.
Proof. intros Hp. unfold word. rewrite drop_len_app by done. done. Qed.

(** a name: no NUL in it *)
Definition no_nul (n : list Z) : Prop := Forall (fun b => b <> 0) n.

Lemma cstr_app n l : no_nul n -> cstr (n ++ 0 :: l) = Some n.
Proof.
  induction 1 as [|b n Hb Hn IH]; simpl; [done|].
  destruct (Z.eqb_spec b 0); [done|]. by rewrite IH.
Qed.

Lemma cstr_weaken l1 l2 s : cstr l1 = Some s -> cstr (l1 ++ l2) = Some s.
Proof.
  revert s. induction l1 as [|b l1 IH]; intros s; simpl; [done|]. destruct (b =? 0); [done|].
  destruct (cstr l1) as [s'|]; [|done]. intros [= <-]. by rewrite (IH s').
Qed.

Lemma string_at_weaken tbl l pos s : string_at tbl pos = Some s -> string_at (tbl ++ l) pos = Some s.
Proof.
  unfold string_at. intros H. destruct (decide (Z.to_nat pos <= length tbl)%nat).
  - rewrite drop_app_le by done. by apply cstr_weaken.
  - by rewrite drop_ge in H by lia.
Qed.

(** ** The string table *)

Definition table (strs : list (list Z)) : list Z := concat (map (fun n => n ++ [0]) strs).

Lemma table_app l1 l2 : table (l1 ++ l2) = table l1 ++ table l2.
Proof. unfold table. by rewrite map_app, concat_app. Qed.

Lemma table_one n : table [n] = n ++ [0].
Proof. unfold table. simpl. by rewrite app_nil_r. Qed.

Lemma len_table_submseteq l1 l2 : l1 ⊆+ l2 -> len (table l1) <= len (table l2).
Proof.
  induction 1; unfold table in *; simpl in *; rewrite ?len_app in *; try lia.
  - pose proof (len_nonneg x). pose proof (len_nonneg [0]). lia.
Qed.

Lemma find_string_spec strs pre name fuel :
  Forall no_nul strs -> (length strs < fuel)%nat ->
  match find_string fuel (table (pre ++ strs)) (len (table pre)) name with
  | Some pos => string_at (table (pre ++ strs)) pos = Some name /\ 0 <= pos < len (table (pre ++ strs))
  | None => name ∉ strs
  end.
Proof.
  intros Hs. revert pre fuel. induction Hs as [|n strs Hn Hs IH]; intros pre [|fuel] Hf; simpl in Hf; try lia.
  - simpl. rewrite app_nil_r, Z.ltb_irrefl. set_solver.
  - cbn [find_string]. assert (table (pre ++ n :: strs) = table pre ++ n ++ 0 :: table strs) as Ht.
    { rewrite table_app. unfold table at 2. simpl. by rewrite <- app_assoc. }
    assert (string_at (table (pre ++ n :: strs)) (len (table pre)) = Some n) as Hat.
    { rewrite Ht. unfold string_at. rewrite drop_len_app by done. by apply cstr_app. }
    pose proof (len_nonneg n). pose proof (len_nonneg (table strs)). pose proof (len_nonneg (table pre)).
    assert (len (table (pre ++ n :: strs)) = len (table pre) + len n + 1 + len (table strs)) as Hl.
    { rewrite Ht, !len_app, len_cons. lia. }
    destruct (Z.ltb_spec (len (table pre)) (len (table (pre ++ n :: strs)))); [|lia].
    rewrite Hat. destruct (decide (n = name)) as [->|Hne]; [split; [done|lia]|].
    specialize (IH (pre ++ [n]) fuel ltac:(lia)). rewrite <- app_assoc in IH. simpl in IH.
    replace (len (table (pre ++ [n]))) with (len (table pre) + len n + 1) in IH.
    { case_match; [done|]. set_solver. }
    rewrite table_app, table_one, !len_app. change (len [0]) with 1. lia.
Qed.

(** ** What the writer has written *)

(** an event's bytes, given the table its property names are in *)
Definition pad4 (n : Z) : list Z := replicate (Z.to_nat (- n .& 3)) 0.

Definition enc (tbl : list Z) (e : fdt_event) (b : list Z) : Prop :=
  match e with
  | BeginNode n => b = be32_bytes 1 ++ (n ++ [0]) ++ pad4 (len (n ++ [0]))
  | EndNode => b = be32_bytes 2
  | Property n d => exists off, in_u 32 off /\ string_at tbl off = Some n
      /\ b = be32_bytes 3 ++ be32_bytes (len d) ++ be32_bytes off ++ d ++ pad4 (len d)
  end.

Definition event_ok (names : list (list Z)) (e : fdt_event) : Prop :=
  match e with
  | BeginNode n => no_nul n
  | EndNode => True
  | Property n d => n ∈ names /\ no_nul n /\ in_u 32 (len d)
  end.

Definition depth (e : fdt_event) : Z :=
  match e with BeginNode _ => 1 | EndNode => -1 | Property _ _ => 0 end.
Definition depths (evs : list fdt_event) : Z := foldr (fun e n => depth e + n) 0 evs.

(** the state after the calls [evs], with property names among [names] *)
Record builds (names : list (list Z)) (evs : list fdt_event) (s : FDTState) : Prop := {
  b_tab : exists bs, tab s = concat bs /\ Forall2 (enc (string_table s)) evs bs;
  b_strs : exists strs, string_table s = table strs /\ Forall no_nul strs /\ NoDup strs /\ strs ⊆ names;
  b_open : open_node_count s = depths evs;
  b_events : Forall (event_ok names) evs
}.

Lemma pad4_spec n : 0 <= n -> len (pad4 n) = - n mod 4 /\ n + len (pad4 n) = align4 n.
Proof.
  intros Hn. unfold pad4. rewrite len_replicate. change 3 with (Z.ones 2). rewrite Z.land_ones by lia.
  change (2 ^ 2) with 4. pose proof (Z.mod_pos_bound (- n) 4 ltac:(lia)). split; [lia|]. rewrite Z2Nat.id by lia.
  unfold align4. pose proof (Z.div_mod (- n) 4 ltac:(lia)). pose proof (Z.div_mod (n + 3) 4 ltac:(lia)).
  pose proof (Z.mod_pos_bound (n + 3) 4 ltac:(lia)). lia.
Qed.

Lemma len_enc tbl e b : enc tbl e b -> len b mod 4 = 0.
Proof.
  assert (forall l, len (l ++ pad4 (len l)) mod 4 = 0) as Hp.
  { intros l. rewrite len_app. destruct (pad4_spec (len l) (len_nonneg l)) as [_ ->]. unfold align4.
    by rewrite Z.mod_mul. }
  destruct e as [n| |n d]; cbn [enc].
  - intros ->. rewrite len_app. rewrite len_be32. rewrite <- Zplus_mod_idemp_r, Hp. done.
  - by intros ->.
  - intros (off & _ & _ & ->). rewrite !len_app, !len_be32.
    specialize (Hp d). rewrite len_app in Hp. rewrite 2!Z.add_assoc. by rewrite <- Zplus_mod_idemp_r, Hp.
Qed.

(** allocation changes capacities only *)
Lemma put32_frame v s :
  tab (fdt_put32 v s) = tab s ++ be32_bytes v /\ string_table (fdt_put32 v s) = string_table s
  /\ open_node_count (fdt_put32 v s) = open_node_count s.
Proof. unfold fdt_put32, fdt_alloc_len, tab_store. cbv zeta. by case_match. Qed.

Lemma put_data_frame d s :
  tab (fdt_put_data d s) = tab s ++ d ++ pad4 (len d) /\ string_table (fdt_put_data d s) = string_table s
  /\ open_node_count (fdt_put_data d s) = open_node_count s.
Proof. unfold fdt_put_data, fdt_alloc_len, tab_store. cbv zeta. by case_match. Qed.

Lemma put32s_frame l s :
  tab (foldl (fun s v => fdt_put32 v s) s l) = tab s ++ concat (map be32_bytes l)
  /\ string_table (foldl (fun s v => fdt_put32 v s) s l) = string_table s
  /\ open_node_count (foldl (fun s v => fdt_put32 v s) s l) = open_node_count s.
Proof.
  revert s. induction l as [|v l IH]; intros s; simpl; [by rewrite app_nil_r|].
  destruct (IH (fdt_put32 v s)) as (-> & -> & ->). destruct (put32_frame v s) as (-> & -> & ->).
  by rewrite <- app_assoc.
Qed.

(** the offset found or made for a name, and the table after it *)
Lemma string_offset_spec names n s :
  (exists strs, string_table s = table strs /\ Forall no_nul strs /\ NoDup strs /\ strs ⊆ names) ->
  n ∈ names -> no_nul n -> len (table names) < 2 ^ 32 ->
  let '(off, s') := fdt_get_string_offset n s in
  in_u 32 off /\ string_at (string_table s') off = Some n
  /\ (exists x, string_table s' = string_table s ++ x)
  /\ (exists strs, string_table s' = table strs /\ Forall no_nul strs /\ NoDup strs /\ strs ⊆ names)
  /\ tab s' = tab s /\ open_node_count s' = open_node_count s.
Proof.
  intros (strs & Ht & Hs & Hd & Hsub) Hn Hnn Hlen. unfold fdt_get_string_offset.
  assert (forall l, NoDup l -> l ⊆ names -> len (table l) < 2 ^ 32) as Hb.
  { intros l Hl Hl'. pose proof (len_table_submseteq l names (NoDup_submseteq _ _ Hl Hl')). lia. }
  assert (forall l : list (list Z), (length l <= length (table l))%nat) as Hll.
  { induction l as [|x l IH]; simpl; [lia|]. unfold table in *. simpl. rewrite length_app, length_app. simpl. lia. }
  pose proof (find_string_spec strs [] n (S (length (string_table s))) Hs) as Hf. cbn [app] in Hf.
  change (len (table [])) with 0 in Hf. rewrite Ht in Hf |- *.
  specialize (Hf ltac:(specialize (Hll strs); lia)). destruct (find_string _ _ _ _) as [pos|].
  - destruct Hf as [Hf1 Hf2]. specialize (Hb strs Hd Hsub). rewrite Ht. split_and!; try done; [unfold in_u; lia| |].
    + exists []. by rewrite app_nil_r.
    + by exists strs.
  - cbn [tab string_table open_node_count]. unfold string_table_len. rewrite Ht.
    assert (table (strs ++ [n]) = table strs ++ n ++ [0]) as Hnew by (by rewrite table_app, table_one).
    assert (NoDup (strs ++ [n])) as Hd'.
    { apply NoDup_app. split_and!; [done| |apply NoDup_singleton]. intros x Hx ->%list_elem_of_singleton. done. }
    assert (strs ++ [n] ⊆ names) as Hsub' by set_solver.
    specialize (Hb _ Hd' Hsub'). rewrite Hnew, len_app in Hb. pose proof (len_nonneg (table strs)).
    pose proof (len_nonneg (n ++ [0])). split_and!; try done.
    + unfold in_u. lia.
    + unfold string_at. rewrite drop_len_app by done. by apply cstr_app.
    + by exists (n ++ [0]).
    + exists (strs ++ [n]). split_and!; try done. apply Forall_app. split; [done|by repeat constructor].
Qed.

Lemma enc_weaken tbl x e b : enc tbl e b -> enc (tbl ++ x) e b.
Proof.
  destruct e as [n| |n d]; cbn [enc]; try done. intros (off & H1 & H2 & H3). exists off.
  split_and!; [done|by apply string_at_weaken|done].
Qed.

Lemma depths_snoc evs e : depths (evs ++ [e]) = depths evs + depth e.
Proof. induction evs as [|e' evs IH]; simpl; [lia|]. rewrite IH. lia. Qed.

Section Builds.
Context (names : list (list Z)) (Hnames : len (table names) < 2 ^ 32).

(** appending one event's bytes *)
Lemma builds_snoc evs e b s s' :
  builds names evs s -> event_ok names e -> enc (string_table s') e b ->
  (exists x, string_table s' = string_table s ++ x) ->
  (exists strs, string_table s' = table strs /\ Forall no_nul strs /\ NoDup strs /\ strs ⊆ names) ->
  tab s' = tab s ++ b -> open_node_count s' = open_node_count s + depth e ->
  builds names (evs ++ [e]) s'.
Proof.
  intros [(bs & Ht & Hbs) Hs Ho He] Hok Henc [x Hx] Hs' Ht' Ho'. split.
  - exists (bs ++ [b]). split; [rewrite Ht', Ht, concat_app; simpl; by rewrite app_nil_r|].
    apply Forall2_app; [|by repeat constructor]. rewrite Hx. eapply Forall2_impl; [done|]. intros. by apply enc_weaken.
  - done.
  - by rewrite Ho', Ho, depths_snoc.
  - apply Forall_app. split; [done|by repeat constructor].
Qed.

Lemma builds_init : builds names [] fdt_init.
Proof.
  split; [by exists []| |done|done]. exists []. split_and!; try done; [constructor|set_solver].
Qed.

Lemma builds_begin evs n s : builds names evs s -> no_nul n -> builds names (evs ++ [BeginNode n]) (fdt_begin_node n s).
Proof.
  intros Hb Hn. unfold fdt_begin_node. cbv zeta.
  destruct (put32_frame FDT_BEGIN_NODE s) as (H1 & H2 & H3).
  destruct (put_data_frame (n ++ [0]) (fdt_put32 FDT_BEGIN_NODE s)) as (H4 & H5 & H6).
  rewrite H1 in H4. rewrite H2 in H5. rewrite H3 in H6.
  eapply builds_snoc; [exact Hb|done|reflexivity| | | |]; cbn [tab string_table open_node_count with_open_node_count].
  - exists []. by rewrite app_nil_r, H5.
  - rewrite H5. apply Hb.
  - by rewrite H4, <- app_assoc.
  - by rewrite H6.
Qed.

Lemma builds_end evs s : builds names evs s -> builds names (evs ++ [EndNode]) (fdt_end_node s).
Proof.
  intros Hb. unfold fdt_end_node. cbv zeta. destruct (put32_frame FDT_END_NODE s) as (H1 & H2 & H3).
  eapply builds_snoc; [exact Hb|done|reflexivity| | | |]; cbn [tab string_table open_node_count with_open_node_count].
  - exists []. by rewrite app_nil_r, H2.
  - rewrite H2. apply Hb.
  - by rewrite H1.
  - by rewrite H3.
Qed.

(** the header of a property, then its data *)
Lemma builds_property evs n d s :
  builds names evs s -> event_ok names (Property n d) ->
  forall s2, (let '(off, s1) := fdt_get_string_offset n (fdt_put32 (len d) (fdt_put32 FDT_PROP s)) in
    tab s2 = tab s1 ++ be32_bytes off ++ d ++ pad4 (len d)
    /\ string_table s2 = string_table s1 /\ open_node_count s2 = open_node_count s1) ->
  builds names (evs ++ [Property n d]) s2.
Proof.
  intros Hb Hok s2. destruct Hok as (Hn & Hnn & Hd).
  destruct (put32_frame FDT_PROP s) as (H1 & H2 & H3).
  destruct (put32_frame (len d) (fdt_put32 FDT_PROP s)) as (H4 & H5 & H6).
  rewrite H1 in H4. rewrite H2 in H5. rewrite H3 in H6.
  pose proof (string_offset_spec names n (fdt_put32 (len d) (fdt_put32 FDT_PROP s))) as Hoff.
  rewrite H5 in Hoff. specialize (Hoff (b_strs _ _ _ Hb) Hn Hnn Hnames).
  destruct (fdt_get_string_offset _ _) as [off s1]. destruct Hoff as (Ho1 & Ho2 & Ho3 & Ho4 & Ho5 & Ho6).
  intros (H7 & H8 & H9).
  eapply builds_snoc; [exact Hb|done|exists off; split_and!; [done|by rewrite H8|reflexivity]| | | |].
  - by rewrite H8.
  - by rewrite H8.
  - rewrite H7, Ho5, H4. by rewrite <- !app_assoc.
  - rewrite H9, Ho6, H6. simpl. lia.
Qed.

Lemma builds_prop evs n d s :
  builds names evs s -> event_ok names (Property n d) -> builds names (evs ++ [Property n d]) (fdt_prop n d s).
Proof.
  intros Hb Hok. eapply builds_property; [done..|]. unfold fdt_prop. cbv zeta.
  destruct (fdt_get_string_offset _ _) as [off s1].
  destruct (put32_frame off s1) as (H1 & H2 & H3). destruct (put_data_frame d (fdt_put32 off s1)) as (H4 & H5 & H6).
  rewrite H4, H5, H6, H1, H2, H3. by rewrite <- app_assoc.
Qed.

Lemma len_words l : len (concat (map be32_bytes l)) = len l * 4.
Proof. induction l as [|v l IH]; [done|]. cbn [map concat]. rewrite len_app, IH, len_be32, len_cons. lia. Qed.

Lemma builds_tab_u32 evs n l s :
  builds names evs s -> event_ok names (Property n (concat (map be32_bytes l))) ->
  builds names (evs ++ [Property n (concat (map be32_bytes l))]) (fdt_prop_tab_u32 n l s).
Proof.
  intros Hb Hok. eapply builds_property; [done..|]. rewrite len_words. unfold fdt_prop_tab_u32. cbv zeta.
  destruct (fdt_get_string_offset _ _) as [off s1].
  destruct (put32_frame off s1) as (H1 & H2 & H3). destruct (put32s_frame l (fdt_put32 off s1)) as (H4 & H5 & H6).
  rewrite H4, H5, H6, H1, H2, H3. split_and!; try done. rewrite <- app_assoc. do 3 f_equal.
  destruct (pad4_spec (len l * 4)) as [Hp _]; [pose proof (len_nonneg l); lia|].
  replace (- (len l * 4)) with (- len l * 4) in Hp by lia. rewrite Z.mod_mul in Hp by done.
  assert (pad4 (len l * 4) = []) as ->; [|by rewrite app_nil_r]. apply nil_length_inv. unfold len in *. lia.
Qed.

End Builds.

(** ** Reading it back *)

Lemma slice_app l1 l2 l3 pos n : pos = len l1 -> n = len l2 -> slice (l1 ++ l2 ++ l3) pos n = l2.
Proof. intros H1 H2. unfold slice. rewrite drop_len_app by done. by apply take_len_app. Qed.

Lemma word_app2 l1 l2 l3 pos : pos = len l1 + len l2 -> word (l1 ++ l2 ++ l3) pos = word l3 0.
Proof. intros Hp. rewrite app_assoc. apply word_app. by rewrite len_app. Qed.

Lemma enc_parse tbl names e b rest fuel l :
  event_ok names e -> enc tbl e b -> parse_struct fuel tbl rest = Some l ->
  parse_struct (S fuel) tbl (b ++ rest) = Some (e :: l).
Proof.
  intros Hok He Hr. cbn [parse_struct]. cbv zeta.
  assert (forall v x (P Q : option (list fdt_event)),
    (if decide (length (be32_bytes v ++ x) < 4)%nat then P else Q) = Q) as Hlen.
  { intros v x P Q. case_decide as H; [|done]. rewrite length_app in H. change (length (be32_bytes v)) with 4%nat in H. lia. }
  destruct e as [n| |n d]; cbn [enc] in He.
  - subst b. rewrite <- !app_assoc. rewrite Hlen, word_be32 by (by vm_compute). cbn [Z.eqb Pos.eqb].
    rewrite (drop_len_app (be32_bytes 1)) by done. cbn [app]. rewrite cstr_app by done.
    pose proof (pad4_spec (len (n ++ [0])) (len_nonneg _)) as [_ Hp].
    assert (len (n ++ [0]) = len n + 1) as Hn by (by rewrite len_app).
    change (n ++ 0 :: pad4 (len (n ++ [0])) ++ rest) with (n ++ [0] ++ pad4 (len (n ++ [0])) ++ rest).
    rewrite (app_assoc n), (app_assoc (n ++ [0])), (app_assoc (be32_bytes 1)), drop_len_app; [by rewrite Hr|].
    rewrite (len_app (be32_bytes 1)), (len_app (n ++ [0])), len_be32, Hn. rewrite Hn in Hp. lia.
  - subst b. rewrite Hlen, word_be32 by (by vm_compute). cbn [Z.eqb Pos.eqb].
    rewrite drop_len_app by done. by rewrite Hr.
  - destruct He as (off & Ho & Hat & ->). destruct Hok as (_ & _ & Hd). rewrite <- !app_assoc.
    rewrite Hlen, word_be32 by (by vm_compute). cbn [Z.eqb Pos.eqb].
    rewrite (word_app (be32_bytes 3) _ 4), (word_app2 (be32_bytes 3) (be32_bytes (len d)) _ 8) by done.
    rewrite !word_be32 by done. rewrite Hat.
    pose proof (pad4_spec (len d) (len_nonneg _)) as [_ Hp].
    rewrite (app_assoc (be32_bytes (len d))), (app_assoc (be32_bytes 3)).
    rewrite (drop_len_app (be32_bytes 3 ++ be32_bytes (len d) ++ be32_bytes off) _ 12) by reflexivity.
    rewrite take_len_app by done.
    rewrite (app_assoc d), (app_assoc (be32_bytes 3 ++ _)), drop_len_app; [by rewrite Hr|].
    rewrite !len_app, !len_be32 in *. lia.
Qed.

Lemma parse_events tbl names evs bs fuel :
  Forall (event_ok names) evs -> Forall2 (enc tbl) evs bs -> (length evs < fuel)%nat ->
  parse_struct fuel tbl (concat bs ++ be32_bytes FDT_END) = Some evs.
Proof.
  intros Hok H2. revert fuel. induction H2 as [|e b evs bs He H2 IH]; intros [|fuel] Hf; simpl in Hf; try lia; [done|].
  apply Forall_cons in Hok as [Hok Hoks]. cbn [concat]. rewrite <- app_assoc.
  eapply enc_parse; [done..|]. apply IH; [done|lia].
Qed.

Lemma enc_length tbl evs bs : Forall2 (enc tbl) evs bs -> (length evs <= length (concat bs))%nat.
Proof.
  induction 1 as [|e b evs bs He H2 IH]; [done|]. cbn [concat length]. rewrite length_app.
  assert (1 <= length b)%nat; [|lia].
  destruct e; cbn [enc] in He; [|..]; first [destruct He as (off & _ & _ & He)|idtac]; subst b;
    rewrite ?length_app; change (length (be32_bytes ?v)) with 4%nat; lia.
Qed.

Lemma align8_spec fuel pos : 0 <= pos -> - pos mod 8 <= Z.of_nat fuel -> len (align8 fuel pos) = - pos mod 8.
Proof.
  revert pos. induction fuel as [|fuel IH]; intros pos Hp Hf.
  - pose proof (Z.mod_pos_bound (- pos) 8 ltac:(lia)). unfold align8, len. simpl. lia.
  - cbn [align8]. change 7 with (Z.ones 3). rewrite Z.land_ones by lia. change (2 ^ 3) with 8.
    destruct (Z.eqb_spec (pos mod 8) 0) as [H0|H0].
    + rewrite Z.mod_opp_l_z by done. done.
    + rewrite Z.mod_opp_l_nz in * by done. pose proof (Z.mod_pos_bound pos 8 ltac:(lia)).
      rewrite len_cons. destruct (Z.eq_dec (pos mod 8) 7) as [H7|H7].
      * assert ((pos + 1) mod 8 = 0) as H8 by (rewrite <- Zplus_mod_idemp_l, H7; done).
        rewrite IH; rewrite ?Z.mod_opp_l_z; lia || done.
      * assert ((pos + 1) mod 8 = pos mod 8 + 1) as H8 by (rewrite <- Zplus_mod_idemp_l; apply Z.mod_small; lia).
        rewrite IH; rewrite ?Z.mod_opp_l_nz; lia || done.
Qed.

Lemma align8_aligned pos : 0 <= pos -> (pos + len (align8 8 pos)) mod 8 = 0.
Proof.
  intros Hp. rewrite align8_spec; [|done|pose proof (Z.mod_pos_bound (- pos) 8 ltac:(lia)); lia].
  rewrite Zplus_mod_idemp_r. by rewrite Z.add_opp_diag_r.
Qed.

(** the words of a block of big-endian words *)
Lemma word_nth ws l i w : ws !! i = Some w -> in_u 32 w -> word (concat (map be32_bytes ws) ++ l) (4 * Z.of_nat i) = w.
Proof.
  intros Hi Hw. revert ws Hi. induction i as [|i IH]; intros [|w' ws] Hi; try done; cbn [map concat]; rewrite <- app_assoc.
  - injection Hi as ->. by apply word_be32.
  - rewrite <- (IH ws) by done. unfold word. do 2 f_equal.
    replace (Z.to_nat (4 * Z.of_nat (S i))) with (4 + Z.to_nat (4 * Z.of_nat i))%nat by lia.
    rewrite <- drop_drop. done.
Qed.

(** the image of the calls [evs] reads back as [evs] *)
Lemma output_parses names evs s img :
  builds names evs s -> fdt_output s = Some img -> len img < 2 ^ 32 -> fdt_parse img = Some evs.
Proof.
  intros [(bs & Ht & Hbs) _ _ Hok] Ho Hl. unfold fdt_output in Ho. destruct (negb _); [done|].
  destruct (put32_frame FDT_END s) as (H1 & H2 & _). cbv zeta in Ho. rewrite H2 in Ho.
  unfold tab_len, string_table_len in Ho. rewrite H1, H2 in Ho. set (st := tab s ++ be32_bytes FDT_END) in *.
  assert (len st / 4 * 4 = len st) as Hst.
  { assert (len st mod 4 = 0); [|pose proof (Z.div_mod (len st) 4); lia].
    unfold st. rewrite len_app, len_be32, Ht. clear - Hbs. induction Hbs as [|e b evs bs He _ IH]; [done|].
    cbn [concat]. rewrite len_app, <- Z.add_assoc, <- Zplus_mod_idemp_l, (len_enc _ _ _ He). done. }
  rewrite Hst in Ho. unfold fdt_header_size, fdt_reserve_entry_size in Ho.
  set (pad1 := align8 8 (40 + len st)) in *. set (off_r := 40 + len st + len pad1) in *.
  set (tbl := string_table s) in *. set (pos := off_r + 16 + len tbl) in *. set (pad2 := align8 8 pos) in *.
  injection Ho as Ho. pose proof (len_nonneg st). pose proof (len_nonneg pad1). pose proof (len_nonneg tbl).
  pose proof (len_nonneg pad2).
  set (ws := [FDT_MAGIC; pos + len pad2; 40; off_r + 16; off_r; FDT_VERSION; 16; 0; len tbl; len st]).
  assert (img = concat (map be32_bytes ws) ++ st ++ pad1 ++ replicate 16 0 ++ tbl ++ pad2) as Hi.
  { rewrite <- Ho. unfold ws. cbn [map concat]. rewrite <- !app_assoc. done. }
  assert (len (concat (map be32_bytes ws)) = 40) as Hws by (rewrite len_words; done).
  assert (len img = pos + len pad2) as Hlen.
  { rewrite Hi, !len_app, Hws, len_replicate. unfold pos, off_r. lia. }
  assert (forall i w, ws !! i = Some w -> in_u 32 w -> word img (4 * Z.of_nat i) = w) as Hw.
  { intros i w Hiw Hu. rewrite Hi. by apply word_nth. }
  unfold fdt_parse. cbv zeta.
  assert (off_r mod 8 = 0) as H8 by (apply align8_aligned; lia).
  pose proof (Hw 0%nat FDT_MAGIC eq_refl ltac:(by vm_compute)) as W0.
  pose proof (Hw 1%nat _ eq_refl ltac:(unfold in_u; lia)) as W1.
  pose proof (Hw 2%nat 40 eq_refl ltac:(by vm_compute)) as W2.
  pose proof (Hw 3%nat _ eq_refl ltac:(unfold in_u; lia)) as W3.
  pose proof (Hw 4%nat _ eq_refl ltac:(unfold in_u; lia)) as W4.
  pose proof (Hw 5%nat FDT_VERSION eq_refl ltac:(by vm_compute)) as W5.
  pose proof (Hw 6%nat 16 eq_refl ltac:(by vm_compute)) as W6.
  pose proof (Hw 8%nat _ eq_refl ltac:(unfold in_u; lia)) as W8.
  pose proof (Hw 9%nat _ eq_refl ltac:(unfold in_u; lia)) as W9.
  change (4 * Z.of_nat 0) with 0 in W0. change (4 * Z.of_nat 1) with 4 in W1. change (4 * Z.of_nat 2) with 8 in W2.
  change (4 * Z.of_nat 3) with 12 in W3. change (4 * Z.of_nat 4) with 16 in W4. change (4 * Z.of_nat 5) with 20 in W5.
  change (4 * Z.of_nat 6) with 24 in W6. change (4 * Z.of_nat 8) with 32 in W8. change (4 * Z.of_nat 9) with 36 in W9.
  rewrite W0, W1, W2, W3, W4, W5, W6, W8, W9, Hlen, Z.eqb_refl, H8. clear W0 W1 W2 W3 W4 W5 W6 W8 W9 Hw.
  assert (slice img off_r 16 = replicate 16 0) as ->.
  { rewrite Hi, (app_assoc st), (app_assoc (concat _)). apply slice_app; [|done].
    rewrite !len_app, Hws. unfold off_r. lia. }
  assert (slice img (off_r + 16) (len tbl) = tbl) as ->.
  { rewrite Hi, (app_assoc pad1), (app_assoc st), (app_assoc (concat _)). apply slice_app; [|done].
    rewrite !len_app, Hws, len_replicate. unfold off_r. lia. }
  assert (slice img 40 (len st) = st) as -> by (rewrite Hi; by apply slice_app).
  rewrite bool_decide_eq_true_2 by done. cbn [andb].
  rewrite !Z.eqb_refl. change (16 <=? 17) with true. cbn [andb].
  unfold st. rewrite Ht. eapply parse_events; [done..|].
  pose proof (enc_length _ _ _ Hbs). rewrite <- Ht in *. unfold len in Hlen, Hl.
  assert (length (tab s) <= length st)%nat by (unfold st; rewrite length_app; lia).
  unfold pos, off_r, len in *. lia.
Qed.

(** ** The writer and the reader *)

(** the calls the events stand for *)
Definition emit (s : FDTState) (e : fdt_event) : FDTState :=
  match e with
  | BeginNode n => fdt_begin_node n s
  | EndNode => fdt_end_node s
  | Property n d => fdt_prop n d s
  end.

Lemma builds_emit names evs s :
  len (table names) < 2 ^ 32 -> Forall (event_ok names) evs ->
  forall evs0, builds names evs0 s -> builds names (evs0 ++ evs) (foldl emit s evs).
Proof.
  intros Hn Hok. revert s. induction Hok as [|e evs He Hok IH]; intros s evs0 Hb; simpl; [by rewrite app_nil_r|].
  rewrite cons_middle, app_assoc. apply IH. destruct e; simpl in *.
  - by apply builds_begin.
  - by apply builds_end.
  - by apply builds_prop.
Qed.

(** C31: writing a tree and reading the image gives the tree back.  For any
    sequence of calls that opens and closes nodes and sets properties, the image
    is made exactly when every node is closed, and a reader that checks the
    header, finds the blocks by their offsets and looks names up in the string
    table reads the same nodes and properties in the same order; the table holds
    every property name once. *)
Theorem fdt_roundtrip names evs :
  len (table names) < 2 ^ 32 -> Forall (event_ok names) evs ->
  let s := foldl emit fdt_init evs in
  (fdt_output s = None <-> depths evs <> 0)
  /\ (exists strs, string_table s = table strs /\ NoDup strs /\ strs ⊆ names)
  /\ (forall img, fdt_output s = Some img -> len img < 2 ^ 32 -> fdt_parse img = Some evs).
Proof.
  intros Hn Hok s.
  assert (builds names evs s) as Hb by (by apply (builds_emit names evs fdt_init Hn Hok []), builds_init).
  split_and!.
  - unfold fdt_output. rewrite (b_open _ _ _ Hb). destruct (Z.eqb_spec (depths evs) 0); cbn [negb]; cbv zeta.
    + split; [discriminate|intros H; by destruct H].
    + split; [intros _; assumption|reflexivity].
  - destruct (b_strs _ _ _ Hb) as (strs & H1 & _ & H2 & H3). by exists strs.
  - intros img. by apply (output_parses names).
Qed.

(** ** Capacities *)

(** the arrays hold what was written to them *)
Record in_bounds (s : FDTState) : Prop := {
  ib_words : len (tab s) mod 4 = 0;
  ib_tab : tab_len s <= tab_size s;
  ib_strings : string_table_len s <= string_table_size s
}.

Lemma max_int_ge a b : a <= max_int a b.
Proof. unfold max_int. destruct (Z.ltb_spec b a); lia. Qed.

Lemma alloc_len_spec n s :
  tab (fdt_alloc_len n s) = tab s /\ n <= tab_size (fdt_alloc_len n s)
  /\ tab_size s <= tab_size (fdt_alloc_len n s)
  /\ string_table (fdt_alloc_len n s) = string_table s
  /\ string_table_size (fdt_alloc_len n s) = string_table_size s.
Proof.
  unfold fdt_alloc_len. destruct (Z.ltb_spec (tab_size s) n) as [Hn|Hn]; simpl; [|done].
  pose proof (max_int_ge n (Z.quot (tab_size s * 3) 2)). split_and!; done || lia.
Qed.

(** storing whole words where they were allocated *)
Lemma store_in_bounds l n s :
  in_bounds s -> len l = 4 * n -> in_bounds (tab_store l (fdt_alloc_len (tab_len s + n) s)).
Proof.
  intros [Hw Ht Hs] Hl. destruct (alloc_len_spec (tab_len s + n) s) as (H1 & H2 & H3 & H4 & H5).
  set (s1 := fdt_alloc_len _ s) in *. unfold tab_len in H2.
  assert (len (tab s ++ l) = len (tab s) + n * 4) as Hlen by (rewrite len_app; lia).
  split; unfold tab_len, string_table_len; cbn [tab tab_size string_table string_table_size tab_store];
    rewrite ?H1, ?H4, ?H5, ?Hlen; [by rewrite Z.mod_add|by rewrite Z.div_add|done].
Qed.

Lemma put32_in_bounds v s : in_bounds s -> in_bounds (fdt_put32 v s).
Proof. intros Hs. unfold fdt_put32. by apply store_in_bounds. Qed.

Lemma put_data_in_bounds d s : in_bounds s -> in_bounds (fdt_put_data d s).
Proof.
  intros Hs. unfold fdt_put_data. apply store_in_bounds; [done|]. fold (pad4 (len d)).
  rewrite len_app. destruct (pad4_spec (len d) (len_nonneg d)) as [_ ->]. unfold align4. lia.
Qed.

Lemma node_count_in_bounds n s : in_bounds s -> in_bounds (with_open_node_count n s).
Proof. by intros [? ? ?]. Qed.

Lemma string_offset_in_bounds n s : in_bounds s -> in_bounds (fdt_get_string_offset n s).2.
Proof.
  intros [Hw Ht Hs]. unfold fdt_get_string_offset. destruct (find_string _ _ _ _); [done|].
  split; [done|done|]. unfold string_table_len in *. cbn [snd string_table string_table_size].
  rewrite !len_app. change (len [0]) with 1.
  destruct (Z.ltb_spec (string_table_size s) (len (string_table s) + (len n + 1))); [|lia].
  apply max_int_ge.
Qed.

Lemma prop_in_bounds n d s : in_bounds s -> in_bounds (fdt_prop n d s).
Proof.
  intros Hs. unfold fdt_prop. cbv zeta.
  pose proof (string_offset_in_bounds n (fdt_put32 (len d) (fdt_put32 FDT_PROP s))) as H.
  destruct (fdt_get_string_offset _ _) as [off s1]. apply put_data_in_bounds, put32_in_bounds, H.
  by apply put32_in_bounds, put32_in_bounds.
Qed.

Lemma prop_tab_u32_in_bounds n l s : in_bounds s -> in_bounds (fdt_prop_tab_u32 n l s).
Proof.
  intros Hs. unfold fdt_prop_tab_u32. cbv zeta.
  pose proof (string_offset_in_bounds n (fdt_put32 (len l * 4) (fdt_put32 FDT_PROP s))) as H.
  destruct (fdt_get_string_offset _ _) as [off s1].
  apply (foldl_inv in_bounds); [|intros; by apply put32_in_bounds].
  apply put32_in_bounds, H. by apply put32_in_bounds, put32_in_bounds.
Qed.

(** No call writes past its buffer: whatever nodes, properties and tables
    are written, the structure block and the string table stay within the
    capacities last asked of the allocator, and the structure block is whole
    words. *)
Theorem fdt_in_bounds evs n l :
  let s := foldl emit fdt_init evs in
  in_bounds s /\ in_bounds (fdt_prop_tab_u32 n l s) /\ in_bounds (fdt_put32 FDT_END s).
Proof.
  intros s. assert (in_bounds s) as Hs.
  { apply (foldl_inv in_bounds); [by split|]. intros s' e Hs _. destruct e; simpl.
    - by apply node_count_in_bounds, put_data_in_bounds, put32_in_bounds.
    - by apply node_count_in_bounds, put32_in_bounds.
    - by apply prop_in_bounds. }
  split_and!; [done|by apply prop_tab_u32_in_bounds|by apply put32_in_bounds].
Qed.

(** ** The tree of a machine *)

Definition words (l : list Z) : list Z := concat (map be32_bytes l).
Definition cells (v : Z) : list Z := [u32 (v >> 32); u32 v].

(** properties: a string, a 32-bit cell, an address range *)
Definition p_str (n s : list Z) : list Z * list Z := (n, s ++ [0]).
Definition p_u32 (n : list Z) (v : Z) : list Z * list Z := (n, words [u32 v]).
Definition p_reg (a size : Z) : list Z * list Z := (str "reg", words (cells a ++ cells size)).

(** a name with its unit address in hexadecimal *)
Definition unit_name (n : list Z) (a : Z) : list Z := take 255 (n ++ [64] ++ hex_digits 16 (u64 a) []).

Definition cpu_tree (hartid misa handle : Z) : dt_node :=
  DtNode (unit_name (str "cpu") hartid)
    [p_str (str "device_type") (str "cpu"); p_u32 (str "reg") hartid; p_str (str "status") (str "okay");
     p_str (str "compatible") (str "riscv"); p_str (str "riscv,isa") (isa_string misa);
     p_str (str "mmu-type") (str "riscv,sv48"); p_u32 (str "clock-frequency") CPU_FREQUENCY]
    [DtNode (str "interrupt-controller")
       [p_u32 (str "#interrupt-cells") 1; (str "interrupt-controller", []);
        p_str (str "compatible") (str "riscv,cpu-intc"); p_u32 (str "phandle") handle;
        p_u32 (str "linux,phandle") handle] []].

(** hart [h] has handle [h + 1] *)
Definition handles (n : nat) : list Z := seqZ 1 (Z.of_nat n).
Definition cpu_trees (misas : list Z) : list dt_node :=
  imap (fun h misa => cpu_tree (Z.of_nat h) misa (Z.of_nat h + 1)) misas.

Definition virtio_tree (plic i : Z) : dt_node :=
  DtNode (unit_name (str "virtio") (VIRTIO_BASE_ADDR + i * VIRTIO_SIZE))
    [p_str (str "compatible") (str "virtio,mmio"); p_reg (VIRTIO_BASE_ADDR + i * VIRTIO_SIZE) VIRTIO_SIZE;
     (str "interrupts-extended", words [plic; VIRTIO_IRQ + i])] [].

Definition uart_tree (plic base irq : Z) : dt_node :=
  DtNode (unit_name (str "uart") base)
    [p_reg base DW_APB_UART0_SIZE; p_u32 (str "current-speed") 115200;
     p_u32 (str "clock-frequency") 25000000; p_u32 (str "reg-shift") 2; p_u32 (str "reg-io-width") 4;
     p_str (str "compatible") (str "ns16550a"); p_u32 (str "interrupt-parent") plic; p_u32 (str "interrupts") irq] [].

Definition framebuffer_tree (fb : FBDevice) : dt_node :=
  DtNode (unit_name (str "framebuffer") FRAMEBUFFER_BASE_ADDR)
    [p_str (str "compatible") (str "simple-framebuffer"); p_reg FRAMEBUFFER_BASE_ADDR (fb_size fb);
     p_u32 (str "width") (fb_width fb); p_u32 (str "height") (fb_height fb); p_u32 (str "stride") (fb_stride fb);
     p_str (str "format") (str "a8r8g8b8")] [].

Definition clint_tree (cfg : MachineConfig) (n : nat) : dt_node :=
  DtNode (unit_name (str "clint") (clint_base_addr cfg))
    [p_str (str "compatible") (str "riscv,clint0");
     (str "interrupts-extended", words (hart_interrupts (handles n) 3 7));
     p_reg (clint_base_addr cfg) (clint_size_cfg cfg)] [].

Definition plic_tree (cfg : MachineConfig) (n : nat) : dt_node :=
  DtNode (unit_name (str "plic") (plic_base_addr cfg))
    [p_u32 (str "#interrupt-cells") 1; (str "interrupt-controller", []);
     p_str (str "compatible") (str "riscv,plic0"); p_u32 (str "riscv,ndev") 31;
     p_reg (plic_base_addr cfg) (plic_size cfg);
     (str "interrupts-extended", words (hart_interrupts (handles n) 9 11));
     p_u32 (str "phandle") (Z.of_nat n + 1)] [].

Definition soc_props : list (list Z * list Z) :=
  [p_u32 (str "#address-cells") 2; p_u32 (str "#size-cells") 2;
   (str "compatible", (str "ucbbar,dromajo-bar-soc" ++ [0]) ++ (str "simple-bus" ++ [0])); (str "ranges", [])].

Definition soc_tree (cfg : MachineConfig) (n : nat) : dt_node :=
  let plic := Z.of_nat n + 1 in
  DtNode (str "soc") soc_props
    ([clint_tree cfg n; plic_tree cfg n] ++ map (virtio_tree plic) (seqZ 0 (virtio_count cfg))
     ++ [uart_tree plic DW_APB_UART0_BASE_ADDR DW_APB_UART0_IRQ; uart_tree plic DW_APB_UART1_BASE_ADDR DW_APB_UART1_IRQ]
     ++ match fb_dev cfg with Some fb => [framebuffer_tree fb] | None => [] end).

Definition chosen_tree (cmd_line : option (list Z)) (initrd_start initrd_end : Z) : dt_node :=
  DtNode (str "chosen")
    (p_str (str "bootargs") (default [] cmd_line) ::
     if tst initrd_start && (initrd_start <? initrd_end)
     then [(str "linux,initrd-start", words (cells initrd_start)); (str "linux,initrd-end", words (cells initrd_end))]
     else []) [].

Definition machine_tree (cfg : MachineConfig) (misas : list Z) (cmd_line : option (list Z))
    (initrd_start initrd_end : Z) : dt_node :=
  DtNode []
    [p_u32 (str "#address-cells") 2; p_u32 (str "#size-cells") 2;
     p_str (str "compatible") (str "ucbbar,dromajo-bar_dev"); p_str (str "model") (str "ucbbar,dromajo-bare")]
    [DtNode (str "cpus")
       [p_u32 (str "#address-cells") 1; p_u32 (str "#size-cells") 0; p_u32 (str "timebase-frequency") RTC_FREQ]
       (cpu_trees misas);
     DtNode (unit_name (str "memory") (ram_base_addr cfg))
       [p_str (str "device_type") (str "memory"); p_reg (ram_base_addr cfg) (ram_size cfg)] [];
     soc_tree cfg (length misas);
     chosen_tree cmd_line initrd_start initrd_end].

(** every property name the machine's tree uses *)
Definition fdt_names : list (list Z) := map str
  ["#address-cells"; "#size-cells"; "compatible"; "model"; "timebase-frequency"; "device_type"; "reg"; "status";
   "riscv,isa"; "mmu-type"; "clock-frequency"; "#interrupt-cells"; "interrupt-controller"; "phandle";
   "linux,phandle"; "ranges"; "interrupts-extended"; "riscv,ndev"; "current-speed"; "reg-shift"; "reg-io-width";
   "interrupt-parent"; "interrupts"; "width"; "height"; "stride"; "format"; "bootargs"; "linux,initrd-start";
   "linux,initrd-end"]%string.

Lemma fdt_names_size : len (table fdt_names) < 2 ^ 32.
Proof. by vm_compute. Qed.

Lemma fdt_names_no_nul n : n ∈ fdt_names -> no_nul n.
Proof.
  assert (Forall no_nul fdt_names) as H by (unfold no_nul; apply (bool_decide_unpack _); by vm_compute).
  intros Hn. by apply (proj1 (Forall_forall _ _) H).
Qed.

Lemma hex_digits_no_nul fuel n acc : no_nul acc -> no_nul (hex_digits fuel n acc).
Proof.
  revert n acc. induction fuel as [|fuel IH]; intros n acc Ha; simpl; [done|].
  assert (no_nul (hex_digit (n mod 16) :: acc)) as H.
  { constructor; [|done]. unfold hex_digit. pose proof (Z.mod_pos_bound n 16 ltac:(lia)). case_match; lia. }
  case_match; [done|]. by apply IH.
Qed.

Lemma unit_name_no_nul n a : no_nul n -> no_nul (unit_name n a).
Proof.
  intros Hn. unfold unit_name. apply Forall_take. apply Forall_app. split; [done|].
  apply Forall_app. split; [constructor; [lia|constructor]|]. apply hex_digits_no_nul. constructor.
Qed.

Lemma len_filter f l : len (List.filter f l) <= len l.
Proof.
  induction l as [|x l IH]; [done|]. simpl. destruct (f x); rewrite ?len_cons; lia.
Qed.

Lemma len_isa_string misa : len (isa_string misa) <= 30.
Proof.
  unfold isa_string. rewrite len_app. change (len (str "rv64")) with 4.
  assert (forall f l, len (List.map f l) = len l) as -> by (intros f l; unfold len; by rewrite length_map).
  pose proof (len_filter (fun i => tst (misa .& (1 << i))) (seqZ 0 26)) as H.
  change (len (seqZ 0 26)) with 26 in H. lia.
Qed.

Lemma len_hart_interrupts hs i j : len (hart_interrupts hs i j) = 4 * len hs.
Proof. unfold hart_interrupts. induction hs as [|h hs IH]; [done|]. cbn [List.map concat]. rewrite len_app, IH, !len_cons. change (len []) with 0. lia. Qed.

Section MachineTree.
#[local] Abbreviation B := (builds fdt_names).

Lemma B_eq l l' s : B l s -> l = l' -> B l' s.
Proof. by intros ? <-. Qed.

Lemma prop_ok n d : bool_decide (n ∈ fdt_names) = true -> len d < 2 ^ 32 -> event_ok fdt_names (Property n d).
Proof.
  intros Hn%bool_decide_eq_true Hd. pose proof (len_nonneg d).
  split_and!; [done|by apply fdt_names_no_nul|done].
Qed.

Lemma B_str l n s st : B l st -> bool_decide (n ∈ fdt_names) = true -> len s < 2 ^ 32 - 1 ->
  B (l ++ [Property (p_str n s).1 (p_str n s).2]) (fdt_prop_str n s st).
Proof.
  intros Hb Hn Hs. apply builds_prop; [apply fdt_names_size|done|]. apply prop_ok; [done|].
  rewrite len_app. change (len [0]) with 1. lia.
Qed.

Lemma B_data l n d st : B l st -> bool_decide (n ∈ fdt_names) = true -> len d < 2 ^ 32 ->
  B (l ++ [Property (n, d).1 (n, d).2]) (fdt_prop n d st).
Proof. intros Hb Hn Hd. apply builds_prop; [apply fdt_names_size|done|by apply prop_ok]. Qed.

Lemma B_tab l n t st : B l st -> bool_decide (n ∈ fdt_names) = true -> len t < 2 ^ 30 ->
  B (l ++ [Property (n, words t).1 (n, words t).2]) (fdt_prop_tab_u32 n t st).
Proof.
  intros Hb Hn Ht. apply builds_tab_u32; [apply fdt_names_size|done|]. apply prop_ok; [done|].
  rewrite len_words. lia.
Qed.

Lemma B_u32 l n v st : B l st -> bool_decide (n ∈ fdt_names) = true ->
  B (l ++ [Property (p_u32 n v).1 (p_u32 n v).2]) (fdt_prop_u32 n v st).
Proof. intros Hb Hn. by apply B_tab. Qed.

Lemma B_reg l a size st : B l st ->
  B (l ++ [Property (p_reg a size).1 (p_reg a size).2]) (fdt_prop_tab_u64_2 (str "reg") a size st).
Proof. intros Hb. by apply B_tab. Qed.

Lemma B_begin l n st : B l st -> no_nul n -> B (l ++ [BeginNode n]) (fdt_begin_node n st).
Proof. apply builds_begin. Qed.

Lemma B_begin_num l n a st : B l st -> no_nul n -> B (l ++ [BeginNode (unit_name n a)]) (fdt_begin_node_num n a st).
Proof. intros Hb Hn. apply builds_begin; [done|]. by apply unit_name_no_nul. Qed.

Lemma B_end l st : B l st -> B (l ++ [EndNode]) (fdt_end_node st).
Proof. apply builds_end. Qed.

(** one call: the lemma of the writer's outermost function *)
Ltac known_name := vm_compute; reflexivity.
Ltac short := first [closed_goal; vm_compute; reflexivity | match goal with |- len (_ :: _) < _ => reflexivity end | idtac].
Ltac plain_name := first [closed_goal; unfold no_nul; apply (bool_decide_unpack _); vm_compute; exact I | idtac].
Ltac fdt_call :=
  lazymatch goal with
  | |- builds _ _ (fdt_prop_str _ _ _) => eapply B_str; [|known_name|short]
  | |- builds _ _ (fdt_prop_u32 _ _ _) => eapply B_u32; [|known_name]
  | |- builds _ _ (fdt_prop_tab_u64_2 _ _ _ _) => eapply B_reg
  | |- builds _ _ (fdt_prop _ _ _) => eapply B_data; [|known_name|short]
  | |- builds _ _ (fdt_prop_tab_u32 _ _ _) => eapply B_tab; [|known_name|short]
  | |- builds _ _ (fdt_begin_node_num _ _ _) => eapply B_begin_num; [|plain_name]
  | |- builds _ _ (fdt_begin_node _ _) => eapply B_begin; [|plain_name]
  | |- builds _ _ (fdt_end_node _) => eapply B_end
  end.
(** the calls of a straight-line block, and its event list *)
Ltac fdt_calls := eapply B_eq; [repeat fdt_call; try eassumption|].
Ltac fdt_events := cbn [flatten map concat app]; rewrite <- ?app_assoc; cbn [app]; reflexivity.

Lemma B_cpu l h misa p st : B l st -> B (l ++ flatten (cpu_tree h misa p)) (fdt_cpu_node h misa p st).
Proof.
  intros Hb. unfold fdt_cpu_node. fdt_calls; [|fdt_events]. pose proof (len_isa_string misa). lia.
Qed.

Lemma B_cpus l h p misas st : B l st ->
  let '(hs, p', st') := fdt_cpu_nodes h p misas st in
  hs = seqZ p (Z.of_nat (length misas)) /\ p' = p + Z.of_nat (length misas)
  /\ B (l ++ concat (map flatten (imap (fun i misa => cpu_tree (h + Z.of_nat i) misa (p + Z.of_nat i)) misas))) st'.
Proof.
  revert l h p st. induction misas as [|misa misas IH]; intros l h p st Hb; cbn [fdt_cpu_nodes]; cbv zeta.
  - split_and!; [done|simpl; lia|]. cbn [imap map concat]. by rewrite app_nil_r.
  - specialize (IH _ (h + 1) (p + 1) _ (B_cpu l h misa p st Hb)).
    destruct (fdt_cpu_nodes _ _ _ _) as [[hs p'] st']. destruct IH as (-> & -> & IH).
    cbn [length]. rewrite Nat2Z.inj_succ. split_and!.
    + rewrite (seqZ_cons p) by lia. do 2 f_equal; lia.
    + lia.
    + rewrite imap_cons. cbn [map concat]. rewrite !Z.add_0_r, app_assoc. eapply B_eq; [exact IH|].
      do 3 f_equal. apply imap_ext. intros i x _. simpl. f_equal; lia.
Qed.

Lemma B_virtio l p i st : B l st -> B (l ++ flatten (virtio_tree p i)) (fdt_virtio_node p i st).
Proof. intros Hb. unfold fdt_virtio_node. fdt_calls. fdt_events. Qed.

Lemma B_virtios l p ids st : B l st ->
  B (l ++ concat (map flatten (map (virtio_tree p) ids))) (foldl (fun s i => fdt_virtio_node p i s) st ids).
Proof.
  revert l st. induction ids as [|i ids IH]; intros l st Hb; cbn [foldl map concat]; [by rewrite app_nil_r|].
  rewrite app_assoc. by apply IH, B_virtio.
Qed.

Lemma B_uart l p a irq st : B l st -> B (l ++ flatten (uart_tree p a irq)) (fdt_uart_node p a irq st).
Proof. intros Hb. unfold fdt_uart_node. fdt_calls. fdt_events. Qed.

Lemma B_fb l fb st : B l st -> B (l ++ flatten (framebuffer_tree fb)) (fdt_framebuffer_node fb st).
Proof. intros Hb. unfold fdt_framebuffer_node. fdt_calls. fdt_events. Qed.

Lemma B_soc l cfg n st : (n <= 8)%nat -> B l st ->
  B (l ++ flatten (soc_tree cfg n)) (fdt_soc_node cfg (handles n) (1 + Z.of_nat n) st).
Proof.
  intros Hn Hb. unfold fdt_soc_node. cbv zeta. rewrite (Z.add_comm 1).
  assert (forall i j, len (hart_interrupts (handles n) i j) < 2 ^ 30) as Hi.
  { intros i j. rewrite len_hart_interrupts. unfold handles, len. rewrite length_seqZ. lia. }
  set (plic := Z.of_nat n + 1).
  match goal with |- context [foldl _ ?s1 _] =>
    assert (B (l ++ (BeginNode (str "soc") :: map (fun p => Property p.1 p.2) soc_props)
       ++ flatten (clint_tree cfg n) ++ flatten (plic_tree cfg n)) s1) as Hs1 end.
  { unfold fdt_prop_tab_str, clint_tree, plic_tree, soc_props.
    eapply B_eq; [repeat fdt_call; try apply Hi; eassumption|]. fdt_events. }
  apply (B_virtios _ plic (seqZ 0 (virtio_count cfg))) in Hs1.
  apply (B_uart _ plic DW_APB_UART0_BASE_ADDR DW_APB_UART0_IRQ) in Hs1.
  apply (B_uart _ plic DW_APB_UART1_BASE_ADDR DW_APB_UART1_IRQ) in Hs1.
  unfold soc_tree. cbv zeta. fold plic. destruct (fb_dev cfg) as [fb|].
  - apply (B_fb _ fb), B_end in Hs1. eapply B_eq; [exact Hs1|].
    cbn [flatten]. rewrite !map_app, !concat_app. cbn [map concat]. rewrite !app_nil_r.
    by rewrite <- !app_assoc.
  - apply B_end in Hs1. eapply B_eq; [exact Hs1|].
    cbn [flatten]. rewrite !map_app, !concat_app. cbn [map concat]. rewrite !app_nil_r.
    by rewrite <- !app_assoc.
Qed.

Lemma B_chosen l cmd i0 i1 st : len (default [] cmd) < 2 ^ 32 - 1 -> B l st ->
  B (l ++ flatten (chosen_tree cmd i0 i1)) (fdt_chosen_node cmd i0 i1 st).
Proof.
  intros Hc Hb. unfold fdt_chosen_node, chosen_tree. cbv zeta.
  destruct (tst i0 && (i0 <? i1)); unfold fdt_prop_u64; fdt_calls; fdt_events.
Qed.

Lemma fdt_output_some evs s : B evs s -> depths evs = 0 -> exists img, fdt_output s = Some img.
Proof.
  intros Hb Hd. unfold fdt_output. rewrite (b_open _ _ _ Hb), Hd. by eexists.
Qed.

Lemma depths_app l1 l2 : depths (l1 ++ l2) = depths l1 + depths l2.
Proof. induction l1 as [|e l1 IH]; cbn [app depths foldr]; [done|]. unfold depths in *. simpl. rewrite IH. lia. Qed.

Lemma depths_concat ls : Forall (fun l => depths l = 0) ls -> depths (concat ls) = 0.
Proof. induction 1 as [|l ls Hl _ IH]; [done|]. cbn [concat]. rewrite depths_app, Hl, IH. done. Qed.

Lemma depths_flatten : forall t, depths (flatten t) = 0.
Proof.
  fix IH 1. intros [n ps cs]. cbn [flatten].
  change (depths (BeginNode n :: ?l)) with (1 + depths l). rewrite !depths_app.
  assert (depths (map (fun p : list Z * list Z => Property p.1 p.2) ps) = 0) as ->.
  { induction ps as [|p ps IHp]; [done|]. cbn [map]. change (depths (Property ?a ?b :: ?l)) with (0 + depths l). by rewrite IHp. }
  assert (depths (concat (map flatten cs)) = 0) as ->.
  { induction cs as [|c cs IHc]; [done|]. cbn [map concat]. rewrite depths_app, IHc, (IH c). done. }
  done.
Qed.

(** the image built for a machine reads as the machine's tree *)
Lemma build_fdt_image cfg misas cmd_line initrd_start initrd_end :
  (length misas <= 8)%nat -> len (default [] cmd_line) < 2 ^ 32 - 1 ->
  exists img, riscv_build_fdt cfg misas cmd_line initrd_start initrd_end = Some img
    /\ (len img < 2 ^ 32 ->
        fdt_parse img = Some (flatten (machine_tree cfg misas cmd_line initrd_start initrd_end))).
Proof.
  intros Hn Hc. unfold riscv_build_fdt. cbv zeta.
  match goal with |- context [fdt_cpu_nodes 0 1 misas ?s] =>
    assert (B ((BeginNode [] :: map (fun p => Property p.1 p.2)
         [p_u32 (str "#address-cells") 2; p_u32 (str "#size-cells") 2;
          p_str (str "compatible") (str "ucbbar,dromajo-bar_dev"); p_str (str "model") (str "ucbbar,dromajo-bare")])
       ++ (BeginNode (str "cpus") :: map (fun p => Property p.1 p.2)
         [p_u32 (str "#address-cells") 1; p_u32 (str "#size-cells") 0; p_u32 (str "timebase-frequency") RTC_FREQ])) s) as H1;
    [|pose proof (B_cpus _ 0 1 misas s H1) as H2; destruct (fdt_cpu_nodes 0 1 misas s) as [[hs p] s1]] end.
  { eapply B_eq; [repeat fdt_call; apply builds_init, fdt_names_size|]. fdt_events. }
  destruct H2 as (-> & -> & H2).
  rewrite (imap_ext _ (fun h misa => cpu_tree (Z.of_nat h) misa (Z.of_nat h + 1))) in H2
    by (intros h misa _; f_equal; lia). fold (cpu_trees misas) in H2.
  match type of H2 with builds _ ?l _ => set (pre := l) in H2 end.
  match goal with |- context [fdt_soc_node _ _ _ ?s] =>
    assert (B (pre ++ EndNode :: flatten (DtNode (unit_name (str "memory") (ram_base_addr cfg))
       [p_str (str "device_type") (str "memory"); p_reg (ram_base_addr cfg) (ram_size cfg)] [])) s) as H3 end.
  { eapply B_eq; [repeat fdt_call; exact H2|]. fdt_events. }
  apply (B_soc _ cfg (length misas)) in H3; [|done].
  apply (B_chosen _ cmd_line initrd_start initrd_end) in H3; [|done].
  apply B_end in H3.
  eapply B_eq in H3; [|instantiate (1 := flatten (machine_tree cfg misas cmd_line initrd_start initrd_end))].
  - destruct (fdt_output_some _ _ H3 (depths_flatten _)) as [img Hi]. exists img. split; [exact Hi|].
    intros Hl. by apply (output_parses fdt_names _ _ _ H3).
  - unfold machine_tree, pre. cbn [flatten map concat]. rewrite !app_nil_r. rewrite <- !app_assoc. cbn [app].
    rewrite <- !app_assoc. cbn [app]. reflexivity.
Qed.


End MachineTree.

(** ** Examples *)

(** a node with a property, twice the same name *)
Definition small_tree : dt_node :=
  DtNode [] [(str "reg", [0; 0; 0; 7])] [DtNode (str "a") [(str "reg", [1; 2; 3])] []].

Lemma fdt_roundtrip_witness :
  match fdt_output (foldl emit fdt_init (flatten small_tree)) with
  | Some img => fdt_parse img = Some (flatten small_tree)
  | None => False
  end.
Proof.
  assert (Forall (event_ok [str "reg"]) (flatten small_tree)) as Hok.
  { repeat (apply Forall_cons; split); try apply Forall_nil; unfold event_ok, no_nul; try exact I;
      split_and?; apply (bool_decide_unpack _); by vm_compute. }
  destruct (fdt_roundtrip [str "reg"] (flatten small_tree) ltac:(by vm_compute) Hok) as (_ & _ & H).
  destruct (fdt_output (foldl emit fdt_init (flatten small_tree))) as [img|] eqn:Hi; [|vm_compute in Hi; discriminate].
  apply (H img); [exact eq_refl|]. vm_compute in Hi. injection Hi as <-. by vm_compute.
Defined.

(** the default machine *)
Definition default_config : MachineConfig :=
  mkConfig (256 << 20) 0x80000000 PLIC_BASE_ADDR PLIC_SIZE CLINT_BASE_ADDR CLINT_SIZE 0 None 0x10000 false false false.

