(* ===== verification/VirtMachine.v ===== *)
(** * Building a machine and loading its software (riscv_machine.cpp, elf64.cpp)

    The memory map, the boot ROM, the firmware, kernel and initial disk, the ELF
    loader.  Host allocations come from a function that gives the address of the
    range with a given index; a copy writes host memory wherever its pointer and
    length say, as [memcpy] does.  The virtio devices are left out. *)

From S2P Require Import Prelude Riscv CpuState Cutils IoMem Mmu Csr Trap Uart Machine Fdt.

(** a result, an error the code reports, or behaviour C leaves undefined: a NULL
    pointer or bytes outside a buffer, a failed assertion *)
Inductive outcome (A : Type) := Done (a : A) | Error | Undefined.
#[global] Arguments Done {A}.
#[global] Arguments Error {A}.
#[global] Arguments Undefined {A}.

Definition bind {A B} (x : outcome A) (f : A -> outcome B) : outcome B :=
  match x with Done a => f a | Error => Error | Undefined => Undefined end.
#[local] Notation "'let!' x ':=' a 'in' b" := (bind a (fun x => b)) (at level 10, x name, b at level 200).

(** ** ELF images *)

(** an [n]-byte little-endian field; [None] outside the image *)
Definition field (n : nat) (off : Z) (image : list Z) : option Z :=
  if (0 <=? off) && (off + Z.of_nat n <=? len image)
  then Some (foldr (fun b v => b .| (v << 8)) 0 (take n (drop (Z.to_nat off) image)))
  else None.

Definition sizeof_Ehdr : Z := 64.
Definition sizeof_Phdr : Z := 56.
Definition EM_RISCV : Z := 0xF3.
Definition PT_LOAD : Z := 1.

Definition elf64_is_riscv64 (image : list Z) : bool :=
  let fld n off := default 0 (field n off image) in
  if len image <? sizeof_Ehdr then false
  else if negb (bool_decide (take 4 image = [0x7f; 69; 76; 70])) then false
  else if negb (fld 1%nat 4 =? 2) then false
  else if negb (fld 1%nat 5 =? 1) then false
  else if negb (fld 2%nat 18 =? EM_RISCV) then false
  else if negb (fld 2%nat 52 =? sizeof_Ehdr) then false
  else if negb (fld 2%nat 54 =? sizeof_Phdr) then false
  else true.

Definition elf64_get_entrypoint (image : list Z) : Z := default 0 (field 8 24 image).

(** ** Memory *)

(** the map and the host's memory *)
Definition Mem : Type := PhysMemoryMap * HostMem.

Fixpoint hm_copy (a : Z) (l : list Z) (m : HostMem) : HostMem :=
  match l with [] => m | b :: l => hm_copy (a + 1) l (<[a := u8 b]> m) end.

(** 0 is NULL *)
Definition get_ram_ptr (paddr : Z) (s : Mem) : Z :=
  match get_phys_mem_range s.1 paddr with
  | Some (_, pr) => if pr_is_ram pr then u64 (pr_phys_mem pr + (paddr - pr_addr pr)) else 0
  | None => 0
  end.

Definition memcpy (ptr : Z) (l : list Z) (s : Mem) : outcome Mem :=
  if (ptr =? 0) && negb (len l =? 0) then Undefined else Done (s.1, hm_copy ptr l s.2).

(** [n] bytes of the image from [off] *)
Definition image_bytes (image : list Z) (off n : Z) : outcome (list Z) :=
  if (0 <=? off) && (off + n <=? len image) then Done (take (Z.to_nat n) (drop (Z.to_nat off) image)) else Undefined.

Section Load.
(** the address [mallocz] gives to the RAM of a range *)
Context (host : nat -> Z).

Definition cpu_register_ram (addr size flags : Z) (s : Mem) : outcome Mem :=
  match default_register_ram s.1 addr size flags (host (length s.1)) s.2 with
  | Some (_, m, h) => Done (m, h)
  | None => Undefined
  end.

(** one program header at [ph], and whether it is the boot ROM's *)
Definition load_segment (image : list Z) (ph : Z) (s : Mem) : outcome (bool * Mem) :=
  match field 4 ph image, field 8 (ph + 8) image, field 8 (ph + 16) image, field 8 (ph + 32) image,
        field 8 (ph + 40) image with
  | Some p_type, Some p_offset, Some p_vaddr, Some p_filesz, Some p_memsz =>
      if negb (p_type =? PT_LOAD) then Done (false, s)
      else
        let rounded_size := u64 (p_memsz + DEVRAM_PAGE_SIZE - 1) .& ~~ (DEVRAM_PAGE_SIZE - 1) in
        let has_bootrom := p_vaddr =? BOOT_BASE_ADDR in
        let! s := if has_bootrom then Done s
                  else if negb (p_vaddr =? RAM_BASE_ADDR) then cpu_register_ram p_vaddr rounded_size 0 s
                  else Done s in
        let! bytes := image_bytes image p_offset p_filesz in
        let! s := memcpy (get_ram_ptr p_vaddr s) bytes s in
        Done (has_bootrom, s)
  | _, _, _, _, _ => Undefined
  end.

Fixpoint load_segments (image : list Z) (n : nat) (ph : Z) (has_bootrom : bool) (s : Mem) : outcome (bool * Mem) :=
  match n with
  | O => Done (has_bootrom, s)
  | S n =>
      let! r := load_segment image ph s in
      load_segments image n (ph + sizeof_Phdr) (has_bootrom || r.1) r.2
  end.

Definition load_elf_image (image : list Z) (s : Mem) : outcome (bool * Mem) :=
  match field 8 32 image, field 2 56 image with
  | Some e_phoff, Some e_phnum => load_segments image (Z.to_nat e_phnum) e_phoff false s
  | _, _ => Undefined
  end.

(** ** The boot ROM *)

(** the instructions, or no support for the address *)
Definition bootrom_words (ram_base_addr ncpus : Z) : option (list Z) :=
  if negb (ram_base_addr =? 0x0080000000) && negb (ram_base_addr =? 0x8000000000) && negb (ram_base_addr =? 0xC000000000)
  then None
  else Some (
    [0xf1402573]
    ++ (if ncpus =? 1 then [0x00050663; 0x10500073; 0xffdff06f] else [0x00000013; 0x00000013; 0x00000013])
    ++ [0x00000597; 0x0f058593; 0x60300413; 0x7b041073]
    ++ (if ram_base_addr =? 0xC000000000 then [0x0030041b; 0x02641413]
        else [0x0010041b; if ram_base_addr =? 0x80000000 then 0x01f41413 else 0x02741413])
    ++ [0x7b141073; 0x7b200073]).

(** the size of the ROM's code and the memory *)
Definition generate_bootrom (ram_base_addr ncpus : Z) (s : Mem) : outcome (Z * Mem) :=
  match bootrom_words ram_base_addr ncpus with
  | None => Error
  | Some ws =>
      let! s := memcpy (u64 (get_ram_ptr ROM_BASE_ADDR s + (BOOT_BASE_ADDR - ROM_BASE_ADDR)))
                  (concat (map put_le32 ws)) s in
      Done (13 * 4, s)
  end.

(** [file]: the contents of the file, [None] when it cannot be opened *)
Definition load_bootrom (file : option (list Z)) (s : Mem) : outcome (Z * Mem) :=
  match file with
  | None => Error
  | Some l =>
      let! s := memcpy (u64 (get_ram_ptr ROM_BASE_ADDR s + (BOOT_BASE_ADDR - ROM_BASE_ADDR))) l s in
      Done (len l, s)
  end.

(** ** Loading *)

Record Software := mkSoftware {
  fw_buf : list Z;
  kernel_buf : option (list Z);
  initrd_buf : option (list Z);
  bootrom_file : option (option (list Z));
  dtb_file : option (list Z);
  cmd_line : option (list Z)
}.

Definition load_firmware (cfg : MachineConfig) (sw : Software) (s : Mem) : outcome (bool * Mem) :=
  if elf64_is_riscv64 (fw_buf sw) then
    let! r := load_elf_image (fw_buf sw) s in
    if negb r.1 && negb (elf64_get_entrypoint (fw_buf sw) =? ram_base_addr cfg) then Error else Done r
  else
    let! s := memcpy (get_ram_ptr (ram_base_addr cfg) s) (fw_buf sw) s in
    Done (false, s).

Definition load_kernel (cfg : MachineConfig) (sw : Software) (s : Mem) : outcome Mem :=
  match kernel_buf sw with
  | Some k =>
      if len k =? 0 then Done s
      else if ram_size cfg <=? KERNEL_OFFSET then Error
      else if ram_size cfg - KERNEL_OFFSET <? len k then Error
      else memcpy (get_ram_ptr (u64 (ram_base_addr cfg + KERNEL_OFFSET)) s) k s
  | None => Done s
  end.

(** the start and end of the initial disk, 0 without one *)
Definition load_initrd (cfg : MachineConfig) (sw : Software) (s : Mem) : outcome (Z * Z * Mem) :=
  match initrd_buf sw with
  | Some d =>
      if len d =? 0 then Done (0, 0, s)
      else if ram_size cfg <? len d then Error
      else
        let initrd_end := u64 (ram_base_addr cfg + ram_size cfg) in
        let initrd_start := (u64 (initrd_end - len d) >> 12) << 12 in
        let! s := memcpy (get_ram_ptr initrd_start s) d s in
        Done (initrd_start, initrd_end, s)
  | None => Done (0, 0, s)
  end.

(** the boot ROM and the device tree behind it *)
Definition load_rom (cfg : MachineConfig) (misas : list Z) (sw : Software) (initrd_start initrd_end : Z) (s : Mem)
  : outcome Mem :=
  let! r := match bootrom_file sw with
            | Some f => load_bootrom f s
            | None => generate_bootrom (ram_base_addr cfg) (len misas) s
            end in
  let fdt_off := BOOT_BASE_ADDR - ROM_BASE_ADDR + (if compact_bootrom cfg then r.1 else 256) in
  let ram_ptr := get_ram_ptr ROM_BASE_ADDR r.2 in
  match (match dtb_file sw with
         | Some f => Some f
         | None => riscv_build_fdt cfg misas (cmd_line sw) initrd_start initrd_end
         end) with
  | Some fdt => memcpy (u64 (ram_ptr + fdt_off)) fdt r.2
  | None => Undefined
  end.

Definition copy_kernel (cfg : MachineConfig) (misas : list Z) (sw : Software) (s : Mem) : outcome Mem :=
  if ram_size cfg <? len (fw_buf sw) then Error
  else
    let! r := load_firmware cfg sw s in
    let! s := load_kernel cfg sw r.2 in
    let! i := load_initrd cfg sw s in
    if negb r.1 then load_rom cfg misas sw i.1.1 i.1.2 i.2 else Done i.2.

(** ** The machine *)

(** [virt_machine_set_defaults]: the map's addresses and the reset vector *)
Definition virt_machine_set_defaults (ram_size : Z) : MachineConfig :=
  mkConfig ram_size RAM_BASE_ADDR PLIC_BASE_ADDR PLIC_SIZE CLINT_BASE_ADDR CLINT_SIZE 0 None BOOT_BASE_ADDR
    false false false.

Definition register_device (addr size opaque flags : Z) (s : Mem) : outcome Mem :=
  match cpu_register_device s.1 addr size opaque flags with
  | Some (_, m) => Done (m, s.2)
  | None => Undefined
  end.

(** both serial ports are given the first one's state *)
Definition machine_map (cfg : MachineConfig) (s : Mem) : outcome Mem :=
  let any_size := DEVIO_SIZE32 .| DEVIO_SIZE16 .| DEVIO_SIZE8 in
  let! s := cpu_register_ram (ram_base_addr cfg) (ram_size cfg) 0 s in
  let! s := cpu_register_ram ROM_BASE_ADDR ROM_SIZE 0 s in
  let! s := register_device UART0_BASE_ADDR UART0_SIZE DEV_SIFIVE_UART DEVIO_SIZE32 s in
  let! s := register_device DW_APB_UART0_BASE_ADDR DW_APB_UART0_SIZE DEV_DW_APB_UART any_size s in
  let! s := register_device DW_APB_UART1_BASE_ADDR DW_APB_UART1_SIZE DEV_DW_APB_UART any_size s in
  let! s := register_device (clint_base_addr cfg) (clint_size_cfg cfg) DEV_CLINT any_size s in
  register_device (plic_base_addr cfg) (plic_size cfg) DEV_PLIC DEVIO_SIZE32 s.

(** the harts after initialisation *)
Definition init_harts (cfg : MachineConfig) (ncpus physical_addr_len : Z) : list RISCVCPUState :=
  map (fun i => with_physical_addr_len physical_addr_len
                  (riscv_cpu_init (reset_vector cfg) i (custom_extension cfg) (clear_ids cfg))) (seqZ 0 ncpus).

(** the machine, its map and memory; a machine with virtio devices is not built here *)
Definition virt_machine_init {C} (cfg : MachineConfig) (ncpus physical_addr_len : Z) (sw : Software) (c : C)
  : outcome (RISCVMachine C * Mem) :=
  if MAX_CPUS <? ncpus then Error
  else
    let harts := init_harts cfg ncpus physical_addr_len in
    let! s := machine_map cfg ([], ∅) in
    let! s := copy_kernel cfg (map misa harts) sw s in
    Done (mkMachine (map (riscv_set_debug_mode true) harts) 0 0 (replicate 128 0) uart_init sifive_init c false (-1), s).

End Load.

(** the world of one hart of the machine *)
Definition boot_world {C} (m : RISCVMachine C) (s : Mem) (hartid : Z) : option (World (Board C)) :=
  match hart m hartid with
  | Some h => Some (mkWorld h s.1 s.2 (mkBoard m hartid false) (common_cosim m) (common_pending_interrupt m))
  | None => None
  end.
