(* ===== verification/VirtProps.v ===== *)
(** * What loading and booting guarantee

    Where the software ends up in the machine's memory, what the boot ROM does
    on every hart. *)

From S2P Require Import Prelude Riscv CpuState Cutils IoMem Mmu Csr Trap IntArith Insn SoftFp Exec FpExec Interp Uart Machine MachineProps Fdt FdtProps VirtMachine.

(** ** Copies *)

Lemma hm_copy_byte l a m x :
  hm_byte (hm_copy a l m) x = if (a <=? x) && (x <? a + len l) then u8 (l !!! Z.to_nat (x - a)) else hm_byte m x.
Proof.
  revert a m. induction l as [|b l IH]; intros a m; cbn [hm_copy].
  - change (len []) with 0. rewrite Z.add_0_r. destruct (Z.leb_spec a x), (Z.ltb_spec x a); simpl; done || lia.
  - rewrite IH, len_cons. pose proof (len_nonneg l).
    destruct (Z.eq_dec x a) as [->|Hx].
    + replace ((a + 1 <=? a) && (a <? a + 1 + len l)) with false by lia.
      replace ((a <=? a) && (a <? a + (len l + 1))) with true by lia.
      rewrite Z.sub_diag. unfold hm_byte, HostMem in *. by rewrite (lookup_insert_eq (M := gmap Z)).
    + replace ((a <=? x) && (x <? a + (len l + 1))) with ((a + 1 <=? x) && (x <? a + 1 + len l)) by lia.
      destruct ((a + 1 <=? x) && (x <? a + 1 + len l)) eqn:Hr.
      * replace (Z.to_nat (x - a)) with (S (Z.to_nat (x - (a + 1)))) by lia. done.
      * unfold hm_byte, HostMem in *. by rewrite (lookup_insert_ne (M := gmap Z)) by done.
Qed.

(** the bytes of [l] are at host address [a] *)
Definition holds (h : HostMem) (a : Z) (l : list Z) : Prop :=
  forall i, (i < length l)%nat -> hm_byte h (a + Z.of_nat i) = u8 (l !!! i).

Lemma hm_copy_holds a l m : holds (hm_copy a l m) a l.
Proof.
  intros i Hi. rewrite hm_copy_byte. unfold len.
  replace ((a <=? a + Z.of_nat i) && (a + Z.of_nat i <? a + Z.of_nat (length l))) with true by lia.
  by replace (Z.to_nat (a + Z.of_nat i - a)) with i by lia.
Qed.

(** a copy elsewhere, or of nothing *)
Lemma hm_copy_keeps a l b k m :
  len k = 0 \/ len l = 0 \/ b + len l <= a \/ a + len k <= b -> holds m b l -> holds (hm_copy a k m) b l.
Proof.
  intros Hd Hm i Hi. rewrite hm_copy_byte. unfold len in *.
  replace ((a <=? b + Z.of_nat i) && (b + Z.of_nat i <? a + Z.of_nat (length k))) with false by lia. by apply Hm.
Qed.

(** ** The default map *)

Section Layout.
Context (host : nat -> Z) (rs : Z).
Hypothesis Hrs : 0 < rs <= 2 ^ 40.
Hypothesis Hpages : rs mod 4096 = 0.
Hypothesis Hram : 0 < host 0 /\ host 0 + rs <= 2 ^ 64.
Hypothesis Hrom : 0 < host 1 /\ host 1 + ROM_SIZE <= 2 ^ 64.

Definition ram_range (addr size h : Z) : PhysMemoryRange :=
  mkRange addr size size true 0 h 0 None [] 0 0 0.
Definition device_range (addr size opaque flags : Z) : PhysMemoryRange :=
  mkRange addr size size false 0 0 0 None [] 0 opaque flags.

Definition default_map : PhysMemoryMap := [
  ram_range RAM_BASE_ADDR rs (host 0);
  ram_range ROM_BASE_ADDR ROM_SIZE (host 1);
  device_range UART0_BASE_ADDR UART0_SIZE DEV_SIFIVE_UART DEVIO_SIZE32;
  device_range DW_APB_UART0_BASE_ADDR DW_APB_UART0_SIZE DEV_DW_APB_UART 7;
  device_range DW_APB_UART1_BASE_ADDR DW_APB_UART1_SIZE DEV_DW_APB_UART 7;
  device_range CLINT_BASE_ADDR CLINT_SIZE DEV_CLINT 7;
  device_range PLIC_BASE_ADDR PLIC_SIZE DEV_PLIC DEVIO_SIZE32 ].

Lemma machine_map_default : exists h, machine_map host (virt_machine_set_defaults rs) ([], ∅) = Done (default_map, h).
Proof.
  unfold machine_map, cpu_register_ram, default_register_ram, register_ram_entry. cbv zeta.
  cbn [virt_machine_set_defaults ram_base_addr ram_size clint_base_addr clint_size_cfg plic_base_addr plic_size fst snd length].
  assert ((rs .& (DEVRAM_PAGE_SIZE - 1) =? 0) = true) as ->.
  { apply Z.eqb_eq. change (DEVRAM_PAGE_SIZE - 1) with (2 ^ 12 - 1). rewrite land_pow2m1 by lia. exact Hpages. }
  assert ((rs =? 0) = false) as -> by lia.
  change (n_phys_mem_range [] <? PHYS_MEM_RANGE_MAX) with true. cbn [andb negb].
  assert ((host 0 =? 0) = false) as -> by lia.
  cbn [bind fst snd length app alter list_alter].
  change (n_phys_mem_range [_] <? PHYS_MEM_RANGE_MAX) with true.
  change ((ROM_SIZE .& (DEVRAM_PAGE_SIZE - 1)) =? 0) with true. change (ROM_SIZE =? 0) with false. cbn [andb negb].
  assert ((host 1 =? 0) = false) as -> by lia.
  eexists. cbn. reflexivity.
Qed.

Lemma in_range_above pr p : in_u 64 (pr_addr pr + pr_size pr) -> pr_addr pr + pr_size pr <= p -> in_range pr p = false.
Proof. intros Hu Hp. unfold in_range. rewrite uN_small by done. lia. Qed.

Lemma in_range_in pr p :
  in_u 64 (pr_addr pr + pr_size pr) -> pr_addr pr <= p < pr_addr pr + pr_size pr -> in_range pr p = true.
Proof. intros Hu Hp. unfold in_range. rewrite uN_small by done. lia. Qed.

Lemma in_range_below pr p : p < pr_addr pr -> in_range pr p = false.
Proof. intros Hp. unfold in_range. lia. Qed.

(** the search from the last range *)
Lemma find_last s pr p :
  find_range (s ++ [pr]) p (length (s ++ [pr])) = if in_range pr p then Some (length s, pr) else find_range s p (length s).
Proof.
  rewrite length_app, Nat.add_comm. cbn [length Nat.add find_range]. unfold PhysMemoryMap in *.
  rewrite list_lookup_middle by done. destruct (in_range pr p); [done|].
  assert (forall i, (i <= length s)%nat -> find_range (s ++ [pr]) p i = find_range s p i) as H; [|by apply H].
  induction i as [|i IH]; intros Hi; cbn [find_range]; [done|]. unfold PhysMemoryMap in *. rewrite lookup_app_l by lia.
  destruct (s !! i) as [pr'|]; [|done]. destruct (in_range pr' p); [done|]. apply IH. lia.
Qed.

Lemma default_map_snoc :
  default_map = ((((((([] ++ [ram_range RAM_BASE_ADDR rs (host 0)]) ++ [ram_range ROM_BASE_ADDR ROM_SIZE (host 1)])
    ++ [device_range UART0_BASE_ADDR UART0_SIZE DEV_SIFIVE_UART DEVIO_SIZE32])
    ++ [device_range DW_APB_UART0_BASE_ADDR DW_APB_UART0_SIZE DEV_DW_APB_UART 7])
    ++ [device_range DW_APB_UART1_BASE_ADDR DW_APB_UART1_SIZE DEV_DW_APB_UART 7])
    ++ [device_range CLINT_BASE_ADDR CLINT_SIZE DEV_CLINT 7])
    ++ [device_range PLIC_BASE_ADDR PLIC_SIZE DEV_PLIC DEVIO_SIZE32]).
Proof. reflexivity. Qed.

(** the devices and the ROM are below the RAM, the ROM below the devices *)
Lemma ram_lookup off : 0 <= off < rs ->
  get_phys_mem_range default_map (RAM_BASE_ADDR + off) = Some (0%nat, ram_range RAM_BASE_ADDR rs (host 0)).
Proof.
  intros Ho. unfold get_phys_mem_range. rewrite default_map_snoc.
  do 6 (rewrite find_last, in_range_above; [|by vm_compute|unfold RAM_BASE_ADDR;
    match goal with |- ?x <= _ => let y := eval vm_compute in x in change x with y end; lia]).
  rewrite find_last, in_range_in; [done|unfold in_u, RAM_BASE_ADDR; simpl; lia|simpl; lia].
Qed.

Lemma rom_lookup :
  get_phys_mem_range default_map ROM_BASE_ADDR = Some (1%nat, ram_range ROM_BASE_ADDR ROM_SIZE (host 1)).
Proof.
  unfold get_phys_mem_range. rewrite default_map_snoc.
  do 5 (rewrite find_last, in_range_below; [|by vm_compute]).
  rewrite find_last, in_range_in; [done|by vm_compute|split; by vm_compute].
Qed.

Lemma ram_ptr off h : 0 <= off < rs -> get_ram_ptr (RAM_BASE_ADDR + off) (default_map, h) = host 0 + off.
Proof.
  intros Ho. unfold get_ram_ptr. cbn [fst]. rewrite ram_lookup by done. cbn [pr_is_ram pr_phys_mem pr_addr ram_range].
  replace (host 0 + (RAM_BASE_ADDR + off - RAM_BASE_ADDR)) with (host 0 + off) by lia.
  apply uN_small. unfold in_u. lia.
Qed.

Lemma ram_ptr0 h : get_ram_ptr RAM_BASE_ADDR (default_map, h) = host 0.
Proof. rewrite <- (Z.add_0_r RAM_BASE_ADDR), ram_ptr by lia. lia. Qed.

Lemma rom_ptr h : get_ram_ptr ROM_BASE_ADDR (default_map, h) = host 1.
Proof.
  unfold get_ram_ptr. cbn [fst]. rewrite rom_lookup. cbn [pr_is_ram pr_phys_mem pr_addr ram_range].
  rewrite Z.sub_diag, Z.add_0_r. apply uN_small. unfold in_u, ROM_SIZE in *. lia.
Qed.

(** ** Where the software ends up *)

Lemma memcpy_ok p l m h : 0 < p -> memcpy p l (m, h) = Done (m, hm_copy p l h).
Proof. intros Hp. unfold memcpy. by destruct (Z.eqb_spec p 0); [lia|]. Qed.

(** the initial disk's place: as high as a page allows *)
Definition initrd_off (sw : Software) : Z := (rs - len (default [] (initrd_buf sw))) / 4096 * 4096.

Lemma load_kernel_default sw h :
  (default [] (kernel_buf sw) = [] \/ KERNEL_OFFSET + len (default [] (kernel_buf sw)) <= rs) ->
  load_kernel (virt_machine_set_defaults rs) sw (default_map, h) =
    Done (default_map, hm_copy (host 0 + KERNEL_OFFSET) (default [] (kernel_buf sw)) h).
Proof.
  intros Hk. unfold load_kernel. destruct (kernel_buf sw) as [k|]; [|done]. simpl in *.
  pose proof (len_nonneg k). destruct (Z.eqb_spec (len k) 0) as [H0|H0].
  - unfold len in H0. destruct k; [done|simpl in H0; lia].
  - destruct Hk as [->|Hk]; [done|]. unfold KERNEL_OFFSET in *.
    destruct (Z.leb_spec rs 0x200000); [lia|]. destruct (Z.ltb_spec (rs - 0x200000) (len k)); [lia|].
    rewrite (uN_small 64) by (unfold in_u, RAM_BASE_ADDR; lia). rewrite ram_ptr by lia. apply memcpy_ok. lia.
Qed.

Lemma initrd_off_spec sw : len (default [] (initrd_buf sw)) <= rs ->
  0 <= initrd_off sw /\ initrd_off sw + len (default [] (initrd_buf sw)) <= rs.
Proof.
  intros Hd. unfold initrd_off. set (n := rs - _) in *. assert (0 <= n) by lia.
  pose proof (Z.div_mod n 4096). pose proof (Z.mod_pos_bound n 4096 ltac:(lia)).
  pose proof (Z.div_pos n 4096). lia.
Qed.

Lemma load_initrd_default sw h : len (default [] (initrd_buf sw)) <= rs ->
  exists i0 i1, load_initrd (virt_machine_set_defaults rs) sw (default_map, h) =
    Done (i0, i1, (default_map, hm_copy (host 0 + initrd_off sw) (default [] (initrd_buf sw)) h))
  /\ (default [] (initrd_buf sw) <> [] -> i0 = RAM_BASE_ADDR + initrd_off sw /\ i1 = RAM_BASE_ADDR + rs).
Proof.
  intros Hd. destruct (initrd_off_spec sw Hd) as [H1 H2]. unfold load_initrd.
  destruct (initrd_buf sw) as [d|] eqn:Hsw; [|by exists 0, 0].
  simpl in *. pose proof (len_nonneg d).
  destruct (Z.eqb_spec (len d) 0) as [H0|H0].
  - unfold len in H0. destruct d; [by exists 0, 0|simpl in H0; lia].
  - destruct (Z.ltb_spec rs (len d)); [lia|].
    rewrite (uN_small 64 (RAM_BASE_ADDR + rs)) by (unfold in_u, RAM_BASE_ADDR; lia).
    rewrite (uN_small 64) by (unfold in_u, RAM_BASE_ADDR; lia).
    assert ((RAM_BASE_ADDR + rs - len d) >> 12 << 12 = RAM_BASE_ADDR + initrd_off sw) as ->.
    { rewrite shiftl_mul, shiftr_div by lia. unfold initrd_off. rewrite Hsw. simpl.
      change (2 ^ 12) with 4096. replace (RAM_BASE_ADDR + rs - len d) with (rs - len d + 0x80000 * 4096)
        by (unfold RAM_BASE_ADDR; lia).
      rewrite Z.div_add by lia. unfold RAM_BASE_ADDR. lia. }
    rewrite ram_ptr by lia. rewrite memcpy_ok by lia. cbn [bind]. by do 2 eexists.
Qed.

(** the generated boot ROM of a machine whose memory starts at 2^31 *)
Definition rom_code (ncpus : Z) : list Z := concat (map put_le32 (default [] (bootrom_words RAM_BASE_ADDR ncpus))).

Lemma rom_code_len n : len (rom_code n) = 48.
Proof. unfold rom_code, bootrom_words. destruct (n =? 1); vm_compute; reflexivity. Qed.

Lemma generate_bootrom_default n h :
  generate_bootrom RAM_BASE_ADDR n (default_map, h) = Done (52, (default_map, hm_copy (host 1) (rom_code n) h)).
Proof.
  unfold generate_bootrom. change (bootrom_words RAM_BASE_ADDR n) with (Some (default [] (bootrom_words RAM_BASE_ADDR n))).
  cbv iota. rewrite rom_ptr. change (BOOT_BASE_ADDR - ROM_BASE_ADDR) with 0. rewrite Z.add_0_r.
  rewrite (uN_small 64) by (unfold in_u, ROM_SIZE in *; lia). rewrite memcpy_ok by lia. reflexivity.
Qed.

(** pieces of software that do not overlap in the RAM *)
Definition fits (sw : Software) : Prop :=
  let k := default [] (kernel_buf sw) in
  let d := default [] (initrd_buf sw) in
  len (fw_buf sw) <= rs /\ len d <= rs
  /\ (k = [] \/ (len (fw_buf sw) <= KERNEL_OFFSET /\ KERNEL_OFFSET + len k <= rs))
  /\ (d = [] \/ (len (fw_buf sw) <= initrd_off sw /\ (k = [] \/ KERNEL_OFFSET + len k <= initrd_off sw))).

Lemma holds_nil h a : holds h a [].
Proof. intros i Hi. simpl in Hi. lia. Qed.

(** C32: a machine with the default addresses and up to eight harts is built, and
    its memory holds what it was given: a flat firmware at the start of the RAM,
    the kernel 2 MiB above, the initial disk at the highest page it fits, the
    boot ROM's code at the reset vector and the device tree 256 bytes behind,
    provided the pieces do not overlap and the device tree fits in the ROM. *)
Theorem machine_layout {C} n pal sw (c : C) :
  1 <= n <= 8 -> host 0 + rs <= host 1 \/ host 1 + ROM_SIZE <= host 0 ->
  elf64_is_riscv64 (fw_buf sw) = false -> bootrom_file sw = None -> dtb_file sw = None ->
  len (default [] (cmd_line sw)) < 2 ^ 32 - 1 -> fits sw ->
  exists m h i0 i1 fdt,
    virt_machine_init host (virt_machine_set_defaults rs) n pal sw c = Done (m, (default_map, h))
    /\ riscv_build_fdt (virt_machine_set_defaults rs) (map misa (cpu_state m)) (cmd_line sw) i0 i1 = Some fdt
    /\ (default [] (initrd_buf sw) <> [] -> i0 = RAM_BASE_ADDR + initrd_off sw /\ i1 = RAM_BASE_ADDR + rs)
    /\ (256 + len fdt <= ROM_SIZE ->
        holds h (host 0) (fw_buf sw)
        /\ holds h (host 0 + KERNEL_OFFSET) (default [] (kernel_buf sw))
        /\ holds h (host 0 + initrd_off sw) (default [] (initrd_buf sw))
        /\ holds h (host 1) (rom_code n)
        /\ holds h (host 1 + 256) fdt).
Proof.
  intros Hn Hdis Helf Hb Hdt Hcmd (Hf & Hd & Hk & Hi).
  unfold virt_machine_init. destruct (Z.ltb_spec MAX_CPUS n); [unfold MAX_CPUS in *; lia|]. cbv zeta.
  destruct machine_map_default as [h0 ->]. cbn [bind].
  set (harts := init_harts _ n pal).
  assert (length (map misa harts) = Z.to_nat n) as Hl.
  { unfold harts, init_harts. by rewrite !length_map, length_seqZ. }
  unfold copy_kernel. cbn [virt_machine_set_defaults ram_size]. destruct (Z.ltb_spec rs (len (fw_buf sw))); [lia|].
  unfold load_firmware. rewrite Helf. cbn [virt_machine_set_defaults ram_base_addr].
  rewrite ram_ptr0, memcpy_ok by lia. cbn [bind fst snd].
  rewrite load_kernel_default by (destruct Hk as [->|[_ Hk]]; [by left|by right]). cbn [bind].
  match goal with |- context [load_initrd _ _ (default_map, ?h)] =>
    destruct (load_initrd_default sw h Hd) as (i0 & i1 & -> & Hi01) end.
  cbn [bind fst snd negb]. unfold load_rom. rewrite Hb, Hdt.
  assert (len (map misa harts) = n) as -> by (unfold len; lia).
  change (ram_base_addr (virt_machine_set_defaults rs)) with RAM_BASE_ADDR.
  rewrite generate_bootrom_default. cbn [bind fst snd]. rewrite rom_ptr.
  destruct (build_fdt_image (virt_machine_set_defaults rs) (map misa harts) (cmd_line sw) i0 i1 ltac:(lia) Hcmd)
    as (fdt & Hfdt & _).
  rewrite Hfdt. change (compact_bootrom (virt_machine_set_defaults rs)) with false. cbv iota.
  change (BOOT_BASE_ADDR - ROM_BASE_ADDR + 256) with 256.
  rewrite (uN_small 64) by (unfold in_u, ROM_SIZE in *; lia). rewrite memcpy_ok by lia. cbn [bind].
  do 5 eexists. split; [reflexivity|]. split; [|split; [exact Hi01|]].
  { cbn [cpu_state]. rewrite map_map. exact Hfdt. }
  intros Hrom'. pose proof (rom_code_len n). pose proof (len_nonneg fdt). unfold ROM_SIZE, KERNEL_OFFSET in *.
  destruct (initrd_off_spec sw Hd) as [Ho1 Ho2].
  pose proof (len_nonneg (fw_buf sw)). pose proof (len_nonneg (default [] (kernel_buf sw))).
  pose proof (len_nonneg (default [] (initrd_buf sw))).
  assert (len (default [] (kernel_buf sw)) = 0 \/
    (len (fw_buf sw) <= 0x200000 /\ 0x200000 + len (default [] (kernel_buf sw)) <= rs)) as Hk'
    by (destruct Hk as [->|Hk]; [by left|by right]).
  assert (len (default [] (initrd_buf sw)) = 0 \/ (len (fw_buf sw) <= initrd_off sw /\
    (len (default [] (kernel_buf sw)) = 0 \/ 0x200000 + len (default [] (kernel_buf sw)) <= initrd_off sw))) as Hi'.
  { destruct Hi as [->|[Hi1 Hi2]]; [by left|right]. split; [done|]. destruct Hi2 as [->|Hi2]; [by left|by right]. }
  clear Hk Hi. split_and!;
    repeat first [apply hm_copy_holds | apply hm_copy_keeps; [lia|]].
Qed.

End Layout.

(** ** The boot *)

(** host addresses far apart *)
Definition spaced (i : nat) : Z := (Z.of_nat i + 1) * 0x1000000000.

#[export] Instance board_no_hooks : MachineHooks (Board unit) := {| csr_read_hook := None; csr_write_hook := None |}.

(** a firmware of one instruction *)
Definition boot_software : Software := mkSoftware [0x13; 0; 0; 0] None None None None None.
Definition boot_config (base : Z) : MachineConfig :=
  mkConfig (256 << 20) base PLIC_BASE_ADDR PLIC_SIZE CLINT_BASE_ADDR CLINT_SIZE 0 None BOOT_BASE_ADDR false false false.

(** hart [h] of [n], released from reset, gets to the firmware with its number
    and the device tree's address *)
Definition boots (base n h : Z) : Prop :=
  match virt_machine_init spaced (boot_config base) n 56 boot_software tt with
  | Done (m, s) =>
      match boot_world m s h with
      | Some w =>
          match riscv_cpu_interp 12 w with
          | Executed k w' =>
              pc (cpu w') = base /\ priv (cpu w') = PRV_M /\ debug_mode (cpu w') = false
              /\ rd (reg (cpu w')) 10 = h /\ rd (reg (cpu w')) 11 = BOOT_BASE_ADDR + 256
              /\ bswap_32 (hm_read 4 (get_ram_ptr (rd (reg (cpu w')) 11) (mem_map w', hmem w')) (hmem w')) = FDT_MAGIC
              /\ mcause (cpu w') = 0 /\ crashed (dev w') = false
          | _ => False
          end
      | None => False
      end
  | _ => False
  end.

(** a kernel, a disk and a command line in 256 MiB of RAM *)
Definition linux_software : Software :=
  mkSoftware [0x13; 0; 0; 0] (Some [1; 2; 3; 4]) (Some [5; 6; 7]) None None (Some [0x72; 0x77]).

Lemma machine_layout_witness :
  exists m h i0 i1 fdt,
    virt_machine_init spaced (virt_machine_set_defaults (256 << 20)) 2 56 linux_software tt = Done (m, (default_map spaced (256 << 20), h))
    /\ riscv_build_fdt (virt_machine_set_defaults (256 << 20)) (map misa (cpu_state m)) (cmd_line linux_software) i0 i1 = Some fdt
    /\ (default [] (initrd_buf linux_software) <> [] ->
        i0 = RAM_BASE_ADDR + initrd_off (256 << 20) linux_software /\ i1 = RAM_BASE_ADDR + (256 << 20))
    /\ (256 + len fdt <= ROM_SIZE ->
        holds h (spaced 0) (fw_buf linux_software)
        /\ holds h (spaced 0 + KERNEL_OFFSET) (default [] (kernel_buf linux_software))
        /\ holds h (spaced 0 + initrd_off (256 << 20) linux_software) (default [] (initrd_buf linux_software))
        /\ holds h (spaced 1) (rom_code 2)
        /\ holds h (spaced 1 + 256) fdt).
Proof.
  apply (machine_layout spaced (256 << 20)); try reflexivity.
  all: try (split; by vm_compute).
  - left. by vm_compute.
  - unfold fits. vm_compute. repeat split; try discriminate; right; try split; try discriminate; right; discriminate.
Defined.

(** base address, harts, hart *)
Definition boot_cases : list (Z * Z * Z) :=
  concat (map (fun base => [(base, 1, 0); (base, 2, 0); (base, 2, 1); (base, 8, 7)])
    [0x80000000; 0x8000000000; 0xC000000000]).

