(* ===== verification/Virtio.v ===== *)
(** * virtio devices: queues and registers (virtio.cpp)

    The part every device shares: the descriptor chains and rings in guest
    memory, the MMIO and PCI register files, the interrupt line.  The state is
    the device structure, the memory it reaches, the level last set on its
    interrupt line and what the device type adds.  The function pointers a
    device type fills in are the class [VirtioOps].

    The guest controls the chains: it can make one cyclic, so every chain walk
    takes fuel, and running out of it is a result of its own.  The debug output
    and the registration of PCI capabilities are left out. *)

From S2P Require Import Prelude Cutils IoMem Fdt VirtMachine.

(** a result, an operation C leaves undefined (or a failed assertion), a loop
    still running when the fuel ends *)
Inductive run (A : Type) := Finished (a : A) | Undef | Running.
#[global] Arguments Finished {A}.
#[global] Arguments Undef {A}.
#[global] Arguments Running {A}.

Definition andThen {A B} (x : run A) (f : A -> run B) : run B :=
  match x with Finished a => f a | Undef => Undef | Running => Running end.
Notation "'run!' x ':=' a 'in' b" := (andThen a (fun x => b)) (at level 10, x name, b at level 200) : mach_scope.

Definition VIRTIO_MMIO_MAGIC_VALUE : Z := 0x000.
Definition VIRTIO_MMIO_VERSION : Z := 0x004.
Definition VIRTIO_MMIO_DEVICE_ID : Z := 0x008.
Definition VIRTIO_MMIO_VENDOR_ID : Z := 0x00c.
Definition VIRTIO_MMIO_DEVICE_FEATURES : Z := 0x010.
Definition VIRTIO_MMIO_DEVICE_FEATURES_SEL : Z := 0x014.
Definition VIRTIO_MMIO_QUEUE_SEL : Z := 0x030.
Definition VIRTIO_MMIO_QUEUE_NUM_MAX : Z := 0x034.
Definition VIRTIO_MMIO_QUEUE_NUM : Z := 0x038.
Definition VIRTIO_MMIO_QUEUE_READY : Z := 0x044.
Definition VIRTIO_MMIO_QUEUE_NOTIFY : Z := 0x050.
Definition VIRTIO_MMIO_INTERRUPT_STATUS : Z := 0x060.
Definition VIRTIO_MMIO_INTERRUPT_ACK : Z := 0x064.
Definition VIRTIO_MMIO_STATUS : Z := 0x070.
Definition VIRTIO_MMIO_QUEUE_DESC_LOW : Z := 0x080.
Definition VIRTIO_MMIO_QUEUE_DESC_HIGH : Z := 0x084.
Definition VIRTIO_MMIO_QUEUE_AVAIL_LOW : Z := 0x090.
Definition VIRTIO_MMIO_QUEUE_AVAIL_HIGH : Z := 0x094.
Definition VIRTIO_MMIO_QUEUE_USED_LOW : Z := 0x0a0.
Definition VIRTIO_MMIO_QUEUE_USED_HIGH : Z := 0x0a4.
Definition VIRTIO_MMIO_CONFIG_GENERATION : Z := 0x0fc.
Definition VIRTIO_MMIO_CONFIG : Z := 0x100.

Definition VIRTIO_PCI_DEVICE_FEATURE_SEL : Z := 0x000.
Definition VIRTIO_PCI_DEVICE_FEATURE : Z := 0x004.
Definition VIRTIO_PCI_NUM_QUEUES : Z := 0x012.
Definition VIRTIO_PCI_DEVICE_STATUS : Z := 0x014.
Definition VIRTIO_PCI_QUEUE_SEL : Z := 0x016.
Definition VIRTIO_PCI_QUEUE_SIZE : Z := 0x018.
Definition VIRTIO_PCI_QUEUE_ENABLE : Z := 0x01c.
Definition VIRTIO_PCI_QUEUE_NOTIFY_OFF : Z := 0x01e.
Definition VIRTIO_PCI_QUEUE_DESC_LOW : Z := 0x020.
Definition VIRTIO_PCI_QUEUE_DESC_HIGH : Z := 0x024.
Definition VIRTIO_PCI_QUEUE_AVAIL_LOW : Z := 0x028.
Definition VIRTIO_PCI_QUEUE_AVAIL_HIGH : Z := 0x02c.
Definition VIRTIO_PCI_QUEUE_USED_LOW : Z := 0x030.
Definition VIRTIO_PCI_QUEUE_USED_HIGH : Z := 0x034.

Definition VIRTIO_PCI_CFG_OFFSET : Z := 0x0000.
Definition VIRTIO_PCI_ISR_OFFSET : Z := 0x1000.
Definition VIRTIO_PCI_CONFIG_OFFSET : Z := 0x2000.
Definition VIRTIO_PCI_NOTIFY_OFFSET : Z := 0x3000.

Definition MAX_QUEUE : Z := 8.
Definition MAX_CONFIG_SPACE_SIZE : Z := 256.
Definition MAX_QUEUE_NUM : Z := 16.
Definition VIRTIO_PAGE_SIZE : Z := 4096.
Definition VRING_DESC_F_NEXT : Z := 1.
Definition VRING_DESC_F_WRITE : Z := 2.

(** ** State *)

Record QueueState := mkQueue {
  ready : Z;
  num : Z;
  last_avail_idx : Z;
  desc_addr : Z;
  avail_addr : Z;
  used_addr : Z;
  manual_recv : bool
}.

Record VIRTIODesc := mkDesc { d_addr : Z; d_len : Z; d_flags : Z; d_next : Z }.

Record VIRTIODevice := mkVirtio {
  int_status : Z;
  status : Z;
  device_features_sel : Z;
  queue_sel : Z;
  queue : list QueueState;
  device_id : Z;
  vendor_id : Z;
  device_features : Z;
  config_space_size : Z;
  config_space : list Z
}.

(** [virq]: the level last given to [set_irq]; [vext]: the device type's part *)
Record VState (X : Type) := mkV { vdev : VIRTIODevice; vmem : Mem; virq : Z; vext : X }.
#[global] Arguments mkV {X}.
#[global] Arguments vdev {X}.
#[global] Arguments vmem {X}.
#[global] Arguments virq {X}.
#[global] Arguments vext {X}.

Definition set_int_status v d := mkVirtio v (status d) (device_features_sel d) (queue_sel d) (queue d) (device_id d)
  (vendor_id d) (device_features d) (config_space_size d) (config_space d).
Definition set_status v d := mkVirtio (int_status d) v (device_features_sel d) (queue_sel d) (queue d) (device_id d)
  (vendor_id d) (device_features d) (config_space_size d) (config_space d).
Definition set_device_features_sel v d := mkVirtio (int_status d) (status d) v (queue_sel d) (queue d) (device_id d)
  (vendor_id d) (device_features d) (config_space_size d) (config_space d).
Definition set_queue_sel v d := mkVirtio (int_status d) (status d) (device_features_sel d) v (queue d) (device_id d)
  (vendor_id d) (device_features d) (config_space_size d) (config_space d).
Definition set_queue v d := mkVirtio (int_status d) (status d) (device_features_sel d) (queue_sel d) v (device_id d)
  (vendor_id d) (device_features d) (config_space_size d) (config_space d).
Definition set_device_features v d := mkVirtio (int_status d) (status d) (device_features_sel d) (queue_sel d) (queue d)
  (device_id d) (vendor_id d) v (config_space_size d) (config_space d).
Definition set_config_space v d := mkVirtio (int_status d) (status d) (device_features_sel d) (queue_sel d) (queue d)
  (device_id d) (vendor_id d) (device_features d) (config_space_size d) v.

Definition set_ready v q :=
  mkQueue v (num q) (last_avail_idx q) (desc_addr q) (avail_addr q) (used_addr q) (manual_recv q).
Definition set_num v q :=
  mkQueue (ready q) v (last_avail_idx q) (desc_addr q) (avail_addr q) (used_addr q) (manual_recv q).
Definition set_last_avail_idx v q :=
  mkQueue (ready q) (num q) v (desc_addr q) (avail_addr q) (used_addr q) (manual_recv q).
Definition set_desc_addr v q :=
  mkQueue (ready q) (num q) (last_avail_idx q) v (avail_addr q) (used_addr q) (manual_recv q).
Definition set_avail_addr v q :=
  mkQueue (ready q) (num q) (last_avail_idx q) (desc_addr q) v (used_addr q) (manual_recv q).
Definition set_used_addr v q :=
  mkQueue (ready q) (num q) (last_avail_idx q) (desc_addr q) (avail_addr q) v (manual_recv q).
Definition set_manual_recv v q :=
  mkQueue (ready q) (num q) (last_avail_idx q) (desc_addr q) (avail_addr q) (used_addr q) v.

Definition zero_queue : QueueState := mkQueue 0 0 0 0 0 0 false.

(** [s->queue[i]], an index below [MAX_QUEUE] *)
Definition get_queue (d : VIRTIODevice) (i : Z) : QueueState := default zero_queue (queue d !! Z.to_nat i).
Definition upd_queue (i : Z) (f : QueueState -> QueueState) (d : VIRTIODevice) : VIRTIODevice :=
  set_queue (alter f (Z.to_nat i) (queue d)) d.

Definition reset_queue (q : QueueState) : QueueState := mkQueue 0 MAX_QUEUE_NUM 0 0 0 0 (manual_recv q).

Definition virtio_reset (d : VIRTIODevice) : VIRTIODevice :=
  let d := set_status 0 d in
  let d := set_queue_sel 0 d in
  let d := set_device_features_sel 0 d in
  let d := set_int_status 0 d in
  set_queue (map reset_queue (queue d)) d.

(** the structure after [memset], the assignments of [virtio_init] and the reset *)
Definition virtio_dev_init (device_id config_space_size : Z) : VIRTIODevice :=
  virtio_reset (mkVirtio 0 0 0 0 (replicate (Z.to_nat MAX_QUEUE) zero_queue) device_id 0xffff 0 config_space_size
                  (replicate (Z.to_nat MAX_CONFIG_SPACE_SIZE) 0)).

Section State.
Context {X : Type}.
Implicit Types s : VState X.

Definition set_vdev d s : VState X := mkV d (vmem s) (virq s) (vext s).
Definition set_vmem m s : VState X := mkV (vdev s) m (virq s) (vext s).
Definition set_virq l s : VState X := mkV (vdev s) (vmem s) l (vext s).
Definition set_vext x s : VState X := mkV (vdev s) (vmem s) (virq s) x.
Definition upd_vdev f s : VState X := set_vdev (f (vdev s)) s.

(** the MMIO case of [virtio_init] *)
Definition virtio_init (addr opaque device_id config_space_size : Z) (m : Mem) (x : X) : run (VState X) :=
  match cpu_register_device m.1 addr VIRTIO_PAGE_SIZE opaque (DEVIO_SIZE8 .| DEVIO_SIZE16 .| DEVIO_SIZE32) with
  | Some (_, mm) => Finished (mkV (virtio_dev_init device_id config_space_size) (mm, m.2) 0 x)
  | None => Undef
  end.

(** ** Guest memory *)

Definition virtio_mmio_get_ram_ptr (s : VState X) (paddr : Z) : Z := get_ram_ptr paddr (vmem s).

Definition hm_bytes (a n : Z) (h : HostMem) : list Z := map (fun i => hm_byte h (a + i)) (seqZ 0 n).

Definition virtio_read16 (s : VState X) (addr : Z) : Z :=
  if tst (addr .& 1) then 0
  else
    let ptr := virtio_mmio_get_ram_ptr s addr in
    if ptr =? 0 then 0 else hm_read 2 ptr (vmem s).2.

Definition virtio_write16 (addr val : Z) (s : VState X) : VState X :=
  if tst (addr .& 1) then s
  else
    let ptr := virtio_mmio_get_ram_ptr s addr in
    if ptr =? 0 then s else set_vmem ((vmem s).1, hm_write 2 ptr (u16 val) (vmem s).2) s.

Definition virtio_write32 (addr val : Z) (s : VState X) : VState X :=
  if tst (addr .& 3) then s
  else
    let ptr := virtio_mmio_get_ram_ptr s addr in
    if ptr =? 0 then s else set_vmem ((vmem s).1, hm_write 4 ptr (u32 val) (vmem s).2) s.

(** what is left of the page *)
Definition page_left (addr : Z) : Z := VIRTIO_PAGE_SIZE - (addr .& (VIRTIO_PAGE_SIZE - 1)).

(** the result and the bytes copied to the buffer; every iteration copies at
    least one byte, so [count] iterations are enough *)
Fixpoint memcpy_from_pages (n : nat) (s : VState X) (addr count : Z) : Z * list Z :=
  match n with
  | O => (0, [])
  | S n =>
      if 0 <? count then
        let l := min_int count (page_left addr) in
        let ptr := virtio_mmio_get_ram_ptr s addr in
        if ptr =? 0 then (-1, [])
        else
          let '(ret, rest) := memcpy_from_pages n s (u64 (addr + l)) (count - l) in
          (ret, hm_bytes ptr l (vmem s).2 ++ rest)
      else (0, [])
  end.
Definition virtio_memcpy_from_ram (s : VState X) (addr count : Z) : Z * list Z :=
  memcpy_from_pages (Z.to_nat count) s addr count.

(** [l] bytes at [buf + pos] *)
Definition buf_slice (buf : list Z) (pos l : Z) : run (list Z) :=
  if (0 <=? pos) && (pos + l <=? len buf) then Finished (take (Z.to_nat l) (drop (Z.to_nat pos) buf)) else Undef.

(** from [buf + pos] *)
Fixpoint memcpy_to_pages (n : nat) (addr : Z) (buf : list Z) (pos count : Z) (s : VState X) : run (Z * VState X) :=
  match n with
  | O => Finished (0, s)
  | S n =>
      if 0 <? count then
        let l := min_int count (page_left addr) in
        let ptr := virtio_mmio_get_ram_ptr s addr in
        if ptr =? 0 then Finished (-1, s)
        else
          run! bytes := buf_slice buf pos l in
          memcpy_to_pages n (u64 (addr + l)) buf (pos + l) (count - l)
            (set_vmem ((vmem s).1, hm_copy ptr bytes (vmem s).2) s)
      else Finished (0, s)
  end.
Definition virtio_memcpy_to_ram (addr : Z) (buf : list Z) (pos count : Z) (s : VState X) : run (Z * VState X) :=
  memcpy_to_pages (Z.to_nat count) addr buf pos count s.

(** ** Descriptor chains *)

Definition sizeof_VIRTIODesc : Z := 16.
Definition desc_of (b : list Z) : VIRTIODesc :=
  mkDesc (get_le64 b) (get_le32 (drop 8 b)) (get_le16 (drop 12 b)) (get_le16 (drop 14 b)).

(** [old]: the bytes of the structure before, [None] when it has not been set;
    a failed read leaves the rest of them *)
Definition get_desc (s : VState X) (old : option (list Z)) (queue_idx desc_idx : Z) : run (list Z) :=
  let qs := get_queue (vdev s) queue_idx in
  let '(ret, b) := virtio_memcpy_from_ram s (u64 (desc_addr qs + desc_idx * sizeof_VIRTIODesc)) sizeof_VIRTIODesc in
  match old with
  | Some o => Finished (b ++ drop (length b) o)
  | None => if ret <? 0 then Undef else Finished b
  end.

(** the first descriptor the device may write *)
Fixpoint find_write_desc (fuel : nat) (s : VState X) (q : Z) (b : list Z) : run (option (list Z)) :=
  match fuel with
  | O => Running
  | S fuel =>
      let desc := desc_of b in
      if (d_flags desc .& VRING_DESC_F_WRITE) =? VRING_DESC_F_WRITE then Finished (Some b)
      else if negb (tst (d_flags desc .& VRING_DESC_F_NEXT)) then Finished None
      else
        run! b := get_desc s (Some b) q (d_next desc) in
        find_write_desc fuel s q b
  end.

(** the descriptor at an offset and the offset in it *)
Fixpoint find_desc_at (fuel : nat) (s : VState X) (q f_write_flag : Z) (b : list Z) (offset : Z)
  : run (option (list Z * Z)) :=
  match fuel with
  | O => Running
  | S fuel =>
      let desc := desc_of b in
      if negb ((d_flags desc .& VRING_DESC_F_WRITE) =? f_write_flag) then Finished None
      else if offset <? s32 (d_len desc) then Finished (Some (b, offset))
      else if negb (tst (d_flags desc .& VRING_DESC_F_NEXT)) then Finished None
      else
        run! b := get_desc s (Some b) q (d_next desc) in
        find_desc_at fuel s q f_write_flag b (s32 (offset - d_len desc))
  end.

(** [bytes] stored at [buf + pos] *)
Definition buf_store (buf : list Z) (pos : Z) (bytes : list Z) : run (list Z) :=
  if len bytes =? 0 then Finished buf
  else if (0 <=? pos) && (pos + len bytes <=? len buf)
  then Finished (take (Z.to_nat pos) buf ++ bytes ++ drop (Z.to_nat (pos + len bytes)) buf) else Undef.

(** one descriptor's part of the transfer *)
Definition copy_desc (to_queue : bool) (addr : Z) (l : Z) (buf : list Z) (pos : Z) (s : VState X)
  : run (list Z * VState X) :=
  if to_queue then
    run! r := virtio_memcpy_to_ram addr buf pos l s in
    Finished (buf, r.2)
  else
    run! buf := buf_store buf pos (virtio_memcpy_from_ram s addr l).2 in
    Finished (buf, s).

(** the copy: the result, the buffer and the state *)
Fixpoint copy_chain (fuel : nat) (to_queue : bool) (f_write_flag q : Z) (b : list Z) (offset count : Z)
    (buf : list Z) (pos : Z) (s : VState X) : run (Z * list Z * VState X) :=
  match fuel with
  | O => Running
  | S fuel =>
      let desc := desc_of b in
      let l := min_int count (s32 (d_len desc - offset)) in
      run! r := copy_desc to_queue (u64 (d_addr desc + offset)) l buf pos s in
      let '(buf, s) := r in
      let count := count - l in
      if negb (bool_decide (in_s 32 count)) then Undef
      else if count =? 0 then Finished (0, buf, s)
      else
        let offset := offset + l in
        let pos := pos + l in
        if offset =? s32 (d_len desc) then
          if negb (tst (d_flags desc .& VRING_DESC_F_NEXT)) then Finished (-1, buf, s)
          else
            run! b := get_desc s (Some b) q (d_next desc) in
            if negb ((d_flags (desc_of b) .& VRING_DESC_F_WRITE) =? f_write_flag) then Finished (-1, buf, s)
            else copy_chain fuel to_queue f_write_flag q b 0 count buf pos s
        else copy_chain fuel to_queue f_write_flag q b offset count buf pos s
  end.

Definition memcpy_to_from_queue (fuel : nat) (buf : list Z) (queue_idx desc_idx offset count : Z) (to_queue : bool)
    (s : VState X) : run (Z * list Z * VState X) :=
  if count =? 0 then Finished (0, buf, s)
  else
    run! b := get_desc s None queue_idx desc_idx in
    let f_write_flag := if to_queue then VRING_DESC_F_WRITE else 0 in
    run! b := (if to_queue then find_write_desc fuel s queue_idx b else Finished (Some b)) in
    match b with
    | None => Finished (-1, buf, s)
    | Some b =>
        run! at_offset := find_desc_at fuel s queue_idx f_write_flag b offset in
        match at_offset with
        | None => Finished (-1, buf, s)
        | Some (b, offset) => copy_chain fuel to_queue f_write_flag queue_idx b offset count buf 0 s
        end
    end.

(** the result and the buffer *)
Definition memcpy_from_queue (fuel : nat) (s : VState X) (buf : list Z) (queue_idx desc_idx offset count : Z)
  : run (Z * list Z) :=
  run! r := memcpy_to_from_queue fuel buf queue_idx desc_idx offset count false s in
  Finished (r.1.1, r.1.2).

Definition memcpy_to_queue (fuel : nat) (queue_idx desc_idx offset : Z) (buf : list Z) (count : Z) (s : VState X)
  : run (Z * VState X) :=
  run! r := memcpy_to_from_queue fuel buf queue_idx desc_idx offset count true s in
  Finished (r.1.1, r.2).

(** signal that the descriptor has been consumed *)
Definition virtio_consume_desc (queue_idx desc_idx desc_len : Z) (s : VState X) : VState X :=
  let qs := get_queue (vdev s) queue_idx in
  let addr := u64 (used_addr qs + 2) in
  let index := virtio_read16 s addr in
  let s := virtio_write16 addr (index + 1) s in
  let addr := u64 (used_addr qs + 4 + u32 ((index .& u32 (num qs - 1)) * 8)) in
  let s := virtio_write32 addr desc_idx s in
  let s := virtio_write32 (u64 (addr + 4)) desc_len s in
  let s := upd_vdev (fun d => set_int_status (int_status d .| 1) d) s in
  set_virq 1 s.

(** the descriptors the device reads, then those it writes *)
Fixpoint read_size_loop (fuel : nat) (s : VState X) (q : Z) (b : list Z) (read_size : Z)
  : run (Z * option (list Z)) :=
  match fuel with
  | O => Running
  | S fuel =>
      let desc := desc_of b in
      if tst (d_flags desc .& VRING_DESC_F_WRITE) then Finished (read_size, Some b)
      else
        let read_size := s32 (read_size + d_len desc) in
        if negb (tst (d_flags desc .& VRING_DESC_F_NEXT)) then Finished (read_size, None)
        else
          run! b := get_desc s (Some b) q (d_next desc) in
          read_size_loop fuel s q b read_size
  end.

Fixpoint write_size_loop (fuel : nat) (s : VState X) (q : Z) (b : list Z) (write_size : Z) : run (option Z) :=
  match fuel with
  | O => Running
  | S fuel =>
      let desc := desc_of b in
      if negb (tst (d_flags desc .& VRING_DESC_F_WRITE)) then Finished None
      else
        let write_size := s32 (write_size + d_len desc) in
        if negb (tst (d_flags desc .& VRING_DESC_F_NEXT)) then Finished (Some write_size)
        else
          run! b := get_desc s (Some b) q (d_next desc) in
          write_size_loop fuel s q b write_size
  end.

(** [None]: -1, the sizes are not set *)
Definition get_desc_rw_size (fuel : nat) (s : VState X) (queue_idx desc_idx : Z) : run (option (Z * Z)) :=
  run! b := get_desc s None queue_idx desc_idx in
  run! r := read_size_loop fuel s queue_idx b 0 in
  match r with
  | (read_size, None) => Finished (Some (read_size, 0))
  | (read_size, Some b) =>
      run! w := write_size_loop fuel s queue_idx b 0 in
      Finished (match w with Some write_size => Some (read_size, write_size) | None => None end)
  end.

(** the next entry of the available ring *)
Definition avail_idx (s : VState X) (queue_idx : Z) : Z :=
  virtio_read16 s (u64 (avail_addr (get_queue (vdev s) queue_idx) + 2)).
Definition avail_entry (s : VState X) (queue_idx : Z) : Z :=
  let qs := get_queue (vdev s) queue_idx in
  virtio_read16 s (u64 (avail_addr qs + 4 + u32 ((last_avail_idx qs .& u32 (num qs - 1)) * 2))).
Definition advance_avail (queue_idx : Z) (s : VState X) : VState X :=
  upd_vdev (upd_queue queue_idx (fun qs => set_last_avail_idx (u16 (last_avail_idx qs + 1)) qs)) s.

End State.

(** ** The device types *)

(** [device_recv] returns a negative number to stop the notification;
    [config_write] runs after a write of the configuration space. *)
Class VirtioOps (X : Type) := {
  device_recv : nat -> Z -> Z -> Z -> Z -> VState X -> run (Z * VState X);
  config_write : VState X -> run (VState X)
}.

Section Ops.
Context {X : Type} {ops : VirtioOps X}.

Fixpoint notify_loop (n fuel : nat) (queue_idx aidx : Z) (s : VState X) : run (VState X) :=
  if last_avail_idx (get_queue (vdev s) queue_idx) =? aidx then Finished s
  else
    match n with
    | O => Running
    | S n =>
        let desc_idx := avail_entry s queue_idx in
        run! sizes := get_desc_rw_size fuel s queue_idx desc_idx in
        match sizes with
        | Some (read_size, write_size) =>
            run! r := device_recv fuel queue_idx desc_idx read_size write_size s in
            if r.1 <? 0 then Finished r.2
            else notify_loop n fuel queue_idx aidx (advance_avail queue_idx r.2)
        | None => notify_loop n fuel queue_idx aidx (advance_avail queue_idx s)
        end
    end.

(** the ring loop runs at most 2^16 times *)
Definition queue_notify (fuel : nat) (queue_idx : Z) (s : VState X) : run (VState X) :=
  if manual_recv (get_queue (vdev s) queue_idx) then Finished s
  else notify_loop (Z.to_nat 65536) fuel queue_idx (avail_idx s queue_idx) s.

(** ** Registers *)

Definition virtio_config_read (s : VState X) (offset size_log2 : Z) : run Z :=
  let size := config_space_size (vdev s) in
  let config := drop (Z.to_nat offset) (config_space (vdev s)) in
  if size_log2 =? 0 then Finished (if offset <? size then rd config 0 else 0)
  else if size_log2 =? 1 then Finished (if offset <? u32 (size - 1) then get_le16 config else 0)
  else if size_log2 =? 2 then Finished (if offset <? u32 (size - 3) then get_le32 config else 0)
  else Undef.

Definition config_put (offset : Z) (bytes : list Z) (d : VIRTIODevice) : VIRTIODevice :=
  let c := config_space d in
  set_config_space (take (Z.to_nat offset) c ++ bytes ++ drop (Z.to_nat offset + length bytes) c) d.

Definition virtio_config_write (offset val size_log2 : Z) (s : VState X) : run (VState X) :=
  let size := config_space_size (vdev s) in
  if size_log2 =? 0 then
    if offset <? size then config_write (upd_vdev (config_put offset [u8 val]) s) else Finished s
  else if size_log2 =? 1 then
    if offset <? u32 (size - 1) then config_write (upd_vdev (config_put offset (put_le16 (u16 val))) s) else Finished s
  else if size_log2 =? 2 then
    if offset <? u32 (size - 3) then config_write (upd_vdev (config_put offset (put_le32 val)) s) else Finished s
  else Finished s.

Definition features_window (d : VIRTIODevice) : Z :=
  if device_features_sel d =? 0 then device_features d
  else if device_features_sel d =? 1 then 1
  else 0.

Definition virtio_mmio_read (s : VState X) (offset size_log2 : Z) : run Z :=
  let d := vdev s in
  let qs := get_queue d (queue_sel d) in
  if VIRTIO_MMIO_CONFIG <=? offset then virtio_config_read s (offset - VIRTIO_MMIO_CONFIG) size_log2
  else Finished (
    if size_log2 =? 2 then
      if offset =? VIRTIO_MMIO_MAGIC_VALUE then 0x74726976
      else if offset =? VIRTIO_MMIO_VERSION then 2
      else if offset =? VIRTIO_MMIO_DEVICE_ID then device_id d
      else if offset =? VIRTIO_MMIO_VENDOR_ID then vendor_id d
      else if offset =? VIRTIO_MMIO_DEVICE_FEATURES then features_window d
      else if offset =? VIRTIO_MMIO_DEVICE_FEATURES_SEL then device_features_sel d
      else if offset =? VIRTIO_MMIO_QUEUE_SEL then queue_sel d
      else if offset =? VIRTIO_MMIO_QUEUE_NUM_MAX then MAX_QUEUE_NUM
      else if offset =? VIRTIO_MMIO_QUEUE_NUM then num qs
      else if offset =? VIRTIO_MMIO_QUEUE_DESC_LOW then u32 (desc_addr qs)
      else if offset =? VIRTIO_MMIO_QUEUE_AVAIL_LOW then u32 (avail_addr qs)
      else if offset =? VIRTIO_MMIO_QUEUE_USED_LOW then u32 (used_addr qs)
      else if offset =? VIRTIO_MMIO_QUEUE_DESC_HIGH then u32 (desc_addr qs >> 32)
      else if offset =? VIRTIO_MMIO_QUEUE_AVAIL_HIGH then u32 (avail_addr qs >> 32)
      else if offset =? VIRTIO_MMIO_QUEUE_USED_HIGH then u32 (used_addr qs >> 32)
      else if offset =? VIRTIO_MMIO_QUEUE_READY then ready qs
      else if offset =? VIRTIO_MMIO_INTERRUPT_STATUS then int_status d
      else if offset =? VIRTIO_MMIO_STATUS then status d
      else if offset =? VIRTIO_MMIO_CONFIG_GENERATION then 0
      else 0
    else 0).

Definition set_low32 (paddr val : Z) : Z := (paddr .& u64 (~~ 0xffffffff)) .| val.
Definition set_high32 (paddr val : Z) : Z := (paddr .& 0xffffffff) .| (val << 32).

(** the selected queue *)
Definition upd_sel (f : QueueState -> QueueState) (s : VState X) : VState X :=
  upd_vdev (fun d => upd_queue (queue_sel d) f d) s.

Definition write_queue_num (val : Z) (s : VState X) : VState X :=
  if ((val .& u32 (val - 1)) =? 0) && (0 <? val) then upd_sel (set_num val) s else s.

Definition write_status (val : Z) (s : VState X) : VState X :=
  let s := upd_vdev (set_status val) s in
  if val =? 0 then upd_vdev virtio_reset (set_virq 0 s) else s.

Definition write_interrupt_ack (val : Z) (s : VState X) : VState X :=
  let s := upd_vdev (fun d => set_int_status (int_status d .& u32 (~~ val)) d) s in
  if int_status (vdev s) =? 0 then set_virq 0 s else s.

Definition virtio_mmio_write (fuel : nat) (offset val size_log2 : Z) (s : VState X) : run (VState X) :=
  if VIRTIO_MMIO_CONFIG <=? offset then virtio_config_write (offset - VIRTIO_MMIO_CONFIG) val size_log2 s
  else if size_log2 =? 2 then
    if offset =? VIRTIO_MMIO_DEVICE_FEATURES_SEL then Finished (upd_vdev (set_device_features_sel val) s)
    else if offset =? VIRTIO_MMIO_QUEUE_SEL then
      Finished (if val <? MAX_QUEUE then upd_vdev (set_queue_sel val) s else s)
    else if offset =? VIRTIO_MMIO_QUEUE_NUM then Finished (write_queue_num val s)
    else if offset =? VIRTIO_MMIO_QUEUE_DESC_LOW then
      Finished (upd_sel (fun q => set_desc_addr (set_low32 (desc_addr q) val) q) s)
    else if offset =? VIRTIO_MMIO_QUEUE_AVAIL_LOW then
      Finished (upd_sel (fun q => set_avail_addr (set_low32 (avail_addr q) val) q) s)
    else if offset =? VIRTIO_MMIO_QUEUE_USED_LOW then
      Finished (upd_sel (fun q => set_used_addr (set_low32 (used_addr q) val) q) s)
    else if offset =? VIRTIO_MMIO_QUEUE_DESC_HIGH then
      Finished (upd_sel (fun q => set_desc_addr (set_high32 (desc_addr q) val) q) s)
    else if offset =? VIRTIO_MMIO_QUEUE_AVAIL_HIGH then
      Finished (upd_sel (fun q => set_avail_addr (set_high32 (avail_addr q) val) q) s)
    else if offset =? VIRTIO_MMIO_QUEUE_USED_HIGH then
      Finished (upd_sel (fun q => set_used_addr (set_high32 (used_addr q) val) q) s)
    else if offset =? VIRTIO_MMIO_STATUS then Finished (write_status val s)
    else if offset =? VIRTIO_MMIO_QUEUE_READY then Finished (upd_sel (set_ready (val .& 1)) s)
    else if offset =? VIRTIO_MMIO_QUEUE_NOTIFY then
      if val <? MAX_QUEUE then queue_notify fuel val s else Finished s
    else if offset =? VIRTIO_MMIO_INTERRUPT_ACK then Finished (write_interrupt_ack val s)
    else Finished s
  else Finished s.

(** the common registers of the PCI device *)
Definition pci_cfg_read (s : VState X) (offset size_log2 : Z) : Z :=
  let d := vdev s in
  let qs := get_queue d (queue_sel d) in
  if size_log2 =? 2 then
    if offset =? VIRTIO_PCI_DEVICE_FEATURE then features_window d
    else if offset =? VIRTIO_PCI_DEVICE_FEATURE_SEL then device_features_sel d
    else if offset =? VIRTIO_PCI_QUEUE_DESC_LOW then u32 (desc_addr qs)
    else if offset =? VIRTIO_PCI_QUEUE_AVAIL_LOW then u32 (avail_addr qs)
    else if offset =? VIRTIO_PCI_QUEUE_USED_LOW then u32 (used_addr qs)
    else if offset =? VIRTIO_PCI_QUEUE_DESC_HIGH then u32 (desc_addr qs >> 32)
    else if offset =? VIRTIO_PCI_QUEUE_AVAIL_HIGH then u32 (avail_addr qs >> 32)
    else if offset =? VIRTIO_PCI_QUEUE_USED_HIGH then u32 (used_addr qs >> 32)
    else 0
  else if size_log2 =? 1 then
    if offset =? VIRTIO_PCI_NUM_QUEUES then MAX_QUEUE_NUM
    else if offset =? VIRTIO_PCI_QUEUE_SEL then queue_sel d
    else if offset =? VIRTIO_PCI_QUEUE_SIZE then num qs
    else if offset =? VIRTIO_PCI_QUEUE_ENABLE then ready qs
    else if offset =? VIRTIO_PCI_QUEUE_NOTIFY_OFF then 0
    else 0
  else if size_log2 =? 0 then if offset =? VIRTIO_PCI_DEVICE_STATUS then status d else 0
  else 0.

Definition virtio_pci_read (offset1 size_log2 : Z) (s : VState X) : run (Z * VState X) :=
  let offset := offset1 .& 0xfff in
  let page := offset1 >> 12 in
  if page =? VIRTIO_PCI_CFG_OFFSET >> 12 then Finished (pci_cfg_read s offset size_log2, s)
  else if page =? VIRTIO_PCI_ISR_OFFSET >> 12 then
    Finished (if (offset =? 0) && (size_log2 =? 0)
              then (int_status (vdev s), set_virq 0 (upd_vdev (set_int_status 0) s))
              else (0, s))
  else if page =? VIRTIO_PCI_CONFIG_OFFSET >> 12 then
    run! v := virtio_config_read s offset size_log2 in
    Finished (v, s)
  else Finished (0, s).

Definition pci_cfg_write (offset val size_log2 : Z) (s : VState X) : VState X :=
  if size_log2 =? 2 then
    if offset =? VIRTIO_PCI_DEVICE_FEATURE_SEL then upd_vdev (set_device_features_sel val) s
    else if offset =? VIRTIO_PCI_QUEUE_DESC_LOW then upd_sel (fun q => set_desc_addr (set_low32 (desc_addr q) val) q) s
    else if offset =? VIRTIO_PCI_QUEUE_AVAIL_LOW then upd_sel (fun q => set_avail_addr (set_low32 (avail_addr q) val) q) s
    else if offset =? VIRTIO_PCI_QUEUE_USED_LOW then upd_sel (fun q => set_used_addr (set_low32 (used_addr q) val) q) s
    else if offset =? VIRTIO_PCI_QUEUE_DESC_HIGH then upd_sel (fun q => set_desc_addr (set_high32 (desc_addr q) val) q) s
    else if offset =? VIRTIO_PCI_QUEUE_AVAIL_HIGH then upd_sel (fun q => set_avail_addr (set_high32 (avail_addr q) val) q) s
    else if offset =? VIRTIO_PCI_QUEUE_USED_HIGH then upd_sel (fun q => set_used_addr (set_high32 (used_addr q) val) q) s
    else s
  else if size_log2 =? 1 then
    if offset =? VIRTIO_PCI_QUEUE_SEL then if val <? MAX_QUEUE then upd_vdev (set_queue_sel val) s else s
    else if offset =? VIRTIO_PCI_QUEUE_SIZE then write_queue_num val s
    else if offset =? VIRTIO_PCI_QUEUE_ENABLE then upd_sel (set_ready (val .& 1)) s
    else s
  else if size_log2 =? 0 then if offset =? VIRTIO_PCI_DEVICE_STATUS then write_status val s else s
  else s.

Definition virtio_pci_write (fuel : nat) (offset1 val size_log2 : Z) (s : VState X) : run (VState X) :=
  let offset := offset1 .& 0xfff in
  let page := offset1 >> 12 in
  if page =? VIRTIO_PCI_CFG_OFFSET >> 12 then Finished (pci_cfg_write offset val size_log2 s)
  else if page =? VIRTIO_PCI_CONFIG_OFFSET >> 12 then virtio_config_write offset val size_log2 s
  else if page =? VIRTIO_PCI_NOTIFY_OFFSET >> 12 then
    if val <? MAX_QUEUE then queue_notify fuel val s else Finished s
  else Finished s.

Definition virtio_config_change_notify (s : VState X) : VState X :=
  set_virq 1 (upd_vdev (fun d => set_int_status (int_status d .| 2) d) s).

End Ops.
