(* ===== verification/VirtioBlock.v ===== *)
(** * The virtio block device and the disk image behind it (virtio.cpp, dromajo_main.cpp)

    The block device's operations are function pointers: the class
    [BlockDevice].  The file the emulator puts behind them is [BlockDeviceFile],
    with the contents of the file as a list of bytes; reads and writes of the
    file do not fail. *)

From S2P Require Import Prelude Cutils IoMem Fdt VirtMachine Virtio.

(** what a new allocation or an uninitialised variable of [n] bytes holds *)
Class Allocator := {
  fresh : Z -> list Z;
  fresh_len n : 0 <= n -> len (fresh n) = n
}.

(** [read_async] is given the buffer and returns it filled; a positive result:
    the request is in progress *)
Class BlockDevice (B : Type) := {
  get_sector_count : B -> Z;
  read_async : Z -> list Z -> Z -> B -> run (Z * list Z * B);
  write_async : Z -> list Z -> Z -> B -> run (Z * B)
}.

Definition VIRTIO_BLK_T_IN : Z := 0.
Definition VIRTIO_BLK_T_OUT : Z := 1.
Definition VIRTIO_BLK_S_OK : Z := 0.
Definition VIRTIO_BLK_S_IOERR : Z := 1.
Definition SECTOR_SIZE : Z := 512.

Record BlockRequest := mkReq {
  req_type : Z;
  req_buf : list Z;
  req_write_size : Z;
  req_queue_idx : Z;
  req_desc_idx : Z
}.

Record VIRTIOBlockDevice (B : Type) := mkBlock { bs : B; req_in_progress : bool; req : BlockRequest }.
#[global] Arguments mkBlock {B}.
#[global] Arguments bs {B}.
#[global] Arguments req_in_progress {B}.
#[global] Arguments req {B}.

Definition sizeof_BlockRequestHeader : Z := 16.

Section Block.
Context {B : Type} {alloc : Allocator} {blk : BlockDevice B}.
Implicit Types s : VState (VIRTIOBlockDevice B).

Definition set_bs (b : B) s := set_vext (mkBlock b (req_in_progress (vext s)) (req (vext s))) s.
Definition set_req_in_progress (p : bool) s := set_vext (mkBlock (bs (vext s)) p (req (vext s))) s.
Definition set_req (r : BlockRequest) s := set_vext (mkBlock (bs (vext s)) (req_in_progress (vext s)) r) s.

Definition virtio_block_req_end (fuel : nat) (ret : Z) s : run (VState (VIRTIOBlockDevice B)) :=
  let r := req (vext s) in
  let st := if ret <? 0 then VIRTIO_BLK_S_IOERR else VIRTIO_BLK_S_OK in
  if req_type r =? VIRTIO_BLK_T_IN then
    run! buf := buf_store (req_buf r) (req_write_size r - 1) [st] in
    run! p := memcpy_to_queue fuel (req_queue_idx r) (req_desc_idx r) 0 buf (req_write_size r) s in
    Finished (virtio_consume_desc (req_queue_idx r) (req_desc_idx r) (req_write_size r) p.2)
  else if req_type r =? VIRTIO_BLK_T_OUT then
    run! p := memcpy_to_queue fuel (req_queue_idx r) (req_desc_idx r) 0 [st] 1 s in
    Finished (virtio_consume_desc (req_queue_idx r) (req_desc_idx r) 1 p.2)
  else Undef.

(** the end of a request the block device has answered *)
Definition finish_or_wait (fuel : nat) (ret : Z) s : run (Z * VState (VIRTIOBlockDevice B)) :=
  if 0 <? ret then Finished (0, set_req_in_progress true s)
  else
    run! s := virtio_block_req_end fuel ret s in
    Finished (0, s).

Definition virtio_block_recv_request (fuel : nat) (queue_idx desc_idx read_size write_size : Z) s
  : run (Z * VState (VIRTIOBlockDevice B)) :=
  if req_in_progress (vext s) then Finished (-1, s)
  else
    run! rh := memcpy_from_queue fuel s (fresh sizeof_BlockRequestHeader) queue_idx desc_idx 0 sizeof_BlockRequestHeader in
    if rh.1 <? 0 then Finished (0, s)
    else
      let type := get_le32 rh.2 in
      let sector_num := get_le64 (drop 8 rh.2) in
      let r := req (vext s) in
      let s := set_req (mkReq type (req_buf r) (req_write_size r) queue_idx desc_idx) s in
      if type =? VIRTIO_BLK_T_IN then
        if write_size <? 0 then Undef
        else
          run! a := read_async sector_num (fresh write_size) (Z.quot (write_size - 1) SECTOR_SIZE) (bs (vext s)) in
          let s := set_req (mkReq type a.1.2 write_size queue_idx desc_idx) (set_bs a.2 s) in
          finish_or_wait fuel a.1.1 s
      else if type =? VIRTIO_BLK_T_OUT then
        let n := s32 (read_size - sizeof_BlockRequestHeader) in
        if (write_size <? 1) || (n <? 0) then Undef
        else
          run! rb := memcpy_from_queue fuel s (fresh n) queue_idx desc_idx sizeof_BlockRequestHeader n in
          run! a := write_async sector_num rb.2 (Z.quot n SECTOR_SIZE) (bs (vext s)) in
          finish_or_wait fuel a.1 (set_bs a.2 s)
      else Finished (0, s).

#[export] Instance block_ops : VirtioOps (VIRTIOBlockDevice B) := {|
  device_recv := virtio_block_recv_request;
  config_write := Finished
|}.

(** the block device's completion; [buf] and [b]: the buffer and the device then *)
Definition virtio_block_req_cb (fuel : nat) (ret : Z) (buf : list Z) (b : B) s : run (VState (VIRTIOBlockDevice B)) :=
  let r := req (vext s) in
  let s := set_req (mkReq (req_type r) buf (req_write_size r) (req_queue_idx r) (req_desc_idx r)) (set_bs b s) in
  run! s := virtio_block_req_end fuel ret s in
  let s := set_req_in_progress false s in
  queue_notify fuel (req_queue_idx (req (vext s))) s.

Definition virtio_block_init (addr opaque : Z) (m : Mem) (b : B) : run (VState (VIRTIOBlockDevice B)) :=
  run! s := virtio_init addr opaque 2 8 m (mkBlock b false (mkReq 0 [] 0 0 0)) in
  let nb_sectors := get_sector_count b in
  Finished (upd_vdev (config_put 4 (put_le32 (u32 (nb_sectors >> 32))))
           (upd_vdev (config_put 0 (put_le32 (u32 nb_sectors))) s)).

End Block.

(** ** The disk image *)

Inductive BlockDeviceModeEnum := BF_MODE_RO | BF_MODE_RW | BF_MODE_SNAPSHOT.

Record BlockDeviceFile := mkBf {
  bf_f : list Z;
  bf_pos : Z;
  nb_sectors : Z;
  bf_mode : BlockDeviceModeEnum;
  sector_table : list (option (list Z))
}.

(** [fseek] refuses a negative offset and stays *)
Definition fseek (off : Z) (bf : BlockDeviceFile) : BlockDeviceFile :=
  mkBf (bf_f bf) (if s64 off <? 0 then bf_pos bf else s64 off) (nb_sectors bf) (bf_mode bf) (sector_table bf).

(** the bytes read, fewer at the end of the file *)
Definition fread (n : Z) (bf : BlockDeviceFile) : list Z * BlockDeviceFile :=
  let bytes := take (Z.to_nat n) (drop (Z.to_nat (bf_pos bf)) (bf_f bf)) in
  (bytes, mkBf (bf_f bf) (bf_pos bf + len bytes) (nb_sectors bf) (bf_mode bf) (sector_table bf)).

(** past the end the file grows, with zeros up to the position *)
Definition fwrite (bytes : list Z) (bf : BlockDeviceFile) : BlockDeviceFile :=
  let f := bf_f bf in
  let p := Z.to_nat (bf_pos bf) in
  mkBf (take p f ++ replicate (p - length f) 0 ++ bytes ++ drop (p + length bytes) f)
    (bf_pos bf + len bytes) (nb_sectors bf) (bf_mode bf) (sector_table bf).

Definition set_sector (i : nat) (data : list Z) (bf : BlockDeviceFile) : BlockDeviceFile :=
  mkBf (bf_f bf) (bf_pos bf) (nb_sectors bf) (bf_mode bf) (<[i := Some data]> (sector_table bf)).

Definition bf_get_sector_count (bf : BlockDeviceFile) : Z := nb_sectors bf.

(** [fread] into [buf + pos] of [n] bytes, which must all be there *)
Definition fread_at (n : Z) (buf : list Z) (pos : Z) (bf : BlockDeviceFile) : run (list Z * BlockDeviceFile) :=
  let '(bytes, bf) := fread n bf in
  run! buf := buf_store buf pos bytes in
  if len bytes =? n then Finished (buf, bf) else Undef.

(** the loop over the sectors of a snapshot *)
Fixpoint snapshot_read (n : nat) (sector_num : Z) (buf : list Z) (pos : Z) (bf : BlockDeviceFile)
  : run (list Z * BlockDeviceFile) :=
  match n with
  | O => Finished (buf, bf)
  | S n =>
      match sector_table bf !! Z.to_nat sector_num with
      | None => Undef
      | Some None =>
          run! r := fread_at SECTOR_SIZE buf pos (fseek (u64 (sector_num * SECTOR_SIZE)) bf) in
          snapshot_read n (u64 (sector_num + 1)) r.1 (pos + SECTOR_SIZE) r.2
      | Some (Some data) =>
          run! buf := buf_store buf pos data in
          snapshot_read n (u64 (sector_num + 1)) buf (pos + SECTOR_SIZE) bf
      end
  end.

Definition bf_read_async (sector_num : Z) (buf : list Z) (n : Z) (bf : BlockDeviceFile)
  : run (Z * list Z * BlockDeviceFile) :=
  match bf_mode bf with
  | BF_MODE_SNAPSHOT =>
      run! r := snapshot_read (Z.to_nat n) sector_num buf 0 bf in
      Finished (0, r.1, r.2)
  | _ =>
      run! r := fread_at (u64 (n * SECTOR_SIZE)) buf 0 (fseek (u64 (sector_num * SECTOR_SIZE)) bf) in
      Finished (0, r.1, r.2)
  end.

Fixpoint snapshot_write (n : nat) (sector_num : Z) (buf : list Z) (pos : Z) (bf : BlockDeviceFile)
  : run BlockDeviceFile :=
  match n with
  | O => Finished bf
  | S n =>
      match sector_table bf !! Z.to_nat sector_num with
      | None => Undef
      | Some _ =>
          run! data := buf_slice buf pos SECTOR_SIZE in
          snapshot_write n (u64 (sector_num + 1)) buf (pos + SECTOR_SIZE) (set_sector (Z.to_nat sector_num) data bf)
      end
  end.

Definition bf_write_async (sector_num : Z) (buf : list Z) (n : Z) (bf : BlockDeviceFile)
  : run (Z * BlockDeviceFile) :=
  match bf_mode bf with
  | BF_MODE_RO => Finished (-1, bf)
  | BF_MODE_RW =>
      run! data := buf_slice buf 0 (n * SECTOR_SIZE) in
      Finished (0, fwrite data (fseek (u64 (sector_num * SECTOR_SIZE)) bf))
  | BF_MODE_SNAPSHOT =>
      if nb_sectors bf <? u32 (sector_num + n) then Finished (-1, bf)
      else
        run! bf := snapshot_write (Z.to_nat n) sector_num buf 0 bf in
        Finished (0, bf)
  end.

#[export] Instance file_block_device : BlockDevice BlockDeviceFile := {|
  get_sector_count := bf_get_sector_count;
  read_async := bf_read_async;
  write_async := bf_write_async
|}.

(** [block_device_init] of a file that could be opened *)
Definition block_device_init (contents : list Z) (mode : BlockDeviceModeEnum) : BlockDeviceFile :=
  let n := len contents / 512 in
  mkBf contents 0 n mode
    (match mode with BF_MODE_SNAPSHOT => replicate (Z.to_nat n) None | _ => [] end).
