(* ===== verification/VirtioDevs.v ===== *)
(** * The virtio network, console and input devices (virtio.cpp)

    Their request handlers and the functions with which the emulator gives the
    guest a packet, console input or an input event.  Sending a packet is a
    function pointer of the network interface: the class [EthernetDevice]; the
    console is the character device [CharWriter]. *)

From Stdlib Require Import String.
From S2P Require Import Prelude Cutils IoMem Fdt VirtMachine Virtio VirtioBlock.

(** the first available descriptor of queue 0, if the driver gave one *)
Definition next_avail {X} (s : VState X) : option Z :=
  let qs := get_queue (vdev s) 0 in
  if negb (tst (ready qs)) then None
  else if last_avail_idx qs =? avail_idx s 0 then None
  else Some (avail_entry s 0).

(** ** Network *)

Class EthernetDevice (E : Type) := { write_packet : list Z -> E -> E }.

Record VIRTIONetDevice (E : Type) := mkNet { es : E; header_size : Z }.
#[global] Arguments mkNet {E}.
#[global] Arguments es {E}.
#[global] Arguments header_size {E}.

Definition sizeof_VIRTIONetHeader : Z := 12.

Section Net.
Context {E : Type} {alloc : Allocator} {eth : EthernetDevice E}.
Implicit Types s : VState (VIRTIONetDevice E).

Definition virtio_net_recv_request (fuel : nat) (queue_idx desc_idx read_size write_size : Z) s
  : run (Z * VState (VIRTIONetDevice E)) :=
  if queue_idx =? 1 then
    let hs := header_size (vext s) in
    run! rh := memcpy_from_queue fuel s (fresh sizeof_VIRTIONetHeader) queue_idx desc_idx 0 hs in
    if rh.1 <? 0 then Finished (0, s)
    else
      let n := read_size - hs in
      if n <? 0 then Undef
      else
        run! rb := memcpy_from_queue fuel s (fresh n) queue_idx desc_idx hs n in
        let s := set_vext (mkNet (write_packet rb.2 (es (vext s))) hs) s in
        Finished (0, virtio_consume_desc queue_idx desc_idx 0 s)
  else Finished (0, s).

#[export] Instance net_ops : VirtioOps (VIRTIONetDevice E) := {|
  device_recv := virtio_net_recv_request;
  config_write := Finished
|}.

Definition virtio_net_can_write_packet s : bool :=
  let qs := get_queue (vdev s) 0 in
  if negb (tst (ready qs)) then false else negb (last_avail_idx qs =? avail_idx s 0).

Definition virtio_net_write_packet (fuel : nat) (buf : list Z) s : run (VState (VIRTIONetDevice E)) :=
  match next_avail s with
  | None => Finished s
  | Some desc_idx =>
      run! sizes := get_desc_rw_size fuel s 0 desc_idx in
      match sizes with
      | None => Finished s
      | Some (_, write_size) =>
          let hs := header_size (vext s) in
          let n := hs + len buf in
          if write_size <? n then Finished s
          else
            run! r := memcpy_to_queue fuel 0 desc_idx 0 (replicate (Z.to_nat sizeof_VIRTIONetHeader) 0) hs s in
            run! r := memcpy_to_queue fuel 0 desc_idx hs buf (len buf) r.2 in
            Finished (advance_avail 0 (virtio_consume_desc 0 desc_idx n r.2))
      end
  end.

Definition virtio_net_init (addr opaque : Z) (mac_addr : list Z) (m : Mem) (e : E) : run (VState (VIRTIONetDevice E)) :=
  run! s := virtio_init addr opaque 1 (6 + 2) m (mkNet e sizeof_VIRTIONetHeader) in
  let s := upd_vdev (set_device_features (1 << 5)) s in
  let s := upd_vdev (upd_queue 0 (set_manual_recv true)) s in
  let s := upd_vdev (config_put 0 mac_addr) s in
  Finished (upd_vdev (config_put 7 [0]) (upd_vdev (config_put 6 [0]) s)).

End Net.

(** ** Console *)

(** [cs->write_data] of a buffer *)
Class CharWriter (C : Type) := { cs_write : list Z -> C -> C }.

Section VirtioConsole.
Context {C : Type} {alloc : Allocator} {chr : CharWriter C}.
Implicit Types s : VState C.

Definition virtio_console_recv_request (fuel : nat) (queue_idx desc_idx read_size write_size : Z) s
  : run (Z * VState C) :=
  if queue_idx =? 1 then
    if read_size <? 0 then Undef
    else
      run! rb := memcpy_from_queue fuel s (fresh read_size) queue_idx desc_idx 0 read_size in
      let s := set_vext (cs_write rb.2 (vext s)) s in
      Finished (0, virtio_consume_desc queue_idx desc_idx 0 s)
  else Finished (0, s).

Definition console_ops : VirtioOps C := {|
  device_recv := virtio_console_recv_request;
  config_write := Finished
|}.

Definition virtio_console_can_write_data s : bool :=
  let qs := get_queue (vdev s) 0 in
  if negb (tst (ready qs)) then false else negb (last_avail_idx qs =? avail_idx s 0).

Definition virtio_console_get_write_len (fuel : nat) s : run Z :=
  match next_avail s with
  | None => Finished 0
  | Some desc_idx =>
      run! sizes := get_desc_rw_size fuel s 0 desc_idx in
      Finished (match sizes with Some (_, write_size) => write_size | None => 0 end)
  end.

Definition virtio_console_write_data (fuel : nat) (buf : list Z) s : run (Z * VState C) :=
  match next_avail s with
  | None => Finished (0, s)
  | Some desc_idx =>
      run! r := memcpy_to_queue fuel 0 desc_idx 0 buf (len buf) s in
      Finished (len buf, advance_avail 0 (virtio_consume_desc 0 desc_idx (len buf) r.2))
  end.

Definition virtio_console_resize_event (width height : Z) s : VState C :=
  let s := upd_vdev (config_put 0 (put_le16 (u16 width))) s in
  let s := upd_vdev (config_put 2 (put_le16 (u16 height))) s in
  virtio_config_change_notify s.

Definition virtio_console_init (addr opaque : Z) (m : Mem) (c : C) : run (VState C) :=
  run! s := virtio_init addr opaque 3 4 m c in
  Finished (upd_vdev (upd_queue 0 (set_manual_recv true)) (upd_vdev (set_device_features (1 << 0)) s)).

End VirtioConsole.

(** ** Input *)

Definition VIRTIO_INPUT_CFG_UNSET : Z := 0x00.
Definition VIRTIO_INPUT_CFG_ID_NAME : Z := 0x01.
Definition VIRTIO_INPUT_CFG_EV_BITS : Z := 0x11.
Definition VIRTIO_INPUT_CFG_ABS_INFO : Z := 0x12.
Definition VIRTIO_INPUT_EV_SYN : Z := 0x00.
Definition VIRTIO_INPUT_EV_KEY : Z := 0x01.
Definition VIRTIO_INPUT_EV_REL : Z := 0x02.
Definition VIRTIO_INPUT_EV_ABS : Z := 0x03.
Definition VIRTIO_INPUT_EV_REP : Z := 0x14.
Definition BTN_LEFT : Z := 0x110.
Definition BTN_RIGHT : Z := 0x111.
Definition BTN_MIDDLE : Z := 0x112.
Definition REL_X : Z := 0x00.
Definition REL_Y : Z := 0x01.
Definition REL_WHEEL : Z := 0x08.
Definition ABS_X : Z := 0x00.
Definition ABS_Y : Z := 0x01.
Definition VIRTIO_INPUT_ABS_SCALE : Z := 32768.

Inductive VirtioInputTypeEnum := VIRTIO_INPUT_TYPE_KEYBOARD | VIRTIO_INPUT_TYPE_MOUSE | VIRTIO_INPUT_TYPE_TABLET.
#[export] Instance VirtioInputTypeEnum_eq_dec : EqDecision VirtioInputTypeEnum.
Proof. solve_decision. Defined.

Record VIRTIOInputDevice := mkInput { input_type : VirtioInputTypeEnum; buttons_state : Z }.

Definition buttons_list : list Z := [BTN_LEFT; BTN_RIGHT; BTN_MIDDLE].

Abbreviation InputState := (VState VIRTIOInputDevice).

Definition virtio_input_recv_request (fuel : nat) (queue_idx desc_idx read_size write_size : Z) (s : InputState)
  : run (Z * InputState) :=
  Finished (0, if queue_idx =? 1 then virtio_consume_desc queue_idx desc_idx 0 s else s).

(** a negative result: the event could not be sent *)
Definition virtio_input_queue_event (fuel : nat) (type code value : Z) (s : InputState) : run (Z * InputState) :=
  let buf := put_le16 (u16 type) ++ put_le16 (u16 code) ++ put_le32 (u32 value) in
  match next_avail s with
  | None => Finished (-1, s)
  | Some desc_idx =>
      run! r := memcpy_to_queue fuel 0 desc_idx 0 buf 8 s in
      Finished (0, advance_avail 0 (virtio_consume_desc 0 desc_idx 8 r.2))
  end.

(** events in order, up to the first that fails *)
Fixpoint queue_events (fuel : nat) (evs : list (Z * Z * Z)) (s : InputState) : run (Z * InputState) :=
  match evs with
  | [] => Finished (0, s)
  | (type, code, value) :: evs =>
      run! r := virtio_input_queue_event fuel type code value s in
      if r.1 =? 0 then queue_events fuel evs r.2 else Finished r
  end.

Definition virtio_input_send_key_event (fuel : nat) (is_down key_code : Z) (s : InputState) : run (Z * InputState) :=
  if negb (bool_decide (input_type (vext s) = VIRTIO_INPUT_TYPE_KEYBOARD)) then Finished (-1, s)
  else queue_events fuel [(VIRTIO_INPUT_EV_KEY, key_code, is_down); (VIRTIO_INPUT_EV_SYN, 0, 0)] s.

(** the buttons that changed *)
Definition button_events (buttons last : Z) : list (Z * Z * Z) :=
  concat (imap (fun i btn =>
    let b := (buttons >> Z.of_nat i) .& 1 in
    let last_b := (last >> Z.of_nat i) .& 1 in
    if b =? last_b then [] else [(VIRTIO_INPUT_EV_KEY, btn, b)]) buttons_list).

(** also used for the tablet *)
Definition virtio_input_send_mouse_event (fuel : nat) (dx dy dz buttons : Z) (s : InputState) : run (Z * InputState) :=
  let move := match input_type (vext s) with
    | VIRTIO_INPUT_TYPE_KEYBOARD => None
    | VIRTIO_INPUT_TYPE_MOUSE => Some [(VIRTIO_INPUT_EV_REL, REL_X, dx); (VIRTIO_INPUT_EV_REL, REL_Y, dy)]
    | VIRTIO_INPUT_TYPE_TABLET => Some [(VIRTIO_INPUT_EV_ABS, ABS_X, dx); (VIRTIO_INPUT_EV_ABS, ABS_Y, dy)]
    end in
  match move with
  | None => Finished (-1, s)
  | Some move =>
      let wheel := if tst dz then [(VIRTIO_INPUT_EV_REL, REL_WHEEL, dz)] else [] in
      run! r := queue_events fuel (move ++ wheel ++ button_events buttons (buttons_state (vext s))) s in
      if negb (r.1 =? 0) then Finished r
      else
        let s := set_vext (mkInput (input_type (vext r.2)) buttons) r.2 in
        virtio_input_queue_event fuel VIRTIO_INPUT_EV_SYN 0 0 s
  end.

Definition set_bit (tab : list Z) (k : Z) : list Z :=
  alter (fun b => u8 (b .| (1 << (k .& 7)))) (Z.to_nat (k >> 3)) tab.

(** a reply: its size, and a bitmap with the given bits *)
Definition reply (size : Z) (data : list Z) (d : VIRTIODevice) : VIRTIODevice := config_put 8 data (config_put 2 [size] d).
Definition bitmap (n : Z) (bits : list Z) : list Z := foldl set_bit (replicate (Z.to_nat n) 0) bits.

Definition input_ev_bits (type : VirtioInputTypeEnum) (ev : Z) : Z * list Z :=
  let keys := (512 / 8, bitmap (512 / 8) buttons_list) in
  match type with
  | VIRTIO_INPUT_TYPE_KEYBOARD =>
      if ev =? VIRTIO_INPUT_EV_KEY then (128 / 8, replicate (Z.to_nat (128 / 8)) 0xff)
      else if ev =? VIRTIO_INPUT_EV_REP then (1, [])
      else (0, [])
  | VIRTIO_INPUT_TYPE_MOUSE =>
      if ev =? VIRTIO_INPUT_EV_KEY then keys
      else if ev =? VIRTIO_INPUT_EV_REL then (2, bitmap 2 [REL_X; REL_Y; REL_WHEEL])
      else (0, [])
  | VIRTIO_INPUT_TYPE_TABLET =>
      if ev =? VIRTIO_INPUT_EV_KEY then keys
      else if ev =? VIRTIO_INPUT_EV_REL then (2, bitmap 2 [REL_WHEEL])
      else if ev =? VIRTIO_INPUT_EV_ABS then (1, bitmap 1 [ABS_X; ABS_Y])
      else (0, [])
  end.

Definition input_name (type : VirtioInputTypeEnum) : list Z :=
  match type with
  | VIRTIO_INPUT_TYPE_KEYBOARD => str "virtio_keyboard"
  | VIRTIO_INPUT_TYPE_MOUSE => str "virtio_mouse"
  | VIRTIO_INPUT_TYPE_TABLET => str "virtio_tablet"
  end.

Definition virtio_input_config_write (s : InputState) : run InputState :=
  let type := input_type (vext s) in
  let config := config_space (vdev s) in
  let c0 := rd config 0 in
  let c1 := rd config 1 in
  Finished (
    if c0 =? VIRTIO_INPUT_CFG_UNSET then s
    else if c0 =? VIRTIO_INPUT_CFG_ID_NAME then upd_vdev (reply (len (input_name type)) (input_name type)) s
    else if c0 =? VIRTIO_INPUT_CFG_EV_BITS then
      let '(size, data) := input_ev_bits type c1 in upd_vdev (reply size data) s
    else if c0 =? VIRTIO_INPUT_CFG_ABS_INFO then
      if bool_decide (type = VIRTIO_INPUT_TYPE_TABLET) && (c1 <=? 1)
      then upd_vdev (reply (5 * 4) (put_le32 0 ++ put_le32 (VIRTIO_INPUT_ABS_SCALE - 1) ++ put_le32 0
                                      ++ put_le32 0 ++ put_le32 0)) s
      else s
    else upd_vdev (config_put 2 [0]) s).

#[export] Instance input_ops : VirtioOps VIRTIOInputDevice := {|
  device_recv := virtio_input_recv_request;
  config_write := virtio_input_config_write
|}.

Definition virtio_input_init (addr opaque : Z) (type : VirtioInputTypeEnum) (m : Mem) : run InputState :=
  run! s := virtio_init addr opaque 18 256 m (mkInput type 0) in
  let s := upd_vdev (upd_queue 0 (set_manual_recv true)) s in
  Finished (upd_vdev (set_device_features 0) s).
