(* ===== verification/VirtioQueue.v ===== *)
(** * Descriptor chains: the transfer between a buffer and the guest's memory

    A chain that is well formed names a sequence of host bytes, those of its
    readable descriptors and then those of its writable ones.  The transfer
    functions of virtio.cpp, with their walk over the descriptors and over the
    pages of each, read and write exactly a slice of that sequence. *)

From S2P Require Import Prelude Cutils IoMem IoMemProps Fdt FdtProps VirtMachine Virtio.

(** ** Blocks of guest memory *)

(** the host address of a guest address, 0 outside the RAM *)
Definition haddr (m : PhysMemoryMap) (a : Z) : Z := get_ram_ptr a (m, ∅).

(** [n] guest bytes from [a] are RAM, contiguous on the host *)
Definition ram_block (m : PhysMemoryMap) (a n : Z) : Prop :=
  0 <= a /\ a + n <= 2 ^ 64 /\ forall i, 0 <= i < n -> haddr m (a + i) = haddr m a + i /\ haddr m (a + i) <> 0.

(** the bytes [bs] stored at the host addresses [as_] *)
Fixpoint scatter (as_ bs : list Z) (h : HostMem) : HostMem :=
  match as_, bs with
  | a :: as_, b :: bs => scatter as_ bs (<[a := u8 b]> h)
  | _, _ => h
  end.

Definition gather (as_ : list Z) (h : HostMem) : list Z := map (hm_byte h) as_.

Lemma scatter_app a1 a2 b1 b2 h :
  length a1 = length b1 -> scatter (a1 ++ a2) (b1 ++ b2) h = scatter a2 b2 (scatter a1 b1 h).
Proof. revert b1 h. induction a1 as [|a a1 IH]; intros [|b b1] h Hl; simpl in *; try lia; [done|]. apply IH. lia. Qed.

Lemma scatter_outside as_ bs h x : x ∉ as_ -> hm_byte (scatter as_ bs h) x = hm_byte h x.
Proof.
  revert bs h. induction as_ as [|a as_ IH]; intros [|b bs] h Hx; simpl; try done.
  rewrite not_elem_of_cons in Hx. rewrite IH by tauto.
  rewrite hm_byte_insert. by rewrite decide_False by naive_solver.
Qed.

Lemma gather_scatter as_ bs h :
  NoDup as_ -> length as_ = length bs -> Forall (in_u 8) bs -> gather as_ (scatter as_ bs h) = bs.
Proof.
  revert bs h. induction as_ as [|a as_ IH]; intros [|b bs] h Hnd Hl Hb; simpl in *; try lia; [done|].
  apply NoDup_cons in Hnd as [Ha Hnd]. apply Forall_cons in Hb as [Hb0 Hb]. f_equal; [|apply IH; [done|lia|done]].
  rewrite scatter_outside by done. rewrite hm_byte_insert, decide_True by done. by apply uN_small.
Qed.

Lemma scatter_take as_ bs h : (length as_ <= length bs)%nat -> scatter as_ (take (length as_) bs) h = scatter as_ bs h.
Proof. revert bs h. induction as_ as [|a as_ IH]; intros [|b bs] h Hl; simpl in *; try done; try lia. apply IH. lia. Qed.

Lemma len_length l : length l = Z.to_nat (len l).
Proof. unfold len. lia. Qed.

Lemma len_seqZ a n : 0 <= n -> len (seqZ a n) = n.
Proof. intros. unfold len. rewrite length_seqZ. lia. Qed.

Lemma len_gather as_ h : len (gather as_ h) = len as_.
Proof. unfold len, gather. by rewrite length_map. Qed.

Lemma hm_bytes_gather a n h : hm_bytes a n h = gather (seqZ a n) h.
Proof.
  unfold hm_bytes, gather. apply list_eq. intros i. rewrite !list_lookup_fmap.
  destruct (decide (i < Z.to_nat n)%nat).
  - rewrite !lookup_seqZ_lt by lia. simpl. by rewrite Z.add_0_l.
  - by rewrite !lookup_seqZ_ge by lia.
Qed.

Lemma hm_copy_scatter a l h : hm_copy a l h = scatter (seqZ a (len l)) l h.
Proof.
  revert a h. induction l as [|b l IH]; intros a h; [done|]. cbn [hm_copy].
  rewrite len_cons, seqZ_cons by (pose proof (len_nonneg l); lia). cbn [scatter].
  rewrite IH. f_equal. f_equal; lia.
Qed.

Lemma seqZ_split a n k : 0 <= k <= n -> seqZ a n = seqZ a k ++ seqZ (a + k) (n - k).
Proof. intros. rewrite <- seqZ_app by lia. f_equal. lia. Qed.

Lemma page_left_range a : 1 <= page_left a <= 4096.
Proof.
  unfold page_left, VIRTIO_PAGE_SIZE. change (4096 - 1) with (2 ^ 12 - 1). rewrite land_pow2m1 by lia.
  pose proof (uN_range 12 a ltac:(lia)) as H. unfold in_u in H. lia.
Qed.

Lemma ram_block_haddr m a n k : ram_block m a n -> 0 <= k < n -> haddr m (a + k) = haddr m a + k.
Proof. intros (_ & _ & H) Hk. by apply H. Qed.

Lemma ram_block_nonnull m a n : ram_block m a n -> 0 < n -> haddr m a <> 0.
Proof. intros (_ & _ & H) Hn. destruct (H 0) as [_ H0]; [lia|]. by rewrite Z.add_0_r in H0. Qed.

(** a part of a block *)
Lemma ram_block_part m a n k l : ram_block m a n -> 0 <= k -> 0 <= l -> k + l <= n -> ram_block m (a + k) l.
Proof.
  intros (H0 & H1 & H) Hk Hl Hkl. split_and!; [lia|lia|]. intros i Hi.
  destruct (H (k + i)) as [E1 N]; [lia|]. destruct (H k) as [E2 _]; [lia|].
  rewrite Z.add_assoc in E1, N. split; [|done]. lia.
Qed.

Section Queue.
Context {X : Type}.
Implicit Types s : VState X.

Lemma get_ram_ptr_haddr s a : virtio_mmio_get_ram_ptr s a = haddr (vmem s).1 a.
Proof. done. Qed.

Lemma memcpy_from_pages_spec n s a count :
  ram_block (vmem s).1 a count -> (Z.to_nat count <= n)%nat ->
  memcpy_from_pages n s a count = (0, gather (seqZ (haddr (vmem s).1 a) count) (vmem s).2).
Proof.
  revert a count. induction n as [|n IH]; intros a count Hb Hn; cbn [memcpy_from_pages].
  { rewrite seqZ_nil by lia. done. }
  destruct (Z.ltb_spec 0 count) as [Hc|]; [|by rewrite seqZ_nil by lia].
  pose proof (page_left_range a) as Hp. set (l := min_int count (page_left a)).
  assert (1 <= l <= count) as Hl by (unfold l, min_int; destruct (Z.ltb_spec count (page_left a)); lia).
  rewrite get_ram_ptr_haddr. destruct (Z.eqb_spec (haddr (vmem s).1 a) 0) as [E|_]; [by eapply ram_block_nonnull in E|].
  rewrite hm_bytes_gather, (seqZ_split _ count l) by lia. unfold gather at 2. rewrite map_app. fold (gather (seqZ (haddr (vmem s).1 a) l) (vmem s).2).
  destruct (Z.eq_dec l count) as [El|Hne].
  - rewrite El, Z.sub_diag. assert (memcpy_from_pages n s (u64 (a + count)) 0 = (0, [])) as -> by (by destruct n). done.
  - pose proof Hb as (H0 & H1 & _). assert (u64 (a + l) = a + l) as -> by (apply uN_small; unfold in_u; lia).
    rewrite IH; [|eapply ram_block_part; [done|lia..]|lia].
    rewrite (ram_block_haddr _ a count) by (done || lia). done.
Qed.

Lemma memcpy_from_ram_spec s a count :
  ram_block (vmem s).1 a count ->
  virtio_memcpy_from_ram s a count = (0, gather (seqZ (haddr (vmem s).1 a) count) (vmem s).2).
Proof. intros Hb. by apply memcpy_from_pages_spec. Qed.

Definition with_heap (h : HostMem) (s : VState X) : VState X := set_vmem ((vmem s).1, h) s.

Lemma with_heap_same s : with_heap (vmem s).2 s = s.
Proof. by destruct s as [d [m h] i x]. Qed.

Lemma take_drop_split (buf : list Z) pos l k :
  0 <= pos -> 0 <= k <= l ->
  take (Z.to_nat l) (drop (Z.to_nat pos) buf)
    = take (Z.to_nat k) (drop (Z.to_nat pos) buf) ++ take (Z.to_nat (l - k)) (drop (Z.to_nat (pos + k)) buf).
Proof.
  intros Hp Hk. replace (Z.to_nat (pos + k)) with (Z.to_nat pos + Z.to_nat k)%nat by lia.
  rewrite <- drop_drop. replace (Z.to_nat l) with (Z.to_nat k + Z.to_nat (l - k))%nat by lia.
  by rewrite take_take_drop.
Qed.

Lemma memcpy_to_pages_spec n a buf pos count s :
  ram_block (vmem s).1 a count -> (Z.to_nat count <= n)%nat -> 0 <= pos -> pos + count <= len buf ->
  memcpy_to_pages n a buf pos count s
    = Finished (0, with_heap (scatter (seqZ (haddr (vmem s).1 a) count)
                                (take (Z.to_nat count) (drop (Z.to_nat pos) buf)) (vmem s).2) s).
Proof.
  revert a pos count s. induction n as [|n IH]; intros a pos count s Hb Hn Hp Hlen; cbn [memcpy_to_pages].
  { rewrite seqZ_nil by lia. cbn [scatter]. by rewrite with_heap_same. }
  destruct (Z.ltb_spec 0 count) as [Hc|]; [|rewrite seqZ_nil by lia; cbn [scatter]; by rewrite with_heap_same].
  pose proof (page_left_range a) as Hpl. set (l := min_int count (page_left a)).
  assert (1 <= l <= count) as Hl by (unfold l, min_int; destruct (Z.ltb_spec count (page_left a)); lia).
  rewrite get_ram_ptr_haddr. destruct (Z.eqb_spec (haddr (vmem s).1 a) 0) as [E|_]; [by eapply ram_block_nonnull in E|].
  unfold buf_slice at 1. replace ((0 <=? pos) && (pos + l <=? len buf)) with true by lia. cbn [andThen].
  rewrite (seqZ_split _ count l), (take_drop_split buf pos count l) by lia.
  assert (len (take (Z.to_nat l) (drop (Z.to_nat pos) buf)) = l) as Hll.
  { unfold len in *. rewrite length_take, length_drop. lia. }
  rewrite scatter_app by (rewrite length_seqZ; unfold len in Hll; lia).
  rewrite hm_copy_scatter, Hll. set (h1 := scatter _ _ (vmem s).2).
  destruct (Z.eq_dec l count) as [El|Hne].
  - rewrite El, Z.sub_diag. by destruct n.
  - pose proof Hb as (H0 & H1 & _). assert (u64 (a + l) = a + l) as -> by (apply uN_small; unfold in_u; lia).
    rewrite IH; [|eapply ram_block_part; [done|lia..]|lia..].
    unfold set_vmem. cbn [vmem fst snd]. rewrite (ram_block_haddr _ a count) by (done || lia). done.
Qed.

Lemma memcpy_to_ram_spec a buf pos count s :
  ram_block (vmem s).1 a count -> 0 <= pos -> pos + count <= len buf ->
  virtio_memcpy_to_ram a buf pos count s
    = Finished (0, with_heap (scatter (seqZ (haddr (vmem s).1 a) count)
                                (take (Z.to_nat count) (drop (Z.to_nat pos) buf)) (vmem s).2) s).
Proof. intros. by apply memcpy_to_pages_spec. Qed.

End Queue.

(** ** Chains *)

Definition device_writes (d : VIRTIODesc) : bool := tst (d_flags d .& VRING_DESC_F_WRITE).
Definition has_next (d : VIRTIODesc) : bool := tst (d_flags d .& VRING_DESC_F_NEXT).

Lemma write_flag_test (to_queue : bool) d :
  ((d_flags d .& VRING_DESC_F_WRITE) =? (if to_queue then VRING_DESC_F_WRITE else 0)) = eqb (device_writes d) to_queue.
Proof.
  unfold device_writes, VRING_DESC_F_WRITE, tst.
  assert (d_flags d .& 2 = if Z.testbit (d_flags d) 1 then 2 else 0) as ->.
  { apply Z.bits_inj'. intros i Hi. rewrite Z.land_spec.
    assert (Z.testbit 2 i = (i =? 1)) as -> by (change 2 with (2 ^ 1); by rewrite testbit_pow2 by lia).
    destruct (Z.eqb_spec i 1) as [->|Hne]; [by destruct (Z.testbit (d_flags d) 1)|].
    rewrite andb_false_r. destruct (Z.testbit (d_flags d) 1); [|by rewrite Z.bits_0].
    change 2 with (2 ^ 1). rewrite testbit_pow2 by lia. lia. }
  by destruct (Z.testbit (d_flags d) 1), to_queue.
Qed.

(** the host bytes of a descriptor's buffer, and of several *)
Definition desc_addrs (m : PhysMemoryMap) (d : VIRTIODesc) : list Z := seqZ (haddr m (d_addr d)) (d_len d).
Definition chain_addrs (m : PhysMemoryMap) (ds : list VIRTIODesc) : list Z := concat (map (desc_addrs m) ds).

Definition desc_ok (m : PhysMemoryMap) (d : VIRTIODesc) : Prop :=
  0 <= d_len d < 2 ^ 31 /\ ram_block m (d_addr d) (d_len d).

Lemma len_desc_addrs m d : desc_ok m d -> len (desc_addrs m d) = d_len d.
Proof. intros [H _]. apply len_seqZ. lia. Qed.

(** the effect of a transfer of the host bytes [as_] from or to [buf + pos] *)
Definition moved {X} (to_queue : bool) (as_ : list Z) (buf : list Z) (pos : Z) (s : VState X) : list Z * VState X :=
  if to_queue
  then (buf, with_heap (scatter as_ (take (length as_) (drop (Z.to_nat pos) buf)) (vmem s).2) s)
  else (take (Z.to_nat pos) buf ++ gather as_ (vmem s).2 ++ drop (Z.to_nat (pos + len as_)) buf, s).

Lemma moved_nil {X} tq buf pos (s : VState X) : 0 <= pos <= len buf -> moved tq [] buf pos s = (buf, s).
Proof.
  intros Hp. unfold moved. destruct tq; cbn [scatter]; [by rewrite with_heap_same|].
  change (len []) with 0. rewrite Z.add_0_r. simpl. by rewrite take_drop.
Qed.

Lemma moved_app {X} tq a1 a2 buf pos (s : VState X) :
  0 <= pos -> pos + len a1 + len a2 <= len buf ->
  moved tq (a1 ++ a2) buf pos s
    = moved tq a2 (moved tq a1 buf pos s).1 (pos + len a1) (moved tq a1 buf pos s).2.
Proof.
  intros Hp Hl. pose proof (len_nonneg a1). pose proof (len_nonneg a2). unfold moved. destruct tq; cbn [fst snd].
  - unfold with_heap, set_vmem. cbn [vmem fst snd]. f_equal. f_equal. f_equal.
    rewrite length_app, <- take_take_drop, drop_drop, scatter_app.
    + do 3 f_equal. unfold len. lia.
    + unfold len in *. rewrite length_take, length_drop. lia.
  - f_equal. unfold gather. rewrite map_app, len_app. fold (gather a1 (vmem s).2) (gather a2 (vmem s).2).
    assert (len (take (Z.to_nat pos) buf ++ gather a1 (vmem s).2) = pos + len a1) as Hla.
    { rewrite len_app, len_gather. unfold len in *. rewrite length_take. lia. }
    rewrite (app_assoc (take _ buf) (gather a1 _) (drop _ buf)).
    rewrite take_len_app by done. rewrite <- !app_assoc. do 2 f_equal. f_equal.
    rewrite (app_assoc (take _ buf)). unfold len in *.
    rewrite drop_app_ge by lia. rewrite drop_drop. f_equal. lia.
Qed.

Lemma len_moved {X} tq as_ buf pos (s : VState X) :
  0 <= pos -> pos + len as_ <= len buf -> len (moved tq as_ buf pos s).1 = len buf.
Proof.
  intros Hp Hl. unfold moved. destruct tq; [done|]. cbn [fst]. rewrite !len_app, len_gather.
  unfold len in *. rewrite length_take, length_drop. lia.
Qed.

Lemma vdev_moved {X} tq as_ buf pos (s : VState X) : vdev (moved tq as_ buf pos s).2 = vdev s.
Proof. by destruct tq. Qed.

Lemma mem_map_moved {X} tq as_ buf pos (s : VState X) : (vmem (moved tq as_ buf pos s).2).1 = (vmem s).1.
Proof. by destruct tq. Qed.

Lemma copy_desc_spec {X} tq a l buf pos (s : VState X) :
  ram_block (vmem s).1 a l -> 0 <= l -> 0 <= pos -> pos + l <= len buf ->
  copy_desc tq a l buf pos s = Finished (moved tq (seqZ (haddr (vmem s).1 a) l) buf pos s).
Proof.
  intros Hb Hl Hp Hlen. unfold copy_desc, moved. destruct tq.
  - rewrite memcpy_to_ram_spec by done. cbn [andThen fst snd]. by rewrite length_seqZ.
  - rewrite memcpy_from_ram_spec by done. cbn [snd]. unfold buf_store. rewrite len_gather, len_seqZ by done.
    destruct (Z.eqb_spec l 0) as [->|].
    + cbn [andThen]. rewrite Z.add_0_r. simpl. by rewrite take_drop.
    + replace ((0 <=? pos) && (pos + l <=? len buf)) with true by lia. done.
Qed.

Section Chain.
(** the memory map, the address of the descriptor table, and its host bytes *)
Context (m : PhysMemoryMap) (table : Z) (T : Z -> Prop).

Definition entry_addr (idx : Z) : Z := u64 (table + idx * sizeof_VIRTIODesc).
Definition entry_bytes (h : HostMem) (idx : Z) : list Z :=
  gather (seqZ (haddr m (entry_addr idx)) sizeof_VIRTIODesc) h.
Definition entry (h : HostMem) (idx : Z) : VIRTIODesc := desc_of (entry_bytes h idx).
Definition entry_ok (idx : Z) : Prop :=
  ram_block m (entry_addr idx) sizeof_VIRTIODesc
  /\ forall x, x ∈ seqZ (haddr m (entry_addr idx)) sizeof_VIRTIODesc -> T x.

(** the chain from a descriptor ends, after the descriptors [ds] *)
Inductive chain (h : HostMem) : Z -> list VIRTIODesc -> Prop :=
  | chain_last idx : entry_ok idx -> has_next (entry h idx) = false -> chain h idx [entry h idx]
  | chain_more idx ds :
      entry_ok idx -> has_next (entry h idx) = true -> chain h (d_next (entry h idx)) ds ->
      chain h idx (entry h idx :: ds).

Lemma chain_entry h idx d ds : chain h idx (d :: ds) -> d = entry h idx /\ entry_ok idx.
Proof. inversion 1; by subst. Qed.

Lemma chain_tail h idx d ds :
  chain h idx (d :: ds) ->
  (ds = [] /\ has_next d = false) \/ (ds <> [] /\ has_next d = true /\ chain h (d_next d) ds).
Proof.
  inversion 1; subst; [by left|right]. split_and!; [|done|done].
  match goal with H : chain _ (d_next _) _ |- _ => by inversion H end.
Qed.

Lemma entry_bytes_frame h h' idx :
  entry_ok idx -> (forall x, T x -> hm_byte h' x = hm_byte h x) -> entry_bytes h' idx = entry_bytes h idx.
Proof.
  intros [_ Ht] Hf. unfold entry_bytes, gather. apply map_ext_in. intros x Hx. apply Hf, Ht. by apply list_elem_of_In.
Qed.

Lemma chain_frame h h' idx ds :
  (forall x, T x -> hm_byte h' x = hm_byte h x) -> chain h idx ds -> chain h' idx ds.
Proof.
  intros Hf Hc. induction Hc as [idx Hok Hn|idx ds Hok Hn Hc IH].
  - assert (entry h idx = entry h' idx) as E by (unfold entry; f_equal; symmetry; by apply entry_bytes_frame).
    rewrite E in Hn |- *. by apply chain_last.
  - assert (entry h idx = entry h' idx) as E by (unfold entry; f_equal; symmetry; by apply entry_bytes_frame).
    rewrite E in Hn, IH |- *. by apply chain_more.
Qed.

Context {X : Type} (q : Z).
Implicit Types s : VState X.

(** the queue's table is in the map *)
Definition hosts s : Prop := (vmem s).1 = m /\ desc_addr (get_queue (vdev s) q) = table.

Lemma get_desc_spec s old idx :
  hosts s -> entry_ok idx -> (old = None \/ exists o, old = Some o /\ length o = 16%nat) ->
  get_desc s old q idx = Finished (entry_bytes (vmem s).2 idx).
Proof.
  intros [Hm Ht] [Hb _] Ho. unfold get_desc. rewrite Ht. fold (entry_addr idx).
  rewrite memcpy_from_ram_spec by (by rewrite Hm). rewrite Hm. fold (entry_bytes (vmem s).2 idx).
  destruct Ho as [->|(o & -> & Ho)]; [done|]. f_equal.
  rewrite drop_ge; [by rewrite app_nil_r|].
  unfold entry_bytes, gather. rewrite length_map, length_seqZ. unfold sizeof_VIRTIODesc. lia.
Qed.

Lemma length_entry_bytes h idx : length (entry_bytes h idx) = 16%nat.
Proof. unfold entry_bytes, gather. by rewrite length_map, length_seqZ. Qed.

Lemma get_next_desc s b d ds :
  hosts s -> chain (vmem s).2 (d_next d) ds -> length b = 16%nat ->
  get_desc s (Some b) q (d_next d) = Finished (entry_bytes (vmem s).2 (d_next d)).
Proof.
  intros Hs Hc Hb. apply get_desc_spec; [done| |right; by exists b].
  inversion Hc; by subst.
Qed.

(** descriptors for one direction, then one for the other, if any *)
Definition side (to_queue : bool) (ds : list VIRTIODesc) : Prop :=
  Forall (fun d => device_writes d = to_queue /\ desc_ok m d) ds.
Definition ends_side (to_queue : bool) (rest : list VIRTIODesc) : Prop :=
  match rest with [] => True | d :: _ => device_writes d <> to_queue end.

Lemma find_write_desc_spec s fuel idx rs ws :
  hosts s -> chain (vmem s).2 idx (rs ++ ws) -> side false rs -> side true ws -> (length rs < fuel)%nat ->
  match ws with
  | [] => find_write_desc fuel s q (entry_bytes (vmem s).2 idx) = Finished None
  | _ :: _ => exists idx', chain (vmem s).2 idx' ws
      /\ find_write_desc fuel s q (entry_bytes (vmem s).2 idx) = Finished (Some (entry_bytes (vmem s).2 idx'))
  end.
Proof.
  intros Hs. revert idx rs. induction fuel as [|fuel IH]; intros idx rs Hc Hr Hw Hf; [lia|].
  cbn [find_write_desc]. fold (entry (vmem s).2 idx). rewrite (write_flag_test true). cbn [find_write_desc].
  destruct rs as [|d rs].
  - simpl in Hc. destruct ws as [|w ws]; [inversion Hc|].
    destruct (chain_entry _ _ _ _ Hc) as [<- _]. apply Forall_cons in Hw as [[-> _] _]. simpl. by exists idx.
  - simpl in Hc. destruct (chain_entry _ _ _ _ Hc) as [<- _]. apply Forall_cons in Hr as [[-> _] Hr]. simpl.
    fold (has_next d). destruct (chain_tail _ _ _ _ Hc) as [[Hnil ->]|(Hne & -> & Hc')].
    + apply app_eq_nil in Hnil as [-> ->]. done.
    + rewrite (get_next_desc s _ d _ Hs Hc') by apply length_entry_bytes. cbn [andThen negb].
      apply (IH _ rs); [done|done|done|simpl in Hf; lia].
Qed.

Lemma find_desc_at_spec s tq fuel idx ds rest offset :
  hosts s -> chain (vmem s).2 idx (ds ++ rest) -> side tq ds -> ends_side tq rest ->
  0 <= offset < 2 ^ 31 -> (length ds < fuel)%nat ->
  let f := if tq then VRING_DESC_F_WRITE else 0 in
  if len (chain_addrs m ds) <=? offset
  then find_desc_at fuel s q f (entry_bytes (vmem s).2 idx) offset = Finished None
  else exists idx' pre d ds' offset', ds = pre ++ d :: ds' /\ chain (vmem s).2 idx' (d :: ds' ++ rest)
    /\ 0 <= offset' < d_len d /\ offset = len (chain_addrs m pre) + offset'
    /\ find_desc_at fuel s q f (entry_bytes (vmem s).2 idx) offset = Finished (Some (entry_bytes (vmem s).2 idx', offset')).
Proof.
  intros Hs. revert idx ds offset. induction fuel as [|fuel IH]; intros idx ds offset Hc Hd He Ho Hf f; [lia|].
  cbn [find_desc_at]. fold (entry (vmem s).2 idx). unfold f. rewrite write_flag_test.
  destruct ds as [|d ds].
  { cbn [chain_addrs map concat]. change (len []) with 0. replace (0 <=? offset) with true by lia.
    simpl in Hc. destruct rest as [|r rest]; [inversion Hc|]. destruct (chain_entry _ _ _ _ Hc) as [<- _].
    simpl in He. apply eqb_false_iff in He as ->. done. }
  simpl in Hc. destruct (chain_entry _ _ _ _ Hc) as [<- _]. apply Forall_cons in Hd as [[Hdw Hok] Hd].
  rewrite Hdw, eqb_reflx. cbn [negb]. pose proof Hok as [Hlen _].
  rewrite (sN_small 32) by (unfold in_s; lia).
  cbn [chain_addrs map concat]. fold (chain_addrs m ds). rewrite len_app, len_desc_addrs by done.
  pose proof (len_nonneg (chain_addrs m ds)).
  destruct (Z.ltb_spec offset (d_len d)) as [Hlt|Hge].
  - replace (d_len d + len (chain_addrs m ds) <=? offset) with false by lia.
    exists idx, [], d, ds, offset. split_and!; [done|done|lia|lia| |done]. by rewrite Z.add_0_l.
  - fold (has_next d). destruct (chain_tail _ _ _ _ Hc) as [[Hnil ->]|(Hne & -> & Hc')].
    + apply app_eq_nil in Hnil as [-> ->]. cbn [chain_addrs map concat]. change (len []) with 0.
      by replace (d_len d + 0 <=? offset) with true by lia.
    + rewrite (get_next_desc s _ d _ Hs Hc') by apply length_entry_bytes. cbn [andThen negb].
      rewrite (sN_small 32) by (unfold in_s; lia).
      specialize (IH _ ds (offset - d_len d) Hc' Hd He ltac:(lia) ltac:(simpl in Hf; lia)). cbv zeta in IH.
      replace (len (chain_addrs m ds) <=? offset - d_len d) with (d_len d + len (chain_addrs m ds) <=? offset) in IH by lia.
      destruct (d_len d + len (chain_addrs m ds) <=? offset); [done|].
      destruct IH as (idx' & pre & d' & ds' & o' & -> & H2 & H3 & H4 & H5).
      exists idx', (d :: pre), d', ds', o'. split_and!; [done|done|lia|lia| |done].
      cbn [chain_addrs map concat]. fold (chain_addrs m pre). rewrite len_app, len_desc_addrs by done. lia.
Qed.

Lemma drop_desc_addrs d k : 0 <= k <= d_len d ->
  drop (Z.to_nat k) (desc_addrs m d) = seqZ (haddr m (d_addr d) + k) (d_len d - k).
Proof.
  intros Hk. unfold desc_addrs. rewrite (seqZ_split _ _ k) by done. rewrite drop_app_ge by (rewrite length_seqZ; lia).
  by rewrite length_seqZ, Nat.sub_diag.
Qed.

(** part of one descriptor *)
Lemma copy_desc_part tq d offset l buf pos s :
  hosts s -> desc_ok m d -> 0 <= offset -> 0 <= l -> offset + l <= d_len d -> 0 <= pos -> pos + l <= len buf ->
  copy_desc tq (u64 (d_addr d + offset)) l buf pos s
    = Finished (moved tq (take (Z.to_nat l) (drop (Z.to_nat offset) (desc_addrs m d))) buf pos s).
Proof.
  intros [Hm _] [Hd Hb] Ho Hl Hol Hp Hlen. rewrite drop_desc_addrs, (seqZ_split _ (d_len d - offset) l) by lia.
  rewrite take_app_length' by (rewrite length_seqZ; lia). pose proof Hb as (H0 & H1 & _).
  destruct (Z.eq_dec l 0) as [->|].
  - rewrite seqZ_nil by lia. rewrite copy_desc_spec; [by rewrite seqZ_nil by lia| |lia..].
    split_and!; [apply uN_range; lia| |lia]. pose proof (uN_range 64 (d_addr d + offset) ltac:(lia)). unfold in_u in *. lia.
  - rewrite uN_small by (unfold in_u; lia). rewrite copy_desc_spec by (try (rewrite Hm; by eapply ram_block_part; eauto with lia); lia).
    rewrite Hm, (ram_block_haddr _ _ (d_len d)) by (done || lia). done.
Qed.

Lemma moved_keeps tq as_ buf pos s :
  hosts s -> (tq = true -> forall x, x ∈ as_ -> ~ T x) ->
  let s' := (moved tq as_ buf pos s).2 in
  hosts s' /\ forall x, T x -> hm_byte (vmem s').2 x = hm_byte (vmem s).2 x.
Proof.
  intros [Hm Ht] Hd s'. split; [split; unfold s'; [by rewrite mem_map_moved|by rewrite vdev_moved]|].
  intros x Hx. unfold s', moved. destruct tq; [|done]. apply scatter_outside. intros Hin. by apply (Hd eq_refl x).
Qed.

Lemma chain_slice d ds offset : desc_ok m d -> 0 <= offset <= d_len d ->
  drop (Z.to_nat offset) (chain_addrs m (d :: ds)) = drop (Z.to_nat offset) (desc_addrs m d) ++ chain_addrs m ds
  /\ length (drop (Z.to_nat offset) (desc_addrs m d)) = Z.to_nat (d_len d - offset).
Proof.
  intros Hok Ho. pose proof (len_desc_addrs m d Hok) as Hl. unfold len in Hl.
  split; [|rewrite length_drop; lia]. cbn [chain_addrs map concat]. apply drop_app_le. lia.
Qed.

Lemma copy_chain_spec tq fuel idx d ds rest offset count buf pos s :
  hosts s -> chain (vmem s).2 idx (d :: ds ++ rest) -> side tq (d :: ds) -> ends_side tq rest ->
  0 <= offset <= d_len d -> 0 < count < 2 ^ 31 -> 0 <= pos -> pos + count <= len buf ->
  (tq = true -> forall x, x ∈ chain_addrs m (d :: ds) -> ~ T x) -> (length ds < fuel)%nat ->
  let A := drop (Z.to_nat offset) (chain_addrs m (d :: ds)) in
  let r := moved tq (take (Z.to_nat count) A) buf pos s in
  copy_chain fuel tq (if tq then VRING_DESC_F_WRITE else 0) q (entry_bytes (vmem s).2 idx) offset count buf pos s
    = Finished (if count <=? len A then 0 else -1, r.1, r.2).
Proof.
  revert idx d ds offset count buf pos s. induction fuel as [|fuel IH];
    intros idx d ds offset count buf pos s Hs Hc Hd He Ho Hcnt Hp Hlen HT Hf A r; [lia|].
  cbn [copy_chain]. fold (entry (vmem s).2 idx). destruct (chain_entry _ _ _ _ Hc) as [<- _].
  apply Forall_cons in Hd as [[_ Hok] Hd]. pose proof Hok as [Hdl _].
  rewrite (sN_small 32 (d_len d - offset)) by (unfold in_s; lia).
  rewrite (sN_small 32 (d_len d)) by (unfold in_s; lia).
  set (l := min_int count (d_len d - offset)).
  assert (l = Z.min count (d_len d - offset)) as Hl by (unfold l, min_int; destruct (Z.ltb_spec count (d_len d - offset)); lia).
  clearbody l. rewrite copy_desc_part by (done || lia). cbn [andThen].
  set (A1 := drop (Z.to_nat offset) (desc_addrs m d)). set (r1 := moved tq (take (Z.to_nat l) A1) buf pos s).
  destruct (chain_slice d ds offset Hok Ho) as [HA HlA]. fold A in HA. fold A1 in HA, HlA.
  rewrite (surjective_pairing r1), bool_decide_true by (unfold in_s; lia). cbn [negb].
  pose proof (len_nonneg (chain_addrs m ds)) as Hn.
  assert (len A = d_len d - offset + len (chain_addrs m ds)) as HlenA by (rewrite HA, len_app; unfold len at 1; lia).
  destruct (Z.eqb_spec (count - l) 0) as [E|E].
  { replace (count <=? len A) with true by lia. unfold r. rewrite HA, take_app_le by lia.
    replace count with l by lia. done. }
  assert (take (Z.to_nat l) A1 = A1) as HtA by (apply take_ge; lia).
  replace (offset + l =? d_len d) with true by lia. fold (has_next d).
  destruct (chain_tail _ _ _ _ Hc) as [[Hnil ->]|(Hne & -> & Hc')]; cbn [negb].
  { apply app_eq_nil in Hnil as [-> ->]. cbn [chain_addrs map concat] in HA, HlenA. change (len []) with 0 in HlenA.
    rewrite app_nil_r in HA. replace (count <=? len A) with false by lia. unfold r, r1.
    by rewrite HA, HtA, take_ge by lia. }
  assert (tq = true -> forall x, x ∈ A1 -> ~ T x) as HT1.
  { intros -> x Hx. apply HT; [done|]. cbn [chain_addrs map concat]. apply elem_of_app. left.
    unfold A1 in Hx. rewrite <- (take_drop (Z.to_nat offset) (desc_addrs m d)). apply elem_of_app. by right. }
  unfold r1 at 1 2. rewrite HtA. fold A1. subst r1. rewrite HtA. set (r1 := moved tq A1 buf pos s).
  assert (len A1 = l) as HlA1 by (unfold len; lia).
  destruct (moved_keeps tq A1 buf pos s Hs HT1) as [Hs1 Hk]. fold r1 in Hs1, Hk.
  assert (chain (vmem r1.2).2 (d_next d) (ds ++ rest)) as Hc1 by (by eapply chain_frame).
  rewrite (get_next_desc r1.2 _ d _ Hs1 Hc1) by apply length_entry_bytes. cbn [andThen].
  fold (entry (vmem r1.2).2 (d_next d)). rewrite write_flag_test.
  destruct ds as [|d2 ds].
  { simpl in Hc1. destruct rest as [|e rest]; [done|]. destruct (chain_entry _ _ _ _ Hc1) as [<- _]. simpl in He.
    apply eqb_false_iff in He as ->. cbn [negb]. cbn [chain_addrs map concat] in HA, HlenA. change (len []) with 0 in HlenA.
    rewrite app_nil_r in HA. replace (count <=? len A) with false by lia. unfold r, r1. by rewrite HA, take_ge by lia. }
  pose proof Hd as Hd'. apply Forall_cons in Hd' as [[Hw [Hd2 _]] _]. destruct (chain_entry _ _ _ _ Hc1) as [<- _].
  rewrite Hw, eqb_reflx. cbn [negb].
  rewrite (IH (d_next d) d2 ds 0 (count - l) r1.1 (pos + l) r1.2); [|done..|lia|lia|lia| | |simpl in Hf; lia].
  - rewrite drop_0. f_equal. replace (count - l <=? len (chain_addrs m (d2 :: ds))) with (count <=? len A) by lia.
    unfold r. rewrite HA, take_app_ge by lia. replace (Z.to_nat count - length A1)%nat with (Z.to_nat (count - l)) by lia.
    rewrite moved_app, HlA1; [done|lia|]. unfold len in *. rewrite length_take. lia.
  - unfold r1. rewrite len_moved by lia. lia.
  - intros Ht x Hx. apply HT; [done|]. cbn [chain_addrs map concat]. apply elem_of_app. by right.
Qed.

(** a request: readable descriptors, then writable ones *)
Record request s (idx : Z) (rs ws : list VIRTIODesc) : Prop := {
  request_hosts : hosts s;
  request_chain : chain (vmem s).2 idx (rs ++ ws);
  request_reads : side false rs;
  request_writes : side true ws
}.

Lemma request_entry s idx rs ws : request s idx rs ws -> entry_ok idx.
Proof. intros [_ Hc _ _]. by inversion Hc. Qed.

Lemma transfer_at tq fuel idx ds rest offset count buf s :
  hosts s -> chain (vmem s).2 idx (ds ++ rest) -> side tq ds -> ends_side tq rest ->
  0 <= offset < 2 ^ 31 -> 0 < count < 2 ^ 31 -> count <= len buf ->
  (tq = true -> forall x, x ∈ chain_addrs m ds -> ~ T x) -> (length ds < fuel)%nat ->
  let A := drop (Z.to_nat offset) (chain_addrs m ds) in
  let r := moved tq (take (Z.to_nat count) A) buf 0 s in
  let f := if tq then VRING_DESC_F_WRITE else 0 in
  (run! at_offset := find_desc_at fuel s q f (entry_bytes (vmem s).2 idx) offset in
   match at_offset with
   | None => Finished (-1, buf, s)
   | Some (b, offset) => copy_chain fuel tq f q b offset count buf 0 s
   end) = Finished (if count <=? len A then 0 else -1, r.1, r.2).
Proof.
  intros Hs Hc Hd He Ho Hcnt Hb HT Hf A r f.
  pose proof (find_desc_at_spec s tq fuel idx ds rest offset Hs Hc Hd He Ho Hf) as H. cbv zeta in H. fold f in H.
  destruct (Z.leb_spec (len (chain_addrs m ds)) offset) as [Hge|Hlt].
  - rewrite H. cbn [andThen]. assert (A = []) as HA by (apply drop_ge; unfold len in *; lia).
    unfold r. rewrite HA, take_nil, moved_nil by lia. change (len []) with 0. by replace (count <=? 0) with false by lia.
  - destruct H as (idx' & pre & d & ds' & o' & E & Hc' & Ho' & Hoff & ->). cbn [andThen].
    assert (chain_addrs m ds = chain_addrs m pre ++ chain_addrs m (d :: ds')) as Hsplit
      by (rewrite E; unfold chain_addrs; by rewrite map_app, concat_app).
    assert (A = drop (Z.to_nat o') (chain_addrs m (d :: ds'))) as HA.
    { unfold A. rewrite Hsplit. unfold len in Hoff. rewrite drop_app_ge by lia. f_equal. lia. }
    unfold f. rewrite (copy_chain_spec tq fuel idx' d ds' rest o' count buf 0 s); try done; try lia.
    + cbv zeta. by rewrite <- HA.
    + rewrite E in Hd. by apply Forall_app in Hd as [_ Hd].
    + intros Ht x Hx. apply HT; [done|]. rewrite Hsplit. apply elem_of_app. by right.
    + rewrite E, length_app in Hf. simpl in Hf. lia.
Qed.

(** the whole transfer *)
Lemma transfer_spec tq fuel idx rs ws offset count buf s :
  request s idx rs ws -> (length rs < fuel)%nat -> (length ws < fuel)%nat ->
  0 <= offset < 2 ^ 31 -> 0 < count < 2 ^ 31 -> count <= len buf ->
  (tq = true -> forall x, x ∈ chain_addrs m ws -> ~ T x) ->
  let A := drop (Z.to_nat offset) (chain_addrs m (if tq then ws else rs)) in
  let r := moved tq (take (Z.to_nat count) A) buf 0 s in
  memcpy_to_from_queue fuel buf q idx offset count tq s = Finished (if count <=? len A then 0 else -1, r.1, r.2).
Proof.
  intros Hr Hf1 Hf2 Ho Hcnt Hb HT A r. pose proof (request_entry _ _ _ _ Hr) as He. destruct Hr as [Hs Hc Hrs Hws].
  unfold memcpy_to_from_queue. replace (count =? 0) with false by lia.
  rewrite (get_desc_spec s None idx) by (done || by left). cbn [andThen].
  destruct tq; cbn [andThen].
  - pose proof (find_write_desc_spec s fuel idx rs ws Hs Hc Hrs Hws Hf1) as Hw. destruct ws as [|w ws].
    + rewrite Hw. cbn [andThen]. unfold r, A. cbn [chain_addrs map concat]. rewrite drop_nil, take_nil, moved_nil by lia.
      change (len []) with 0. by replace (count <=? 0) with false by lia.
    + destruct Hw as (idx' & Hc' & ->). cbn [andThen].
      apply (transfer_at true fuel idx' (w :: ws) []); try done. by rewrite app_nil_r.
  - apply (transfer_at false fuel idx rs ws); try done.
    destruct ws as [|w ws]; [done|]. apply Forall_cons in Hws as [[Hw _] _]. simpl. by rewrite Hw.
Qed.

(** the sizes of the two parts *)
Lemma read_size_spec s fuel idx rs ws acc :
  hosts s -> chain (vmem s).2 idx (rs ++ ws) -> side false rs -> side true ws -> (length rs < fuel)%nat ->
  0 <= acc -> acc + len (chain_addrs m rs) < 2 ^ 31 ->
  match ws with
  | [] => read_size_loop fuel s q (entry_bytes (vmem s).2 idx) acc = Finished (acc + len (chain_addrs m rs), None)
  | _ :: _ => exists idx', chain (vmem s).2 idx' ws
      /\ read_size_loop fuel s q (entry_bytes (vmem s).2 idx) acc
           = Finished (acc + len (chain_addrs m rs), Some (entry_bytes (vmem s).2 idx'))
  end.
Proof.
  intros Hs. revert idx rs acc. induction fuel as [|fuel IH]; intros idx rs acc Hc Hr Hw Hf Ha Hlt; [lia|].
  cbn [read_size_loop]. fold (entry (vmem s).2 idx). fold (device_writes (entry (vmem s).2 idx)).
  destruct rs as [|d rs].
  - simpl in Hc. destruct ws as [|w ws]; [inversion Hc|].
    destruct (chain_entry _ _ _ _ Hc) as [<- _]. apply Forall_cons in Hw as [[-> _] _].
    exists idx. split; [done|]. cbn [chain_addrs map concat]. change (len []) with 0. by rewrite Z.add_0_r.
  - simpl in Hc. destruct (chain_entry _ _ _ _ Hc) as [<- _]. apply Forall_cons in Hr as [[-> Hok] Hr]. pose proof Hok as [Hd _].
    cbn [chain_addrs map concat] in Hlt |- *. fold (chain_addrs m rs) in Hlt |- *.
    rewrite len_app, len_desc_addrs in Hlt |- * by done. pose proof (len_nonneg (chain_addrs m rs)).
    rewrite (sN_small 32) by (unfold in_s; lia). fold (has_next d).
    destruct (chain_tail _ _ _ _ Hc) as [[Hnil ->]|(Hne & -> & Hc')]; cbn [negb].
    + apply app_eq_nil in Hnil as [-> ->]. cbn [chain_addrs map concat]. change (len []) with 0. by rewrite Z.add_0_r.
    + rewrite (get_next_desc s _ d _ Hs Hc') by apply length_entry_bytes. cbn [andThen].
      rewrite Z.add_assoc. apply (IH _ rs); [done|done|done|simpl in Hf; lia|lia|lia].
Qed.

Lemma write_size_spec s fuel idx ws acc :
  hosts s -> chain (vmem s).2 idx ws -> side true ws -> (length ws < fuel)%nat ->
  0 <= acc -> acc + len (chain_addrs m ws) < 2 ^ 31 ->
  write_size_loop fuel s q (entry_bytes (vmem s).2 idx) acc = Finished (Some (acc + len (chain_addrs m ws))).
Proof.
  intros Hs. revert idx ws acc. induction fuel as [|fuel IH]; intros idx ws acc Hc Hw Hf Ha Hlt; [lia|].
  cbn [write_size_loop]. fold (entry (vmem s).2 idx). fold (device_writes (entry (vmem s).2 idx)).
  destruct ws as [|d ws]; [inversion Hc|].
  destruct (chain_entry _ _ _ _ Hc) as [<- _]. apply Forall_cons in Hw as [[-> Hok] Hw]. pose proof Hok as [Hd _].
  cbn [chain_addrs map concat] in Hlt |- *. fold (chain_addrs m ws) in Hlt |- *.
  rewrite len_app, len_desc_addrs in Hlt |- * by done. pose proof (len_nonneg (chain_addrs m ws)).
  cbn [negb]. rewrite (sN_small 32) by (unfold in_s; lia). fold (has_next d).
  destruct (chain_tail _ _ _ _ Hc) as [[-> ->]|(Hne & -> & Hc')]; cbn [negb].
  - cbn [chain_addrs map concat]. change (len []) with 0. by rewrite Z.add_0_r.
  - rewrite (get_next_desc s _ d _ Hs Hc') by apply length_entry_bytes. cbn [andThen].
    rewrite Z.add_assoc. apply (IH _ ws); [done|done|simpl in Hf; lia|lia|lia].
Qed.

Lemma rw_size_spec s fuel idx rs ws :
  request s idx rs ws -> (length rs < fuel)%nat -> (length ws < fuel)%nat ->
  len (chain_addrs m rs) < 2 ^ 31 -> len (chain_addrs m ws) < 2 ^ 31 ->
  get_desc_rw_size fuel s q idx = Finished (Some (len (chain_addrs m rs), len (chain_addrs m ws))).
Proof.
  intros Hr Hf1 Hf2 H1 H2. pose proof (request_entry _ _ _ _ Hr) as He. destruct Hr as [Hs Hc Hrs Hws].
  unfold get_desc_rw_size. rewrite (get_desc_spec s None idx) by (done || by left). cbn [andThen].
  pose proof (read_size_spec s fuel idx rs ws 0 Hs Hc Hrs Hws Hf1 ltac:(lia) ltac:(lia)) as H.
  destruct ws as [|w ws].
  - rewrite H. done.
  - destruct H as (idx' & Hc' & ->). cbn [andThen].
    by rewrite (write_size_spec s fuel idx' (w :: ws) 0) by (done || lia).
Qed.

End Chain.

(** ** Properties *)

(** C15: the transfer functions are a scatter and gather over the bytes a request
    names: reading [count] bytes at an offset copies that slice of the readable
    descriptors' bytes to the buffer, writing stores the buffer in that slice of
    the writable ones, and nothing else changes; the result is 0, or -1 when the
    descriptors end first, what they hold having been transferred.  The sizes
    reported for the request are those of the two parts. *)
Theorem queue_transfer_refines {X} m table T q (s : VState X) fuel idx rs ws offset count buf :
  request m table T q s idx rs ws -> (length rs < fuel)%nat -> (length ws < fuel)%nat ->
  0 <= offset < 2 ^ 31 -> 0 < count < 2 ^ 31 -> count = len buf ->
  len (chain_addrs m rs) < 2 ^ 31 -> len (chain_addrs m ws) < 2 ^ 31 ->
  (forall x, x ∈ chain_addrs m ws -> ~ T x) ->
  let slice ds := take (Z.to_nat count) (drop (Z.to_nat offset) (chain_addrs m ds)) in
  let result ds := if offset + count <=? len (chain_addrs m ds) then 0 else -1 in
  memcpy_from_queue fuel s buf q idx offset count
    = Finished (result rs, gather (slice rs) (vmem s).2 ++ drop (length (slice rs)) buf)
  /\ memcpy_to_queue fuel q idx offset buf count s
    = Finished (result ws, with_heap (scatter (slice ws) buf (vmem s).2) s)
  /\ get_desc_rw_size fuel s q idx = Finished (Some (len (chain_addrs m rs), len (chain_addrs m ws))).
Proof.
  intros Hr Hf1 Hf2 Ho Hc Hb H1 H2 HT slice result.
  assert (forall ds, (if count <=? len (drop (Z.to_nat offset) (chain_addrs m ds)) then 0 else -1) = result ds) as Hres.
  { intros ds. unfold result, len. rewrite length_drop.
    destruct (Z.leb_spec count (Z.of_nat (length (chain_addrs m ds) - Z.to_nat offset))),
      (Z.leb_spec (offset + count) (Z.of_nat (length (chain_addrs m ds)))); lia. }
  split_and!.
  - unfold memcpy_from_queue. rewrite (transfer_spec m table T q false fuel idx rs ws) by (done || lia).
    cbn [andThen moved fst snd]. cbv zeta. rewrite Hres, Z.add_0_l, <- len_length. done.
  - unfold memcpy_to_queue. rewrite (transfer_spec m table T q true fuel idx rs ws) by (done || lia).
    cbn [andThen moved fst snd]. cbv zeta. rewrite Hres. change (drop (Z.to_nat 0) buf) with buf. fold (slice ws).
    rewrite scatter_take; [done|]. unfold slice, len in *. rewrite length_take. lia.
  - by apply rw_size_spec with (m := m) (table := table) (T := T).
Qed.

(** ** An example *)

(** 32 KiB of RAM at 0x1000 *)
Definition example_map : PhysMemoryMap := [mkRange 0x1000 0x8000 0x8000 true 0 0x100000 0 None [] 0 0 0].

Lemma example_haddr a : 0x1000 <= a < 0x9000 -> haddr example_map a = a + 0xff000.
Proof.
  intros Ha. unfold haddr, get_ram_ptr, get_phys_mem_range, example_map. cbn [fst length find_range lookup list_lookup].
  unfold in_range. cbn [pr_addr pr_size pr_is_ram pr_phys_mem]. change (u64 (0x1000 + 0x8000)) with 0x9000.
  replace ((0x1000 <=? a) && (a <? 0x9000)) with true by lia. cbn [pr_addr pr_size pr_is_ram pr_phys_mem].
  rewrite uN_small by (unfold in_u; lia). lia.
Qed.

Lemma example_block a n : 0x1000 <= a -> 0 <= n -> a + n <= 0x9000 -> ram_block example_map a n.
Proof.
  intros Ha Hn Hl. split_and!; [lia|lia|]. intros i Hi. destruct (Z.eq_dec n 0); [lia|].
  rewrite !example_haddr by lia. lia.
Qed.

(** a descriptor as the guest stores it *)
Definition put_desc (d : VIRTIODesc) : list Z :=
  put_le64 (d_addr d) ++ put_le32 (d_len d) ++ put_le16 (d_flags d) ++ put_le16 (d_next d).

(** the descriptors of a request to write a sector and of one to read it *)
Definition write_descs : list VIRTIODesc * list VIRTIODesc :=
  ([mkDesc 0x4000 528 VRING_DESC_F_NEXT 1], [mkDesc 0x5000 1 VRING_DESC_F_WRITE 0]).
Definition read_descs : list VIRTIODesc * list VIRTIODesc :=
  ([mkDesc 0x6000 16 VRING_DESC_F_NEXT 3], [mkDesc 0x7000 513 VRING_DESC_F_WRITE 0]).

(** the table at 0x1000, the available ring at 0x2000 with the two requests, the
    used ring at 0x3000, the headers for sector 1 and some data *)
Definition example_heap : HostMem :=
  hm_copy 0x100000 (concat (map put_desc (write_descs.1 ++ write_descs.2 ++ read_descs.1 ++ read_descs.2)))
    (hm_copy 0x101000 [0; 0; 2; 0; 0; 0; 2; 0]
    (hm_copy 0x103000 [1; 0; 0; 0; 0; 0; 0; 0; 1; 0; 0; 0; 0; 0; 0; 0; 0x68; 0x69]
    (hm_copy 0x105000 [0; 0; 0; 0; 0; 0; 0; 0; 1] ∅))).

Definition example_table (x : Z) : Prop := 0x100000 <= x < 0x100040.
Definition example_queue : QueueState := mkQueue 1 16 0 0x1000 0x2000 0x3000 false.
Definition example_state {X} (dev : VIRTIODevice) (x : X) : VState X :=
  mkV (set_queue (<[0%nat := example_queue]> (queue dev)) dev) (example_map, example_heap) 0 x.

Lemma example_entry idx : 0 <= idx < 4 -> entry_ok example_map 0x1000 example_table idx.
Proof.
  intros Hi. unfold entry_ok, entry_addr, sizeof_VIRTIODesc. rewrite uN_small by (unfold in_u; lia). split.
  - apply example_block; lia.
  - intros x. rewrite example_haddr, elem_of_seqZ by lia. unfold example_table. lia.
Qed.

Lemma example_requests {X} id size (x : X) : 0 <= size ->
  let s := example_state (virtio_dev_init id size) x in
  request example_map 0x1000 example_table 0 s 0 write_descs.1 write_descs.2
  /\ request example_map 0x1000 example_table 0 s 2 read_descs.1 read_descs.2.
Proof.
  intros Hs s. assert (forall idx d, 0 <= idx < 4 -> entry example_map 0x1000 example_heap idx = d -> has_next d = false ->
    chain example_map 0x1000 example_table example_heap idx [d]) as Hlast.
  { intros idx d Hi <- Hn. apply chain_last; [by apply example_entry|done]. }
  assert (forall idx d ds, 0 <= idx < 4 -> entry example_map 0x1000 example_heap idx = d -> has_next d = true ->
    chain example_map 0x1000 example_table example_heap (d_next d) ds ->
    chain example_map 0x1000 example_table example_heap idx (d :: ds)) as Hmore.
  { intros idx d ds Hi <- Hn Hc. apply chain_more; [by apply example_entry|done|done]. }
  split; split; try done.
  all: try (apply Hmore; [lia|by vm_compute|by vm_compute|]; apply Hlast; [simpl; lia|by vm_compute|by vm_compute]).
  all: apply Forall_singleton; split; [by vm_compute|]; split; [simpl; lia|]; apply example_block; simpl; lia.
Qed.

Lemma queue_transfer_refines_witness :
  let s := example_state (virtio_dev_init 2 8) tt in
  memcpy_from_queue 2 s [0; 0] 0 0 16 2 = Finished (0, [0x68; 0x69]).
Proof.
  intros s. assert (len (chain_addrs example_map write_descs.1) = 528 /\ len (chain_addrs example_map write_descs.2) = 1)
    as [H1 H2] by (by vm_compute).
  assert (forall x, x ∈ chain_addrs example_map write_descs.2 -> ~ example_table x) as HT.
  { intros x. unfold chain_addrs, desc_addrs, write_descs. cbn [map concat snd d_addr d_len].
    rewrite app_nil_r, example_haddr, elem_of_seqZ by lia. unfold example_table. lia. }
  assert (request example_map 0x1000 example_table 0 s 0 write_descs.1 write_descs.2) as Hr.
  { apply (example_requests 2 8 tt). lia. }
  assert (length write_descs.1 < 2 /\ length write_descs.2 < 2)%nat as [Hf1 Hf2] by (simpl; lia).
  destruct (queue_transfer_refines _ _ _ _ s 2 0 _ _ 16 2 [0; 0] Hr Hf1 Hf2) as [H _]; [lia|lia|done|lia|lia|done|].
  etransitivity; [exact H|]. vm_compute. reflexivity.
Defined.
