(* ===== verification/VirtioProps.v ===== *)
(** * What the virtio devices guarantee

    The register files keep every field in its type and the interrupt line at
    the state of the interrupt register, whatever the driver writes and whatever
    the device type does, as long as its callbacks respect the interface. *)

From S2P Require Import Prelude Cutils IoMem IoMemProps Fdt FdtProps VirtMachine Virtio VirtioBlock VirtioDevs VirtioQueue TlbProps.

(** ** Well-formed devices *)

Record wf_queue (q : QueueState) : Prop := {
  wq_ready : in_u 1 (ready q);
  wq_num : exists k, 0 <= k < 32 /\ num q = 2 ^ k;
  wq_last : in_u 16 (last_avail_idx q);
  wq_desc : in_u 64 (desc_addr q);
  wq_avail : in_u 64 (avail_addr q);
  wq_used : in_u 64 (used_addr q)
}.

Record wf_dev (d : VIRTIODevice) : Prop := {
  wd_int : in_u 2 (int_status d);
  wd_status : in_u 32 (status d);
  wd_sel : in_u 32 (device_features_sel d);
  wd_queue_sel : 0 <= queue_sel d < MAX_QUEUE;
  wd_queues : length (queue d) = Z.to_nat MAX_QUEUE;
  wd_queue : Forall wf_queue (queue d);
  wd_id : in_u 32 (device_id d);
  wd_vendor : in_u 32 (vendor_id d);
  wd_features : in_u 32 (device_features d);
  wd_size : 4 <= config_space_size d <= MAX_CONFIG_SPACE_SIZE;
  wd_config : length (config_space d) = Z.to_nat MAX_CONFIG_SPACE_SIZE;
  wd_bytes : Forall (in_u 8) (config_space d)
}.

(** the line is up exactly when an interrupt is pending *)
Definition line_ok {X} (s : VState X) : Prop := virq s = b2z (negb (int_status (vdev s) =? 0)).
Definition wf_virtio {X} (s : VState X) : Prop := wf_dev (vdev s) /\ line_ok s.

(** a request's handler keeps the device well formed and the rings' registers *)
Definition handled {X} (s s' : VState X) : Prop := wf_virtio s' /\ queue (vdev s') = queue (vdev s).

(** what the callbacks of a device type promise *)
Class WfVirtioOps (X : Type) {ops : VirtioOps X} : Prop := {
  recv_wf fuel q idx r w s ret s' : wf_virtio s -> 0 <= q < MAX_QUEUE ->
    device_recv fuel q idx r w s = Finished (ret, s') -> handled s s';
  config_write_wf s s' : wf_virtio s -> config_write s = Finished s' -> wf_virtio s'
}.

Create HintDb virtio.

Lemma wf_set_int_status v d : in_u 2 v -> wf_dev d -> wf_dev (set_int_status v d).
Proof. intros Hv []. by split. Qed.
Lemma wf_set_status v d : in_u 32 v -> wf_dev d -> wf_dev (set_status v d).
Proof. intros Hv []. by split. Qed.
Lemma wf_set_features_sel v d : in_u 32 v -> wf_dev d -> wf_dev (set_device_features_sel v d).
Proof. intros Hv []. by split. Qed.
Lemma wf_set_queue_sel v d : 0 <= v < MAX_QUEUE -> wf_dev d -> wf_dev (set_queue_sel v d).
Proof. intros Hv []. by split. Qed.
Lemma wf_set_device_features v d : in_u 32 v -> wf_dev d -> wf_dev (set_device_features v d).
Proof. intros Hv []. by split. Qed.

Lemma wf_upd_queue i f d : (forall q, wf_queue q -> wf_queue (f q)) -> wf_dev d -> wf_dev (upd_queue i f d).
Proof.
  intros Hf []. split; try done; cbn [queue upd_queue set_queue].
  - by rewrite length_alter.
  - apply Forall_alter; [done|]. intros q _ Hq. by apply Hf.
Qed.

Lemma wf_get_queue d i : wf_dev d -> 0 <= i < MAX_QUEUE -> wf_queue (get_queue d i).
Proof.
  intros Hd Hi. unfold get_queue. destruct (lookup_lt_is_Some_2 (queue d) (Z.to_nat i)) as [q Hq].
  { rewrite (wd_queues d Hd). unfold MAX_QUEUE in *. lia. }
  rewrite Hq. simpl. exact (proj1 (Forall_lookup _ _) (wd_queue d Hd) _ _ Hq).
Qed.

Lemma wf_config_put off bytes d :
  Forall (in_u 8) bytes -> 0 <= off -> off + len bytes <= MAX_CONFIG_SPACE_SIZE -> wf_dev d -> wf_dev (config_put off bytes d).
Proof.
  intros Hb Ho Hl []. split; try done; cbn [config_space config_put set_config_space].
  - rewrite !length_app, length_take, length_drop. unfold len in *. lia.
  - apply Forall_app; split; [by apply Forall_take|]. apply Forall_app; split; [done|by apply Forall_drop].
Qed.

Lemma wf_virtio_reset d : wf_dev d -> wf_dev (virtio_reset d).
Proof.
  intros []. unfold virtio_reset. split; try done; cbn [queue set_queue set_int_status set_device_features_sel set_queue_sel set_status].
  - by rewrite length_map.
  - apply Forall_fmap. eapply Forall_impl; [done|]. intros q []. split; try done. cbn [reset_queue num]. by exists 4.
Qed.

(** ** Transfers change the heap only *)

Definition heap_only {X} (s s' : VState X) : Prop := exists h, s' = with_heap h s.

Lemma heap_only_refl {X} (s : VState X) : heap_only s s.
Proof. exists (vmem s).2. by rewrite with_heap_same. Qed.
Lemma heap_only_trans {X} (s1 s2 s3 : VState X) : heap_only s1 s2 -> heap_only s2 s3 -> heap_only s1 s3.
Proof. intros [h ->] [h' ->]. by exists h'. Qed.
#[export] Hint Resolve heap_only_refl : virtio.

Lemma wf_heap_only {X} (s s' : VState X) : heap_only s s' -> wf_virtio s -> wf_virtio s'.
Proof. intros [h ->] Hs. done. Qed.

Lemma memcpy_to_heap {X} n a buf pos count (s s' : VState X) r :
  memcpy_to_pages n a buf pos count s = Finished (r, s') -> heap_only s s'.
Proof.
  revert a pos count s. induction n as [|n IH]; intros a pos count s; cbn [memcpy_to_pages].
  { intros [= <- <-]. apply heap_only_refl. }
  destruct (0 <? count); [|intros [= <- <-]; apply heap_only_refl].
  destruct (_ =? 0); [intros [= <- <-]; apply heap_only_refl|].
  destruct (buf_slice _ _ _); cbn [andThen]; [|done..]. intros H.
  eapply heap_only_trans; [|by eapply IH]. by eexists.
Qed.

Lemma copy_desc_heap {X} tq a l buf pos (s s' : VState X) buf' :
  copy_desc tq a l buf pos s = Finished (buf', s') -> heap_only s s'.
Proof.
  unfold copy_desc. destruct tq.
  - destruct (virtio_memcpy_to_ram _ _ _ _ _) as [[r s1]| |] eqn:E; cbn [andThen]; [|done..].
    intros [= <- <-]. by eapply memcpy_to_heap.
  - destruct (buf_store _ _ _); cbn [andThen]; [|done..]. intros [= <- <-]. apply heap_only_refl.
Qed.

Lemma copy_chain_heap {X} fuel tq f q b offset count buf pos (s s' : VState X) r buf' :
  copy_chain fuel tq f q b offset count buf pos s = Finished (r, buf', s') -> heap_only s s'.
Proof.
  revert b offset count buf pos s. induction fuel as [|fuel IH]; intros b offset count buf pos s; cbn [copy_chain]; [done|].
  destruct (copy_desc _ _ _ _ _ _) as [[buf1 s1]| |] eqn:E; cbn [andThen]; [|done..].
  apply copy_desc_heap in E. intros H. eapply heap_only_trans; [done|]. revert H.
  repeat (case_match; try done); try (intros [= <- <- <-]; apply heap_only_refl); try (by apply IH).
  destruct (get_desc _ _ _ _); cbn [andThen]; [|done..].
  case_match; [intros [= <- <- <-]; apply heap_only_refl|by apply IH].
Qed.

Lemma transfer_heap {X} fuel buf q idx offset count tq (s s' : VState X) r buf' :
  memcpy_to_from_queue fuel buf q idx offset count tq s = Finished (r, buf', s') -> heap_only s s'.
Proof.
  unfold memcpy_to_from_queue. destruct (count =? 0); [intros [= <- <- <-]; apply heap_only_refl|].
  destruct (get_desc _ _ _ _) as [b| |]; cbn [andThen]; [|done..].
  destruct (if tq then _ else _) as [[b1|]| |]; cbn [andThen]; [|intros [= <- <- <-]; apply heap_only_refl|done..].
  destruct (find_desc_at _ _ _ _ _ _) as [[[b2 o]|]| |]; cbn [andThen]; [|intros [= <- <- <-]; apply heap_only_refl|done..].
  apply copy_chain_heap.
Qed.

Lemma memcpy_to_queue_heap {X} fuel q idx offset buf count (s s' : VState X) r :
  memcpy_to_queue fuel q idx offset buf count s = Finished (r, s') -> heap_only s s'.
Proof.
  unfold memcpy_to_queue. destruct (memcpy_to_from_queue _ _ _ _ _ _ _ _) as [[[r1 b1] s1]| |] eqn:E; cbn [andThen]; [|done..].
  intros [= <- <-]. by eapply transfer_heap.
Qed.

Lemma virtio_write16_heap {X} a v (s : VState X) : heap_only s (virtio_write16 a v s).
Proof. unfold virtio_write16. repeat case_match; try apply heap_only_refl. by eexists. Qed.
Lemma virtio_write32_heap {X} a v (s : VState X) : heap_only s (virtio_write32 a v s).
Proof. unfold virtio_write32. repeat case_match; try apply heap_only_refl. by eexists. Qed.

Lemma wf_raise {X} (s : VState X) v :
  in_u 2 v -> v <> 0 -> wf_virtio s ->
  wf_virtio (set_virq 1 (upd_vdev (fun d => set_int_status (int_status d .| v) d) s)).
Proof.
  intros Hv H0 [Hd _]. pose proof (wd_int _ Hd). split.
  - apply wf_set_int_status; [by apply lor_in_u|done].
  - unfold line_ok. cbn. destruct (Z.eqb_spec (int_status (vdev s) .| v) 0) as [E|]; [|done].
    apply Z.lor_eq_0_iff in E as [_ E]. done.
Qed.

Lemma wf_consume {X} q idx l (s : VState X) : wf_virtio s -> wf_virtio (virtio_consume_desc q idx l s).
Proof.
  intros Hs. unfold virtio_consume_desc. cbv zeta. apply (wf_raise _ 1); [by vm_compute|done|].
  eapply wf_heap_only; [|done].
  eapply heap_only_trans; [|apply virtio_write32_heap]. eapply heap_only_trans; [|apply virtio_write32_heap].
  apply virtio_write16_heap.
Qed.

Lemma wf_advance {X} q (s : VState X) : wf_virtio s -> wf_virtio (advance_avail q s).
Proof.
  intros [Hd Hl]. split; [|done]. apply wf_upd_queue; [|done]. intros qs []. split; try done. apply uN_range; lia.
Qed.

Lemma wf_set_vext {X} x (s : VState X) : wf_virtio s -> wf_virtio (set_vext x s).
Proof. done. Qed.
#[export] Hint Resolve wf_consume wf_advance wf_set_vext : virtio.

(** ** Registers *)

Section Wf.
Context {X : Type} {ops : VirtioOps X} {wf_ops : WfVirtioOps X}.
Implicit Types s : VState X.

Lemma wf_notify_loop n fuel q aidx s s' :
  0 <= q < MAX_QUEUE -> wf_virtio s -> notify_loop n fuel q aidx s = Finished s' -> wf_virtio s'.
Proof.
  intros Hq. revert s. induction n as [|n IH]; intros s Hs; cbn [notify_loop]; destruct (_ =? _); try done;
    try (by intros [= <-]).
  destruct (get_desc_rw_size _ _ _ _) as [[[r w]|]| |]; cbn [andThen]; [| |done..].
  - destruct (device_recv _ _ _ _ _ _) as [[ret s1]| |] eqn:E; cbn [andThen fst snd]; [|done..].
    apply recv_wf in E as [E _]; [|done..]. destruct (ret <? 0); [by intros [= <-]|]. apply IH. auto with virtio.
  - apply IH. auto with virtio.
Qed.

Lemma wf_queue_notify fuel q s s' :
  0 <= q < MAX_QUEUE -> wf_virtio s -> queue_notify fuel q s = Finished s' -> wf_virtio s'.
Proof.
  intros Hq Hs. unfold queue_notify. destruct (manual_recv _); [by intros [= <-]|]. by apply wf_notify_loop.
Qed.

Lemma wf_upd_sel f s : (forall q, wf_queue q -> wf_queue (f q)) -> wf_virtio s -> wf_virtio (upd_sel f s).
Proof. intros Hf [Hd Hl]. split; [by apply wf_upd_queue|done]. Qed.

Lemma set_low32_in_u a v : in_u 32 v -> in_u 64 (set_low32 a v).
Proof.
  intros Hv. apply lor_in_u; [lia| |apply (in_u_weaken 32); [lia|done]].
  apply land_in_u_r; [lia|]. apply uN_range; lia.
Qed.

Lemma set_high32_in_u a v : in_u 32 v -> in_u 64 (set_high32 a v).
Proof.
  intros Hv. apply lor_in_u; [lia|apply land_in_u_r; [lia|by vm_compute]|].
  by apply (shiftl_in_u 32); [lia..|].
Qed.

Lemma pow2_test v : in_u 32 v -> (v .& u32 (v - 1)) = 0 -> 0 < v -> exists k, 0 <= k < 32 /\ v = 2 ^ k.
Proof.
  intros Hv Ht H0. exists (Z.log2 v). pose proof (Z.log2_spec v H0) as [Hlo Hhi]. pose proof (Z.log2_nonneg v).
  assert (Z.log2 v < 32) by (apply Z.log2_lt_pow2; unfold in_u in Hv; lia). split; [lia|].
  destruct (Z.eq_dec v (2 ^ Z.log2 v)) as [|Hne]; [done|exfalso].
  rewrite uN_small in Ht by (unfold in_u in *; lia).
  assert (Z.testbit (v .& (v - 1)) (Z.log2 v) = true) as Hb; [|by rewrite Ht, Z.bits_0 in Hb].
  rewrite Z.land_spec, Z.bit_log2 by done. simpl.
  assert (Z.log2 (v - 1) = Z.log2 v) as <- by (apply Z.log2_unique; lia). apply Z.bit_log2. lia.
Qed.

Lemma wf_write_queue_num v s : in_u 32 v -> wf_virtio s -> wf_virtio (write_queue_num v s).
Proof.
  intros Hv Hs. unfold write_queue_num. destruct (_ && _) eqn:E; [|done]. apply andb_true_iff in E as [E1 E2].
  apply wf_upd_sel; [|done]. intros q []. split; try done. cbn [num set_num]. apply pow2_test; [done|lia|lia].
Qed.

Lemma wf_write_status v s : in_u 32 v -> wf_virtio s -> wf_virtio (write_status v s).
Proof.
  intros Hv [Hd Hl]. unfold write_status. cbv zeta. pose proof (wf_set_status v _ Hv Hd) as Hd'.
  destruct (v =? 0); [|by split]. split; [by apply wf_virtio_reset|done].
Qed.

Lemma wf_write_ack v s : wf_virtio s -> wf_virtio (write_interrupt_ack v s).
Proof.
  intros [Hd Hl]. unfold write_interrupt_ack. cbv zeta. pose proof (wd_int _ Hd) as Hi.
  assert (in_u 2 (int_status (vdev s) .& u32 (~~ v))) as Hi' by (apply land_in_u_l; [lia|done]).
  cbn [vdev upd_vdev set_vdev int_status set_int_status].
  destruct (Z.eqb_spec (int_status (vdev s) .& u32 (~~ v)) 0) as [E|E].
  - split; [by apply wf_set_int_status|]. unfold line_ok. cbn. by rewrite E.
  - split; [by apply wf_set_int_status|]. unfold line_ok in *. cbn in *. rewrite Hl.
    destruct (Z.eqb_spec (int_status (vdev s)) 0) as [E0|]; [by rewrite E0, Z.land_0_l in E|].
    apply Z.eqb_neq in E. by rewrite E.
Qed.

Lemma wf_config_write off v sz s s' :
  0 <= off -> in_u 32 v -> wf_virtio s -> virtio_config_write off v sz s = Finished s' -> wf_virtio s'.
Proof.
  intros Ho Hv [Hd Hl]. pose proof (wd_size _ Hd). unfold virtio_config_write, MAX_CONFIG_SPACE_SIZE in *.
  assert (forall bytes, Forall (in_u 8) bytes -> off + len bytes <= 256 ->
    config_write (upd_vdev (config_put off bytes) s) = Finished s' -> wf_virtio s') as Hput.
  { intros bytes Hb Hlen. apply config_write_wf. split; [by apply wf_config_put|done]. }
  assert (Forall (in_u 8) [u8 v]) as H8 by (apply Forall_singleton, uN_range; lia).
  assert (Forall (in_u 8) (put_le16 (u16 v))) as H16 by (repeat (apply Forall_cons; split); try apply uN_range; lia || by apply Forall_nil).
  assert (Forall (in_u 8) (put_le32 v)) as H32 by (repeat (apply Forall_cons; split); try apply uN_range; lia || by apply Forall_nil).
  rewrite (uN_small 32 (config_space_size (vdev s) - 1)), (uN_small 32 (config_space_size (vdev s) - 3)) by (unfold in_u; lia).
  destruct (sz =? 0).
  { destruct (Z.ltb_spec off (config_space_size (vdev s))); [|by intros [= <-]]. apply Hput; [done|]. change (len [u8 v]) with 1. lia. }
  destruct (sz =? 1).
  { destruct (Z.ltb_spec off (config_space_size (vdev s) - 1)); [|by intros [= <-]]. apply Hput; [done|].
    change (len (put_le16 _)) with 2. lia. }
  destruct (sz =? 2); [|by intros [= <-]].
  destruct (Z.ltb_spec off (config_space_size (vdev s) - 3)); [|by intros [= <-]]. apply Hput; [done|].
  change (len (put_le32 _)) with 4. lia.
Qed.

Lemma wf_desc_addr f s : (forall a, in_u 64 (f a)) -> wf_virtio s -> wf_virtio (upd_sel (fun q => set_desc_addr (f (desc_addr q)) q) s).
Proof. intros Hf. apply wf_upd_sel. intros q []. split; try done; apply Hf. Qed.
Lemma wf_avail_addr f s : (forall a, in_u 64 (f a)) -> wf_virtio s -> wf_virtio (upd_sel (fun q => set_avail_addr (f (avail_addr q)) q) s).
Proof. intros Hf. apply wf_upd_sel. intros q []. split; try done; apply Hf. Qed.
Lemma wf_used_addr f s : (forall a, in_u 64 (f a)) -> wf_virtio s -> wf_virtio (upd_sel (fun q => set_used_addr (f (used_addr q)) q) s).
Proof. intros Hf. apply wf_upd_sel. intros q []. split; try done; apply Hf. Qed.
Lemma wf_ready v s : wf_virtio s -> wf_virtio (upd_sel (set_ready (v .& 1)) s).
Proof. apply wf_upd_sel. intros q []. split; try done. cbn [ready set_ready]. apply land_in_u_r; [lia|by vm_compute]. Qed.

Lemma wf_upd_vdev f s :
  (forall d, wf_dev d -> wf_dev (f d) /\ int_status (f d) = int_status d) -> wf_virtio s -> wf_virtio (upd_vdev f s).
Proof. intros Hf [Hd Hl]. destruct (Hf _ Hd) as [Hd' Hi]. split; [done|]. unfold line_ok. cbn. by rewrite Hi. Qed.

Lemma wf_features_sel v s : in_u 32 v -> wf_virtio s -> wf_virtio (upd_vdev (set_device_features_sel v) s).
Proof. intros Hv. apply wf_upd_vdev. intros d Hd. split; [by apply wf_set_features_sel|done]. Qed.

Lemma wf_queue_sel v s : in_u 32 v -> wf_virtio s -> wf_virtio (if v <? MAX_QUEUE then upd_vdev (set_queue_sel v) s else s).
Proof.
  intros Hv Hs. destruct (Z.ltb_spec v MAX_QUEUE); [|done]. revert Hs. apply wf_upd_vdev.
  intros d Hd. split; [|done]. apply wf_set_queue_sel; [|done]. unfold in_u in Hv. lia.
Qed.

#[local] Hint Resolve set_low32_in_u set_high32_in_u wf_features_sel wf_queue_sel wf_write_queue_num wf_write_status
  wf_write_ack wf_ready : virtio.
#[local] Hint Extern 1 (wf_virtio (upd_sel (fun q => set_desc_addr (?f _ ?v) q) _)) =>
  apply (wf_desc_addr (fun a => f a v)) : virtio.
#[local] Hint Extern 1 (wf_virtio (upd_sel (fun q => set_avail_addr (?f _ ?v) q) _)) =>
  apply (wf_avail_addr (fun a => f a v)) : virtio.
#[local] Hint Extern 1 (wf_virtio (upd_sel (fun q => set_used_addr (?f _ ?v) q) _)) =>
  apply (wf_used_addr (fun a => f a v)) : virtio.

Lemma wf_notify fuel v s s' :
  in_u 32 v -> wf_virtio s -> (if v <? MAX_QUEUE then queue_notify fuel v s else Finished s) = Finished s' -> wf_virtio s'.
Proof.
  intros Hv Hs. destruct (Z.ltb_spec v MAX_QUEUE); [|by intros [= <-]]. unfold in_u in Hv. apply wf_queue_notify; [lia|done].
Qed.

Lemma wf_mmio_write fuel off v sz s s' :
  in_u 32 off -> in_u 32 v -> wf_virtio s -> virtio_mmio_write fuel off v sz s = Finished s' -> wf_virtio s'.
Proof.
  intros Ho Hv Hs. unfold virtio_mmio_write. destruct (Z.leb_spec VIRTIO_MMIO_CONFIG off); [apply wf_config_write; [lia|done..]|].
  destruct (sz =? 2); [|by intros [= <-]].
  repeat match goal with |- (if off =? ?c then _ else _) = _ -> _ =>
    destruct (off =? c); [first [by apply wf_notify | intros [= <-]; auto with virtio]|] end.
  by intros [= <-].
Qed.

Lemma wf_pci_cfg_write off v sz s : in_u 32 v -> wf_virtio s -> wf_virtio (pci_cfg_write off v sz s).
Proof.
  intros Hv Hs. unfold pci_cfg_write. destruct (sz =? 2); [|destruct (sz =? 1); [|destruct (sz =? 0); [|done]]].
  all: repeat match goal with |- wf_virtio (if ?o =? ?c then _ else _) => destruct (o =? c); [by auto with virtio|] end; done.
Qed.

Lemma wf_pci_write fuel off v sz s s' :
  in_u 32 off -> in_u 32 v -> wf_virtio s -> virtio_pci_write fuel off v sz s = Finished s' -> wf_virtio s'.
Proof.
  intros Ho Hv Hs. unfold virtio_pci_write. cbv zeta.
  destruct (_ =? _); [intros [= <-]; by apply wf_pci_cfg_write|].
  destruct (_ =? _); [apply wf_config_write; [|done..]; apply Z.land_nonneg; by right|].
  destruct (_ =? _); [by apply wf_notify|by intros [= <-]].
Qed.

Lemma config_read_in_u s off sz v : wf_virtio s -> virtio_config_read s off sz = Finished v -> in_u 32 v.
Proof.
  intros [Hd _]. unfold virtio_config_read. pose proof (wd_bytes _ Hd) as Hb.
  assert (in_u 32 (rd (drop (Z.to_nat off) (config_space (vdev s))) 0)) as Hr.
  { apply (in_u_weaken 8); [lia|]. apply rd_in_u; [lia|]. by apply Forall_drop. }
  repeat case_match; intros [= <-]; try (apply in_u_0; lia); try done.
  - apply (in_u_weaken 16); [lia|]. apply uN_range; lia.
  - apply uN_range; lia.
Qed.

Lemma sel_queue s : wf_virtio s -> wf_queue (get_queue (vdev s) (queue_sel (vdev s))).
Proof. intros [Hd _]. apply wf_get_queue; [done|]. apply (wd_queue_sel _ Hd). Qed.

Lemma features_in_u s : wf_virtio s -> in_u 32 (features_window (vdev s)).
Proof. intros [Hd _]. unfold features_window. repeat case_match; [apply (wd_features _ Hd)|by vm_compute..]. Qed.

Lemma queue_num_in_u q : wf_queue q -> in_u 32 (num q).
Proof. intros Hq. destruct (wq_num q Hq) as (k & Hk & ->). split; [apply Z.pow_nonneg; lia|apply Z.pow_lt_mono_r; lia]. Qed.

Lemma queue_ready_in_u q : wf_queue q -> in_u 32 (ready q).
Proof. intros Hq. apply (in_u_weaken 1); [lia|apply (wq_ready q Hq)]. Qed.

Lemma mmio_read_in_u s off sz v : wf_virtio s -> virtio_mmio_read s off sz = Finished v -> in_u 32 v.
Proof.
  intros Hs. pose proof (sel_queue s Hs) as Hq. pose proof (features_in_u s Hs). pose proof Hs as [Hd _].
  unfold virtio_mmio_read. cbv zeta. destruct (_ <=? _); [by apply config_read_in_u|]. intros [= <-].
  assert (forall x, in_u 32 (u32 x)) by (intros; apply uN_range; lia).
  assert (0 <= queue_sel (vdev s) < 2 ^ 32) by (pose proof (wd_queue_sel _ Hd); unfold MAX_QUEUE in *; lia).
  assert (in_u 32 (int_status (vdev s))) by (apply (in_u_weaken 2); [lia|apply (wd_int _ Hd)]).
  destruct (sz =? 2); [|apply in_u_0; lia]. pose proof (queue_num_in_u _ Hq). pose proof (queue_ready_in_u _ Hq). destruct Hd.
  repeat match goal with |- in_u _ (if off =? ?c then _ else _) => destruct (off =? c); [first [done|by vm_compute|apply in_u_0; lia]|] end.
  apply in_u_0; lia.
Qed.

Lemma pci_read_wf s s' off sz v : wf_virtio s -> virtio_pci_read off sz s = Finished (v, s') -> in_u 32 v /\ wf_virtio s'.
Proof.
  intros Hs. pose proof (sel_queue s Hs) as Hq. pose proof (features_in_u s Hs). pose proof Hs as [Hd _].
  assert (in_u 32 (int_status (vdev s))) by (apply (in_u_weaken 2); [lia|apply (wd_int _ Hd)]).
  unfold virtio_pci_read. cbv zeta. destruct (_ =? _); [|destruct (_ =? _); [|destruct (_ =? _)]].
  - intros [= <- <-]. split; [|done]. unfold pci_cfg_read. cbv zeta.
    assert (forall x, in_u 32 (u32 x)) by (intros; apply uN_range; lia).
    assert (0 <= queue_sel (vdev s) < 2 ^ 32) by (pose proof (wd_queue_sel _ Hd); unfold MAX_QUEUE in *; lia).
    pose proof (queue_num_in_u _ Hq). pose proof (queue_ready_in_u _ Hq). destruct Hd.
    repeat case_match; first [done|by vm_compute|apply in_u_0; lia].
  - destruct (_ && _); intros [= <- <-]; [|split; [apply in_u_0; lia|done]]. split; [done|].
    split; [apply wf_set_int_status; [by vm_compute|done]|done].
  - destruct (virtio_config_read _ _ _) as [x| |] eqn:E; cbn [andThen]; [|done..]. intros [= <- <-].
    split; [by eapply config_read_in_u|done].
  - intros [= <- <-]. split; [apply in_u_0; lia|done].
Qed.

End Wf.

(** ** The four device types *)

Lemma handled_refl {X} (s : VState X) : wf_virtio s -> handled s s.
Proof. done. Qed.
Lemma handled_consume {X} q idx l (s s' : VState X) : handled s s' -> handled s (virtio_consume_desc q idx l s').
Proof.
  intros [Hs Hq]. split; [by apply wf_consume|]. rewrite <- Hq. unfold virtio_consume_desc. cbv zeta. cbn [vdev set_virq upd_vdev set_vdev queue set_int_status].
  assert (forall s1 s2 : VState X, heap_only s1 s2 -> vdev s2 = vdev s1) as H by (by intros s1 s2 [h ->]).
  by rewrite (H _ _ (virtio_write32_heap _ _ _)), (H _ _ (virtio_write32_heap _ _ _)), (H _ _ (virtio_write16_heap _ _ _)).
Qed.
Lemma handled_heap {X} (s s1 s2 : VState X) : heap_only s1 s2 -> handled s s1 -> handled s s2.
Proof. by intros [h ->]. Qed.
Lemma handled_vext {X} x (s s1 : VState X) : handled s s1 -> handled s (set_vext x s1).
Proof. done. Qed.
#[export] Hint Resolve handled_refl handled_consume handled_vext : virtio.

Lemma req_end_handled {B} {alloc : Allocator} {blk : BlockDevice B} fuel ret (s0 s s' : VState (VIRTIOBlockDevice B)) :
  handled s0 s -> virtio_block_req_end fuel ret s = Finished s' -> handled s0 s'.
Proof.
  intros Hs. unfold virtio_block_req_end. destruct (_ =? _); [|destruct (_ =? _); [|done]].
  - destruct (buf_store _ _ _); cbn [andThen]; [|done..].
    destruct (memcpy_to_queue _ _ _ _ _ _ _) as [[r1 s1]| |] eqn:E; cbn [andThen snd]; [|done..]. intros [= <-].
    apply handled_consume. eapply handled_heap; [by eapply memcpy_to_queue_heap|done].
  - destruct (memcpy_to_queue _ _ _ _ _ _ _) as [[r1 s1]| |] eqn:E; cbn [andThen snd]; [|done..]. intros [= <-].
    apply handled_consume. eapply handled_heap; [by eapply memcpy_to_queue_heap|done].
Qed.

Lemma finish_handled {B} {alloc : Allocator} {blk : BlockDevice B} fuel r0 (s0 s : VState (VIRTIOBlockDevice B)) ret s' :
  handled s0 s -> finish_or_wait fuel r0 s = Finished (ret, s') -> handled s0 s'.
Proof.
  intros Hs. unfold finish_or_wait. destruct (0 <? r0); [by intros [= <- <-]|].
  destruct (virtio_block_req_end _ _ _) eqn:E; cbn [andThen]; [|done..]. intros [= <- <-]. by eapply req_end_handled.
Qed.

#[export] Instance block_wf {B} {alloc : Allocator} {blk : BlockDevice B} : WfVirtioOps (VIRTIOBlockDevice B).
Proof.
  split; [|by intros s s' Hs [= <-]]. intros fuel q idx r w s ret s' Hs Hq.
  cbn [device_recv block_ops]. unfold virtio_block_recv_request. destruct (req_in_progress _); [by intros [= <- <-]|].
  destruct (memcpy_from_queue _ _ _ _ _ _ _) as [rh| |]; cbn [andThen]; [|done..].
  destruct (rh.1 <? 0); [by intros [= <- <-]|]. cbv zeta. destruct (_ =? _); [|destruct (_ =? _); [|by intros [= <- <-]]].
  - destruct (w <? 0); [done|]. destruct (read_async _ _ _ _) as [a| |]; cbn [andThen]; [|done..]. by apply finish_handled.
  - destruct (_ || _); [done|]. destruct (memcpy_from_queue _ _ _ _ _ _ _) as [rb| |]; cbn [andThen]; [|done..].
    destruct (write_async _ _ _ _) as [a| |]; cbn [andThen]; [|done..]. by apply finish_handled.
Qed.

#[export] Instance net_wf {E} {alloc : Allocator} {eth : EthernetDevice E} : WfVirtioOps (VIRTIONetDevice E).
Proof.
  split; [|by intros s s' Hs [= <-]]. intros fuel q idx r w s ret s' Hs Hq.
  cbn [device_recv net_ops]. unfold virtio_net_recv_request. destruct (q =? 1); [|by intros [= <- <-]]. cbv zeta.
  destruct (memcpy_from_queue _ _ _ _ _ _ _) as [rh| |]; cbn [andThen]; [|done..].
  destruct (rh.1 <? 0); [by intros [= <- <-]|]. destruct (_ <? 0); [done|].
  destruct (memcpy_from_queue _ _ _ _ _ _ _) as [rb| |]; cbn [andThen]; [|done..]. intros [= <- <-]. auto with virtio.
Qed.

#[export] Instance console_wf {C} {alloc : Allocator} {chr : CharWriter C} : WfVirtioOps (ops := console_ops) C.
Proof.
  split; [|by intros s s' Hs [= <-]]. intros fuel q idx r w s ret s' Hs Hq.
  cbn [device_recv console_ops]. unfold virtio_console_recv_request. destruct (q =? 1); [|by intros [= <- <-]].
  destruct (r <? 0); [done|].
  destruct (memcpy_from_queue _ _ _ _ _ _ _) as [rb| |]; cbn [andThen]; [|done..]. intros [= <- <-]. auto with virtio.
Qed.

(** the replies of the input device fit the configuration space *)
Lemma wf_reply size data (s : VState VIRTIOInputDevice) :
  in_u 8 size -> Forall (in_u 8) data -> len data <= 64 -> wf_virtio s -> wf_virtio (upd_vdev (reply size data) s).
Proof.
  intros Hsz Hd Hl. apply wf_upd_vdev. intros d Hw. split; [|done].
  apply wf_config_put; [done|lia|unfold MAX_CONFIG_SPACE_SIZE; lia|].
  apply wf_config_put; [by apply Forall_singleton|lia| |done]. change (len [size]) with 1. unfold MAX_CONFIG_SPACE_SIZE. lia.
Qed.

Lemma ev_bits_ok type ev :
  in_u 8 (input_ev_bits type ev).1 /\ Forall (in_u 8) (input_ev_bits type ev).2 /\ len (input_ev_bits type ev).2 <= 64.
Proof.
  assert (forall p : Z * list Z, bool_decide (in_u 8 p.1 /\ Forall (in_u 8) p.2 /\ len p.2 <= 64) = true ->
    in_u 8 p.1 /\ Forall (in_u 8) p.2 /\ len p.2 <= 64) as H by (intros p Hp; by apply bool_decide_eq_true in Hp).
  apply H. unfold input_ev_bits. destruct type; repeat case_match; by vm_compute.
Qed.

#[export] Instance input_wf : WfVirtioOps VIRTIOInputDevice.
Proof.
  split.
  - intros fuel q idx r w s ret s' Hs Hq [= <- <-]. destruct (q =? 1); auto with virtio.
  - intros s s' Hs [= <-]. repeat case_match; try done.
    + apply wf_reply; [destruct (input_type _); by vm_compute| |destruct (input_type _); by vm_compute|done].
      destruct (input_type _); apply (bool_decide_unpack _); by vm_compute.
    + match goal with E : input_ev_bits ?t ?e = (?a, ?b) |- _ => pose proof (ev_bits_ok t e) as Hb; rewrite E in Hb end.
      apply wf_reply; naive_solver.
    + apply wf_reply; [by vm_compute|apply (bool_decide_unpack _); by vm_compute|by vm_compute|done].
    + revert Hs. apply wf_upd_vdev. intros d Hw. split; [|done].
      apply wf_config_put; [apply Forall_singleton; by vm_compute|lia| |done]. change (len [0]) with 1. unfold MAX_CONFIG_SPACE_SIZE. lia.
Qed.

Lemma wf_dev_init id size : in_u 32 id -> 4 <= size <= MAX_CONFIG_SPACE_SIZE -> wf_dev (virtio_dev_init id size).
Proof.
  intros Hi Hs. assert (wf_queue (mkQueue 0 16 0 0 0 0 false)) as Hq by (split; try (by vm_compute); by exists 4).
  split; try done; try (by vm_compute).
  - change (Forall wf_queue (replicate 8 (mkQueue 0 16 0 0 0 0 false))). by apply Forall_replicate.
  - change (Forall (in_u 8) (replicate 256 0)). apply Forall_replicate. by vm_compute.
Qed.

(** ** Properties *)

(** C16: whatever a driver reads and writes in a device's MMIO or PCI registers,
    and whatever requests that starts, every register keeps its type (the queue
    selector below 8, queue sizes powers of two), the value read is a 32-bit
    word, and the interrupt line is up exactly while an interrupt is pending. *)
Theorem virtio_access_wf {X} {ops : VirtioOps X} {wf_ops : WfVirtioOps X} fuel off v sz (s : VState X) :
  in_u 32 off -> in_u 32 v -> wf_virtio s ->
  (forall s', virtio_mmio_write fuel off v sz s = Finished s' -> wf_virtio s')
  /\ (forall x, virtio_mmio_read s off sz = Finished x -> in_u 32 x)
  /\ (forall s', virtio_pci_write fuel off v sz s = Finished s' -> wf_virtio s')
  /\ (forall x s', virtio_pci_read off sz s = Finished (x, s') -> in_u 32 x /\ wf_virtio s').
Proof.
  intros Ho Hv Hs. split_and!; intros *; [by apply wf_mmio_write|by apply mmio_read_in_u|by apply wf_pci_write|by apply pci_read_wf].
Qed.

Lemma avail_idx_in_u {X} (s : VState X) q : bytes_ok (vmem s).2 -> in_u 16 (avail_idx s q).
Proof.
  intros Hb. unfold avail_idx, virtio_read16. repeat case_match; [apply in_u_0; lia..|]. by apply (hm_read_in_u 2).
Qed.

Section Notify.
Context {X : Type} {ops : VirtioOps X} {wf_ops : WfVirtioOps X}.
Implicit Types s : VState X.

(** the next available request, handed to the device type *)
Definition serve_one (fuel : nat) (q : Z) s : run (Z * VState X) :=
  run! sizes := get_desc_rw_size fuel s q (avail_entry s q) in
  match sizes with
  | Some (r, w) => device_recv fuel q (avail_entry s q) r w s
  | None => Finished (0, s)
  end.

(** a step of the drain: the request was accepted and the device moves on *)
Inductive served (fuel : nat) (q : Z) s : VState X -> Prop :=
| served_step ret s1 : serve_one fuel q s = Finished (ret, s1) -> 0 <= ret -> served fuel q s (advance_avail q s1).

(** the requests a driver has made available and the device has not taken *)
Definition pending (q aidx : Z) s : Z := (aidx - last_avail_idx (get_queue (vdev s) q)) mod 2 ^ 16.

(** how a drain that served [k] requests and reached [s1] ends *)
Definition drained (fuel : nat) (q aidx : Z) s (k : nat) s1 (r : run (VState X)) : Prop :=
  match r with
  | Finished s' => (s' = s1 /\ Z.of_nat k = pending q aidx s /\ last_avail_idx (get_queue (vdev s1) q) = aidx)
      \/ (Z.of_nat k < pending q aidx s /\ exists ret, serve_one fuel q s1 = Finished (ret, s') /\ ret < 0)
  | Undef => serve_one fuel q s1 = Undef
  | Running => serve_one fuel q s1 = Running
  end.

Lemma last_avail_advance q s :
  wf_virtio s -> 0 <= q < MAX_QUEUE ->
  last_avail_idx (get_queue (vdev (advance_avail q s)) q) = u16 (last_avail_idx (get_queue (vdev s) q) + 1).
Proof.
  intros [Hd _] Hq. unfold advance_avail, get_queue. cbn. rewrite list_lookup_alter, decide_True by done.
  destruct (lookup_lt_is_Some_2 (queue (vdev s)) (Z.to_nat q)) as [qs ->]; [|done].
  rewrite (wd_queues _ Hd). unfold MAX_QUEUE in *. lia.
Qed.

Lemma pending_0 q aidx s : in_u 16 aidx -> in_u 16 (last_avail_idx (get_queue (vdev s) q)) ->
  pending q aidx s = 0 -> last_avail_idx (get_queue (vdev s) q) = aidx.
Proof. unfold pending, in_u. intros Ha Hl E. apply Z.mod_divide in E as [k Hk]; [|lia]. assert (k = 0) by nia. lia. Qed.

Lemma pending_bound q aidx s : 0 <= pending q aidx s < 2 ^ 16.
Proof. apply Z.mod_pos_bound. lia. Qed.

Lemma serve_one_handled fuel q s ret s1 :
  wf_virtio s -> 0 <= q < MAX_QUEUE -> serve_one fuel q s = Finished (ret, s1) -> handled s s1.
Proof.
  intros Hs Hq. unfold serve_one.
  destruct (get_desc_rw_size _ _ _ _) as [[[r w]|]| |]; cbn [andThen]; [by apply recv_wf| |done..].
  intros [= _ <-]. by split.
Qed.

(** an accepted request is one less pending *)
Lemma pending_step q aidx s s1 :
  wf_virtio s -> 0 <= q < MAX_QUEUE -> in_u 16 aidx -> handled s s1 ->
  last_avail_idx (get_queue (vdev s) q) <> aidx -> pending q aidx (advance_avail q s1) = pending q aidx s - 1.
Proof.
  intros Hs Hq Ha [H1 H2] Hne. unfold pending. rewrite last_avail_advance by done.
  assert (get_queue (vdev s1) q = get_queue (vdev s) q) as -> by (unfold get_queue; by rewrite H2).
  unfold uN. rewrite Zminus_mod_idemp_r. pose proof (pending_bound q aidx s) as Hb.
  assert (pending q aidx s <> 0) as Hn.
  { intros E. by apply Hne, pending_0; [|apply wf_get_queue; [apply Hs|]|]. }
  unfold pending in *. set (l := last_avail_idx (get_queue (vdev s) q)) in *.
  replace (aidx - (l + 1)) with ((aidx - l) - 1) by lia. rewrite <- Zminus_mod_idemp_l. apply Z.mod_small. lia.
Qed.

Lemma notify_loop_S n fuel q aidx s :
  notify_loop (S n) fuel q aidx s =
    if last_avail_idx (get_queue (vdev s) q) =? aidx then Finished s
    else run! r := serve_one fuel q s in
      if r.1 <? 0 then Finished r.2 else notify_loop n fuel q aidx (advance_avail q r.2).
Proof.
  cbn [notify_loop]. unfold serve_one.
  destruct (get_desc_rw_size fuel s q (avail_entry s q)) as [[[r w]|]| |]; reflexivity.
Qed.

Lemma drained_served fuel q aidx s s1 k s2 r ret :
  serve_one fuel q s = Finished (ret, s1) -> 0 <= ret -> pending q aidx (advance_avail q s1) = pending q aidx s - 1 ->
  nsteps (served fuel q) k (advance_avail q s1) s2 -> drained fuel q aidx (advance_avail q s1) k s2 r ->
  nsteps (served fuel q) (S k) s s2 /\ drained fuel q aidx s (S k) s2 r.
Proof.
  intros E Hret Hp Hk Hd. split; [by econstructor; [econstructor|]|]. revert Hd. unfold drained. rewrite Hp.
  destruct r; [|done..]. intros [(? & ? & ?)|(? & ?)]; [left|right]; split_and!; by try lia.
Qed.

Lemma notify_loop_drains n fuel q aidx s :
  wf_virtio s -> 0 <= q < MAX_QUEUE -> in_u 16 aidx -> pending q aidx s <= Z.of_nat n ->
  exists k s1, nsteps (served fuel q) k s s1 /\ drained fuel q aidx s k s1 (notify_loop n fuel q aidx s).
Proof.
  intros Hs Hq Ha. revert s Hs. induction n as [|n IH]; intros s Hs Hn; [cbn [notify_loop]|rewrite notify_loop_S];
    pose proof (wq_last _ (wf_get_queue _ q (proj1 Hs) Hq)) as Hlast; pose proof (pending_bound q aidx s) as Hb;
    destruct (Z.eqb_spec (last_avail_idx (get_queue (vdev s) q)) aidx) as [Heq|Hne];
    try (exists 0%nat, s; split; [constructor|left; split_and!; [done| |done]; unfold pending; by rewrite Heq, Z.sub_diag]).
  { exfalso. apply Hne, pending_0; [done|done|]. lia. }
  assert (pending q aidx s <> 0) as Hp by (intros E; by apply Hne, pending_0).
  destruct (serve_one fuel q s) as [[ret s1]| |] eqn:E; cbn [andThen fst snd]; [|by exists 0%nat, s; split; [constructor|]..].
  destruct (Z.ltb_spec ret 0) as [Hr|Hr].
  { exists 0%nat, s. split; [constructor|]. right. split; [lia|]. by exists ret. }
  pose proof (serve_one_handled _ _ _ _ _ Hs Hq E) as Hh. pose proof (pending_step q aidx s s1 Hs Hq Ha Hh Hne) as Hstep.
  destruct (IH (advance_avail q s1)) as (k & s2 & Hk & Hd); [by apply wf_advance, Hh|lia|].
  exists (S k), s2. by eapply drained_served.
Qed.

(** C17: a notification drains the ring.  The device hands the available requests
    in turn to its handler, at most 2^16 times and exactly as often as the two
    indices are apart, and returns with every one of them taken; it ends early
    only at a request the handler refuses, and it fails to return only when the
    walk of a chain, or the handler, does not. *)
Theorem queue_notify_total fuel q s :
  wf_virtio s -> 0 <= q < MAX_QUEUE -> bytes_ok (vmem s).2 -> manual_recv (get_queue (vdev s) q) = false ->
  exists k s1, nsteps (served fuel q) k s s1 /\ drained fuel q (avail_idx s q) s k s1 (queue_notify fuel q s).
Proof.
  intros Hs Hq Hb Hm. assert (queue_notify fuel q s = notify_loop (Z.to_nat 65536) fuel q (avail_idx s q) s) as ->.
  { unfold queue_notify. by rewrite Hm. }
  generalize (eq_refl (Z.to_nat 65536)). generalize (Z.to_nat 65536) at 2 3 as n. intros n Hn.
  apply notify_loop_drains; [done|done|by apply avail_idx_in_u|]. rewrite <- Hn, Z2Nat.id by lia.
  pose proof (pending_bound q (avail_idx s q) s). lia.
Qed.

(** C18: a guest can stop the emulator: when the next available descriptor is
    chained to itself, the notification does not return, however long it runs. *)
Theorem cyclic_chain_hangs m table T q s idx :
  hosts m table q s -> entry_ok m table T idx ->
  has_next (entry m table (vmem s).2 idx) = true -> device_writes (entry m table (vmem s).2 idx) = false ->
  d_next (entry m table (vmem s).2 idx) = idx ->
  manual_recv (get_queue (vdev s) q) = false ->
  last_avail_idx (get_queue (vdev s) q) <> avail_idx s q -> avail_entry s q = idx ->
  forall fuel, queue_notify fuel q s = Running.
Proof.
  intros Hs He Hn Hw Hi Hm Hl Ha fuel.
  assert (get_desc_rw_size fuel s q idx = Running) as Hrun.
  { unfold get_desc_rw_size. rewrite (get_desc_spec m table T q s None idx) by (done || by left). cbn [andThen].
    assert (forall acc, read_size_loop fuel s q (entry_bytes m table (vmem s).2 idx) acc = Running) as H; [|by rewrite H].
    induction fuel as [|fuel IH]; intros acc; [done|]. cbn [read_size_loop].
    fold (entry m table (vmem s).2 idx). fold (device_writes (entry m table (vmem s).2 idx)). rewrite Hw.
    fold (has_next (entry m table (vmem s).2 idx)). rewrite Hn, Hi. cbn [negb].
    rewrite (get_desc_spec m table T q s _ idx); [by apply IH|done..|].
    right. eexists. split; [done|apply length_entry_bytes]. }
  unfold queue_notify. rewrite Hm. change (Z.to_nat 65536) with (S (Z.to_nat 65535)). cbn [notify_loop].
  destruct (Z.eqb_spec (last_avail_idx (get_queue (vdev s) q)) (avail_idx s q)); [done|]. by rewrite Ha, Hrun.
Qed.

End Notify.

(** ** Examples *)

(** an allocator that returns zeroed memory *)
Definition zeroed : Allocator.
Proof. refine {| fresh n := replicate (Z.to_nat n) 0 |}. intros n Hn. unfold len. rewrite length_replicate. lia. Defined.

Lemma example_bytes : bytes_ok example_heap.
Proof. apply (bool_decide_unpack _). vm_compute. exact I. Qed.

(** the block device of the two requests, before a disk of three sectors *)
Definition example_disk (v : Z) : BlockDeviceFile := block_device_init (replicate (Z.to_nat 1536) v) BF_MODE_SNAPSHOT.
Definition blockdev_state (v : Z) : VState (VIRTIOBlockDevice BlockDeviceFile) :=
  example_state (virtio_dev_init 2 8) (mkBlock (example_disk v) false (mkReq 0 [] 0 0 0)).

Lemma example_wf {X} (x : X) : wf_virtio (example_state (virtio_dev_init 2 8) x).
Proof.
  split; [|done]. destruct (wf_dev_init 2 8) as []; [by vm_compute|by unfold MAX_CONFIG_SPACE_SIZE|].
  split; try done.
  - change (Forall wf_queue (<[0%nat := example_queue]> (queue (virtio_dev_init 2 8)))). apply Forall_insert; [done|]. split; try (by vm_compute). by exists 4.
Qed.

Lemma virtio_access_wf_witness :
  let s := blockdev_state 0 in
  wf_virtio s /\ exists s', virtio_mmio_write (ops := @block_ops _ zeroed _) 4 VIRTIO_MMIO_STATUS 15 2 s = Finished s'
    /\ status (vdev s') = 15 /\ wf_virtio s'.
Proof.
  intros s. assert (wf_virtio s) as Hs by apply example_wf. split; [done|].
  destruct (virtio_access_wf (ops := @block_ops _ zeroed _) (wf_ops := @block_wf _ zeroed _) 4 VIRTIO_MMIO_STATUS 15 2 s)
    as [H _]; [by vm_compute|by vm_compute|done|].
  destruct (virtio_mmio_write (ops := @block_ops _ zeroed _) 4 VIRTIO_MMIO_STATUS 15 2 s) as [s'| |] eqn:E;
    [|by vm_compute in E..].
  exists s'. split_and!; [done| |by apply H]. apply (f_equal (fun r => match r with Finished s' => status (vdev s') | _ => 0 end)) in E.
  by vm_compute in E.
Defined.

Lemma queue_notify_total_witness :
  let s := blockdev_state 0 in
  exists k s1, nsteps (served (ops := @block_ops _ zeroed _) 4 0) k s s1
    /\ drained (ops := @block_ops _ zeroed _) 4 0 2 s k s1 (queue_notify (ops := @block_ops _ zeroed _) 4 0 s).
Proof.
  exact (queue_notify_total (ops := @block_ops _ zeroed _) (wf_ops := @block_wf _ zeroed _) 4 0 (blockdev_state 0)
    (example_wf _) (conj (Z.le_refl 0) eq_refl) example_bytes eq_refl).
Defined.

(** a descriptor chained to itself *)
Definition loop_heap : HostMem :=
  hm_copy 0x100000 (put_desc (mkDesc 0x4000 16 VRING_DESC_F_NEXT 0)) (hm_copy 0x101000 [0; 0; 1; 0; 0; 0] ∅).

Lemma cyclic_chain_hangs_witness :
  let s := set_vmem (example_map, loop_heap) (blockdev_state 0) in
  queue_notify (ops := @block_ops _ zeroed _) 100000 0 s = Running.
Proof.
  intros s. apply (cyclic_chain_hangs (ops := @block_ops _ zeroed _) example_map 0x1000 example_table 0 s 0).
  - by split.
  - apply example_entry. lia.
  - by vm_compute.
  - by vm_compute.
  - by vm_compute.
  - by vm_compute.
  - by vm_compute.
  - by vm_compute.
Defined.
