(* ===== verification/VirtioDisk.v ===== *)
(** * The block device as a disk

    A block device that promises to be an array of bytes ([DiskModel]), the
    disk image that keeps the promise in its two writable modes, and what the
    virtio block device makes of it: a request of the guest moves sectors between
    the disk and the guest's buffers, reports success and raises the interrupt. *)

From S2P Require Import Prelude Cutils IoMem IoMemProps TlbProps Fdt FdtProps VirtMachine Virtio VirtioBlock VirtioQueue VirtioProps.

(** [bytes] written over [l] at [off] *)
Definition splice (off : Z) (bytes l : list Z) : list Z :=
  take (Z.to_nat off) l ++ bytes ++ drop (Z.to_nat (off + len bytes)) l.
Definition slice (off n : Z) (l : list Z) : list Z := take (Z.to_nat n) (drop (Z.to_nat off) l).

Lemma len_drop k l : 0 <= k <= len l -> len (drop (Z.to_nat k) l) = len l - k.
Proof. intros. unfold len in *. rewrite length_drop. lia. Qed.

Lemma len_slice off n l : 0 <= off -> 0 <= n -> off + n <= len l -> len (slice off n l) = n.
Proof. intros. unfold slice, len in *. rewrite length_take, length_drop. lia. Qed.

Lemma len_splice off bytes l : 0 <= off -> off + len bytes <= len l -> len (splice off bytes l) = len l.
Proof. intros. unfold splice. rewrite !len_app. unfold len in *. rewrite length_take, length_drop. lia. Qed.

Lemma splice_app off a b l : 0 <= off -> off + len a + len b <= len l ->
  splice off (a ++ b) l = splice (off + len a) b (splice off a l).
Proof.
  intros Ho Hl. pose proof (len_nonneg a). pose proof (len_nonneg b). unfold splice.
  assert (len (take (Z.to_nat off) l ++ a) = off + len a) as Hla.
  { rewrite len_app. unfold len in *. rewrite length_take. lia. }
  rewrite len_app, (app_assoc (take _ l) a (drop _ l)), take_len_app by done.
  rewrite <- !app_assoc. do 3 f_equal. rewrite (app_assoc (take _ l) a).
  unfold len in *. rewrite drop_app_ge by lia. rewrite drop_drop. f_equal. lia.
Qed.

Lemma slice_splice off bytes l : 0 <= off -> off <= len l -> slice off (len bytes) (splice off bytes l) = bytes.
Proof.
  intros Ho Hl. unfold slice, splice. unfold len in *.
  rewrite drop_app_ge by (rewrite length_take; lia). rewrite length_take.
  replace (Z.to_nat off - _)%nat with 0%nat by lia. rewrite drop_0. by apply take_app_length'; lia.
Qed.

Lemma buf_store_splice buf pos bytes : 0 <= pos -> pos + len bytes <= len buf -> buf_store buf pos bytes = Finished (splice pos bytes buf).
Proof.
  intros Hp Hl. unfold buf_store. destruct (Z.eqb_spec (len bytes) 0) as [E|].
  - unfold splice. rewrite E, Z.add_0_r. assert (bytes = []) as -> by (destruct bytes; [done|unfold len in E; simpl in E; lia]).
    simpl. by rewrite take_drop.
  - by replace ((0 <=? pos) && (pos + len bytes <=? len buf)) with true by lia.
Qed.

(** a block device that is an array of bytes *)
Class DiskModel (B : Type) {blk : BlockDevice B} (disk_ok : B -> Prop) (disk : B -> list Z) : Prop := {
  disk_read k n buf b :
    disk_ok b -> 0 <= k -> 0 <= n < 2 ^ 31 -> 512 * (k + n) <= len (disk b) -> 512 * n <= len buf ->
    exists b', read_async k buf n b = Finished (0, splice 0 (slice (512 * k) (512 * n) (disk b)) buf, b')
      /\ disk_ok b' /\ disk b' = disk b;
  disk_write k n buf b :
    disk_ok b -> 0 <= k -> 0 <= n < 2 ^ 31 -> 512 * (k + n) <= len (disk b) -> 512 * n <= len buf ->
    exists b', write_async k buf n b = Finished (0, b')
      /\ disk_ok b' /\ disk b' = splice (512 * k) (slice 0 (512 * n) buf) (disk b)
}.

(** ** The disk image *)

(** a sector of a snapshot: what was written to it, or the file's *)
Definition sector (bf : BlockDeviceFile) (i : nat) (e : option (list Z)) : list Z :=
  default (slice (512 * Z.of_nat i) 512 (bf_f bf)) e.
Definition bf_disk (bf : BlockDeviceFile) : list Z :=
  match bf_mode bf with
  | BF_MODE_SNAPSHOT => concat (imap (sector bf) (sector_table bf))
  | _ => bf_f bf
  end.

Record bf_ok (bf : BlockDeviceFile) : Prop := {
  bf_writable : bf_mode bf <> BF_MODE_RO;
  bf_size : len (bf_f bf) < 2 ^ 63;
  bf_sectors : bf_mode bf = BF_MODE_SNAPSHOT ->
    Z.of_nat (length (sector_table bf)) = nb_sectors bf /\ 512 * nb_sectors bf <= len (bf_f bf)
    /\ Forall (fun e => match e with Some d => len d = 512 | None => True end) (sector_table bf)
}.

Lemma fseek_pos off bf : 0 <= off < 2 ^ 63 -> fseek off bf = mkBf (bf_f bf) off (nb_sectors bf) (bf_mode bf) (sector_table bf).
Proof. intros Ho. unfold fseek. rewrite sN_small by (unfold in_s; lia). by replace (off <? 0) with false by lia. Qed.

Lemma fread_at_spec n buf pos off bf :
  0 <= off < 2 ^ 63 -> 0 <= n -> off + n <= len (bf_f bf) -> 0 <= pos -> pos + n <= len buf ->
  fread_at n buf pos (fseek off bf)
    = Finished (splice pos (slice off n (bf_f bf)) buf, mkBf (bf_f bf) (off + n) (nb_sectors bf) (bf_mode bf) (sector_table bf)).
Proof.
  intros Ho Hn Hl Hp Hb. rewrite fseek_pos by done. unfold fread_at, fread. cbn [bf_pos bf_f nb_sectors bf_mode sector_table].
  fold (slice off n (bf_f bf)). pose proof (len_slice off n (bf_f bf) ltac:(lia) Hn Hl) as Hs.
  rewrite buf_store_splice by (rewrite ?Hs; lia). cbn [andThen]. rewrite Hs, Z.eqb_refl. done.
Qed.

Lemma fwrite_spec bytes off bf :
  0 <= off < 2 ^ 63 -> off + len bytes <= len (bf_f bf) ->
  fwrite bytes (fseek off bf)
    = mkBf (splice off bytes (bf_f bf)) (off + len bytes) (nb_sectors bf) (bf_mode bf) (sector_table bf).
Proof.
  intros Ho Hl. rewrite fseek_pos by done. unfold fwrite, splice. cbn [bf_pos bf_f nb_sectors bf_mode sector_table].
  f_equal. replace (Z.to_nat off - length (bf_f bf))%nat with 0%nat by (unfold len in *; lia). simpl.
  do 3 f_equal. unfold len. lia.
Qed.

(** *** Sectors of the same size *)

Lemma concat_chunks (l : list (list Z)) k :
  Forall (fun c => len c = 512) l -> (k <= length l)%nat ->
  drop (512 * k) (concat l) = concat (drop k l) /\ take (512 * k) (concat l) = concat (take k l).
Proof.
  revert k. induction l as [|c l IH]; intros [|k] Hf Hk; simpl in Hk; try lia; [by rewrite Nat.mul_0_r|by rewrite Nat.mul_0_r|].
  apply Forall_cons in Hf as [Hc Hf]. destruct (IH k Hf) as [I1 I2]; [lia|]. unfold len in Hc. cbn [concat drop take].
  split; [rewrite drop_app_ge by lia|rewrite take_app_ge by lia]; replace (512 * S k - length c)%nat with (512 * k)%nat by lia; congruence.
Qed.

Lemma len_concat (l : list (list Z)) : Forall (fun c => len c = 512) l -> len (concat l) = 512 * Z.of_nat (length l).
Proof.
  induction 1 as [|c l Hc Hl IH]; [done|]. cbn [concat]. rewrite len_app, IH, Hc. simpl length. lia.
Qed.

Lemma sectors_size bf : bf_ok bf -> bf_mode bf = BF_MODE_SNAPSHOT ->
  Forall (fun c => len c = 512) (imap (sector bf) (sector_table bf)).
Proof.
  intros Hok Hm. destruct (bf_sectors bf Hok Hm) as (H1 & H2 & H3). apply Forall_lookup. intros i c Hi.
  rewrite list_lookup_imap in Hi. apply fmap_Some in Hi as (e & He & ->).
  pose proof (proj1 (Forall_lookup _ _) H3 _ _ He) as Hd. apply lookup_lt_Some in He.
  destruct e as [d|]; [done|]. simpl. apply len_slice; lia.
Qed.

Lemma len_disk bf : bf_ok bf -> bf_mode bf = BF_MODE_SNAPSHOT -> len (bf_disk bf) = 512 * nb_sectors bf.
Proof.
  intros Hok Hm. destruct (bf_sectors bf Hok Hm) as (H1 & _). unfold bf_disk. rewrite Hm.
  rewrite len_concat by (by apply sectors_size). rewrite length_imap. lia.
Qed.

Lemma disk_sector bf i e : bf_ok bf -> bf_mode bf = BF_MODE_SNAPSHOT -> sector_table bf !! i = Some e ->
  slice (512 * Z.of_nat i) 512 (bf_disk bf) = sector bf i e.
Proof.
  intros Hok Hm Hi. pose proof (sectors_size bf Hok Hm) as Hs. unfold slice, bf_disk. rewrite Hm.
  pose proof (lookup_lt_Some _ _ _ Hi). replace (Z.to_nat (512 * Z.of_nat i)) with (512 * i)%nat by lia.
  destruct (concat_chunks _ i Hs) as [-> _]; [rewrite length_imap; lia|].
  assert (imap (sector bf) (sector_table bf) !! i = Some (sector bf i e)) as Hl by (by rewrite list_lookup_imap, Hi).
  rewrite (drop_S _ _ _ Hl). cbn [concat]. pose proof (proj1 (Forall_lookup _ _) Hs _ _ Hl) as Hlen.
  apply take_app_length'. unfold len in Hlen. simpl in Hlen. lia.
Qed.

Lemma slice_split off a b l : 0 <= off -> 0 <= a -> 0 <= b -> slice off (a + b) l = slice off a l ++ slice (off + a) b l.
Proof.
  intros Ho Ha Hb. unfold slice. replace (Z.to_nat (off + a)) with (Z.to_nat off + Z.to_nat a)%nat by lia.
  rewrite <- drop_drop. replace (Z.to_nat (a + b)) with (Z.to_nat a + Z.to_nat b)%nat by lia. by rewrite take_take_drop.
Qed.

Definition with_pos (p : Z) (bf : BlockDeviceFile) : BlockDeviceFile :=
  mkBf (bf_f bf) p (nb_sectors bf) (bf_mode bf) (sector_table bf).

Lemma with_pos_ok p bf : bf_ok bf -> bf_ok (with_pos p bf).
Proof. intros []. by split. Qed.

Lemma snapshot_sectors bf k : bf_ok bf -> bf_mode bf = BF_MODE_SNAPSHOT -> 0 <= k < nb_sectors bf ->
  exists e, sector_table bf !! Z.to_nat k = Some e /\ slice (512 * k) 512 (bf_disk bf) = sector bf (Z.to_nat k) e
    /\ 512 * (k + 1) <= len (bf_f bf) < 2 ^ 63.
Proof.
  intros Hok Hm Hk. destruct (bf_sectors bf Hok Hm) as (H1 & H2 & _). pose proof (bf_size bf Hok).
  destruct (lookup_lt_is_Some_2 (sector_table bf) (Z.to_nat k)) as [e He]; [lia|]. exists e. split_and!; [done| |lia|lia].
  rewrite <- (disk_sector bf _ e Hok Hm He). f_equal. lia.
Qed.

Lemma snapshot_read_spec n k buf pos bf :
  bf_ok bf -> bf_mode bf = BF_MODE_SNAPSHOT -> 0 <= k -> k + Z.of_nat n <= nb_sectors bf ->
  0 <= pos -> pos + 512 * Z.of_nat n <= len buf ->
  exists p, snapshot_read n k buf pos bf
    = Finished (splice pos (slice (512 * k) (512 * Z.of_nat n) (bf_disk bf)) buf, with_pos p bf).
Proof.
  revert k buf pos bf. induction n as [|n IH]; intros k buf pos bf Hok Hm Hk Hn Hp Hb.
  - exists (bf_pos bf). change (512 * Z.of_nat 0) with 0. cbn [snapshot_read]. unfold slice, splice. simpl.
    change (len []) with 0. rewrite Z.add_0_r, take_drop. by destruct bf.
  - destruct (snapshot_sectors bf k Hok Hm ltac:(lia)) as (e & He & Hs & Hsz). cbn [snapshot_read]. rewrite He.
    pose proof (len_disk bf Hok Hm) as HlD.
    replace (512 * Z.of_nat (S n)) with (512 + 512 * Z.of_nat n) by lia. rewrite slice_split by lia.
    pose proof (len_slice (512 * k) 512 (bf_disk bf) ltac:(lia) ltac:(lia) ltac:(lia)) as Hl1.
    pose proof (len_slice (512 * k + 512) (512 * Z.of_nat n) (bf_disk bf) ltac:(lia) ltac:(lia) ltac:(lia)) as Hl2.
    rewrite splice_app by lia. rewrite Hl1. rewrite Hs in *.
    rewrite (uN_small 64 (k + 1)) by (unfold in_u; lia). replace (512 * k + 512) with (512 * (k + 1)) by lia.
    destruct e as [d|]; simpl sector in *.
    + rewrite buf_store_splice by lia. cbn [andThen]. unfold SECTOR_SIZE.
      destruct (IH (k + 1) (splice pos d buf) (pos + 512) bf) as [p ->]; [done|done|lia..| |by exists p].
      rewrite len_splice by lia. lia.
    + rewrite uN_small by (unfold in_u, SECTOR_SIZE; lia).
      rewrite (fread_at_spec SECTOR_SIZE buf pos) by (unfold SECTOR_SIZE; lia). cbn [andThen fst snd].
      unfold SECTOR_SIZE. replace (k * 512) with (512 * k) by lia. replace (512 * Z.of_nat (Z.to_nat k)) with (512 * k) in * by lia.
      fold (with_pos (512 * k + 512) bf).
      destruct (IH (k + 1) (splice pos (slice (512 * k) 512 (bf_f bf)) buf) (pos + 512) (with_pos (512 * k + 512) bf)) as [p ->];
        [by apply with_pos_ok|done|lia|cbn; lia|lia| |by exists p].
      rewrite len_splice by lia. lia.
Qed.

Lemma imap_insert {A B} (f : nat -> A -> B) i x l : i < Z.of_nat (length l) -> 0 <= i ->
  imap f (<[Z.to_nat i := x]> l) = <[Z.to_nat i := f (Z.to_nat i) x]> (imap f l).
Proof.
  intros Hi H0. apply list_eq. intros j. rewrite list_lookup_imap, !list_lookup_insert, list_lookup_imap, length_imap.
  destruct (decide _) as [[-> ?]|]; [done|]. done.
Qed.

(** writing one sector *)
Lemma disk_set_sector bf k data :
  bf_ok bf -> bf_mode bf = BF_MODE_SNAPSHOT -> 0 <= k < nb_sectors bf -> len data = 512 ->
  bf_ok (set_sector (Z.to_nat k) data bf)
  /\ bf_disk (set_sector (Z.to_nat k) data bf) = splice (512 * k) data (bf_disk bf).
Proof.
  intros Hok Hm Hk Hd. destruct (bf_sectors bf Hok Hm) as (H1 & H2 & H3). split.
  - destruct Hok. split; [done|done|]. intros _. cbn [set_sector sector_table nb_sectors bf_f].
    split_and!; [by rewrite length_insert|done|]. by apply Forall_insert.
  - pose proof (sectors_size bf Hok Hm) as Hs. unfold bf_disk. cbn [set_sector bf_mode]. rewrite Hm. cbn [set_sector sector_table].
    change (sector (set_sector (Z.to_nat k) data bf)) with (sector bf). rewrite imap_insert by lia.
    rewrite insert_take_drop by (rewrite length_imap; lia). unfold splice. rewrite Hd.
    replace (Z.to_nat (512 * k)) with (512 * Z.to_nat k)%nat by lia.
    replace (Z.to_nat (512 * k + 512)) with (512 * S (Z.to_nat k))%nat by lia.
    destruct (concat_chunks _ (Z.to_nat k) Hs) as [_ ->]; [rewrite length_imap; lia|].
    destruct (concat_chunks _ (S (Z.to_nat k)) Hs) as [-> _]; [rewrite length_imap; lia|].
    rewrite concat_app. done.
Qed.

Lemma snapshot_write_spec n k buf pos bf :
  bf_ok bf -> bf_mode bf = BF_MODE_SNAPSHOT -> 0 <= k -> k + Z.of_nat n <= nb_sectors bf ->
  0 <= pos -> pos + 512 * Z.of_nat n <= len buf ->
  exists bf', snapshot_write n k buf pos bf = Finished bf' /\ bf_ok bf'
    /\ bf_disk bf' = splice (512 * k) (slice pos (512 * Z.of_nat n) buf) (bf_disk bf).
Proof.
  revert k pos bf. induction n as [|n IH]; intros k pos bf Hok Hm Hk Hn Hp Hb.
  - exists bf. split_and!; [done|done|]. change (512 * Z.of_nat 0) with 0. unfold slice, splice. simpl.
    change (len []) with 0. by rewrite Z.add_0_r, take_drop.
  - destruct (snapshot_sectors bf k Hok Hm ltac:(lia)) as (e & He & _ & Hsz). cbn [snapshot_write]. rewrite He.
    unfold buf_slice, SECTOR_SIZE. replace ((0 <=? pos) && (pos + 512 <=? len buf)) with true by lia. cbn [andThen].
    fold (slice pos 512 buf). pose proof (len_slice pos 512 buf Hp ltac:(lia) ltac:(lia)) as Hl1.
    destruct (disk_set_sector bf k (slice pos 512 buf) Hok Hm ltac:(lia) Hl1) as [Hok' HD].
    rewrite uN_small by (unfold in_u; lia).
    destruct (IH (k + 1) (pos + 512) _ Hok') as (bf' & -> & Hok2 & HD2); [done|lia|cbn; lia|lia|lia|].
    exists bf'. split_and!; [done|done|]. rewrite HD2, HD.
    replace (512 * Z.of_nat (S n)) with (512 + 512 * Z.of_nat n) by lia. rewrite slice_split by lia.
    pose proof (len_slice (pos + 512) (512 * Z.of_nat n) buf ltac:(lia) ltac:(lia) ltac:(lia)) as Hl2.
    pose proof (len_disk bf Hok Hm) as HlD. rewrite splice_app by lia. rewrite Hl1. f_equal. lia.
Qed.

#[export] Instance file_disk_model : DiskModel BlockDeviceFile bf_ok bf_disk.
Proof.
  split; intros k n buf b Hok Hk Hn Hl Hb; cbn [read_async write_async file_block_device].
  - unfold bf_read_async. destruct (bf_mode b) eqn:Hm; [by destruct (bf_writable b Hok)| |].
    + unfold bf_disk in *. rewrite Hm in *. pose proof (bf_size b Hok). rewrite !uN_small by (unfold in_u, SECTOR_SIZE; lia).
      unfold SECTOR_SIZE. rewrite fread_at_spec by lia. cbn [andThen fst snd].
      replace (n * 512) with (512 * n) by lia. replace (k * 512) with (512 * k) by lia.
      eexists. split; [done|]. split; [by apply (with_pos_ok (512 * k + 512 * n))|]. cbn. by rewrite Hm.
    + rewrite len_disk in Hl by done.
      destruct (snapshot_read_spec (Z.to_nat n) k buf 0 b) as [p ->]; [done|done|done|lia|lia|lia|]. cbn [andThen fst snd].
      replace (Z.of_nat (Z.to_nat n)) with n by lia. eexists. split; [done|]. split; [by apply with_pos_ok|done].
  - unfold bf_write_async. destruct (bf_mode b) eqn:Hm; [by destruct (bf_writable b Hok)| |].
    + unfold bf_disk in *. rewrite Hm in *. pose proof (bf_size b Hok).
      unfold buf_slice, SECTOR_SIZE. replace (n * 512) with (512 * n) by lia.
      replace ((0 <=? 0) && (0 + 512 * n <=? len buf)) with true by lia. cbn [andThen]. fold (slice 0 (512 * n) buf).
      pose proof (len_slice 0 (512 * n) buf ltac:(lia) ltac:(lia) ltac:(lia)) as Hls.
      rewrite uN_small by (unfold in_u; lia). replace (k * 512) with (512 * k) by lia.
      rewrite fwrite_spec by lia. eexists. split; [done|]. split; [|cbn; by rewrite Hm].
      split; cbn; [by rewrite Hm|rewrite len_splice; lia|by rewrite Hm].
    + rewrite len_disk in Hl by done.
      destruct (Z.ltb_spec (nb_sectors b) (u32 (k + n))) as [Hlt|_].
      { pose proof (Z.mod_le (k + n) (2 ^ 32) ltac:(lia) ltac:(lia)). unfold uN in Hlt. lia. }
      destruct (snapshot_write_spec (Z.to_nat n) k buf 0 b) as (b' & -> & Hok' & HD); [done|done|done|lia|lia|lia|].
      cbn [andThen]. exists b'. split_and!; [done|done|]. rewrite HD. do 2 f_equal. lia.
Qed.

(** ** The used ring *)

(** the used ring is RAM, aligned, and its index is within it *)
Record used_ring {X} (m : PhysMemoryMap) (q : Z) (s : VState X) : Prop := {
  ur_map : (vmem s).1 = m;
  ur_align : used_addr (get_queue (vdev s) q) mod 4 = 0;
  ur_size : exists k, 0 <= k < 16 /\ num (get_queue (vdev s) q) = 2 ^ k;
  ur_block : ram_block m (used_addr (get_queue (vdev s) q)) (4 + 8 * num (get_queue (vdev s) q))
}.

Definition used_index {X} (s : VState X) (q : Z) : Z := virtio_read16 s (u64 (used_addr (get_queue (vdev s) q) + 2)).

(** the host bytes of the ring *)
Definition ring_bytes {X} (m : PhysMemoryMap) (q : Z) (s : VState X) (x : Z) : Prop :=
  let u := haddr m (used_addr (get_queue (vdev s) q)) in u <= x < u + 4 + 8 * num (get_queue (vdev s) q).

Lemma land_low a k : a mod 2 ^ k = 0 -> 0 <= k -> a .& (2 ^ k - 1) = 0.
Proof. intros Ha Hk. by rewrite land_pow2m1. Qed.

Section Consume.
Context {X : Type} (m : PhysMemoryMap) (q : Z) (s : VState X) (Hr : used_ring m q s).

Let U := used_addr (get_queue (vdev s) q).
Let N := num (get_queue (vdev s) q).
Let i := used_index s q.
Definition used_slot (i : Z) : Z := 4 + (i mod N) * 8.

Lemma N_bounds : 1 <= N <= 2 ^ 15 /\ exists k, 0 <= k < 16 /\ N = 2 ^ k.
Proof.
  destruct (ur_size m q s Hr) as (k & Hk & E). fold N in E. split; [|by exists k]. rewrite E.
  pose proof (Z.pow_le_mono_r 2 0 k ltac:(lia) ltac:(lia)). pose proof (Z.pow_le_mono_r 2 k 15 ltac:(lia) ltac:(lia)). lia.
Qed.

Lemma U_bounds : 0 <= U /\ U + (4 + 8 * N) <= 2 ^ 64.
Proof. destruct (ur_block m q s Hr) as (H0 & H1 & _). done. Qed.

Lemma slot_bounds : 4 <= used_slot i /\ used_slot i + 8 <= 4 + 8 * N.
Proof. pose proof N_bounds as [HN _]. pose proof (Z.mod_pos_bound i N ltac:(lia)). unfold used_slot. lia. Qed.

Lemma ring_ptr (s' : VState X) k : (vmem s').1 = m -> 0 <= k < 4 + 8 * N ->
  virtio_mmio_get_ram_ptr s' (U + k) = haddr m U + k /\ haddr m U + k <> 0.
Proof.
  intros Hm Hk. destruct (ur_block m q s Hr) as (_ & _ & H). destruct (H k) as [E1 E2]; [done|].
  rewrite get_ram_ptr_haddr, Hm. rewrite E1 in E2. done.
Qed.

Lemma aligned2 : tst ((U + 2) .& 1) = false.
Proof.
  unfold tst. change 1 with (2 ^ 1 - 1). rewrite land_low; [done| |lia]. pose proof (ur_align m q s Hr) as Ha. fold U in Ha.
  apply Z.mod_divide; [lia|]. apply Z.mod_divide in Ha as [z Hz]; [|lia]. exists (2 * z + 1). lia.
Qed.

Lemma aligned4 k : k mod 4 = 0 -> tst ((U + k) .& 3) = false.
Proof.
  intros Hk. unfold tst. change 3 with (2 ^ 2 - 1). rewrite land_low; [done| |lia]. pose proof (ur_align m q s Hr) as Ha. fold U in Ha.
  apply Z.mod_divide; [lia|]. apply Z.mod_divide in Ha as [z Hz]; [|lia]. apply Z.mod_divide in Hk as [y Hy]; [|lia]. exists (z + y). lia.
Qed.

(** what a consumed descriptor changes *)
Lemma consume_spec d l :
  in_u 16 i ->
  let u := haddr m U in
  let h := hm_write 2 (u + 2) (u16 (i + 1)) (vmem s).2 in
  let h := hm_write 4 (u + used_slot i) (u32 d) h in
  let h := hm_write 4 (u + (used_slot i + 4)) (u32 l) h in
  virtio_consume_desc q d l s
    = set_virq 1 (upd_vdev (fun dv => set_int_status (int_status dv .| 1) dv) (with_heap h s)).
Proof.
  intros Hi u h0 h1 h2. pose proof N_bounds as [HN (k & Hk & EN)]. pose proof U_bounds. pose proof slot_bounds as [Hs1 Hs2].
  pose proof (ur_map m q s Hr) as Hm.
  assert (u64 (U + 2) = U + 2) as E0 by (apply uN_small; unfold in_u; lia).
  assert (virtio_read16 s (U + 2) = i) as Ei by (unfold i, used_index; fold U; by rewrite E0).
  unfold virtio_consume_desc. cbv zeta. fold U. rewrite E0, Ei. unfold virtio_write16 at 1. rewrite aligned2.
  destruct (ring_ptr s 2 Hm) as [E2 N2]; [lia|]. rewrite E2. apply Z.eqb_neq in N2. rewrite !N2.
  assert (i .& u32 (num (get_queue (vdev s) q) - 1) = i mod N) as ->.
  { fold N. rewrite uN_small by (unfold in_u; lia). rewrite EN, land_pow2m1 by lia. done. }
  assert (u32 (i mod N * 8) = i mod N * 8) as ->.
  { apply uN_small. pose proof (Z.mod_pos_bound i N ltac:(lia)). unfold in_u. lia. }
  replace (U + 4 + i mod N * 8) with (U + used_slot i) by (unfold used_slot; lia).
  rewrite (uN_small 64 (U + used_slot i)) by (unfold in_u; lia).
  rewrite (uN_small 64 (U + used_slot i + 4)) by (unfold in_u; lia).
  assert (used_slot i mod 4 = 0 /\ (used_slot i + 4) mod 4 = 0) as [Ha1 Ha2].
  { unfold used_slot. split; apply Z.mod_divide; try lia; [exists (1 + i mod N * 2)|exists (2 + i mod N * 2)]; lia. }
  unfold virtio_write32 at 2. rewrite (aligned4 (used_slot i)) by done.
  set (s1 := set_vmem _ s). destruct (ring_ptr s1 (used_slot i)) as [E3 N3]; [done|lia|]. rewrite E3. apply Z.eqb_neq in N3. rewrite N3.
  set (s2 := set_vmem _ s1). unfold virtio_write32. rewrite <- Z.add_assoc, (aligned4 (used_slot i + 4)) by done.
  destruct (ring_ptr s2 (used_slot i + 4)) as [E4 N4]; [done|lia|]. rewrite E4. apply Z.eqb_neq in N4. rewrite N4.
  done.
Qed.

End Consume.

Lemma hm_write_outside n a v h x : ~ (a <= x < a + Z.of_nat n) -> hm_byte (hm_write n a v h) x = hm_byte h x.
Proof. apply hm_byte_write_out. Qed.

(** the entry is published, the rest of the memory as it was *)
Lemma consume_published {X} m q (s : VState X) d l :
  used_ring m q s -> in_u 16 (used_index s q) ->
  let s' := virtio_consume_desc q d l s in
  let e := haddr m (used_addr (get_queue (vdev s) q)) + used_slot q s (used_index s q) in
  used_index s' q = u16 (used_index s q + 1)
  /\ hm_read 4 e (vmem s').2 = u32 d /\ hm_read 4 (e + 4) (vmem s').2 = u32 l
  /\ (vmem s').1 = m /\ queue (vdev s') = queue (vdev s) /\ vext s' = vext s /\ virq s' = 1
  /\ forall x, ~ ring_bytes m q s x -> hm_byte (vmem s').2 x = hm_byte (vmem s).2 x.
Proof.
  intros Hr Hi s' e. pose proof (slot_bounds m q s Hr) as [Hs1 Hs2]. pose proof (U_bounds m q s Hr) as [HU1 HU2].
  pose proof (ur_map m q s Hr) as Hm. unfold s'. rewrite (consume_spec m q s Hr) by done. cbv zeta.
  set (U := used_addr (get_queue (vdev s) q)) in *. set (i := used_index s q) in *. set (u := haddr m U) in *.
  cbn [vmem set_virq upd_vdev set_vdev with_heap set_vmem fst snd vdev set_int_status queue vext virq].
  split_and!; [|unfold e; rewrite hm_read_write_out, hm_read_write by lia; apply (uN_idem 32); lia
    |unfold e; rewrite <- Z.add_assoc, hm_read_write; apply (uN_idem 32); lia|done..|].
  - unfold used_index, virtio_read16, virtio_mmio_get_ram_ptr.
    cbn [vmem set_virq upd_vdev set_vdev with_heap set_vmem fst snd vdev set_int_status].
    change (get_queue (set_int_status _ _) q) with (get_queue (vdev s) q). fold U.
    rewrite uN_small by (unfold in_u; lia). rewrite (aligned2 m q s Hr : tst ((U + 2) .& 1) = false).
    destruct (ring_ptr m q s Hr s 2 Hm) as [E N]; [lia|]. fold U in E, N. fold u in E, N.
    rewrite get_ram_ptr_haddr, Hm in E. unfold haddr in E. unfold get_ram_ptr in *. cbn [fst] in *. rewrite Hm. rewrite E.
    apply Z.eqb_neq in N. rewrite N. rewrite !hm_read_write_out by lia. rewrite hm_read_write. by apply uN_idem.
  - intros x Hx. unfold ring_bytes in Hx. fold U in Hx. fold u in Hx. rewrite !hm_write_outside by lia. done.
Qed.

(** ** Requests *)

Section Requests.
Context {B : Type} {alloc : Allocator} {blk : BlockDevice B} (disk_ok : B -> Prop) (disk : B -> list Z)
  {model : DiskModel B disk_ok disk} (m : PhysMemoryMap) (table : Z) (T : Z -> Prop) (q : Z).
Implicit Types s : VState (VIRTIOBlockDevice B).

(** the header of a request and the data behind it *)
Definition req_header (h : HostMem) (rs : list VIRTIODesc) : list Z := gather (take 16 (chain_addrs m rs)) h.
Definition req_data (h : HostMem) (rs : list VIRTIODesc) : list Z := gather (drop 16 (chain_addrs m rs)) h.

(** a request for [n] sectors from sector [k] *)
Record sector_request s (fuel : nat) (idx : Z) (rs ws : list VIRTIODesc) (type k n : Z) : Prop := {
  sr_request : request m table T q s idx rs ws;
  sr_fuel : (length rs < fuel)%nat /\ (length ws < fuel)%nat;
  sr_sizes : 16 <= len (chain_addrs m rs) < 2 ^ 31 /\ 1 <= len (chain_addrs m ws) < 2 ^ 31;
  sr_apart : forall x, x ∈ chain_addrs m ws -> ~ T x;
  sr_idle : req_in_progress (vext s) = false;
  sr_disk : disk_ok (bs (vext s));
  sr_type : get_le32 (req_header (vmem s).2 rs) = type;
  sr_sector : get_le64 (drop 8 (req_header (vmem s).2 rs)) = k;
  sr_range : 0 <= n < 2 ^ 31 /\ 512 * (k + n) <= len (disk (bs (vext s)));
}.

Lemma get_le64_nonneg l : 0 <= get_le64 l.
Proof.
  unfold get_le64. apply Z.lor_nonneg. assert (forall l, 0 <= get_le32 l) as H by (intros; apply uN_range; lia).
  split; [apply H|]. apply Z.shiftl_nonneg, H.
Qed.

Lemma request_vext s x idx rs ws : request m table T q s idx rs ws -> request m table T q (set_vext x s) idx rs ws.
Proof. intros []. by split. Qed.

Lemma with_heap_vext h x s : with_heap h (set_vext x s) = set_vext x (with_heap h s).
Proof. done. Qed.

Lemma from_read_queue fuel s idx rs ws buf offset n :
  request m table T q s idx rs ws -> (length rs < fuel)%nat -> (length ws < fuel)%nat ->
  0 <= offset < 2 ^ 31 -> 0 <= n < 2 ^ 31 -> len buf = n -> offset + n <= len (chain_addrs m rs) ->
  memcpy_from_queue fuel s buf q idx offset n
    = Finished (0, gather (slice offset n (chain_addrs m rs)) (vmem s).2).
Proof.
  intros Hr Hf1 Hf2 Ho Hn Hb Hl. unfold memcpy_from_queue. destruct (Z.eq_dec n 0) as [->|].
  { unfold memcpy_to_from_queue. cbn [Z.eqb andThen fst snd]. unfold slice. simpl.
    destruct buf; [done|rewrite len_cons in Hb; pose proof (len_nonneg buf); lia]. }
  rewrite (transfer_spec m table T q false fuel idx rs ws) by (done || lia). cbv zeta. fold (slice offset n (chain_addrs m rs)).
  pose proof (len_slice offset n (chain_addrs m rs) ltac:(lia) ltac:(lia) Hl) as Hs.
  rewrite len_drop by lia. replace (n <=? len (chain_addrs m rs) - offset) with true by lia.
  cbn [andThen moved fst snd]. rewrite Hs, drop_ge by (unfold len in *; lia). by rewrite app_nil_r.
Qed.

Lemma to_write_queue fuel s idx rs ws buf n :
  request m table T q s idx rs ws -> (length rs < fuel)%nat -> (length ws < fuel)%nat ->
  0 < n < 2 ^ 31 -> len buf = n -> n <= len (chain_addrs m ws) -> (forall x, x ∈ chain_addrs m ws -> ~ T x) ->
  memcpy_to_queue fuel q idx 0 buf n s
    = Finished (0, with_heap (scatter (take (Z.to_nat n) (chain_addrs m ws)) buf (vmem s).2) s).
Proof.
  intros Hr Hf1 Hf2 Hn Hb Hl HT. unfold memcpy_to_queue.
  rewrite (transfer_spec m table T q true fuel idx rs ws) by (done || lia). cbv zeta. rewrite drop_0.
  replace (n <=? len (chain_addrs m ws)) with true by lia. cbn [andThen moved fst snd]. rewrite drop_0. rewrite (take_ge buf); [done|].
  rewrite length_take. unfold len in *. lia.
Qed.

(** reading sectors *)
Lemma block_in fuel s idx rs ws k n :
  sector_request s fuel idx rs ws VIRTIO_BLK_T_IN k n -> len (chain_addrs m ws) = 512 * n + 1 ->
  exists x, virtio_block_recv_request fuel q idx (len (chain_addrs m rs)) (len (chain_addrs m ws)) s
      = Finished (0, virtio_consume_desc q idx (len (chain_addrs m ws))
          (with_heap (scatter (chain_addrs m ws) (slice (512 * k) (512 * n) (disk (bs (vext s))) ++ [VIRTIO_BLK_S_OK]) (vmem s).2)
             (set_vext x s)))
    /\ req_in_progress x = false /\ disk_ok (bs x) /\ disk (bs x) = disk (bs (vext s)).
Proof.
  intros [Hr [Hf1 Hf2] [Hs1 Hs2] HT Hidle Hok Htype Hk [Hn Hrange]] Hw. pose proof (get_le64_nonneg (drop 8 (req_header (vmem s).2 rs))) as Hk0.
  unfold virtio_block_recv_request. rewrite Hidle.
  assert (len (fresh 16) = 16) as Hf16 by (by apply fresh_len).
  rewrite (from_read_queue fuel s idx rs ws (fresh 16) 0 16) by (done || lia). cbn [andThen fst snd].
  change (gather (slice 0 16 (chain_addrs m rs)) (vmem s).2) with (req_header (vmem s).2 rs). cbn [Z.ltb Z.compare]. cbv zeta.
  rewrite Htype, Hk. cbn [Z.eqb VIRTIO_BLK_T_IN]. rewrite Hk in Hk0.
  replace (len (chain_addrs m ws) <? 0) with false by lia.
  assert (Z.quot (len (chain_addrs m ws) - 1) SECTOR_SIZE = n) as ->.
  { rewrite Hw. replace (512 * n + 1 - 1) with (n * 512) by lia. by apply Z.quot_mul. }
  set (fr := fresh (len (chain_addrs m ws))). assert (len fr = 512 * n + 1) as Hfr by (unfold fr; rewrite fresh_len; lia).
  cbn [bs vext set_req set_vext].
  destruct (disk_read k n fr (bs (vext s)) Hok Hk0 Hn Hrange ltac:(lia)) as (b' & -> & Hok' & HD). cbn [andThen fst snd].
  set (data := slice (512 * k) (512 * n) (disk (bs (vext s)))).
  assert (len data = 512 * n) as Hdata by (apply len_slice; lia).
  unfold finish_or_wait. cbn [Z.ltb Z.compare]. unfold virtio_block_req_end.
  cbn [vext set_req set_bs set_vext req req_type req_buf req_write_size req_queue_idx req_desc_idx Z.eqb VIRTIO_BLK_T_IN bs req_in_progress].
  change (if 0 <? 0 then VIRTIO_BLK_S_IOERR else VIRTIO_BLK_S_OK) with 0.
  rewrite buf_store_splice by (rewrite ?len_splice, ?Hw; change (len [0]) with 1; lia). cbn [andThen].
  replace (len (chain_addrs m ws) - 1) with (0 + len data) by lia.
  rewrite <- splice_app by (change (len [0]) with 1; lia).
  assert (splice 0 (data ++ [0]) fr = data ++ [0]) as ->.
  { unfold splice. rewrite len_app, Hdata. change (len [0]) with 1. rewrite (drop_ge fr) by (unfold len in *; lia). simpl. by rewrite app_nil_r. }
  match goal with |- context [memcpy_to_queue fuel q idx 0 _ _ ?s1] => pose (x := vext s1); change s1 with (set_vext x s) end.
  rewrite (to_write_queue fuel _ idx rs ws) by (done || lia || (by apply request_vext) || (rewrite len_app, Hdata; change (len [0]) with 1; lia)).
  cbn [andThen snd]. rewrite take_ge by (unfold len; lia).
  exists x. split_and!; [done|done|done|done].
Qed.

(** writing sectors *)
Lemma block_out fuel s idx rs ws k n :
  sector_request s fuel idx rs ws VIRTIO_BLK_T_OUT k n -> len (chain_addrs m rs) = 16 + 512 * n ->
  exists x, virtio_block_recv_request fuel q idx (len (chain_addrs m rs)) (len (chain_addrs m ws)) s
      = Finished (0, virtio_consume_desc q idx 1
          (with_heap (scatter (take 1 (chain_addrs m ws)) [VIRTIO_BLK_S_OK] (vmem s).2) (set_vext x s)))
    /\ req_in_progress x = false /\ disk_ok (bs x)
    /\ disk (bs x) = splice (512 * k) (req_data (vmem s).2 rs) (disk (bs (vext s))).
Proof.
  intros [Hr [Hf1 Hf2] [Hs1 Hs2] HT Hidle Hok Htype Hk [Hn Hrange]] Hl. pose proof (get_le64_nonneg (drop 8 (req_header (vmem s).2 rs))) as Hk0.
  unfold virtio_block_recv_request. rewrite Hidle.
  assert (len (fresh 16) = 16) as Hf16 by (by apply fresh_len).
  rewrite (from_read_queue fuel s idx rs ws (fresh 16) 0 16) by (done || lia). cbn [andThen fst snd].
  change (gather (slice 0 16 (chain_addrs m rs)) (vmem s).2) with (req_header (vmem s).2 rs). cbn [Z.ltb Z.compare]. cbv zeta.
  rewrite Htype, Hk. cbn [Z.eqb VIRTIO_BLK_T_IN VIRTIO_BLK_T_OUT]. rewrite Hk in Hk0.
  assert (s32 (len (chain_addrs m rs) - sizeof_BlockRequestHeader) = 512 * n) as ->.
  { unfold sizeof_BlockRequestHeader. rewrite Hl. replace (16 + 512 * n - 16) with (512 * n) by lia. apply sN_small; [lia|]. unfold in_s. lia. }
  replace ((len (chain_addrs m ws) <? 1) || (512 * n <? 0)) with false by lia.
  assert (len (fresh (512 * n)) = 512 * n) as Hfr by (apply fresh_len; lia). change sizeof_BlockRequestHeader with 16.
  rewrite (from_read_queue fuel (set_req _ s) idx rs ws) by (done || lia || by apply request_vext). cbn [andThen fst snd].
  assert (slice 16 (512 * n) (chain_addrs m rs) = drop 16 (chain_addrs m rs)) as ->.
  { unfold slice. apply take_ge. rewrite length_drop. unfold len in *. lia. }
  change (gather (drop 16 (chain_addrs m rs)) (vmem (set_req _ s)).2) with (req_data (vmem s).2 rs).
  assert (len (req_data (vmem s).2 rs) = 512 * n) as Hdata.
  { unfold req_data. rewrite len_gather. change 16%nat with (Z.to_nat 16). rewrite len_drop; lia. }
  change SECTOR_SIZE with 512. rewrite (Z.mul_comm 512 n), Z.quot_mul by lia. cbn [bs vext set_req set_vext].
  destruct (disk_write k n (req_data (vmem s).2 rs) (bs (vext s)) Hok Hk0 Hn Hrange ltac:(lia)) as (b' & -> & Hok' & HD). cbn [andThen fst snd].
  assert (slice 0 (512 * n) (req_data (vmem s).2 rs) = req_data (vmem s).2 rs) as Hsl.
  { unfold slice. simpl. apply take_ge. unfold len in Hdata. lia. }
  rewrite Hsl in HD. unfold finish_or_wait. cbn [Z.ltb Z.compare]. unfold virtio_block_req_end.
  cbn [vext set_req set_bs set_vext req req_type req_buf req_write_size req_queue_idx req_desc_idx Z.eqb VIRTIO_BLK_T_IN VIRTIO_BLK_T_OUT bs req_in_progress].
  change (if 0 <? 0 then VIRTIO_BLK_S_IOERR else VIRTIO_BLK_S_OK) with 0.
  match goal with |- context [memcpy_to_queue fuel q idx 0 _ _ ?s1] => pose (x := vext s1); change s1 with (set_vext x s) end.
  rewrite (to_write_queue fuel _ idx rs ws [0] 1) by (done || lia || by apply request_vext). cbn [andThen snd].
  exists x. split_and!; [done|done|done|done].
Qed.

(** what a guest sees of a request that ended *)
Definition completed s s' (idx len_ : Z) : Prop :=
  used_index s' q = u16 (used_index s q + 1)
  /\ hm_read 4 (haddr m (used_addr (get_queue (vdev s) q)) + used_slot q s (used_index s q)) (vmem s').2 = idx
  /\ hm_read 4 (haddr m (used_addr (get_queue (vdev s) q)) + used_slot q s (used_index s q) + 4) (vmem s').2 = len_
  /\ virq s' = 1 /\ req_in_progress (vext s') = false.

Lemma used_index_kept s x as_ bytes :
  used_ring m q s -> (forall a, a ∈ as_ -> ~ ring_bytes m q s a) ->
  used_index (with_heap (scatter as_ bytes (vmem s).2) (set_vext x s)) q = used_index s q.
Proof.
  intros Hr Ha. pose proof (U_bounds m q s Hr) as [HU1 HU2]. pose proof (N_bounds m q s Hr) as [HN _]. pose proof (ur_map m q s Hr) as Hm.
  unfold used_index, virtio_read16, virtio_mmio_get_ram_ptr. cbn [vmem vdev with_heap set_vmem set_vext fst snd].
  set (U := used_addr (get_queue (vdev s) q)) in *. rewrite uN_small by (unfold in_u; lia).
  destruct (ring_ptr m q s Hr s 2 Hm) as [E N]; [lia|]. fold U in E, N. unfold virtio_mmio_get_ram_ptr in E. rewrite E.
  unfold get_ram_ptr in *. cbn [fst] in *. rewrite E. destruct (tst _); [done|]. destruct (_ =? 0); [done|].
  apply hm_read_frame. intros b Hb. apply scatter_outside. intros Hin. apply (Ha b Hin). unfold ring_bytes. fold U. lia.
Qed.

(** the end of a request: the bytes in the guest's buffers, the entry in the ring *)
Lemma completed_effect s idx as_ bytes l x :
  used_ring m q s -> in_u 16 (used_index s q) -> in_u 16 idx -> in_u 32 l ->
  (forall a, a ∈ as_ -> ~ ring_bytes m q s a) -> NoDup as_ -> length as_ = length bytes -> Forall (in_u 8) bytes ->
  req_in_progress x = false ->
  let s' := virtio_consume_desc q idx l (with_heap (scatter as_ bytes (vmem s).2) (set_vext x s)) in
  vext s' = x /\ gather as_ (vmem s').2 = bytes /\ completed s s' idx l
  /\ forall y, y ∉ as_ -> ~ ring_bytes m q s y -> hm_byte (vmem s').2 y = hm_byte (vmem s).2 y.
Proof.
  intros Hu Hi Hidx Hl Hap Hnd Hlen Hb Hx s'. set (s1 := with_heap (scatter as_ bytes (vmem s).2) (set_vext x s)).
  assert (used_index s1 q = used_index s q) as Hsame by (by apply used_index_kept).
  assert (used_ring m q s1) as Hu1 by (by destruct Hu).
  destruct (consume_published m q s1 idx l Hu1) as (P1 & P2 & P3 & P4 & P5 & P6 & P7 & P8); [by rewrite Hsame|].
  rewrite Hsame in P1, P2, P3. fold s' in P1, P2, P3, P4, P5, P6, P7, P8.
  change (ring_bytes m q s1) with (ring_bytes m q s) in P8. change (used_slot q s1) with (used_slot q s) in P2, P3.
  change (get_queue (vdev s1) q) with (get_queue (vdev s) q) in P2, P3.
  split_and!; [done| | |].
  - rewrite <- (gather_scatter as_ bytes (vmem s).2) by done. unfold gather. apply map_ext_in. intros y Hy.
    apply P8, Hap. by apply list_elem_of_In.
  - split_and!; [done|etransitivity; [exact P2|]; apply uN_small, (in_u_weaken 16); [lia|done]|etransitivity; [exact P3|]; by apply uN_small|done|].
    change (req_in_progress (vext (virtio_consume_desc q idx l s1)) = false). by rewrite P6.
  - intros y Hy Hy'. rewrite P8 by done. by apply scatter_outside.
Qed.

Lemma sectors_len s fuel idx rs ws type k n : sector_request s fuel idx rs ws type k n ->
  0 <= k /\ len (slice (512 * k) (512 * n) (disk (bs (vext s)))) = 512 * n.
Proof.
  intros Hreq. destruct (sr_range _ _ _ _ _ _ _ _ Hreq) as [Hn Hrg]. pose proof (get_le64_nonneg (drop 8 (req_header (vmem s).2 rs))) as Hk0.
  rewrite (sr_sector _ _ _ _ _ _ _ _ Hreq) in Hk0. split; [done|]. apply len_slice; lia.
Qed.

(** the effect of reading sectors *)
Lemma block_in_effect fuel s idx rs ws k n :
  sector_request s fuel idx rs ws VIRTIO_BLK_T_IN k n -> used_ring m q s -> in_u 16 (used_index s q) -> in_u 16 idx ->
  NoDup (chain_addrs m ws) -> (forall x, x ∈ chain_addrs m ws -> ~ ring_bytes m q s x) ->
  len (chain_addrs m ws) = 512 * n + 1 -> Forall (in_u 8) (slice (512 * k) (512 * n) (disk (bs (vext s)))) ->
  exists s', virtio_block_recv_request fuel q idx (len (chain_addrs m rs)) (len (chain_addrs m ws)) s = Finished (0, s')
     /\ gather (chain_addrs m ws) (vmem s').2 = slice (512 * k) (512 * n) (disk (bs (vext s))) ++ [VIRTIO_BLK_S_OK]
     /\ disk_ok (bs (vext s')) /\ disk (bs (vext s')) = disk (bs (vext s))
     /\ completed s s' idx (len (chain_addrs m ws))
     /\ forall x, x ∉ chain_addrs m ws -> ~ ring_bytes m q s x -> hm_byte (vmem s').2 x = hm_byte (vmem s).2 x.
Proof.
  intros Hreq Hu Hi Hidx Hnd Hap Hw Hb. destruct (block_in fuel s idx rs ws k n Hreq Hw) as (x & E & Hx & Hok & HD).
  destruct (sectors_len _ _ _ _ _ _ _ _ Hreq) as [_ Hls]. destruct (sr_sizes _ _ _ _ _ _ _ _ Hreq) as [_ Hsz].
  set (sectors := slice (512 * k) (512 * n) (disk (bs (vext s)))) in *.
  destruct (completed_effect s idx (chain_addrs m ws) (sectors ++ [VIRTIO_BLK_S_OK]) (len (chain_addrs m ws)) x) as (D1 & D2 & D3 & D4);
    [done|done|done|unfold in_u; lia|done|done| | |done|].
  - rewrite length_app. unfold len in *. cbn [length]. lia.
  - apply Forall_app; split; [done|]. apply Forall_singleton. by vm_compute.
  - rewrite <- D1 in Hok, HD. eexists. split; [exact E|]. done.
Qed.

(** C13: the virtio block device is a disk.  For a request whose descriptors lie in
    RAM, apart from the descriptor table and the used ring: reading puts the
    sectors and then the status "ok" in the guest's buffers and leaves the disk
    as it was; writing makes the guest's data the sectors of the disk, changes
    nothing else of it and stores the status.  In both cases no other memory
    changes but the used ring, where the request is published with its length,
    and the interrupt line is up. *)
Theorem block_request_refines fuel s idx rs ws type k n :
  sector_request s fuel idx rs ws type k n -> used_ring m q s -> in_u 16 (used_index s q) -> in_u 16 idx ->
  NoDup (chain_addrs m ws) -> (forall x, x ∈ chain_addrs m ws -> ~ ring_bytes m q s x) ->
  let Ar := chain_addrs m rs in
  let Aw := chain_addrs m ws in
  let sectors := slice (512 * k) (512 * n) (disk (bs (vext s))) in
  (type = VIRTIO_BLK_T_IN -> len Aw = 512 * n + 1 -> Forall (in_u 8) sectors ->
   exists s', virtio_block_recv_request fuel q idx (len Ar) (len Aw) s = Finished (0, s')
     /\ gather Aw (vmem s').2 = sectors ++ [VIRTIO_BLK_S_OK]
     /\ disk_ok (bs (vext s')) /\ disk (bs (vext s')) = disk (bs (vext s))
     /\ completed s s' idx (len Aw)
     /\ forall x, x ∉ Aw -> ~ ring_bytes m q s x -> hm_byte (vmem s').2 x = hm_byte (vmem s).2 x)
  /\ (type = VIRTIO_BLK_T_OUT -> len Ar = 16 + 512 * n ->
   exists s', virtio_block_recv_request fuel q idx (len Ar) (len Aw) s = Finished (0, s')
     /\ disk_ok (bs (vext s')) /\ disk (bs (vext s')) = splice (512 * k) (req_data (vmem s).2 rs) (disk (bs (vext s)))
     /\ gather (take 1 Aw) (vmem s').2 = [VIRTIO_BLK_S_OK]
     /\ completed s s' idx 1
     /\ forall x, x ∉ take 1 Aw -> ~ ring_bytes m q s x -> hm_byte (vmem s').2 x = hm_byte (vmem s).2 x).
Proof.
  intros Hreq Hu Hi Hidx Hnd Hap Ar Aw sectors.
  split; [by intros -> Hw Hb; apply block_in_effect|intros -> Hl].
  destruct (sr_sizes _ _ _ _ _ _ _ _ Hreq) as [_ Hsz]. fold Aw in Hsz. unfold len in Hsz.
  destruct (block_out fuel s idx rs ws k n Hreq Hl) as (x & E & Hx & Hok & HD).
  destruct (completed_effect s idx (take 1 Aw) [VIRTIO_BLK_S_OK] 1 x) as (D1 & D2 & D3 & D4); [done|done|done|by vm_compute| | | | |done|].
  - intros a Ha. apply Hap. rewrite <- (take_drop 1 (chain_addrs m ws)). apply elem_of_app. by left.
  - rewrite <- (take_drop 1 (chain_addrs m ws)) in Hnd. by apply NoDup_app in Hnd as [? _].
  - rewrite length_take. cbn [length]. lia.
  - apply Forall_singleton. by vm_compute.
  - rewrite <- D1 in Hok, HD. eexists. split; [exact E|]. done.
Qed.

(** C14: what a guest writes to the disk it reads back: after a request that wrote
    [n] sectors, a request of the same sectors, in whatever memory the guest has
    made of it since, delivers the data the first one held, and the status "ok". *)
Theorem block_write_read fuel s s' idx rs ws k n s2 idx2 rs2 ws2 :
  sector_request s fuel idx rs ws VIRTIO_BLK_T_OUT k n -> len (chain_addrs m rs) = 16 + 512 * n -> bytes_ok (vmem s).2 ->
  virtio_block_recv_request fuel q idx (len (chain_addrs m rs)) (len (chain_addrs m ws)) s = Finished (0, s') ->
  vext s2 = vext s' ->
  sector_request s2 fuel idx2 rs2 ws2 VIRTIO_BLK_T_IN k n -> len (chain_addrs m ws2) = 512 * n + 1 ->
  used_ring m q s2 -> in_u 16 (used_index s2 q) -> in_u 16 idx2 ->
  NoDup (chain_addrs m ws2) -> (forall x, x ∈ chain_addrs m ws2 -> ~ ring_bytes m q s2 x) ->
  exists s3, virtio_block_recv_request fuel q idx2 (len (chain_addrs m rs2)) (len (chain_addrs m ws2)) s2 = Finished (0, s3)
    /\ gather (chain_addrs m ws2) (vmem s3).2 = req_data (vmem s).2 rs ++ [VIRTIO_BLK_S_OK].
Proof.
  intros Hout Hl Hbytes Hrun Hv Hin Hw Hu Hi Hidx Hnd Hap.
  destruct (block_out fuel s idx rs ws k n Hout Hl) as (x & E & Hx & Hok & HD). rewrite E in Hrun.
  assert (vext s' = x) as Hx'.
  { injection Hrun as <-. unfold virtio_consume_desc. cbv zeta. cbn [vext set_virq upd_vdev set_vdev].
    assert (forall s1 s2 : VState (VIRTIOBlockDevice B), heap_only s1 s2 -> vext s2 = vext s1) as H by (by intros ? ? [h ->]).
    by rewrite (H _ _ (virtio_write32_heap _ _ _)), (H _ _ (virtio_write32_heap _ _ _)), (H _ _ (virtio_write16_heap _ _ _)). }
  rewrite Hx' in Hv. rewrite <- Hv in HD.
  destruct (sr_range _ _ _ _ _ _ _ _ Hout) as [Hn Hrg]. destruct (sectors_len _ _ _ _ _ _ _ _ Hout) as [Hk0 _].
  assert (len (req_data (vmem s).2 rs) = 512 * n) as Hdata.
  { unfold req_data. rewrite len_gather. change 16%nat with (Z.to_nat 16). rewrite len_drop; lia. }
  assert (slice (512 * k) (512 * n) (disk (bs (vext s2))) = req_data (vmem s).2 rs) as Hs.
  { rewrite HD. rewrite <- Hdata at 1. apply slice_splice; lia. }
  destruct (block_in_effect fuel s2 idx2 rs2 ws2 k n) as (s3 & E3 & G & _); [done..| |].
  - rewrite Hs. unfold req_data, gather. apply Forall_fmap, Forall_true. intros a. by apply hm_byte_in_u.
  - exists s3. rewrite G, Hs. done.
Qed.

End Requests.

(** ** Examples *)

(** a decidable form of [bf_ok] for a snapshot *)
Definition bf_okb (bf : BlockDeviceFile) : bool :=
  match bf_mode bf with BF_MODE_SNAPSHOT => true | _ => false end
  && (len (bf_f bf) <? 2 ^ 63) && (Z.of_nat (length (sector_table bf)) =? nb_sectors bf)
  && (512 * nb_sectors bf <=? len (bf_f bf))
  && forallb (fun e => match e with Some d => len d =? 512 | None => true end) (sector_table bf).

Lemma bf_okb_ok bf : bf_okb bf = true -> bf_ok bf.
Proof.
  unfold bf_okb. rewrite !andb_true_iff, forallb_forall. intros [[[[Hm H1] H2] H3] H4].
  split; [by destruct (bf_mode bf)|lia|]. intros _. split_and!; [lia|lia|]. apply Forall_forall. intros [d|] Hin; [|done].
  apply list_elem_of_In in Hin. apply H4 in Hin. lia.
Qed.

(** the buffers of the example lie behind the table and the rings *)
Lemma example_apart (P : Z -> Prop) ds :
  forallb (Z.leb 0x103000) (chain_addrs example_map ds) = true -> (forall x, P x -> x < 0x103000) ->
  forall x, x ∈ chain_addrs example_map ds -> ~ P x.
Proof.
  rewrite forallb_forall. intros H HP x Hx Hpx. apply list_elem_of_In in Hx. apply H in Hx. apply HP in Hpx. lia.
Qed.

Lemma example_table_low x : example_table x -> x < 0x103000.
Proof. unfold example_table. lia. Qed.

Lemma example_get_queue {X} (x : X) : get_queue (vdev (example_state (virtio_dev_init 2 8) x)) 0 = example_queue.
Proof. done. Qed.

Lemma example_ring_low {X} (x : X) y : ring_bytes example_map 0 (example_state (virtio_dev_init 2 8) x) y -> y < 0x103000.
Proof.
  unfold ring_bytes. rewrite example_get_queue. cbn [used_addr num example_queue]. rewrite example_haddr by lia. lia.
Qed.

Lemma example_used_ring {X} (x : X) : used_ring example_map 0 (example_state (virtio_dev_init 2 8) x).
Proof.
  split; rewrite ?example_get_queue; [done|done|by exists 4|]. apply example_block; cbn [used_addr num example_queue]; lia.
Qed.

(** the requests of the example: sector 1 is written, then read back *)
Lemma example_sector_write (x : VIRTIOBlockDevice BlockDeviceFile) :
  req_in_progress x = false -> bf_okb (bs x) = true -> (1024 <=? len (bf_disk (bs x))) = true ->
  sector_request bf_ok bf_disk example_map 0x1000 example_table 0 (example_state (virtio_dev_init 2 8) x) 4 0
    write_descs.1 write_descs.2 VIRTIO_BLK_T_OUT 1 1.
Proof.
  intros Hi Hb Hl. assert (len (chain_addrs example_map write_descs.1) = 528 /\ len (chain_addrs example_map write_descs.2) = 1)
    as [H1 H2] by (by vm_compute).
  split; [apply example_requests; lia|simpl; lia|lia| |done|by apply bf_okb_ok|by vm_compute|by vm_compute|].
  - apply (example_apart example_table write_descs.2); [by vm_compute|apply example_table_low].
  - cbn [vext example_state]. lia.
Qed.

Lemma example_sector_read (x : VIRTIOBlockDevice BlockDeviceFile) :
  req_in_progress x = false -> bf_okb (bs x) = true -> (1024 <=? len (bf_disk (bs x))) = true ->
  sector_request bf_ok bf_disk example_map 0x1000 example_table 0 (example_state (virtio_dev_init 2 8) x) 4 2
    read_descs.1 read_descs.2 VIRTIO_BLK_T_IN 1 1.
Proof.
  intros Hi Hb Hl. assert (len (chain_addrs example_map read_descs.1) = 16 /\ len (chain_addrs example_map read_descs.2) = 513)
    as [H1 H2] by (by vm_compute).
  split; [apply example_requests; lia|simpl; lia|lia| |done|by apply bf_okb_ok|by vm_compute|by vm_compute|].
  - apply (example_apart example_table read_descs.2); [by vm_compute|apply example_table_low].
  - cbn [vext example_state]. lia.
Qed.

Lemma example_nodup ds : bool_decide (NoDup (chain_addrs example_map ds)) = true -> NoDup (chain_addrs example_map ds).
Proof. apply bool_decide_eq_true_1. Qed.

Definition block_run (s : VState (VIRTIOBlockDevice BlockDeviceFile)) (idx r w : Z) : VState (VIRTIOBlockDevice BlockDeviceFile) :=
  match virtio_block_recv_request (alloc := zeroed) 4 0 idx r w s with Finished (_, s') => s' | _ => s end.

Lemma block_request_refines_witness :
  exists s', virtio_block_recv_request (alloc := zeroed) 4 0 2 16 513 (blockdev_state 7) = Finished (0, s')
    /\ gather (chain_addrs example_map read_descs.2) (vmem s').2 = replicate 512 7 ++ [VIRTIO_BLK_S_OK]
    /\ virq s' = 1.
Proof.
  destruct (block_request_refines (alloc := zeroed) bf_ok bf_disk example_map 0x1000 example_table 0 4 (blockdev_state 7) 2
    read_descs.1 read_descs.2 VIRTIO_BLK_T_IN 1 1) as [H _].
  - apply example_sector_read; by vm_compute.
  - apply example_used_ring.
  - by vm_compute.
  - by vm_compute.
  - apply example_nodup. by vm_compute.
  - apply (example_apart _ read_descs.2); [by vm_compute|apply example_ring_low].
  - destruct H as (s' & E & G & _ & _ & (_ & _ & _ & V & _) & _); [done|by vm_compute|apply (bool_decide_unpack _); by vm_compute|].
    exists s'. split; [|split; [|exact V]].
    + etransitivity; [|exact E]. by vm_compute.
    + etransitivity; [exact G|]. by vm_compute.
Defined.

Lemma block_write_read_witness :
  let s := blockdev_state 0 in
  let s' := block_run s 0 528 1 in
  let s2 := example_state (virtio_dev_init 2 8) (vext s') in
  exists s3, virtio_block_recv_request (alloc := zeroed) 4 0 2 16 513 s2 = Finished (0, s3)
    /\ take 2 (gather (chain_addrs example_map read_descs.2) (vmem s3).2) = [0x68; 0x69].
Proof.
  intros s s' s2.
  destruct (block_write_read (alloc := zeroed) bf_ok bf_disk example_map 0x1000 example_table 0 4 s s' 0
    write_descs.1 write_descs.2 1 1 s2 2 read_descs.1 read_descs.2) as (s3 & E & G).
  - apply example_sector_write; by vm_compute.
  - by vm_compute.
  - exact example_bytes.
  - vm_compute. reflexivity.
  - vm_compute. reflexivity.
  - apply example_sector_read; by vm_compute.
  - by vm_compute.
  - apply example_used_ring.
  - by vm_compute.
  - by vm_compute.
  - apply example_nodup. by vm_compute.
  - apply (example_apart _ read_descs.2); [by vm_compute|apply example_ring_low].
  - exists s3. split; [etransitivity; [|exact E]; by vm_compute|]. rewrite G. by vm_compute.
Defined.
