(* ===== verification/LiveCache.v ===== *)
(** * The last-level cache model (LiveCacheCore.h, LiveCache.h, LiveCache.cpp)

    With the build option LIVECACHE the hart reports every memory access to a
    [LiveCache], which keeps the tags of a set-associative cache and lists its
    contents, oldest first, to warm up a cache when a checkpoint is restored.

    A [Line *] is an index into [mem], the array of lines; [content] is the array
    of pointers that the replacement reorders.  [None] is a failed assertion, a
    pointer outside an array or [exit].  The power statistics of the interface
    ([readLine], [writeLine], [goodInterface]) and the destructor's report are
    left out. *)

From Stdlib Require Import String Ascii.
From S2P Require Import Prelude.

Definition c_assert (b : bool) : option unit := if b then Some tt else None.

(** ** Powers of two *)

Definition roundUpPower2 (x : Z) : Z :=
  let x := u32 (x - 1) in
  let x := x .| (x >> 1) in
  let x := x .| (x >> 2) in
  let x := x .| (x >> 4) in
  let x := x .| (x >> 8) in
  let x := x .| (x >> 16) in
  u32 (x + 1).

(** [m] doubles until it reaches [n], at most 2^31 *)
Fixpoint log2_loop (fuel : nat) (n m i : Z) : Z :=
  match fuel with
  | O => i
  | S fuel => if m <? n then log2_loop fuel n (u32 (m << 1)) (i + 1) else i
  end.

Definition log2i (n : Z) : option Z :=
  if n =? 1 then Some 0
  else
    let n := roundUpPower2 n in
    _ ← c_assert ((n .& u32 (n - 1)) =? 0);
    Some (log2_loop 32 n 1 0).

(** ** Lines *)

Inductive StateType := StateM | StateE | StateS | StateI.
#[export] Instance StateType_eq_dec : EqDecision StateType.
Proof. solve_decision. Defined.

Record Line := mkLine { tag : Z; state : StateType; st : bool; order : Z }.
#[export] Instance Line_inhabited : Inhabited Line := populate (mkLine 0 StateI false 0).

Definition isValid (l : Line) : bool := bool_decide (state l <> StateI).
Definition invalidate (l : Line) : Line := mkLine (tag l) StateI (st l) (order l).
Definition clearTag (l : Line) : Line := mkLine 0 (state l) (st l) (order l).
Definition set_tag (a : Z) (l : Line) : Line := mkLine a (state l) (st l) (order l).
Definition set_st (b : bool) (l : Line) : Line := mkLine (tag l) (state l) b (order l).
Definition set_order (o : Z) (l : Line) : Line := mkLine (tag l) (state l) (st l) o.

(** the constructor, [initialize] and [invalidate]; [st] and [order] are what the
    allocated memory holds *)
Definition new_line (junk : bool * Z) : Line := invalidate (clearTag (mkLine 0 StateI junk.1 junk.2)).

(** ** The geometry: CacheGeneric *)

Inductive ReplacementPolicy := LRU | LRUp | RANDOM.
#[export] Instance ReplacementPolicy_eq_dec : EqDecision ReplacementPolicy.
Proof. solve_decision. Defined.

Record CacheGeneric := mkGeneric {
  size : Z;
  lineSize : Z;
  assoc : Z;
  log2Assoc : Z;
  log2AddrLs : Z;
  maskAssoc : Z;
  sets : Z;
  maskSets : Z;
  log2Sets : Z;
  numLines : Z;
  xorIndex : bool
}.

Definition cacheGeneric (s a b : Z) (xr : bool) : option CacheGeneric :=
  _ ← c_assert (negb (a =? 0) && negb (b =? 0));
  la ← log2i a;
  lb ← log2i b;
  let sets := (s / b) / a in
  ls ← log2i sets;
  Some (mkGeneric s b a la lb (u32 (a - 1)) sets (u32 (sets - 1)) ls (s / b) xr).

Definition calcTag (g : CacheGeneric) (addr : Z) : Z := addr >> log2AddrLs g.

Definition calcIndex4Tag (g : CacheGeneric) (tag : Z) : Z :=
  let tag := if xorIndex g then tag .^ (tag >> log2Sets g) else tag in
  u64 ((tag .& maskSets g) << log2Assoc g).

Definition calcAddr4Tag (g : CacheGeneric) (tag : Z) : Z := u64 (tag << log2AddrLs g).

(** ** CacheAssoc *)

Record CacheAssoc := mkAssoc {
  geo : CacheGeneric;
  mem : list Line;
  content : list nat;
  irand : Z;
  policy : ReplacementPolicy
}.

Definition set_content (l : list nat) (c : CacheAssoc) : CacheAssoc := mkAssoc (geo c) (mem c) l (irand c) (policy c).
Definition set_irand (i : Z) (c : CacheAssoc) : CacheAssoc := mkAssoc (geo c) (mem c) (content c) i (policy c).
Definition upd_line (p : nat) (f : Line -> Line) (c : CacheAssoc) : CacheAssoc :=
  mkAssoc (geo c) (alter f p (mem c)) (content c) (irand c) (policy c).

(** the name of a policy, in any case *)
Definition lower (a : ascii) : ascii :=
  let n := nat_of_ascii a in if ((65 <=? n) && (n <=? 90))%nat then ascii_of_nat (n + 32) else a.
Fixpoint lowercase (s : string) : string :=
  match s with EmptyString => EmptyString | String a s => String (lower a) (lowercase s) end.
Definition strcasecmp_eq (a b : string) : bool := String.eqb (lowercase a) (lowercase b).
Definition policy_of (pStr : string) : option ReplacementPolicy :=
  if strcasecmp_eq pStr "RANDOM" then Some RANDOM
  else if strcasecmp_eq pStr "LRU" then Some LRU
  else if strcasecmp_eq pStr "LRUp" then Some LRUp
  else None.

Definition cacheAssoc (size assoc blksize : Z) (pStr : string) (xr : bool) (junk : nat -> bool * Z) : option CacheAssoc :=
  g ← cacheGeneric (u32 size) (u32 assoc) (u32 blksize) xr;
  _ ← c_assert (0 <? numLines g);
  _ ← c_assert (assoc <? s32 (numLines g));
  p ← policy_of pStr;
  let all := seq 0 (Z.to_nat (numLines g)) in
  Some (mkAssoc g (map (fun i => new_line (junk i)) all) all 0 p).

(** [( *l)->getTag()] of a [Line **l] into [content] *)
Definition tag_at (c : CacheAssoc) (l : nat) : option Z :=
  p ← content c !! l; x ← mem c !! p; Some (tag x).

(** the first of [n] entries from [l] on with the tag, and the last of the [n]
    from [base] on *)
Fixpoint scan_up (n l : nat) (c : CacheAssoc) (t : Z) : option (option nat) :=
  match n with
  | O => Some None
  | S n => x ← tag_at c l; if x =? t then Some (Some l) else scan_up n (S l) c t
  end.
Fixpoint scan_down (n base : nat) (c : CacheAssoc) (t : Z) : option (option nat) :=
  match n with
  | O => Some None
  | S n => x ← tag_at c (base + n)%nat; if x =? t then Some (Some (base + n)%nat) else scan_down n base c t
  end.

(** the loop that moves the entries between [theSet] and [theSet + n] up by one *)
Fixpoint shift_up (n theSet : nat) (l : list nat) : option (list nat) :=
  match n with
  | O => Some l
  | S n => x ← l !! (theSet + n)%nat; shift_up n theSet (<[S (theSet + n) := x]> l)
  end.

(** entry [pos] goes to the front of the set *)
Definition to_front (theSet pos : nat) (c : CacheAssoc) : option (nat * CacheAssoc) :=
  tmp ← content c !! pos;
  l ← shift_up (pos - theSet) theSet (content c);
  Some (tmp, set_content (<[theSet := tmp]> l) c).

Definition theSet (c : CacheAssoc) (t : Z) : nat := Z.to_nat (calcIndex4Tag (geo c) t).

Definition findLinePrivate (addr : Z) (c : CacheAssoc) : option (option nat * CacheAssoc) :=
  let t := calcTag (geo c) addr in
  let s := theSet c t in
  first ← content c !! s;
  x ← tag_at c s;
  if x =? t then Some (Some first, c)
  else
    hit ← scan_up (Z.to_nat (assoc (geo c)) - 1) (S s) c t;
    match hit with
    | None => Some (None, c)
    | Some pos => r ← to_front s pos c; Some (Some r.1, r.2)
    end.

(** the entry to replace when no line has the tag *)
Definition victim (s : nat) (c : CacheAssoc) : nat * CacheAssoc :=
  match policy c with
  | RANDOM =>
      let i := u16 (irand c + 1) .& maskAssoc (geo c) in
      let i := if i =? 0 then u16 (i + 1) .& maskAssoc (geo c) else i in
      ((s + Z.to_nat (irand c))%nat, set_irand i c)
  | _ => ((s + Z.to_nat (assoc (geo c)) - 1)%nat, c)
  end.

Definition findLine2Replace (addr : Z) (c : CacheAssoc) : option (nat * CacheAssoc) :=
  let t := calcTag (geo c) addr in
  _ ← c_assert (negb (t =? 0));
  let s := theSet c t in
  first ← content c !! s;
  x ← tag_at c s;
  if x =? t then Some (first, c)
  else
    hit ← scan_down (Z.to_nat (assoc (geo c))) s c t;
    _ ← c_assert (bool_decide (is_Some hit) || (0 <? assoc (geo c)));
    let '(pos, c) := match hit with Some pos => (pos, c) | None => victim s c end in
    if negb (bool_decide (is_Some hit)) && (pos =? s)%nat then Some (first, c)
    else
      match policy c with
      | LRUp => tmp ← content c !! pos; Some (tmp, c)
      | _ => to_front s pos c
      end.

Definition getPLine (l : Z) (c : CacheAssoc) : option nat :=
  _ ← c_assert (l <? numLines (geo c)); content c !! Z.to_nat l.

(** ** CacheDM, the direct-mapped cache *)

Record CacheDM := mkDM { dm_geo : CacheGeneric; dm_mem : list Line; dm_content : list nat }.

Definition cacheDM (size blksize : Z) (xr : bool) (junk : nat -> bool * Z) : option CacheDM :=
  g ← cacheGeneric (u32 size) 1 (u32 blksize) xr;
  _ ← c_assert (0 <? numLines g);
  let all := seq 0 (Z.to_nat (numLines g)) in
  Some (mkDM g (map (fun i => new_line (junk i)) all) all).

Definition dm_findLinePrivate (addr : Z) (c : CacheDM) : option (option nat) :=
  let t := calcTag (dm_geo c) addr in
  _ ← c_assert (negb (t =? 0));
  p ← dm_content c !! Z.to_nat (calcIndex4Tag (dm_geo c) t);
  line ← dm_mem c !! p;
  if tag line =? t then _ ← c_assert (isValid line); Some (Some p) else Some None.

Definition dm_findLine2Replace (addr : Z) (c : CacheDM) : option nat :=
  dm_content c !! Z.to_nat (calcIndex4Tag (dm_geo c) (calcTag (dm_geo c) addr)).

(** ** The interface: create and the virtual functions *)

Inductive Cache := Assoc (c : CacheAssoc) | DM (c : CacheDM).

Definition create (size assoc bsize : Z) (pStr : string) (xr : bool) (junk : nat -> bool * Z) : option Cache :=
  if assoc =? 1 then c ← cacheDM size bsize xr junk; Some (DM c)
  else c ← cacheAssoc size assoc bsize pStr xr junk; Some (Assoc c).

Definition cache_geo (c : Cache) : CacheGeneric := match c with Assoc c => geo c | DM c => dm_geo c end.
Definition line (p : nat) (c : Cache) : option Line := match c with Assoc c => mem c !! p | DM c => dm_mem c !! p end.
Definition set_line (p : nat) (f : Line -> Line) (c : Cache) : Cache :=
  match c with
  | Assoc c => Assoc (upd_line p f c)
  | DM c => DM (mkDM (dm_geo c) (alter f p (dm_mem c)) (dm_content c))
  end.
Definition findLine (addr : Z) (c : Cache) : option (option nat * Cache) :=
  match c with
  | Assoc c => r ← findLinePrivate addr c; Some (r.1, Assoc r.2)
  | DM d => r ← dm_findLinePrivate addr d; Some (r, c)
  end.
Definition replaceLine (addr : Z) (c : Cache) : option (nat * Cache) :=
  match c with
  | Assoc c => r ← findLine2Replace addr c; Some (r.1, Assoc r.2)
  | DM d => r ← dm_findLine2Replace addr d; Some (r, c)
  end.
Definition pLine (l : Z) (c : Cache) : option nat :=
  match c with
  | Assoc c => getPLine l c
  | DM c => _ ← c_assert (l <? numLines (dm_geo c)); dm_content c !! Z.to_nat l
  end.

Definition setTag (a : Z) (p : nat) (c : Cache) : option Cache :=
  _ ← c_assert (negb (a =? 0)); Some (set_line p (set_tag a) c).

Definition fillLine (addr : Z) (c : Cache) : option (nat * Cache) :=
  r ← replaceLine addr c;
  c ← setTag (calcTag (cache_geo c) addr) r.1 r.2;
  Some (r.1, c).

(** the variant that reports the address of the line replaced *)
Definition fillLine_rplc (addr : Z) (c : Cache) : option (nat * Z * Cache) :=
  r ← replaceLine addr c;
  l ← line r.1 r.2;
  let newTag := calcTag (cache_geo c) addr in
  let rplcAddr := if isValid l && negb (tag l =? newTag) then calcAddr4Tag (cache_geo c) (tag l) else 0 in
  c ← setTag newTag r.1 r.2;
  Some (r.1, rplcAddr, c).

(** ** Merge sort *)

Section MergeSort.
Context {A : Type} {inh : Inhabited A} (key : A -> Z).

Fixpoint merge_loop (i : nat) (arr1 arr2 : list A) (m n : nat) : list A :=
  match i with
  | O => []
  | S i =>
      if (length arr2 <=? n)%nat || ((m <? length arr1)%nat && (key (arr1 !!! m) <=? key (arr2 !!! n)))
      then arr1 !!! m :: merge_loop i arr1 arr2 (S m) n
      else arr2 !!! n :: merge_loop i arr1 arr2 m (S n)
  end.

(** the recursion halves the array: its length is fuel enough *)
Fixpoint merge_sort (fuel : nat) (arr : list A) : list A :=
  match fuel with
  | O => arr
  | S fuel =>
      match arr with
      | [] | [_] => arr
      | [a; b] => if key a >? key b then [b; a] else arr
      | _ =>
          let mid := Nat.div2 (length arr) in
          merge_loop (length arr) (merge_sort fuel (take mid arr)) (merge_sort fuel (drop mid arr)) 0 0
      end
  end.
Definition mergeSort (arr : list A) : list A := merge_sort (length arr) arr.

End MergeSort.

(** ** LiveCache *)

Record LiveCache := mkLive {
  cacheBank : Cache;
  lineCount : Z;
  maxOrder : Z;
  mem_base : Z;
  mem_end : Z;
  nReadHit : Z;
  nReadMiss : Z;
  nWriteHit : Z;
  nWriteMiss : Z
}.

Definition set_bank (b : Cache) (lc : LiveCache) : LiveCache :=
  mkLive b (lineCount lc) (maxOrder lc) (mem_base lc) (mem_end lc) (nReadHit lc) (nReadMiss lc) (nWriteHit lc) (nWriteMiss lc).
Definition count (rh rm wh wm : Z) (lc : LiveCache) : LiveCache :=
  mkLive (cacheBank lc) (lineCount lc) (maxOrder lc) (mem_base lc) (mem_end lc)
    (nReadHit lc + rh) (nReadMiss lc + rm) (nWriteHit lc + wh) (nWriteMiss lc + wm).

Definition liveCache (size mem_base mem_size : Z) (junk : nat -> bool * Z) : option LiveCache :=
  bank ← create size 16 64 "LRU" false junk;
  _ ← c_assert (lineSize (cache_geo bank) <? 4096);
  Some (mkLive bank (numLines (cache_geo bank)) 0 mem_base (u64 (mem_base + mem_size)) 0 0 0 0).

(** [l->order = maxOrder++] *)
Definition stamp (p : nat) (lc : LiveCache) : LiveCache :=
  let lc' := set_bank (set_line p (set_order (maxOrder lc)) (cacheBank lc)) lc in
  mkLive (cacheBank lc') (lineCount lc) (u64 (maxOrder lc + 1)) (mem_base lc) (mem_end lc)
    (nReadHit lc) (nReadMiss lc) (nWriteHit lc) (nWriteMiss lc).

Definition read (addr : Z) (lc : LiveCache) : option LiveCache :=
  if (addr <? mem_base lc) || (addr >? mem_end lc) then Some lc
  else
    r ← findLine addr (cacheBank lc);
    let lc := set_bank r.2 lc in
    match r.1 with
    | Some l => Some (count 1 0 0 0 (stamp l lc))
    | None =>
        r ← fillLine addr (cacheBank lc);
        let lc := set_bank (set_line r.1 (set_st false) r.2) lc in
        Some (stamp r.1 (count 0 1 0 0 lc))
    end.

Definition write (addr : Z) (lc : LiveCache) : option LiveCache :=
  if (addr <? mem_base lc) || (addr >? mem_end lc) then Some lc
  else
    r ← findLine addr (cacheBank lc);
    let lc := set_bank r.2 lc in
    match r.1 with
    | Some l =>
        let lc := stamp l lc in
        Some (count 0 0 1 0 (set_bank (set_line l (set_st true) (cacheBank lc)) lc))
    | None =>
        r ← fillLine addr (cacheBank lc);
        let lc := set_bank (set_line r.1 (set_st true) r.2) lc in
        Some (stamp r.1 (count 0 0 0 1 lc))
    end.

(** the lines in [content] order that have been used, and what a line is worth:
    its address, with bit 0 for a line that has been written *)
Definition used_lines (lc : LiveCache) : option (list Line) :=
  ps ← mapM (fun i => pLine (Z.of_nat i) (cacheBank lc)) (seq 0 (Z.to_nat (lineCount lc)));
  ls ← mapM (fun p => line p (cacheBank lc)) ps;
  Some (filter (fun l => order l <> 0) ls).
Definition line_word (g : CacheGeneric) (l : Line) : option Z :=
  let a := calcAddr4Tag g (tag l) in
  if st l then Some (1 .| a) else _ ← c_assert ((a .& 1) =? 0); Some a.

Definition traverse (lc : LiveCache) : option (list Z) :=
  arr ← used_lines lc;
  mapM (line_word (cache_geo (cacheBank lc))) (filter (fun l => tag l <> 0) (mergeSort order arr)).
