(* ===== verification/LiveCacheProps.v ===== *)
(** * The cache model is an LRU cache, and lists its lines oldest first

    [LruCache] is the reference: the lines in order of their last access, of
    which a set keeps its most recent ones.  The arrays of pointers and lines of
    LiveCache.v refine it, and [traverse] is its list from the oldest line on. *)

From Stdlib Require Import String.
From stdpp Require Import sorting.
From S2P Require Import Prelude LiveCache.

(** ** Powers of two *)

(** the highest bit of [y] has been copied to the [d] bits from it down *)
Definition smeared (k d z : Z) : Prop :=
  0 <= z < 2 ^ (k + 1) /\ forall j, 0 <= j -> k - d < j <= k -> Z.testbit z j = true.

Lemma smear_step k d z : 0 <= k -> 0 < d -> smeared k d z -> smeared k (2 * d) (z .| (z >> d)).
Proof.
  intros Hk Hd [Hz Hb]. split.
  - assert (0 <= z >> d) as H0 by (apply Z.shiftr_nonneg; lia).
    assert (z >> d < 2 ^ (k + 1)) as H1.
    { rewrite Z.shiftr_div_pow2 by lia. apply Z.div_lt_upper_bound; [lia|].
      assert (1 <= 2 ^ d) by (apply (Z.pow_le_mono_r 2 0 d); lia). nia. }
    apply lor_in_u; unfold in_u; lia.
  - intros j Hj Hr. rewrite Z.lor_spec, Z.shiftr_spec by lia. destruct (decide (k - d < j)).
    + by rewrite Hb by lia.
    + rewrite (Hb (j + d)) by lia. apply orb_true_r.
Qed.

Lemma smeared_ones k z : 0 <= k -> smeared k (k + 1) z -> z = 2 ^ (k + 1) - 1.
Proof.
  intros Hk [Hz Hb]. replace (2 ^ (k + 1) - 1) with (Z.ones (k + 1)) by (rewrite Z.ones_equiv; lia). apply Z.bits_inj'. intros j Hj.
  destruct (decide (j <= k)).
  - rewrite Hb by lia. by rewrite Z.ones_spec_low by lia.
  - rewrite Z.ones_spec_high by lia. destruct (Z.eq_dec z 0) as [->|]; [apply Z.bits_0|].
    apply Z.bits_above_log2; [lia|]. apply Z.log2_lt_pow2; [lia|].
    pose proof (Z.pow_le_mono_r 2 (k + 1) j). lia.
Qed.

Lemma roundUpPower2_spec x : 1 <= x <= 2 ^ 31 -> roundUpPower2 x = 2 ^ Z.log2_up x.
Proof.
  intros Hx. unfold roundUpPower2. rewrite (uN_small 32 (x - 1)) by (unfold in_u; lia).
  destruct (Z.eq_dec x 1) as [->|]; [by vm_compute|]. cbv zeta.
  set (k := Z.log2 (x - 1)). assert (0 <= k < 31) as Hk.
  { unfold k. split; [apply Z.log2_nonneg|]. apply Z.log2_lt_pow2; lia. }
  pose proof (Z.log2_spec (x - 1) ltac:(lia)) as Hl. fold k in Hl.
  assert (smeared k 1 (x - 1)) as H.
  { split; [lia|]. intros j Hj Hr. replace j with k by lia. apply Z.bit_log2. lia. }
  apply smear_step in H; [|lia..]. change (2 * 1) with 2 in H. apply smear_step in H; [|lia..]. change (2 * 2) with 4 in H.
  apply smear_step in H; [|lia..]. change (2 * 4) with 8 in H. apply smear_step in H; [|lia..]. change (2 * 8) with 16 in H.
  apply smear_step in H; [|lia..]. change (2 * 16) with 32 in H.
  match type of H with smeared _ _ ?z => assert (z = 2 ^ (k + 1) - 1) as -> end.
  { apply smeared_ones; [lia|]. destruct H as [H1 H2]. split; [done|]. intros j Hj Hr. apply H2; lia. }
  rewrite Z.sub_add, uN_small.
  - rewrite Z.log2_up_eqn by lia. by rewrite <- Z.sub_1_r.
  - pose proof (Z.pow_le_mono_r 2 (k + 1) 31). unfold in_u. lia.
Qed.

Lemma log2_loop_spec k fuel i : 0 <= i <= k -> k <= 31 -> (Z.to_nat (k - i) < fuel)%nat -> log2_loop fuel (2 ^ k) (2 ^ i) i = k.
Proof.
  intros Hi Hk. revert i Hi. induction fuel as [|fuel IH]; intros i Hi Hf; [lia|]. cbn [log2_loop].
  destruct (Z.ltb_spec (2 ^ i) (2 ^ k)) as [Hlt|Hge].
  - apply Z.pow_lt_mono_r_iff in Hlt; [|lia..]. rewrite Z.shiftl_mul_pow2, Z.pow_1_r by lia.
    replace (2 ^ i * 2) with (2 ^ (i + 1)) by (rewrite Z.pow_add_r; lia).
    rewrite uN_small by (pose proof (Z.pow_le_mono_r 2 (i + 1) 31); unfold in_u; lia). apply IH; lia.
  - destruct (Z.eq_dec i k); [done|]. pose proof (Z.pow_lt_mono_r 2 i k). lia.
Qed.

Lemma log2i_spec x : 1 <= x <= 2 ^ 31 -> log2i x = Some (Z.log2_up x).
Proof.
  intros Hx. unfold log2i. destruct (Z.eqb_spec x 1) as [->|]; [done|]. cbv zeta. rewrite roundUpPower2_spec by done.
  pose proof (Z.log2_up_nonneg x). assert (Z.log2_up x <= 31) by (apply Z.log2_up_le_pow2; lia).
  pose proof (Z.pow_le_mono_r 2 (Z.log2_up x) 31). assert (0 < 2 ^ Z.log2_up x) by (apply Z.pow_pos_nonneg; lia).
  rewrite uN_small by (unfold in_u; lia).
  replace (2 ^ Z.log2_up x .& (2 ^ Z.log2_up x - 1)) with 0.
  - change (Some (log2_loop 32 (2 ^ Z.log2_up x) (2 ^ 0) 0) = Some (Z.log2_up x)). f_equal. apply log2_loop_spec; lia.
  - rewrite Z.sub_1_r, <- Z.ones_equiv, Z.land_ones by lia. symmetry. apply Z.mod_same. lia.
Qed.

(** ** The reference: a list of lines by recency *)

Record entry := mkEntry { e_tag : Z; e_written : bool; e_time : Z }.
#[export] Instance entry_eq_dec : EqDecision entry.
Proof. solve_decision. Defined.

(** of the elements that satisfy [P], the first [n] *)
Fixpoint keep {A} (P : A -> Prop) {dec : forall x, Decision (P x)} (n : nat) (l : list A) : list A :=
  match l with
  | [] => []
  | x :: l => if decide (P x) then match n with O => keep P O l | S n => x :: keep P n l end else x :: keep P n l
  end.

Record LruCache := mkLru { recent : list entry; now : Z; hits : bool -> Z; misses : bool -> Z }.

Definition bump (w : bool) (f : bool -> Z) : bool -> Z := fun b => f b + b2z (eqb b w).

Section Lru.
Context (ways : nat) (set_of : Z -> Z).

Definition in_set (i : Z) (e : entry) : Prop := set_of (e_tag e) = i.
#[local] Instance in_set_dec i e : Decision (in_set i e) := decide (set_of (e_tag e) = i).
Definition has_tag (t : Z) (e : entry) : bool := e_tag e =? t.
Definition others (t : Z) (l : list entry) : list entry := filter (fun e => e_tag e <> t) l.

(** an access: its line becomes the most recent, and its set keeps [ways] lines *)
Definition lru_access (c : LruCache) (w : bool) (t : Z) : LruCache :=
  let hit := existsb (has_tag t) (recent c) in
  let written := existsb (fun e => has_tag t e && e_written e) (recent c) in
  mkLru (mkEntry t (w || written) (now c) :: keep (in_set (set_of t)) (ways - 1) (others t (recent c)))
    (now c + 1)
    (if hit then bump w (hits c) else hits c)
    (if hit then misses c else bump w (misses c)).

Definition lru_empty : LruCache := mkLru [] 0 (fun _ => 0) (fun _ => 0).
Definition lru_run (accs : list (bool * Z)) : LruCache := foldl (fun c a => lru_access c a.1 a.2) lru_empty accs.

End Lru.

(** the distinct tags of a history that starts with the latest access, latest first *)
Fixpoint recency (h : list Z) : list Z :=
  match h with [] => [] | t :: h => t :: filter (fun u => u <> t) (recency h) end.

Lemma filter_all {A} (P : A -> Prop) {dec : forall x, Decision (P x)} l : Forall P l -> filter P l = l.
Proof. induction 1; [done|]. rewrite filter_cons_True by done. by f_equal. Qed.

Section Keep.
Context {A : Type} (P : A -> Prop) {dec : forall x, Decision (P x)}.

Lemma filter_keep n l : filter P (keep P n l) = take n (filter P l).
Proof.
  revert n. induction l as [|x l IH]; intros n; cbn [keep]; [by rewrite filter_nil, take_nil|].
  destruct (decide (P x)) as [Hx|Hx].
  - rewrite (filter_cons_True _ _ l) by done. destruct n as [|n]; [apply IH|]. rewrite filter_cons_True by done. cbn [take]. by rewrite IH.
  - rewrite !filter_cons_False by done. apply IH.
Qed.

Lemma filter_keep_other (Q : A -> Prop) {qdec : forall x, Decision (Q x)} n l :
  (forall x, Q x -> ~ P x) -> filter Q (keep P n l) = filter Q l.
Proof.
  intros HQ. revert n. induction l as [|x l IH]; intros n; cbn [keep]; [done|].
  destruct (decide (P x)) as [Hx|Hx].
  - assert (~ Q x) by (intros H; by apply (HQ x)). rewrite (filter_cons_False _ _ l) by done.
    destruct n; [apply IH|]. rewrite filter_cons_False by done. apply IH.
  - destruct (decide (Q x)); [rewrite !filter_cons_True by done; by rewrite IH|rewrite !filter_cons_False by done; apply IH].
Qed.

Lemma keep_sublist n l : keep P n l `sublist_of` l.
Proof.
  revert n. induction l as [|x l IH]; intros n; cbn [keep]; [done|].
  destruct (decide (P x)); [destruct n|]; by constructor.
Qed.

(** taking one element out of the first [n + 1] leaves the first [n] of the rest *)
Lemma take_filter_take x n (l : list A) {eq : EqDecision A} :
  NoDup l -> take n (filter (fun y => y <> x) (take (S n) l)) = take n (filter (fun y => y <> x) l).
Proof.
  revert n. induction l as [|y l IH]; intros n Hnd; [done|]. apply NoDup_cons in Hnd as [Hy Hnd].
  rewrite firstn_cons. destruct (decide (y = x)) as [->|Hne].
  - rewrite !filter_cons_False by (intros H; by apply H).
    assert (Forall (fun y => y <> x) l) as Hall by (apply Forall_forall; intros z Hz ->; done).
    rewrite !filter_all by (done || by apply Forall_take). rewrite take_take. f_equal. lia.
  - rewrite !filter_cons_True by done. destruct n as [|n]; [done|]. rewrite !firstn_cons. f_equal. by apply IH.
Qed.

End Keep.

(** ** What the reference keeps *)

Section Sublist.
Context {A : Type}.
Implicit Types l k : list A.

Lemma sublist_Forall (P : A -> Prop) l k : l `sublist_of` k -> Forall P k -> Forall P l.
Proof. induction 1; [done| |]; intros [? ?]%Forall_cons; auto. Qed.

Lemma sublist_elem l k x : l `sublist_of` k -> x ∈ l -> x ∈ k.
Proof. intros Hs. apply (sublist_Forall (fun x => x ∈ k)) in Hs; [|by apply Forall_forall]. rewrite Forall_forall in Hs. apply Hs. Qed.

Lemma sublist_NoDup l k : l `sublist_of` k -> NoDup k -> NoDup l.
Proof.
  induction 1 as [|x l k Hs IH|]; [done| |]; intros [? ?]%NoDup_cons; auto.
  constructor; [|auto]. intros H1. by apply (sublist_elem _ _ _ Hs) in H1.
Qed.

Lemma StronglySorted_sublist (R : relation A) l k : l `sublist_of` k -> StronglySorted R k -> StronglySorted R l.
Proof.
  induction 1 as [|x l k Hs IH|x l k Hs IH]; intros H; [done| |]; apply StronglySorted_cons in H as [Hx H]; [|auto].
  constructor; [auto|]. by eapply sublist_Forall.
Qed.

Lemma sublist_map {B} (f : A -> B) l k : l `sublist_of` k -> map f l `sublist_of` map f k.
Proof. induction 1; cbn [map]; by constructor. Qed.

Lemma sublist_filter_l (P : A -> Prop) {dec : forall x, Decision (P x)} l : filter P l `sublist_of` l.
Proof. induction l as [|x l IH]; [done|]. destruct (decide (P x)); [rewrite filter_cons_True by done|rewrite filter_cons_False by done]; by constructor. Qed.

Lemma filter_comm (P Q : A -> Prop) {pdec : forall x, Decision (P x)} {qdec : forall x, Decision (Q x)} l :
  filter P (filter Q l) = filter Q (filter P l).
Proof. rewrite !list_filter_filter. apply list_filter_iff. naive_solver. Qed.

End Sublist.

Section LruProps.
Context (ways : nat) (set_of : Z -> Z) (Hways : (0 < ways)%nat).
#[local] Existing Instance in_set_dec.

Definition newer (a b : entry) : Prop := e_time b < e_time a.

Record wf_lru (c : LruCache) : Prop := {
  wl_now : 0 <= now c;
  wl_order : StronglySorted newer (recent c);
  wl_time : Forall (fun e => 0 <= e_time e < now c) (recent c);
  wl_tags : NoDup (map e_tag (recent c));
}.

Lemma map_filter_tag (P : Z -> Prop) {dec : forall x, Decision (P x)} l :
  map e_tag (filter (fun e => P (e_tag e)) l) = filter P (map e_tag l).
Proof.
  induction l as [|e l IH]; [done|]. cbn [map].
  destruct (decide (P (e_tag e))); [rewrite !filter_cons_True by done; cbn [map]; f_equal|rewrite !filter_cons_False by done]; done.
Qed.

Lemma others_tags t l : map e_tag (others t l) = filter (fun u => u <> t) (map e_tag l).
Proof. exact (map_filter_tag (fun u => u <> t) l). Qed.

Lemma kept_sublist P {dec : forall x, Decision (P x)} n t l : keep P n (others t l) `sublist_of` l.
Proof. etransitivity; [apply keep_sublist|apply sublist_filter_l]. Qed.

Lemma wf_lru_access c w t : wf_lru c -> wf_lru (lru_access ways set_of c w t).
Proof.
  intros [Hn Ho Ht Hd]. split; cbn [lru_access recent now]; [lia| | |].
  - constructor; [eapply StronglySorted_sublist; [apply kept_sublist|done]|].
    eapply sublist_Forall; [apply kept_sublist|]. eapply Forall_impl; [exact Ht|]. unfold newer. cbn. lia.
  - constructor; [cbn; lia|]. eapply sublist_Forall; [apply kept_sublist|]. eapply Forall_impl; [exact Ht|]. cbn. lia.
  - cbn [map e_tag]. constructor.
    + intros Hin. apply (sublist_elem _ (map e_tag (others t (recent c)))) in Hin; [|apply sublist_map, keep_sublist].
      rewrite others_tags in Hin. by apply list_elem_of_filter in Hin as [? _].
    + eapply sublist_NoDup; [apply sublist_map, kept_sublist|done].
Qed.

Lemma wf_lru_empty : wf_lru lru_empty.
Proof. split; cbn; [done|constructor..]. Qed.

Lemma lru_run_snoc accs a :
  lru_run ways set_of (accs ++ [a]) = lru_access ways set_of (lru_run ways set_of accs) a.1 a.2.
Proof. unfold lru_run. by rewrite foldl_app. Qed.

Lemma wf_lru_run accs : wf_lru (lru_run ways set_of accs).
Proof. induction accs as [|a accs IH] using rev_ind; [apply wf_lru_empty|]. rewrite lru_run_snoc. by apply wf_lru_access. Qed.

Lemma lru_run_now accs : now (lru_run ways set_of accs) = Z.of_nat (length accs).
Proof.
  induction accs as [|a accs IH] using rev_ind; [done|]. rewrite lru_run_snoc, length_app. cbn [lru_access now length]. lia.
Qed.

(** the lines of a set after an access *)
Lemma set_after c w t i :
  filter (in_set set_of i) (recent (lru_access ways set_of c w t))
    = if decide (set_of t = i)
      then mkEntry t (w || existsb (fun e => has_tag t e && e_written e) (recent c)) (now c)
             :: take (ways - 1) (others t (filter (in_set set_of i) (recent c)))
      else filter (in_set set_of i) (recent c).
Proof.
  cbn [lru_access recent]. destruct (decide (set_of t = i)) as [<-|Hne].
  - rewrite filter_cons_True by done. f_equal. rewrite filter_keep. unfold others. by rewrite filter_comm.
  - rewrite filter_cons_False by done. rewrite filter_keep_other by (unfold in_set; congruence).
    unfold others. rewrite list_filter_filter. apply list_filter_iff. unfold in_set. intros e. naive_solver congruence.
Qed.

(** the lines of a set are the last [ways] different ones the accesses named *)
Lemma lru_keeps_recent accs i :
  map e_tag (filter (in_set set_of i) (recent (lru_run ways set_of accs)))
    = take ways (filter (fun t => set_of t = i) (recency (rev (map snd accs)))).
Proof.
  induction accs as [|a accs IH] using rev_ind; [symmetry; apply take_nil|].
  rewrite lru_run_snoc, set_after, map_app, rev_app_distr. cbn [map rev app recency].
  set (h := recency _) in *. assert (NoDup h) as Hnd.
  { unfold h. generalize (rev (map snd accs)). intros l. induction l as [|t l IHl]; cbn [recency]; constructor.
    - intros H. by apply list_elem_of_filter in H as [? _].
    - by apply NoDup_filter. }
  destruct (decide (set_of a.2 = i)) as [Hi|Hi].
  - rewrite filter_cons_True by done. destruct ways as [|n]; [lia|]. cbn [map e_tag]. rewrite firstn_cons. f_equal.
    replace (S n - 1)%nat with n by lia. rewrite <- firstn_map, others_tags, IH.
    rewrite filter_comm. apply take_filter_take. by apply NoDup_filter.
  - rewrite filter_cons_False by done. rewrite IH, list_filter_filter. f_equal. apply list_filter_iff. intros t. naive_solver congruence.
Qed.

End LruProps.

(** ** The merge sort *)

Section Sorting.
Context {A : Type} {inh : Inhabited A} (key : A -> Z).

Definition key_le (a b : A) : Prop := key a <= key b.
#[local] Instance key_le_dec a b : Decision (key_le a b) := decide (key a <= key b).
#[local] Instance key_le_total : Total key_le.
Proof. intros a b. unfold key_le. lia. Qed.

(** the loop merges what the two indices have left *)
Lemma merge_loop_spec i arr1 arr2 m n :
  (i = (length arr1 - m) + (length arr2 - n))%nat -> (m <= length arr1)%nat -> (n <= length arr2)%nat ->
  merge_loop key i arr1 arr2 m n = list_merge key_le (drop m arr1) (drop n arr2).
Proof.
  revert m n. induction i as [|i IH]; intros m n Hi Hm Hn; cbn [merge_loop].
  - by rewrite !drop_ge by lia.
  - destruct (Nat.leb_spec (length arr2) n) as [H2|H2]; cbn [orb].
    + destruct (lookup_lt_is_Some_2 arr1 m) as [x Hx]; [lia|]. rewrite (drop_S arr1 x m), (drop_ge arr2) by (done || lia).
      rewrite list_lookup_total_alt, Hx. cbn [from_option id list_merge]. rewrite IH by lia. rewrite (drop_ge arr2) by lia.
      by destruct (drop (S m) arr1).
    + destruct (lookup_lt_is_Some_2 arr2 n) as [y Hy]; [lia|]. rewrite (list_lookup_total_alt arr2), Hy. cbn [from_option id].
      destruct (Nat.ltb_spec m (length arr1)) as [H1|H1]; cbn [andb].
      * destruct (lookup_lt_is_Some_2 arr1 m) as [x Hx]; [lia|]. rewrite (list_lookup_total_alt arr1), Hx. cbn [from_option id].
        rewrite (drop_S arr1 x m), (drop_S arr2 y n) by done. rewrite list_merge_cons.
        destruct (Z.leb_spec (key x) (key y)), (decide (key_le x y)) as [Hk|Hk]; unfold key_le in Hk; try lia;
          rewrite IH by lia; [by rewrite (drop_S arr2 y n)|by rewrite (drop_S arr1 x m)].
      * rewrite (drop_S arr2 y n), (drop_ge arr1) by (done || lia). cbn [list_merge]. rewrite IH by lia. rewrite (drop_ge arr1) by lia. by destruct (drop (S n) arr2).
Qed.

Lemma merge_sort_spec fuel arr :
  (length arr <= fuel)%nat -> Sorted key_le (merge_sort key fuel arr) /\ merge_sort key fuel arr ≡ₚ arr.
Proof.
  revert arr. induction fuel as [|fuel IH]; intros arr Hf; cbn [merge_sort].
  { destruct arr; [|simpl in Hf; lia]. split; constructor. }
  destruct arr as [|a [|b [|c arr]]]; [split; constructor|split; repeat constructor| |].
  { rewrite Z.gtb_ltb. destruct (Z.ltb_spec (key b) (key a)); split; repeat constructor; unfold key_le; lia. }
  set (l := a :: b :: c :: arr) in *. set (mid := Nat.div2 (length l)).
  assert (0 < mid < length l)%nat as Hmid.
  { pose proof (Nat.div2_odd (length l)) as E. fold mid in E. assert (3 <= length l)%nat by (unfold l; simpl; lia).
    destruct (Nat.odd (length l)); cbn [Nat.b2n] in E; lia. }
  destruct (IH (take mid l)) as [S1 P1]; [rewrite length_take; lia|].
  destruct (IH (drop mid l)) as [S2 P2]; [rewrite length_drop; lia|].
  assert (length (merge_sort key fuel (take mid l)) = mid) as L1.
  { rewrite (Permutation_length P1), length_take. lia. }
  assert (length (merge_sort key fuel (drop mid l)) = length l - mid)%nat as L2.
  { by rewrite (Permutation_length P2), length_drop. }
  rewrite merge_loop_spec, !drop_0 by (rewrite ?L1, ?L2; lia). split; [by apply Sorted_list_merge; try apply _|].
  rewrite merge_Permutation, P1, P2, take_drop. done.
Qed.

(** the result is the sorted permutation, for distinct keys the only one *)
Lemma mergeSort_spec arr : StronglySorted key_le (mergeSort key arr) /\ mergeSort key arr ≡ₚ arr.
Proof.
  destruct (merge_sort_spec (length arr) arr) as [Hs Hp]; [done|]. split; [|done].
  apply Sorted_StronglySorted; [|done]. intros x y z. unfold key_le. lia.
Qed.

End Sorting.

(** ** The arrays of the cache *)

(** the lines in the order of [content] *)
Definition view (c : CacheAssoc) : list Line := map (fun p => mem c !!! p) (content c).

(** [content] is a permutation of the lines *)
Record wf_bank (c : CacheAssoc) : Prop := {
  wb_content : content c ≡ₚ seq 0 (length (mem c));
  wb_mem : Z.of_nat (length (mem c)) = numLines (geo c)
}.

Lemma wb_nodup c : wf_bank c -> NoDup (content c).
Proof. intros [H _]. rewrite H. apply NoDup_seq. Qed.

Lemma wb_pointer c p : wf_bank c -> p ∈ content c -> (p < length (mem c))%nat.
Proof. intros [H _] Hp. rewrite H in Hp. apply elem_of_seq in Hp. lia. Qed.

Lemma wb_set_content c l : wf_bank c -> l ≡ₚ content c -> wf_bank (set_content l c).
Proof. intros [H1 H2] Hl. split; [|done]. cbn [content set_content mem]. by rewrite Hl. Qed.

Lemma wb_upd_line c p f : wf_bank c -> wf_bank (upd_line p f c).
Proof. intros [H1 H2]. split; cbn [content mem geo upd_line]; by rewrite length_alter. Qed.

Lemma tag_at_spec c l p : wf_bank c -> content c !! l = Some p -> tag_at c l = Some (tag (mem c !!! p)).
Proof.
  intros Hw Hl. unfold tag_at. rewrite Hl. cbn. destruct (lookup_lt_is_Some_2 (mem c) p) as [x Hx].
  { apply wb_pointer; [done|]. by eapply list_elem_of_lookup_2. }
  by rewrite list_lookup_total_alt, Hx.
Qed.

Lemma view_upd_line c P p R f :
  wf_bank c -> content c = P ++ p :: R ->
  view (upd_line p f c) = map (fun q => mem c !!! q) P ++ f (mem c !!! p) :: map (fun q => mem c !!! q) R.
Proof.
  intros Hw Hc. pose proof (wb_nodup c Hw) as Hnd. rewrite Hc in Hnd. apply NoDup_app in Hnd as (_ & HP & HR).
  apply NoDup_cons in HR as [HR _]. unfold view. cbn [upd_line mem content]. rewrite Hc, map_app. cbn [map].
  assert (forall q, q <> p -> alter f p (mem c) !!! q = mem c !!! q) as Hq.
  { intros q Hq. rewrite !list_lookup_total_alt, list_lookup_alter. by rewrite decide_False by congruence. }
  f_equal; [|f_equal].
  - apply map_ext_in. intros q Hin%list_elem_of_In. apply Hq. intros ->. by apply (HP p Hin); left.
  - assert (p < length (mem c))%nat as Hp by (apply wb_pointer; [done|]; rewrite Hc; apply elem_of_app; right; left).
    destruct (lookup_lt_is_Some_2 (mem c) p Hp) as [x Hx].
    rewrite !list_lookup_total_alt, list_lookup_alter, decide_True by done. by rewrite Hx.
  - apply map_ext_in. intros q Hin%list_elem_of_In. apply Hq. by intros ->.
Qed.

Section Moves.
Context (c : CacheAssoc) (t : Z) (Hw : wf_bank c).
Abbreviation differs := (fun p => tag (mem c !!! p) <> t).

Lemma scan_up_miss P Q R : content c = P ++ Q ++ R -> Forall differs Q -> scan_up (length Q) (length P) c t = Some None.
Proof.
  revert P. induction Q as [|q Q IH]; intros P Hc HQ; cbn [length scan_up]; [done|]. apply Forall_cons in HQ as [Hq HQ].
  rewrite (tag_at_spec c _ q) by (done || by rewrite Hc, lookup_app_r, Nat.sub_diag). cbn.
  destruct (Z.eqb_spec (tag (mem c !!! q)) t); [done|]. replace (S (length P)) with (length (P ++ [q])) by (rewrite length_app; simpl; lia).
  apply IH; [|done]. by rewrite Hc, <- app_assoc.
Qed.

Lemma scan_up_hit P Q1 p Q2 R :
  content c = P ++ (Q1 ++ p :: Q2) ++ R -> Forall differs Q1 -> tag (mem c !!! p) = t ->
  scan_up (length (Q1 ++ p :: Q2)) (length P) c t = Some (Some (length P + length Q1)%nat).
Proof.
  revert P. induction Q1 as [|q Q IH]; intros P Hc HQ Hp; cbn [length scan_up app].
  - rewrite (tag_at_spec c _ p) by (done || by rewrite Hc, lookup_app_r, Nat.sub_diag). cbn.
    rewrite (proj2 (Z.eqb_eq _ _) Hp). by rewrite Nat.add_0_r.
  - apply Forall_cons in HQ as [Hq HQ]. rewrite (tag_at_spec c _ q) by (done || by rewrite Hc, lookup_app_r, Nat.sub_diag). cbn.
    destruct (Z.eqb_spec (tag (mem c !!! q)) t); [done|]. replace (S (length P)) with (length (P ++ [q])) by (rewrite length_app; simpl; lia).
    rewrite IH; [|by rewrite Hc, <- (app_assoc P [q])|done|done]. rewrite length_app. simpl. do 2 f_equal. lia.
Qed.

Lemma scan_down_miss P Q R : content c = P ++ Q ++ R -> Forall differs Q -> scan_down (length Q) (length P) c t = Some None.
Proof.
  revert R. induction Q as [|q Q IH] using rev_ind; intros R Hc HQ; [done|]. apply Forall_app in HQ as [HQ Hq].
  rewrite length_app, Nat.add_comm. cbn [length Nat.add scan_down].
  rewrite (tag_at_spec c _ q).
  - cbn. apply Forall_cons in Hq as [Hq _]. destruct (Z.eqb_spec (tag (mem c !!! q)) t); [done|].
    apply (IH (q :: R)); [|done]. by rewrite Hc, <- app_assoc.
  - done.
  - rewrite Hc, lookup_app_r, lookup_app_l, lookup_app_r by (rewrite ?length_app; simpl; lia).
    by replace (length P + length Q - length P - length Q)%nat with 0%nat by lia.
Qed.

Lemma shift_up_spec P Q p R :
  exists l, shift_up (length Q) (length P) (P ++ Q ++ p :: R) = Some l
    /\ forall x, <[length P := x]> l = P ++ x :: Q ++ R.
Proof.
  revert p R. induction Q as [|q Q IH] using rev_ind; intros p R.
  - exists (P ++ p :: R). split; [done|]. intros x. by rewrite insert_app_r_alt, Nat.sub_diag by lia.
  - rewrite length_app, Nat.add_comm. cbn [length Nat.add shift_up].
    assert ((P ++ (Q ++ [q]) ++ p :: R) !! (length P + length Q)%nat = Some q) as ->.
    { rewrite lookup_app_r, lookup_app_l, lookup_app_r by (rewrite ?length_app; simpl; lia).
      by replace (length P + length Q - length P - length Q)%nat with 0%nat by lia. }
    cbn. destruct (IH q (q :: R)) as (l & E & Hl). exists l. split.
    + rewrite <- E. f_equal. rewrite insert_app_r_alt by lia. f_equal. rewrite <- !app_assoc. cbn [app].
      rewrite insert_app_r_alt by lia. f_equal. replace (S (length P + length Q) - length P - length Q)%nat with 1%nat by lia. done.
    + intros x. rewrite Hl, <- app_assoc. done.
Qed.

Lemma to_front_spec P Q p R :
  content c = P ++ Q ++ p :: R ->
  to_front (length P) (length P + length Q) c = Some (p, set_content (P ++ p :: Q ++ R) c).
Proof.
  intros Hc. unfold to_front. rewrite Hc. destruct (shift_up_spec P Q p R) as (l & E & Hl).
  rewrite lookup_app_r, lookup_app_r by lia. replace (length P + length Q - length P - length Q)%nat with 0%nat by lia.
  cbn. replace (length P + length Q - length P)%nat with (length Q) by lia. rewrite E. cbn. by rewrite Hl.
Qed.

End Moves.

(** what the two lookups do to the entries [Q] of the set, between [P] and [R] *)
Section Lookups.
Context (c : CacheAssoc) (addr : Z) (Hw : wf_bank c) (P Q R : list nat).
Abbreviation t := (calcTag (geo c) addr).
Abbreviation differs := (fun p => tag (mem c !!! p) <> t).
Context (Hc : content c = P ++ Q ++ R) (Hset : theSet c t = length P)
  (Hlen : length Q = Z.to_nat (assoc (geo c))) (Hassoc : 0 < assoc (geo c)).

Lemma front_lookup q Q' : Q = q :: Q' -> content c !! length P = Some q.
Proof. intros ->. by rewrite Hc, lookup_app_r, Nat.sub_diag. Qed.

Lemma set_content_same : set_content (content c) c = c.
Proof. by destruct c. Qed.

Lemma set_nonempty : exists q Q', Q = q :: Q'.
Proof. destruct Q as [|q Q']; [simpl in Hlen; lia|by exists q, Q']. Qed.

Lemma find_miss : Forall differs Q -> findLinePrivate addr c = Some (None, c).
Proof.
  intros HQ. destruct set_nonempty as (q & Q' & HQ'). unfold findLinePrivate. cbv zeta.
  pose proof (front_lookup q Q' HQ') as Hf. rewrite Hset, Hf. cbn. rewrite (tag_at_spec c _ q) by done. cbn.
  pose proof HQ as Hd. rewrite HQ' in Hd. apply Forall_cons in Hd as [Hq Hd]. destruct (Z.eqb_spec (tag (mem c !!! q)) t); [done|].
  replace (Z.to_nat (assoc (geo c)) - 1)%nat with (length Q') by (rewrite HQ' in Hlen; simpl in Hlen; lia).
  replace (S (length P)) with (length (P ++ [q])) by (rewrite length_app; simpl; lia).
  rewrite (scan_up_miss c t Hw (P ++ [q]) Q' R) by (done || by rewrite Hc, HQ', <- (app_assoc P [q])). done.
Qed.

Lemma find_hit Q1 p Q2 :
  Q = Q1 ++ p :: Q2 -> Forall differs Q1 -> tag (mem c !!! p) = t ->
  findLinePrivate addr c = Some (Some p, set_content (P ++ p :: Q1 ++ Q2 ++ R) c).
Proof.
  intros HQ H1 Hp. unfold findLinePrivate. cbv zeta. rewrite Hset.
  destruct Q1 as [|q Q1].
  - pose proof (front_lookup p Q2 HQ) as Hf. rewrite Hf. cbn. rewrite (tag_at_spec c _ p) by done. cbn.
    rewrite (proj2 (Z.eqb_eq _ _) Hp). rewrite <- set_content_same at 1. rewrite Hc, HQ. done.
  - pose proof (front_lookup q _ HQ) as Hf. rewrite Hf. cbn. rewrite (tag_at_spec c _ q) by done. cbn.
    apply Forall_cons in H1 as [Hq H1]. destruct (Z.eqb_spec (tag (mem c !!! q)) t); [done|].
    replace (Z.to_nat (assoc (geo c)) - 1)%nat with (length (Q1 ++ p :: Q2)) by (rewrite HQ in Hlen; simpl in Hlen; lia).
    replace (S (length P)) with (length (P ++ [q])) by (rewrite length_app; simpl; lia).
    rewrite (scan_up_hit c t Hw (P ++ [q]) Q1 p Q2 R); [|by rewrite Hc, HQ, <- (app_assoc P [q])|done|done]. cbn.
    replace (length (P ++ [q]) + length Q1)%nat with (length P + length (q :: Q1))%nat by (rewrite length_app; simpl; lia).
    rewrite (to_front_spec c P (q :: Q1) p (Q2 ++ R)) by (by rewrite Hc, HQ, <- app_assoc). done.
Qed.

Lemma replace_miss Q1 p :
  t <> 0 -> policy c = LRU -> Q = Q1 ++ [p] -> Forall differs Q ->
  findLine2Replace addr c = Some (p, set_content (P ++ p :: Q1 ++ R) c).
Proof.
  intros Ht Hpol HQ Hd. unfold findLine2Replace. cbv zeta. destruct (Z.eqb_spec t 0); [done|]. cbn [c_assert negb mbind option_bind].
  destruct set_nonempty as (q & Q' & HQ').
  rewrite Hset, (front_lookup q Q' HQ'). cbn [mbind option_bind]. rewrite (tag_at_spec c _ q) by (done || by apply (front_lookup q Q')). cbn [mbind option_bind].
  pose proof Hd as Hd'. rewrite HQ' in Hd'. apply Forall_cons in Hd' as [Hq _].
  destruct (Z.eqb_spec (tag (mem c !!! q)) t); [done|]. rewrite <- Hlen, (scan_down_miss c t Hw P Q R) by done.
  cbn [mbind option_bind]. rewrite bool_decide_eq_false_2 by (intros [? ?]; done). cbn [orb negb andb].
  replace (0 <? assoc (geo c)) with true by lia. cbn [c_assert mbind option_bind]. unfold victim. rewrite Hpol. cbn beta iota zeta. rewrite <- Hlen.
  replace (length P + length Q - 1)%nat with (length P + length Q1)%nat by (rewrite HQ, length_app; simpl; lia).
  destruct (Nat.eqb_spec (length P + length Q1) (length P)) as [E|].
  - destruct Q1; [|simpl in E; lia]. rewrite HQ in HQ'. injection HQ' as -> _.
    rewrite <- set_content_same at 1. by rewrite Hc, HQ.
  - rewrite ?Hpol. rewrite (to_front_spec c P Q1 p R) by (by rewrite Hc, HQ, <- app_assoc). done.
Qed.

End Lookups.

(** ** An access *)

Definition access (w : bool) (addr : Z) (lc : LiveCache) : option LiveCache := if w then write addr lc else read addr lc.

Definition has_line (t : Z) (V : list Line) : bool := existsb (fun l => tag l =? t) V.
Definition has_written (t : Z) (V : list Line) : bool := existsb (fun l => (tag l =? t) && st l) V.
Definition other_lines (t : Z) (V : list Line) : list Line := filter (fun l => tag l <> t) V.

(** the counters after an access *)
Definition accessed (w hit : bool) (c' : CacheAssoc) (lc : LiveCache) : LiveCache :=
  mkLive (Assoc c') (lineCount lc) (maxOrder lc + 1) (mem_base lc) (mem_end lc)
    (nReadHit lc + b2z (negb w && hit)) (nReadMiss lc + b2z (negb w && negb hit))
    (nWriteHit lc + b2z (w && hit)) (nWriteMiss lc + b2z (w && negb hit)).

Lemma upd_line_twice p f f' c : upd_line p f (upd_line p f' c) = upd_line p (fun l => f (f' l)) c.
Proof. unfold upd_line. cbn [mem geo content irand policy]. f_equal. generalize (mem c). intros l. revert p.
  induction l as [|x l IH]; intros [|p]; cbn; [done..|]. f_equal. apply IH.
Qed.

Lemma first_match {A} (P : A -> Prop) {dec : forall x, Decision (P x)} l :
  Forall (fun x => ~ P x) l \/ exists l1 x l2, l = l1 ++ x :: l2 /\ Forall (fun x => ~ P x) l1 /\ P x.
Proof.
  induction l as [|y l IH]; [by left|]. destruct (decide (P y)) as [Hy|Hy].
  - right. by exists [], y, l.
  - destruct IH as [IH|(l1 & x & l2 & -> & H1 & Hx)]; [by left; constructor|]. right. exists (y :: l1), x, l2. by split_and!; [|constructor|].
Qed.

Lemma existsb_Forall {A} (f : A -> bool) l : Forall (fun x => f x = false) l -> existsb f l = false.
Proof. induction 1 as [|x l Hx _ IH]; cbn; [done|]. by rewrite Hx. Qed.

Section MissingTag.
Context (t : Z) (V : list Line) (HV : Forall (fun l => tag l <> t) V).

Lemma no_line : has_line t V = false.
Proof. apply existsb_Forall. eapply Forall_impl; [exact HV|]. intros l Hl. by apply Z.eqb_neq. Qed.
Lemma no_written : has_written t V = false.
Proof. apply existsb_Forall. eapply Forall_impl; [exact HV|]. intros l Hl. cbn. by rewrite (proj2 (Z.eqb_neq _ _) Hl). Qed.
Lemma no_other : other_lines t V = V.
Proof. by apply filter_all. Qed.

End MissingTag.

Section FoundTag.
Context (t : Z) (V1 V2 : list Line) (x : Line) (H1 : Forall (fun l => tag l <> t) V1)
  (H2 : Forall (fun l => tag l <> t) V2) (Hx : tag x = t).

Lemma found_line : has_line t (V1 ++ x :: V2) = true.
Proof. unfold has_line. rewrite existsb_app. cbn. rewrite (proj2 (Z.eqb_eq _ _) Hx). apply orb_true_r. Qed.
Lemma found_written : has_written t (V1 ++ x :: V2) = st x.
Proof.
  unfold has_written. rewrite existsb_app. cbn. fold (has_written t V1). fold (has_written t V2).
  rewrite (no_written t V1), (no_written t V2) by done. rewrite (proj2 (Z.eqb_eq _ _) Hx). by destruct (st x).
Qed.
Lemma found_other : other_lines t (V1 ++ x :: V2) = V1 ++ V2.
Proof.
  unfold other_lines. rewrite filter_app, filter_cons_False by naive_solver. fold (other_lines t V1). fold (other_lines t V2).
  by rewrite (no_other t V1), (no_other t V2).
Qed.

End FoundTag.

Lemma Forall_lines c t Q : Forall (fun p => tag (mem c !!! p) <> t) Q <-> Forall (fun l => tag l <> t) (map (fun p => mem c !!! p) Q).
Proof. by rewrite Forall_fmap. Qed.

Section Access.
Context (lc : LiveCache) (c : CacheAssoc) (addr : Z) (w : bool) (P Q R : list nat).
Abbreviation t := (calcTag (geo c) addr).
Abbreviation lines := (map (fun p => mem c !!! p)).
Context (Hbank : cacheBank lc = Assoc c) (Hw : wf_bank c) (Hpol : policy c = LRU)
  (Hin : mem_base lc <= addr <= mem_end lc) (Ht : t <> 0) (Hmax : 0 <= maxOrder lc < 2 ^ 64 - 1)
  (Hc : content c = P ++ Q ++ R) (Hset : theSet c t = length P)
  (Hlen : length Q = Z.to_nat (assoc (geo c))) (Hassoc : 0 < assoc (geo c))
  (Hstate : Forall (fun l => state l = StateI) (lines Q))
  (Huniq : forall V1 x V2, lines Q = V1 ++ x :: V2 -> tag x = t -> Forall (fun l => tag l <> t) V2).

(** the set after the access *)
Definition set_accessed : list Line :=
  mkLine t StateI (w || has_written t (lines Q)) (maxOrder lc)
    :: take (Z.to_nat (assoc (geo c)) - 1) (other_lines t (lines Q)).

Lemma in_range_tests : (addr <? mem_base lc) || (addr >? mem_end lc) = false.
Proof. rewrite Z.gtb_ltb. apply orb_false_iff. lia. Qed.

Definition next_state (hit : bool) (lc' : LiveCache) (c' : CacheAssoc) : Prop :=
  lc' = accessed w hit c' lc /\ wf_bank c' /\ geo c' = geo c /\ policy c' = LRU
  /\ view c' = lines P ++ set_accessed ++ lines R.

Lemma access_hit Q1 p Q2 :
  Q = Q1 ++ p :: Q2 -> Forall (fun p => tag (mem c !!! p) <> t) Q1 -> tag (mem c !!! p) = t ->
  exists lc' c', access w addr lc = Some lc' /\ next_state true lc' c'.
Proof.
  intros HQ H1 Hp. pose proof (find_hit c addr Hw P Q R Hc Hset Hlen Hassoc Q1 p Q2 HQ H1 Hp) as Hf.
  set (c1 := set_content _ c) in Hf.
  exists (accessed w true (upd_line p (fun l => (if w then set_st true else id) (set_order (maxOrder lc) l)) c1) lc). eexists.
  unfold next_state. split_and!; [|done|apply wb_upd_line, wb_set_content; [done|]|done|done|].
  - unfold access, write, read. rewrite in_range_tests, Hbank. unfold findLine. rewrite Hf.
    cbn [mbind option_bind fst snd]. unfold stamp, count, set_bank, accessed. cbn. rewrite uN_small by (unfold in_u; lia).
    destruct w; cbn; rewrite ?upd_line_twice, ?Z.add_0_r; done.
  - rewrite Hc, HQ. solve_Permutation.
  - rewrite (view_upd_line c1 P p (Q1 ++ Q2 ++ R)); [|apply wb_set_content; [done|]; rewrite Hc, HQ; solve_Permutation|done].
    change (mem c1) with (mem c). unfold set_accessed. rewrite HQ in Hstate, Huniq, Hlen |- *.
    rewrite !map_app. cbn [map]. rewrite map_app in Hstate, Huniq. cbn [map] in Hstate, Huniq.
    pose proof (Huniq _ _ _ eq_refl Hp) as H2. apply Forall_lines in H1.
    rewrite found_written, found_other by done. rewrite (take_ge (lines Q1 ++ lines Q2)).
    + cbn [app]. rewrite <- app_assoc. f_equal. f_equal. apply Forall_app in Hstate as [_ Hstate]. apply Forall_cons in Hstate as [Hs _].
      revert Hs Hp. destruct (mem c !!! p) as [tg ss sst so]. cbn. intros -> ->. by destruct w, sst.
    + rewrite length_app in Hlen |- *. rewrite !length_map. simpl in Hlen. lia.
Qed.

Lemma access_miss :
  Forall (fun p => tag (mem c !!! p) <> t) Q -> exists lc' c', access w addr lc = Some lc' /\ next_state false lc' c'.
Proof.
  intros Hd. pose proof (find_miss c addr Hw P Q R Hc Hset Hlen Hassoc Hd) as Hf.
  destruct (exists_last (l := Q)) as (Q1 & p & HQ); [intros E; rewrite E in Hlen; simpl in Hlen; lia|].
  pose proof (replace_miss c addr Hw P Q R Hc Hset Hlen Hassoc Q1 p Ht Hpol HQ Hd) as Hr. set (c1 := set_content _ c) in Hr.
  assert (wf_bank c1) as Hw1 by (apply wb_set_content; [done|]; rewrite Hc, HQ; solve_Permutation).
  exists (accessed w false (upd_line p (fun l => set_order (maxOrder lc) (set_st w (set_tag t l))) c1) lc). eexists.
  unfold next_state. split_and!; [|done|by apply wb_upd_line|done|done|].
  - unfold access, write, read. rewrite in_range_tests, Hbank. unfold findLine. rewrite Hf.
    cbn [mbind option_bind fst snd]. cbv zeta. cbn [cacheBank set_bank]. unfold fillLine, replaceLine. rewrite Hr.
    cbn [mbind option_bind fst snd cache_geo geo set_content]. unfold setTag, c1 at 1 2. cbn [cache_geo geo set_content].
    replace (calcTag (geo c) addr =? 0) with false by (symmetry; by apply Z.eqb_neq).
    cbn [negb c_assert mbind option_bind fst snd]. unfold stamp, count, set_bank, accessed. cbn. rewrite uN_small by (unfold in_u; lia).
    destruct w; cbn; rewrite ?upd_line_twice, ?Z.add_0_r; done.
  - rewrite (view_upd_line c1 P p (Q1 ++ R)) by done. change (mem c1) with (mem c). unfold set_accessed.
    pose proof (proj1 (Forall_lines c t Q) Hd) as HV. rewrite no_written, no_other by done.
    rewrite HQ in Hstate, Hlen |- *. rewrite map_app in Hstate |- *. rewrite !map_app. cbn [map] in *.
    rewrite length_app in Hlen. simpl in Hlen. rewrite take_app_length' by (rewrite length_map; lia). cbn [app]. f_equal. f_equal.
    apply Forall_app in Hstate as [_ Hstate]. apply Forall_cons in Hstate as [Hs _].
    revert Hs. destruct (mem c !!! p) as [tg ss sst so]. cbn. intros ->. by rewrite orb_false_r.
Qed.

Lemma access_step : exists lc' c', access w addr lc = Some lc' /\ next_state (has_line t (lines Q)) lc' c'.
Proof.
  destruct (first_match (fun p => tag (mem c !!! p) = t) Q) as [Hd|(Q1 & p & Q2 & HQ & H1 & Hp)].
  - pose proof (proj1 (Forall_lines c t Q) Hd) as HV. rewrite no_line by done. by apply access_miss.
  - replace (has_line t (lines Q)) with true; [by apply (access_hit Q1 p Q2)|]. symmetry. rewrite HQ, map_app. by apply found_line.
Qed.

End Access.

(** ** The refinement *)

Definition to_line (e : entry) : Line := mkLine (e_tag e) StateI (e_written e) (e_time e).
(** a line that has not been filled *)
Definition empty (l : Line) : Prop := tag l = 0 /\ state l = StateI.

Definition set_index (g : CacheGeneric) (t : Z) : Z := t .& maskSets g.
#[local] Existing Instance in_set_dec.

Record wf_geo (g : CacheGeneric) : Prop := {
  wg_log : 0 <= log2Assoc g;
  wg_assoc : assoc g = 2 ^ log2Assoc g;
  wg_sets : 0 < sets g;
  wg_mask : maskSets g = sets g - 1;
  wg_lines : sets g * assoc g <= numLines g < 2 ^ 32;
  wg_xor : xorIndex g = false
}.

Lemma wg_assoc_pos g : wf_geo g -> 0 < assoc g.
Proof. intros Hg. rewrite (wg_assoc g Hg). apply Z.pow_pos_nonneg; [lia|apply Hg]. Qed.

Lemma land_upper a b : 0 <= b -> 0 <= a .& b <= b.
Proof.
  intros Hb. split; [apply Z.land_nonneg; by right|]. pose proof (Z.ldiff_nonneg b a) as Hd.
  assert ((b .& a) + Z.ldiff b a = b) as E; [|rewrite Z.land_comm; lia].
  rewrite Z.add_nocarry_lxor.
  - apply Z.bits_inj'. intros n Hn. rewrite Z.lxor_spec, Z.land_spec, Z.ldiff_spec. by destruct (Z.testbit a n), (Z.testbit b n).
  - apply Z.bits_inj'. intros n Hn. rewrite !Z.land_spec, Z.ldiff_spec, Z.bits_0. by destruct (Z.testbit a n), (Z.testbit b n).
Qed.

Lemma set_index_range g t : wf_geo g -> 0 <= set_index g t < sets g.
Proof.
  intros Hg. unfold set_index. pose proof (land_upper t (maskSets g)). rewrite (wg_mask g Hg) in *. pose proof (wg_sets g Hg). lia.
Qed.

Lemma theSet_spec c t : wf_geo (geo c) -> theSet c t = (Z.to_nat (set_index (geo c) t) * Z.to_nat (assoc (geo c)))%nat.
Proof.
  intros Hg. unfold theSet, calcIndex4Tag. rewrite (wg_xor _ Hg). fold (set_index (geo c) t).
  pose proof (set_index_range _ t Hg). pose proof (wg_assoc_pos _ Hg). pose proof (wg_lines _ Hg).
  rewrite Z.shiftl_mul_pow2, <- (wg_assoc _ Hg) by apply Hg. rewrite uN_small by (unfold in_u; nia). by rewrite Z2Nat.inj_mul by lia.
Qed.

Record refines (c : CacheAssoc) (L : list entry) : Prop := {
  rf_bank : wf_bank c;
  rf_policy : policy c = LRU;
  rf_set i : 0 <= i < sets (geo c) -> exists J,
    take (Z.to_nat (assoc (geo c))) (drop (Z.to_nat i * Z.to_nat (assoc (geo c))) (view c))
      = map to_line (filter (in_set (set_index (geo c)) i) L) ++ J /\ Forall empty J;
  rf_rest : Forall empty (drop (Z.to_nat (sets (geo c)) * Z.to_nat (assoc (geo c))) (view c))
}.

Section Blocks.
Context {A : Type} (n k : nat) (P Q Q' R : list A).
Context (HP : length P = (k * n)%nat) (HQ : length Q = n) (HQ' : length Q' = n).

Lemma block_same : take n (drop (k * n) (P ++ Q ++ R)) = Q.
Proof. rewrite <- HP, drop_app_length, <- HQ. apply take_app_length. Qed.

Lemma block_other j : j <> k -> take n (drop (j * n) (P ++ Q ++ R)) = take n (drop (j * n) (P ++ Q' ++ R)).
Proof.
  intros Hj. destruct (decide (j < k)%nat).
  - rewrite !drop_app_le by nia. rewrite !take_app_le by (rewrite length_drop; nia). done.
  - rewrite !drop_app_ge by nia. by rewrite HQ, HQ'.
Qed.

Lemma block_rest j : (k < j)%nat -> drop (j * n) (P ++ Q ++ R) = drop (j * n) (P ++ Q' ++ R).
Proof. intros Hj. rewrite !drop_app_ge by nia. by rewrite HQ, HQ'. Qed.

End Blocks.

(** the lines of a set: entries of the reference, then empty lines *)
Section SetLines.
Context (t : Z) (F : list entry) (J : list Line) (Ht : t <> 0) (HJ : Forall empty J).

Lemma empty_differ : Forall (fun l => tag l <> t) J.
Proof. eapply Forall_impl; [exact HJ|]. intros l [-> _]. congruence. Qed.

Lemma lines_has : has_line t (map to_line F ++ J) = existsb (has_tag t) F.
Proof.
  unfold has_line. rewrite existsb_app. fold (has_line t J). rewrite no_line, orb_false_r by apply empty_differ.
  induction F as [|e F' IH]; [done|]. cbn. by rewrite IH.
Qed.

Lemma lines_written : has_written t (map to_line F ++ J) = existsb (fun e => has_tag t e && e_written e) F.
Proof.
  unfold has_written. rewrite existsb_app. fold (has_written t J). rewrite no_written, orb_false_r by apply empty_differ.
  induction F as [|e F' IH]; [done|]. cbn. by rewrite IH.
Qed.

Lemma lines_other : other_lines t (map to_line F ++ J) = map to_line (others t F) ++ J.
Proof.
  unfold other_lines. rewrite filter_app. fold (other_lines t J). rewrite no_other by apply empty_differ. f_equal.
  unfold others. induction F as [|e F' IH]; [done|]. cbn [map].
  destruct (decide (e_tag e = t)); [rewrite !filter_cons_False by naive_solver|rewrite !filter_cons_True by done; cbn [map]; f_equal]; done.
Qed.

Lemma lines_state : Forall (fun l => state l = StateI) (map to_line F ++ J).
Proof.
  apply Forall_app. split; [by apply Forall_fmap, Forall_true|]. eapply Forall_impl; [exact HJ|]. by intros l [_ ->].
Qed.

Lemma lines_unique V1 x V2 :
  NoDup (map e_tag F) -> map to_line F ++ J = V1 ++ x :: V2 -> tag x = t -> Forall (fun l => tag l <> t) V2.
Proof.
  intros Hnd E Hx. assert (NoDup (filter (fun u => u <> 0) (map tag (V1 ++ x :: V2)))) as H.
  { rewrite <- E, map_app, filter_app, map_map. change (map (fun e => tag (to_line e)) F) with (map e_tag F).
    replace (filter (fun u => u <> 0) (map tag J)) with (@nil Z); [by rewrite app_nil_r; apply NoDup_filter|].
    symmetry. clear E. induction HJ as [|l J' [Hl _] _ IH]; [done|]. cbn [map]. rewrite filter_cons_False by (rewrite Hl; auto). apply IH. by apply Forall_cons in HJ as [_ ?]. }
  rewrite map_app, filter_app in H. apply NoDup_app in H as (_ & _ & H). cbn [map] in H.
  rewrite filter_cons_True in H by congruence. apply NoDup_cons in H as [H _]. apply Forall_forall. intros l Hl El. apply H.
  rewrite Hx, <- El. apply list_elem_of_filter. split; [congruence|]. by apply list_elem_of_fmap_2.
Qed.

End SetLines.

Lemma existsb_in_set (f : entry -> bool) g t L :
  (forall e, f e = true -> e_tag e = t) ->
  existsb f (filter (in_set (set_index g) (set_index g t)) L) = existsb f L.
Proof.
  intros Hf. induction L as [|e L IH]; [done|]. cbn [existsb]. destruct (decide (in_set (set_index g) (set_index g t) e)) as [Hi|Hi].
  - rewrite filter_cons_True by done. cbn [existsb]. by rewrite IH.
  - rewrite filter_cons_False by done. destruct (f e) eqn:E; [|done]. exfalso. apply Hi. unfold in_set. by rewrite (Hf e E).
Qed.

Lemma has_tag_tag t e b : has_tag t e && b = true -> e_tag e = t.
Proof. intros [H _]%andb_true_iff. by apply Z.eqb_eq. Qed.

Lemma map_elements c P Q R : content c = P ++ Q ++ R ->
  view c = map (fun p => mem c !!! p) P ++ map (fun p => mem c !!! p) Q ++ map (fun p => mem c !!! p) R.
Proof. intros Hc. unfold view. by rewrite Hc, !map_app. Qed.

(** the pointers of a set *)
Lemma content_split c i : wf_bank c -> wf_geo (geo c) -> 0 <= i < sets (geo c) ->
  exists P Q R, content c = P ++ Q ++ R /\ length P = (Z.to_nat i * Z.to_nat (assoc (geo c)))%nat /\ length Q = Z.to_nat (assoc (geo c)).
Proof.
  intros Hw Hg Hi. set (a := Z.to_nat (assoc (geo c))). set (b := (Z.to_nat i * a)%nat).
  assert (length (content c) = length (mem c)) as Hlen by (rewrite (wb_content c Hw); apply length_seq).
  assert (b + a <= length (content c))%nat as Hle.
  { rewrite Hlen. pose proof (wb_mem c Hw). pose proof (wg_lines _ Hg). pose proof (wg_assoc_pos _ Hg). unfold b, a.
    rewrite <- Z2Nat.inj_mul, <- Z2Nat.inj_add by nia. nia. }
  exists (take b (content c)), (take a (drop b (content c))), (drop a (drop b (content c))). split_and!.
  - by rewrite take_drop, take_drop.
  - rewrite length_take. lia.
  - rewrite length_take, length_drop. lia.
Qed.

Section Step.
Context (lc : LiveCache) (c : CacheAssoc) (ref : LruCache) (addr : Z) (w : bool).
Abbreviation g := (geo c).
Abbreviation a := (Z.to_nat (assoc (geo c))).
Abbreviation t := (calcTag (geo c) addr).
Context (Hbank : cacheBank lc = Assoc c) (Hg : wf_geo g) (Hr : refines c (recent ref)) (Hl : wf_lru ref)
  (Hnow : now ref = maxOrder lc) (Hmax : maxOrder lc < 2 ^ 64 - 1) (Ht : t <> 0) (Hin : mem_base lc <= addr <= mem_end lc).

Lemma refines_step :
  exists c', access w addr lc = Some (accessed w (existsb (has_tag t) (recent ref)) c' lc) /\ geo c' = g
    /\ refines c' (recent (lru_access a (set_index g) ref w t)).
Proof.
  set (i := set_index g t). pose proof (set_index_range g t Hg) as Hi. fold i in Hi. pose proof (wg_assoc_pos g Hg) as Ha.
  pose proof (rf_bank _ _ Hr) as Hw. destruct (content_split c i Hw Hg Hi) as (P & Q & R & Hc & HP & HQ).
  pose proof (map_elements c P Q R Hc) as Hv. set (lines := map (fun p => mem c !!! p)) in *.
  destruct (rf_set _ _ Hr i Hi) as (J & HJ & He). set (F := filter (in_set (set_index g) i) (recent ref)) in *.
  rewrite Hv, (block_same a (Z.to_nat i) (lines P) (lines Q)) in HJ by (unfold lines; rewrite length_map; lia).
  assert (NoDup (map e_tag F)) as Hnd.
  { eapply sublist_NoDup; [apply sublist_map, sublist_filter_l|apply Hl]. }
  pose proof (wl_now _ Hl) as Hn0.
  destruct (access_step lc c addr w P Q R) as (lc' & c' & E & -> & Hw' & Hg' & Hp' & Hv'); try done.
  { apply Hr. }
  { lia. }
  { rewrite HP. by apply theSet_spec. }
  { fold lines. rewrite HJ. by apply lines_state. }
  { fold lines. rewrite HJ. intros V1 x V2. by apply lines_unique. }
  fold lines in E, Hv'. rewrite HJ, lines_has in E by done. unfold F, i in E. rewrite (existsb_in_set (has_tag t)) in E by (intros e; apply Z.eqb_eq).
  exists c'. split; [done|]. split; [done|].
  assert (exists J', set_accessed lc c addr w Q = map to_line (filter (in_set (set_index g) i) (recent (lru_access a (set_index g) ref w t))) ++ J'
    /\ Forall empty J') as (J' & HS & He').
  { unfold set_accessed. fold lines. rewrite HJ, lines_written, lines_other by done. rewrite set_after, decide_True by done. fold F.
    unfold F at 1, i at 1. rewrite existsb_in_set by (intros e; apply has_tag_tag). rewrite take_app, firstn_map, Hnow.
    eexists. split; [reflexivity|]. by apply Forall_take. }
  assert (length (set_accessed lc c addr w Q) = a) as HS'.
  { apply (f_equal length) in Hv'. unfold view in Hv'. rewrite !length_app, !length_map in Hv'.
    assert (length (content c') = length (content c)) as Hcl.
    { rewrite (wb_content _ Hw'), (wb_content _ Hw), !length_seq. pose proof (wb_mem _ Hw'). pose proof (wb_mem _ Hw). rewrite Hg' in *. lia. }
    rewrite Hcl, Hc, !length_app in Hv'. unfold lines in Hv'. rewrite !length_map in Hv'. lia. }
  assert (length (lines P) = (Z.to_nat i * a)%nat) as HlP by (unfold lines; by rewrite length_map).
  assert (length (lines Q) = a) as HlQ by (unfold lines; by rewrite length_map).
  split; [done|done| |]; rewrite Hg', Hv'.
  - intros j Hj. destruct (decide (j = i)) as [->|Hne].
    + exists J'. split; [|done]. by rewrite (block_same a (Z.to_nat i)).
    + destruct (rf_set _ _ Hr j Hj) as (Jj & HJj & Hej). exists Jj. split; [|done].
      rewrite set_after, decide_False by (fold i; congruence). rewrite <- HJj, Hv. symmetry. by apply (block_other a (Z.to_nat i)); try lia.
  - pose proof (rf_rest _ _ Hr) as H. rewrite Hv in H. rewrite <- (block_rest a (Z.to_nat i) (lines P) (lines Q)) by lia. done.
Qed.

End Step.

(** ** The lines of all the sets *)

Lemma blocks_concat {A} n k (V : list A) :
  take (k * n) V = concat (map (fun i => take n (drop (i * n) V)) (seq 0 k)).
Proof.
  induction k as [|k IH]; [done|]. rewrite seq_S, map_app, concat_app. cbn [map concat Nat.add]. rewrite app_nil_r, <- IH.
  rewrite take_take_drop. f_equal. lia.
Qed.

Section Partition.
Context {A : Type} (f : A -> Z).

Lemma filter_split (k : Z) (l : list A) :
  filter (fun x => 0 <= f x < k + 1) l ≡ₚ filter (fun x => 0 <= f x < k) l ++ filter (fun x => f x = k /\ 0 <= k) l.
Proof.
  induction l as [|x l IH]; [done|]. destruct (decide (0 <= f x < k)).
  - rewrite !filter_cons_True by lia. rewrite (filter_cons_False (fun x => f x = k /\ 0 <= k)) by lia. cbn. by rewrite IH.
  - rewrite (filter_cons_False (fun x => 0 <= f x < k)) by lia. destruct (decide (f x = k /\ 0 <= k)).
    + rewrite !filter_cons_True by lia. rewrite IH. apply Permutation_middle.
    + rewrite !filter_cons_False by lia. done.
Qed.

(** the classes below [k] hold what is below [k] *)
Lemma partition_perm (k : nat) (l : list A) :
  concat (map (fun i => filter (fun x => f x = Z.of_nat i) l) (seq 0 k)) ≡ₚ filter (fun x => 0 <= f x < Z.of_nat k) l.
Proof.
  induction k as [|k IH].
  - cbn. induction l as [|x l IHl]; [done|]. rewrite filter_cons_False by lia. done.
  - rewrite seq_S, map_app, concat_app. cbn [map concat Nat.add]. rewrite app_nil_r, IH.
    replace (Z.of_nat (S k)) with (Z.of_nat k + 1) by lia. rewrite filter_split. f_equiv.
    rewrite (list_filter_iff (fun x => f x = Z.of_nat k) (fun x => f x = Z.of_nat k /\ 0 <= Z.of_nat k)) by lia. done.
Qed.

End Partition.

Lemma filter_lines (P : Line -> Prop) (Q : entry -> Prop) {pd : forall x, Decision (P x)} {qd : forall x, Decision (Q x)} L :
  (forall e, P (to_line e) <-> Q e) -> filter P (map to_line L) = map to_line (filter Q L).
Proof.
  intros H. induction L as [|e L IH]; [done|]. cbn [map].
  destruct (decide (Q e)) as [He|He].
  - rewrite filter_cons_True by (by apply H). rewrite filter_cons_True by done. cbn [map]. by rewrite IH.
  - rewrite filter_cons_False by (by rewrite H). rewrite filter_cons_False by done. done.
Qed.

Section Contents.
Context (c : CacheAssoc) (ref : LruCache) (Hg : wf_geo (geo c)) (Hr : refines c (recent ref)) (Hl : wf_lru ref)
  (Htags : Forall (fun e => 0 < e_tag e < 2 ^ 58) (recent ref)).

Lemma filter_empty J : Forall empty J -> filter (fun l => tag l <> 0) J = [].
Proof. induction 1 as [|l J [Hl0 _] _ IH]; [done|]. rewrite filter_cons_False by (rewrite Hl0; auto). done. Qed.

(** the filled lines are those of the reference *)
Lemma filled_lines : filter (fun l => tag l <> 0) (view c) ≡ₚ map to_line (recent ref).
Proof.
  set (n := Z.to_nat (assoc (geo c))). set (k := Z.to_nat (sets (geo c))).
  rewrite <- (take_drop (k * n) (view c)), filter_app. rewrite (filter_empty (drop (k * n) (view c)) (rf_rest _ _ Hr)), app_nil_r, blocks_concat.
  replace (filter (fun l => tag l <> 0) (concat (map (fun i => take n (drop (i * n) (view c))) (seq 0 k))))
    with (concat (map (fun i => map to_line (filter (fun e => set_index (geo c) (e_tag e) = Z.of_nat i) (recent ref))) (seq 0 k))).
  - rewrite <- map_map, <- concat_map, partition_perm. f_equiv. rewrite filter_all; [done|].
    apply Forall_forall. intros e _. pose proof (set_index_range _ (e_tag e) Hg). unfold k. lia.
  - assert (forall i, (i < k)%nat -> map to_line (filter (fun e => set_index (geo c) (e_tag e) = Z.of_nat i) (recent ref))
      = filter (fun l => tag l <> 0) (take n (drop (i * n) (view c)))) as Hblock.
    { intros i Hi. destruct (rf_set _ _ Hr (Z.of_nat i) ltac:(lia)) as (J & HJ & He). rewrite Nat2Z.id in HJ. fold n in HJ.
      rewrite HJ, filter_app, (filter_empty J He), app_nil_r. unfold in_set. symmetry. apply filter_all, Forall_fmap.
      eapply sublist_Forall; [apply sublist_filter_l|]. eapply Forall_impl; [exact Htags|]. intros e. cbn. lia. }
    revert Hblock. generalize k. intros k'. induction k' as [|k' IH]; intros Hb; [done|].
    rewrite seq_S, !map_app, !concat_app, filter_app. cbn [map concat Nat.add]. rewrite !app_nil_r, <- Hb by lia. f_equal.
    apply IH. intros i Hi. apply Hb. lia.
Qed.

Lemma times_differ L e1 e2 : StronglySorted newer L -> e1 ∈ L -> e2 ∈ L -> e_time e1 = e_time e2 -> e1 = e2.
Proof.
  induction L as [|e L IH]; intros Hs H1 H2 E; [by apply elem_of_nil in H1|].
  apply StronglySorted_cons in Hs as [Hx Hs]. rewrite Forall_forall in Hx. unfold newer in Hx.
  apply elem_of_cons in H1 as [->|H1], H2 as [->|H2]; [done| | |by apply IH].
  - apply Hx in H2. lia.
  - apply Hx in H1. lia.
Qed.

(** sorting the used lines by their stamps lists the reference from its end *)
Lemma sorted_lines :
  filter (fun l => tag l <> 0) (mergeSort order (filter (fun l => order l <> 0) (view c)))
    = map to_line (reverse (filter (fun e => e_time e <> 0) (recent ref))).
Proof.
  set (L' := filter (fun e => e_time e <> 0) (recent ref)).
  destruct (mergeSort_spec order (filter (fun l => order l <> 0) (view c))) as [Hs Hp].
  assert (filter (fun l => tag l <> 0) (mergeSort order (filter (fun l => order l <> 0) (view c))) ≡ₚ map to_line (reverse L')) as Hperm.
  { rewrite Hp, filter_comm, filled_lines. rewrite (filter_lines _ (fun e => e_time e <> 0)) by done. fold L'.
    by rewrite reverse_Permutation. }
  apply (StronglySorted_unique_strong (key_le order)); [| | |done].
  - intros x1 x2 H1 H2 O1 O2. rewrite Hperm in H1. unfold key_le in *.
    apply list_elem_of_fmap in H1 as (e1 & -> & H1), H2 as (e2 & -> & H2). f_equal. cbn in O1, O2.
    rewrite elem_of_reverse in H1, H2. apply list_elem_of_filter in H1 as [_ H1], H2 as [_ H2].
    apply (times_differ (recent ref)); [apply Hl|done|done|lia].
  - eapply StronglySorted_sublist; [apply sublist_filter_l|done].
  - assert (StronglySorted newer L') as Ho by (eapply StronglySorted_sublist; [apply sublist_filter_l|apply Hl]).
    apply StronglySorted_Sorted, Sorted_reverse, Sorted_StronglySorted in Ho.
    + clear Hperm. induction Ho as [|e l _ IH Hx]; [constructor|]. cbn [map]. constructor; [done|]. apply Forall_fmap.
      eapply Forall_impl; [exact Hx|]. unfold flip, newer, key_le. cbn. lia.
    + intros x y z. unfold flip, newer. lia.
Qed.

End Contents.

(** ** Whole runs *)

(** the word [traverse] gives for a line *)
Definition entry_word (e : entry) : Z := 64 * e_tag e + b2z (e_written e).

Fixpoint live_run (accs : list (bool * Z)) (lc : LiveCache) : option LiveCache :=
  match accs with
  | [] => Some lc
  | a :: accs => lc ← access a.1 a.2 lc; live_run accs lc
  end.

Lemma line_word_spec g e : log2AddrLs g = 6 -> 0 < e_tag e < 2 ^ 58 -> line_word g (to_line e) = Some (entry_word e).
Proof.
  intros Hg He. unfold line_word, calcAddr4Tag, entry_word. cbn [st tag to_line]. rewrite Hg, Z.shiftl_mul_pow2 by lia.
  rewrite uN_small by (unfold in_u; lia). change (2 ^ 6) with 64. destruct (e_written e); cbn [b2z].
  - f_equal. replace (e_tag e * 64) with ((32 * e_tag e) * 2) by lia. rewrite Z.lor_comm.
    change 2 with (2 ^ 1) at 1. rewrite <- Z.shiftl_mul_pow2 by lia. rewrite lor_disjoint_add by (unfold in_u; lia). lia.
  - replace ((e_tag e * 64) .& 1) with 0; [cbn; f_equal; lia|]. change 1 with (Z.ones 1). rewrite Z.land_ones by lia.
    change (2 ^ 1) with 2. symmetry. replace (e_tag e * 64) with ((32 * e_tag e) * 2) by lia. by rewrite Z.mod_mul.
Qed.

Lemma mapM_total {A B} (f : A -> option B) (h : A -> B) l : (forall x, x ∈ l -> f x = Some (h x)) -> mapM f l = Some (map h l).
Proof.
  intros H. apply mapM_Some_2. induction l as [|x l IH]; cbn [map]; [constructor|]. constructor; [by apply H; left|].
  apply IH. intros y Hy. apply H. by right.
Qed.

Lemma mapM_lines g L : (forall e, e ∈ L -> line_word g (to_line e) = Some (entry_word e)) -> mapM (line_word g) (map to_line L) = Some (map entry_word L).
Proof.
  intros H. apply mapM_Some_2. induction L as [|e L IH]; cbn [map]; constructor; [apply H; left|]. apply IH. intros e' He. apply H. by right.
Qed.

Section Traverse.
Context (lc : LiveCache) (c : CacheAssoc) (Hbank : cacheBank lc = Assoc c) (Hw : wf_bank c) (Hcount : lineCount lc = numLines (geo c)).

Lemma used_lines_spec : used_lines lc = Some (filter (fun l => order l <> 0) (view c)).
Proof.
  assert (length (content c) = length (mem c)) as Hlen by (rewrite (wb_content c Hw); apply length_seq).
  pose proof (wb_mem c Hw) as Hm. unfold used_lines. rewrite Hbank, Hcount.
  rewrite (mapM_total _ (fun i => content c !!! i)).
  - cbn [mbind option_bind]. replace (map (fun i => content c !!! i) (seq 0 (Z.to_nat (numLines (geo c))))) with (content c).
    + rewrite (mapM_total _ (fun p => mem c !!! p)); [done|]. intros p Hp. cbn. apply list_lookup_lookup_total_lt. by apply wb_pointer.
    + apply list_eq. intros i. rewrite list_lookup_fmap. destruct (decide (i < length (content c))%nat).
      * rewrite lookup_seq_lt by lia. cbn. by apply list_lookup_lookup_total_lt.
      * rewrite lookup_seq_ge by lia. by apply lookup_ge_None_2; lia.
  - intros i Hi. apply elem_of_seq in Hi. cbn. unfold getPLine. replace (Z.of_nat i <? numLines (geo c)) with true by lia.
    cbn. rewrite Nat2Z.id. apply list_lookup_lookup_total_lt. lia.
Qed.

End Traverse.

(** the cache and the reference after the same accesses *)
Record tracks (size base bound : Z) (lc : LiveCache) (ref : LruCache) : Prop := {
  tr_bank : exists c, cacheBank lc = Assoc c /\ wf_geo (geo c) /\ refines c (recent ref)
    /\ assoc (geo c) = 16 /\ log2AddrLs (geo c) = 6 /\ maskSets (geo c) = size / 1024 - 1 /\ numLines (geo c) = lineCount lc;
  tr_lru : wf_lru ref;
  tr_tags : Forall (fun e => 0 < e_tag e < 2 ^ 58) (recent ref);
  tr_now : now ref = maxOrder lc;
  tr_base : mem_base lc = base;
  tr_end : mem_end lc = bound;
  tr_counts : nReadHit lc = hits ref false /\ nReadMiss lc = misses ref false
    /\ nWriteHit lc = hits ref true /\ nWriteMiss lc = misses ref true
}.

Definition size_set (size t : Z) : Z := t .& (size / 1024 - 1).
Definition in_range (base bound : Z) (acc : bool * Z) : Prop := base <= acc.2 <= bound.
#[export] Instance in_range_dec base bound acc : Decision (in_range base bound acc) := decide (base <= acc.2 <= bound).
(** the accesses between the bounds, by tag *)
Definition tracked (base bound : Z) (accs : list (bool * Z)) : list (bool * Z) :=
  map (fun acc => (acc.1, acc.2 >> 6)) (filter (in_range base bound) accs).

Lemma size_set_index size g : maskSets g = size / 1024 - 1 -> set_index g = size_set size.
Proof. intros H. unfold set_index. by rewrite H. Qed.

Lemma tracks_step size base bound lc ref acc :
  64 <= base -> in_u 64 acc.2 -> maxOrder lc < 2 ^ 64 - 1 -> tracks size base bound lc ref ->
  exists lc', access acc.1 acc.2 lc = Some lc'
    /\ tracks size base bound lc' (if decide (in_range base bound acc) then lru_access 16 (size_set size) ref acc.1 (acc.2 >> 6) else ref).
Proof.
  intros Hb Ha Hm Htr. pose proof (tr_base _ _ _ _ _ Htr) as Hbase. pose proof (tr_end _ _ _ _ _ Htr) as Hend.
  destruct (decide (in_range base bound acc)) as [Hin|Hout]; unfold in_range in *.
  - destruct Htr as [(c & Hbank & Hg & Hr & Hassoc & Hls & Hmask & Hn) Hlru Htags Hnow _ _ (C1 & C2 & C3 & C4)].
    assert (calcTag (geo c) acc.2 = acc.2 >> 6) as Ht by (unfold calcTag; by rewrite Hls).
    assert (0 < acc.2 >> 6 < 2 ^ 58) as Htag.
    { rewrite Z.shiftr_div_pow2 by lia. unfold in_u in Ha. split; [apply Z.div_str_pos; lia|apply Z.div_lt_upper_bound; lia]. }
    destruct (refines_step lc c ref acc.2 acc.1) as (c' & E & Hg' & Hr'); try done; [by rewrite Ht; lia|by rewrite Hbase, Hend|].
    rewrite Ht, Hassoc, (size_set_index size) in Hr' by done. rewrite Ht in E. change (Z.to_nat 16) with 16%nat in Hr'.
    eexists. split; [exact E|]. split; cbn [accessed cacheBank lineCount maxOrder mem_base mem_end nReadHit nReadMiss nWriteHit nWriteMiss].
    + exists c'. rewrite Hg'. done.
    + apply wf_lru_access; [lia|done].
    + cbn [lru_access recent]. constructor; [done|]. eapply sublist_Forall; [apply kept_sublist|done].
    + cbn [lru_access now]. lia.
    + done.
    + done.
    + cbn [lru_access hits misses]. rewrite C1, C2, C3, C4. set (hit := existsb _ (recent ref)). unfold bump.
      destruct acc.1, hit; cbn [b2z negb andb eqb]; split_and!; lia.
  - exists lc. split; [|done]. unfold access, read, write. rewrite Hbase, Hend.
    replace ((acc.2 <? base) || (acc.2 >? bound)) with true by (rewrite Z.gtb_ltb; lia). by destruct acc.1.
Qed.

Lemma tracks_run size base bound accs lc ref :
  64 <= base -> Forall (fun acc => in_u 64 acc.2) accs -> maxOrder lc + Z.of_nat (length accs) < 2 ^ 64 -> tracks size base bound lc ref ->
  exists lc', live_run accs lc = Some lc'
    /\ tracks size base bound lc' (foldl (fun r a => lru_access 16 (size_set size) r a.1 a.2) ref (tracked base bound accs)).
Proof.
  intros Hb. revert lc ref. induction accs as [|acc accs IH]; intros lc ref Ha Hm Htr; [by exists lc|].
  apply Forall_cons in Ha as [Ha0 Ha]. cbn [length] in Hm.
  destruct (tracks_step size base bound lc ref acc Hb Ha0 ltac:(lia) Htr) as (lc1 & E & Htr1).
  cbn [live_run]. rewrite E. cbn [mbind option_bind]. unfold tracked.
  assert (maxOrder lc1 <= maxOrder lc + 1) as Hm1.
  { rewrite <- (tr_now _ _ _ _ _ Htr1), <- (tr_now _ _ _ _ _ Htr). destruct (decide _); cbn [lru_access now]; lia. }
  destruct (IH lc1 _ Ha ltac:(lia) Htr1) as (lc' & E' & Htr'). exists lc'. split; [done|]. revert Htr'.
  destruct (decide (in_range base bound acc)); [rewrite filter_cons_True by done|rewrite filter_cons_False by done]; intros Htr'; exact Htr'.
Qed.

(** ** Properties *)

Lemma liveCache_starts size base msize junk :
  1088 <= size < 2 ^ 31 ->
  exists lc, liveCache size base msize junk = Some lc /\ tracks size base (u64 (base + msize)) lc lru_empty /\ maxOrder lc = 0.
Proof.
  intros Hsize. assert (17 <= size / 64) as Hn by (apply Z.div_le_lower_bound; lia).
  assert (size / 64 < 2 ^ 31) as Hn' by (apply Z.div_lt_upper_bound; lia).
  assert (size / 64 / 16 = size / 1024) as Hd by (by rewrite Z.div_div by lia).
  assert (1 <= size / 1024) as Hs by (apply Z.div_le_lower_bound; lia).
  assert (size / 1024 * 16 <= size / 64) as Hl by (rewrite <- Hd, Z.mul_comm; by apply Z.mul_div_le).
  assert (cacheGeneric (u32 size) (u32 16) (u32 64) false
    = Some (mkGeneric size 64 16 4 6 15 (size / 1024) (size / 1024 - 1) (Z.log2_up (size / 1024)) (size / 64) false)) as Hgen.
  { unfold cacheGeneric. rewrite (uN_small 32 size) by (unfold in_u; lia). change (u32 16) with 16. change (u32 64) with 64.
    rewrite !log2i_spec, Hd by lia. change (Z.log2_up 16) with 4. change (Z.log2_up 64) with 6. cbn.
    by rewrite (uN_small 32 (size / 1024 - 1)) by (unfold in_u; lia). }
  set (g := mkGeneric _ _ _ _ _ _ _ _ _ _ _) in Hgen.
  set (all := seq 0 (Z.to_nat (size / 64))). set (c := mkAssoc g (map (fun i => new_line (junk i)) all) all 0 LRU).
  exists (mkLive (Assoc c) (size / 64) 0 base (u64 (base + msize)) 0 0 0 0). split; [|split; [|done]].
  - unfold liveCache, create. change (16 =? 1) with false. cbn iota. unfold cacheAssoc. rewrite Hgen.
    cbn [mbind option_bind numLines g]. replace (0 <? size / 64) with true by lia. cbn [c_assert mbind option_bind].
    rewrite sN_small by (unfold in_s; lia). replace (16 <? size / 64) with true by lia. cbn [c_assert mbind option_bind]. reflexivity.
  - assert (length all = Z.to_nat (size / 64)) as Ha by apply length_seq.
    assert (Forall empty (view c)) as Hempty.
    { unfold view. apply Forall_fmap, Forall_forall. intros p Hp. cbn [content c] in Hp. apply elem_of_seq in Hp.
      change (empty (map (fun i => new_line (junk i)) all !!! p)).
      rewrite list_lookup_total_alt, list_lookup_fmap. unfold all. rewrite lookup_seq_lt by lia. done. }
    split; [|apply wf_lru_empty|constructor|reflexivity|reflexivity|reflexivity|repeat split; reflexivity].
    assert (wf_geo g) as Hg by (split; cbn; lia || reflexivity).
    exists c. split; [reflexivity|]. split; [exact Hg|]. split; [|repeat split; reflexivity]. split; [|reflexivity| |].
    + split; cbn [content mem geo c numLines g]; rewrite length_map, Ha; [done|lia].
    + intros i Hi. exists (take (Z.to_nat (assoc (geo c))) (drop (Z.to_nat i * Z.to_nat (assoc (geo c))) (view c))).
      split; [done|]. by apply Forall_take, Forall_drop.
    + by apply Forall_drop.
Qed.

(** C19: the cache model is a set-associative LRU cache.  From its construction on
    and over any sequence of reads and writes, its hit and miss counters are those
    of the reference, which keeps in each set the 16 lines last accessed; and
    [traverse] lists exactly the reference's lines, the least recent first,
    each with its address and whether it was written since it was filled.
    One line is missing: the one whose last access was the first access of all,
    whose stamp is 0. *)
Theorem live_cache_refines size base msize junk accs :
  1088 <= size < 2 ^ 31 -> 64 <= base -> Forall (fun acc => in_u 64 acc.2) accs -> Z.of_nat (length accs) < 2 ^ 64 ->
  let bound := u64 (base + msize) in
  let ref := lru_run 16 (size_set size) (tracked base bound accs) in
  exists lc0 lc, liveCache size base msize junk = Some lc0 /\ live_run accs lc0 = Some lc
    /\ traverse lc = Some (map entry_word (reverse (filter (fun e => e_time e <> 0) (recent ref))))
    /\ (nReadHit lc = hits ref false /\ nReadMiss lc = misses ref false
        /\ nWriteHit lc = hits ref true /\ nWriteMiss lc = misses ref true)
    /\ forall i, map e_tag (filter (fun e => size_set size (e_tag e) = i) (recent ref))
         = take 16 (filter (fun t => size_set size t = i) (recency (rev (map snd (tracked base bound accs))))).
Proof.
  intros Hsize Hb Ha Hlen bound ref. destruct (liveCache_starts size base msize junk Hsize) as (lc0 & E0 & Htr0 & Hm0). fold bound in Htr0.
  destruct (tracks_run size base bound accs lc0 lru_empty Hb Ha ltac:(lia) Htr0) as (lc & E & Htr). fold (lru_run 16 (size_set size)) in Htr.
  change (foldl _ lru_empty (tracked base bound accs)) with ref in Htr.
  exists lc0, lc. split; [done|]. split; [done|]. split; [|split; [apply Htr|]].
  - destruct Htr as [(c & Hbank & Hg & Hr & Hassoc & Hls & Hmask & Hn) Hlru Htags _ _ _ _].
    unfold traverse. rewrite (used_lines_spec lc c Hbank (rf_bank _ _ Hr) (eq_sym Hn)). cbn [mbind option_bind]. rewrite Hbank. cbn [cache_geo].
    rewrite (sorted_lines c ref) by done. rewrite (mapM_lines (geo c)); [done|].
    intros e He. rewrite elem_of_reverse in He. apply list_elem_of_filter in He as [_ He]. rewrite Forall_forall in Htags.
    apply line_word_spec; [done|by apply Htags].
  - intros i. apply (lru_keeps_recent 16 (size_set size)). lia.
Qed.

Lemma live_cache_refines_witness :
  exists lc0 lc, liveCache 2048 0x80000000 0x1000 (fun _ => (false, 5)) = Some lc0
    /\ live_run [(false, 0x80000000); (true, 0x80000040); (false, 0x80000080); (false, 0x80000048); (true, 0x1000)] lc0 = Some lc
    /\ traverse lc = Some [0x80000080; 0x80000041].
Proof.
  destruct (live_cache_refines 2048 0x80000000 0x1000 (fun _ => (false, 5))
    [(false, 0x80000000); (true, 0x80000040); (false, 0x80000080); (false, 0x80000048); (true, 0x1000)])
    as (lc0 & lc & E0 & E & T & _); [lia|lia|apply (bool_decide_unpack _); by vm_compute|simpl; lia|].
  exists lc0, lc. split; [exact E0|]. split; [exact E|]. rewrite T. vm_compute. reflexivity.
Defined.
