(* ===== verification/InterpProps.v ===== *)
(** * What the interpreter guarantees *)

From S2P Require Import Prelude Riscv CpuState IoMem Mmu Csr Trap IntArith Insn SoftFp Exec FpExec Interp Invariant WorldInv InterpInv.


(** ** A concrete machine: RAM at 0x80000000, no devices, no hooks *)

#[local] Instance no_devices : DeviceIO unit :=
  {| read_func _ _ _ w := (0, w); write_func _ _ _ _ w := w |}.
#[local] Instance no_hooks : MachineHooks unit := {| csr_read_hook := None; csr_write_hook := None |}.
#[local] Instance no_devices_wf : WfDeviceIO unit.
Proof. by constructor. Qed.
#[local] Instance no_hooks_wf : WfHooks unit.
Proof. by constructor. Qed.

Definition ram_host : Z := 0x7f0000000000.
Definition demo_map : PhysMemoryMap :=
  match default_register_ram [] 0x80000000 0x10000 0 ram_host ∅ with Some (_, m, _) => m | None => [] end.
(** addi x1, x0, 5; addi x2, x1, 7; mul x3, x2, x2; an undefined instruction *)
Definition demo_program : list Z := [0x00500093; 0x00708113; 0x022101b3; 0].
Definition demo_memory : HostMem :=
  foldl (fun m '(i, v) => hm_write 4 (ram_host + 4 * i) v m) ∅ (zip (seqZ 0 4) demo_program).
Definition demo_world : World unit :=
  mkWorld (with_physical_addr_len 56 (riscv_cpu_init 0x80000000 0 false false))
    demo_map demo_memory tt false (-1).

Lemma demo_wf : wf_cpu (cpu demo_world).
Proof.
  apply wf_with_physical_addr_len; [lia|]. apply wf_riscv_cpu_init; unfold in_u; lia.
Qed.


(** the program computes 12 * 12 in x3, then traps to the vector *)
Example demo_runs :
  match riscv_cpu_interp 4 demo_world with
  | Executed k w => k = 3 /\ rd (reg (cpu w)) 3 = 144 /\ mcause (cpu w) = CAUSE_ILLEGAL_INSTRUCTION
                    /\ mepc (cpu w) = 0x8000000c
  | _ => False
  end.
Proof. by vm_compute. Qed.
