(* ===== verification/Cosim.v ===== *)
(** * Co-simulation (dromajo_cosim.cpp)

    A test bench steps the emulator beside its own core (the device under test,
    DUT) and passes what that core committed; the emulator executes one
    instruction and compares.  The state is the hart's [World], whose
    [pending_interrupt] is the machine's, with the two fields of the machine the
    functions use besides.  Log messages are left out. *)

From S2P Require Import Prelude Riscv CpuState IoMem Mmu Csr Trap Insn IntArith SoftFp Exec FpExec Interp.

(** ** Detecting what the emulator cannot follow *)

Definition is_store_conditional (insn : Z) : bool :=
  let opcode := insn .& 0x7f in
  let funct3 := (insn >> 12) .& 7 in
  (opcode =? 0x2f) && ((insn >> 27) =? 3) && ((funct3 =? 2) || (funct3 =? 3)).

(** AMO instructions and LR, not SC *)
Definition is_amo (insn : Z) : bool :=
  if negb ((insn .& 0x7f) =? 0x2f) then false
  else existsb (Z.eqb (insn >> 27)) [1; 2; 0; 4; 0xc; 0x8; 0x10; 0x14; 0x18; 0x1c].

(** the CSRs whose value is taken from the DUT: counters, mip and sip *)
Definition overridden_csr (csrno : Z) : bool :=
  ((0xB00 <=? csrno) && (csrno <? 0xB20)) || ((0xC00 <=? csrno) && (csrno <? 0xC20))
  || ((csrno =? 0x344) || (csrno =? 0x144)).

(** the base register, offset and destination of a load the DUT may override *)
Definition override_load (insn : Z) : option (Z * Z * Z) :=
  let opcode := insn .& 0x7f in
  let rd := (insn >> 7) .& 0x1f in
  let rdc := ((insn >> 2) .& 7) + 8 in
  if ((opcode =? 3) || is_amo insn) && negb (rd =? 0) then
    Some ((insn >> 15) .& 0x1f, if opcode =? 3 then s32 insn >> 20 else 0, rd)
  else if ((insn .& 0xE003) =? 0x6000) && negb (rdc =? 0) then
    Some (((insn >> 7) .& 7) + 8, get_field1 insn 10 3 5 .| get_field1 insn 5 6 7, rdc)
  else if ((insn .& 0xE003) =? 0x4000) && negb (rdc =? 0) then
    Some (((insn >> 7) .& 7) + 8, get_field1 insn 10 3 5 .| get_field1 insn 6 2 2 .| get_field1 insn 5 6 6, rdc)
  else None.

(** [pending_exception] and [maxinsns] of the machine *)
Record Cosim (D : Type) := mkCosim { cw : World D; cpending_exception : Z; maxinsns : Z }.
#[global] Arguments mkCosim {D}.
#[global] Arguments cw {D}.
#[global] Arguments cpending_exception {D}.
#[global] Arguments maxinsns {D}.

Section Cosim.
Context {D : Type} {io : DeviceIO D} {hooks : MachineHooks D}.
Implicit Types (w : World D) (c : Cosim D).

Definition with_pending_interrupt (i : Z) w : World D := mkWorld (cpu w) (mem_map w) (hmem w) (dev w) (cosim w) i.
Definition set_cw w c : Cosim D := mkCosim w (cpending_exception c) (maxinsns c).

(** [None]: the address does not translate, and [pa] is read uninitialised *)
Definition is_mmio_load w (reg offset size : Z) : option bool :=
  base ← riscv_get_reg_previous reg (cpu w);
  let va := u64 (base + offset) in
  let '(err, pa) := riscv_cpu_get_phys_addr w va ACCESS_READ in
  if negb (err =? 0) then None
  else Some (riscv_cpu_pmp_access_ok (cpu w) pa size PMPCFG_R
             && match get_phys_mem_range (mem_map w) pa with None => true | Some _ => false end).

Definition set_reg (rn val : Z) w : option (World D) :=
  s ← riscv_set_reg rn val (cpu w); Some (with_cpu s w).

Definition handle_dut_overrides (insn dut_wdata : Z) w : option (World D) :=
  let opcode := insn .& 0x7f in
  let csrno := insn >> 20 in
  let rd := (insn >> 7) .& 0x1f in
  let size := (insn >> 12) .& 3 in
  w ← (if (opcode =? 0x73) && negb (rd =? 0) && overridden_csr csrno then set_reg rd dut_wdata w else Some w);
  match override_load insn with
  | None => Some w
  | Some (reg, offset, rd) =>
      mmio ← is_mmio_load w reg offset size;
      if (mmio : bool) then set_reg rd dut_wdata w else Some w
  end.

(** [None]: the assertion that no interrupt is pending fails *)
Definition dromajo_cosim_raise_trap (cause : Z) c : option (Cosim D) :=
  if cause <? 0 then
    if pending_interrupt (cw c) =? -1
    then Some (set_cw (with_pending_interrupt (cause .& 63) (cw c)) c)
    else None
  else Some (mkCosim (cw c) (s32 cause) (maxinsns c)).

(** ** A step *)

(** what the loop leaves in the local variables when it breaks *)
Record Commit := mkCommit { emu_pc : Z; emu_insn : Z; iregno : Z; fregno : Z }.

(** [Broke]: the loop ended with a commit; [Returned]: the function returned from
    inside it; [Looping]: the fuel ran out; [Failed]: a failed assertion or
    behaviour C leaves undefined *)
Inductive LoopResult := Broke (k : Commit) (c : Cosim D) | Returned (code : Z) (c : Cosim D) | Looping | Failed.

(** the instruction bits at the pc; where the fetch fails they keep their last
    value [old] *)
Definition peek (old : Z) w : Z * World D :=
  let '(res, insn, w) := riscv_read_insn (riscv_get_pc (cpu w)) w in
  let insn := if res =? 0 then insn else old in
  (if (insn .& 3) =? 3 then insn else insn .& 0xFFFF, w).

(** the interrupt line the DUT reported; [1 << n] of an [int] *)
Definition inject_interrupt w : option (World D) :=
  let n := pending_interrupt w in
  if n =? -1 then Some w
  else if n <? 32 then Some (riscv_cpu_set_mip (u32 (riscv_cpu_get_mip (cpu w) .| (1 << n))) w)
  else None.

Fixpoint step_loop (fuel : nat) (dut_pc dut_insn dut_wdata old : Z) c : LoopResult :=
  match fuel with
  | O => Looping
  | S fuel =>
      let p := riscv_get_pc (cpu (cw c)) in
      let '(insn, w) := peek old (cw c) in
      if (p =? dut_pc) && (insn =? dut_insn) && is_store_conditional insn && negb (dut_wdata =? 0) then
        let ireg := (insn >> 7) .& 0x1f in
        match (if 0 <? ireg then set_reg ireg dut_wdata w else Some w) with
        | None => Failed
        | Some w => Broke (mkCommit p insn ireg (-1)) (set_cw (upd_cpu (riscv_set_pc (u64 (p + 4))) w) c)
        end
      else
        let raced := negb (pending_interrupt w =? -1) && negb (cpending_exception c =? -1) in
        match (if raced then riscv_cpu_interp64 1 w else Executed 0 w) with
        | Executed _ w =>
            let s := cpu w in
            let cause := s32 (if priv s =? PRV_S then scause s else mcause s) in
            if raced && negb (cpending_exception c =? cause) then Returned 0x1FFF (set_cw w c)
            else
              match inject_interrupt w with
              | None => Failed
              | Some w =>
                  match riscv_cpu_interp64 1 w with
                  | Executed n w =>
                      if negb (n =? 0) then
                        Broke (mkCommit p insn (most_recently_written_reg (cpu w)) (most_recently_written_fp_reg (cpu w)))
                          (set_cw w c)
                      else
                        step_loop fuel dut_pc dut_insn dut_wdata insn
                          (mkCosim (with_pending_interrupt (-1) w) (-1) (maxinsns c))
                  | _ => Failed
                  end
              end
        | _ => Failed
        end
  end.

(** the value the instruction wrote: [None] where it wrote no register *)
Definition written (k : Commit) w : option (option Z) :=
  if 0 <? iregno k then v ← riscv_get_reg (iregno k) (cpu w); Some (Some v)
  else if 0 <=? fregno k then v ← riscv_get_fpreg (fregno k) (cpu w); Some (Some v)
  else Some None.

(** the comparison with the DUT's commit *)
Definition mismatch (k : Commit) (wdata : option Z) (dut_pc dut_insn dut_wdata : Z) : bool :=
  negb (emu_pc k =? dut_pc)
  || (negb (emu_insn k =? dut_insn) && ((emu_insn k .& 3) =? 3))
  || match wdata with Some v => negb (v =? dut_wdata) | None => false end.

Inductive StepResult := Stepped (code : Z) (c : Cosim D) | StepRunning | StepFailed.

(** after the loop: overrides, comparison, shadow registers *)
Definition step_end (dut_pc dut_insn dut_wdata : Z) (check : bool) (k : Commit) c : StepResult :=
  match (if check then handle_dut_overrides (emu_insn k) dut_wdata (cw c) else Some (cw c)) with
  | None => StepFailed
  | Some w =>
      match written k w with
      | None => StepFailed
      | Some wdata =>
          if negb check then Stepped 0 (set_cw w c)
          else
            Stepped (if mismatch k wdata dut_pc dut_insn dut_wdata then 0x1FFF else 0)
              (set_cw (upd_cpu riscv_cpu_sync_regs w) c)
      end
  end.

(** [junk] is what the uninitialised [emu_insn] holds *)
Definition dromajo_cosim_step (fuel : nat) (dut_pc dut_insn dut_wdata : Z) (check : bool) (junk : Z) c : StepResult :=
  if maxinsns c =? 0 then Stepped 1 c
  else
    let c := mkCosim (cw c) (cpending_exception c) (maxinsns c - 1) in
    if terminate_simulation (cpu (cw c)) then Stepped 1 c
    else
      match step_loop fuel dut_pc dut_insn dut_wdata junk c with
      | Broke k c => step_end dut_pc dut_insn dut_wdata check k c
      | Returned code c => Stepped code c
      | Looping => StepRunning
      | Failed => StepFailed
      end.

(** ** Writing memory from outside; [None] is [abort()] *)
Definition dromajo_cosim_override_mem (dut_paddr dut_val size_log2 : Z) w : option (World D) :=
  match get_phys_mem_range (mem_map w) dut_paddr with
  | None => Some w
  | Some (i, pr) =>
      let offset := u64 (dut_paddr - pr_addr pr) in
      if pr_is_ram pr then
        let w := with_mem_map (alter (fun pr => phys_mem_set_dirty_bit pr offset) i (mem_map w)) w in
        if (0 <=? size_log2) && (size_log2 <=? 3)
        then Some (store (Z.to_nat (1 << size_log2)) (ram_ptr pr dut_paddr) dut_val w)
        else None
      else Some (device_write pr offset dut_val size_log2 w)
  end.

End Cosim.
