(* ===== verification/Checkpoint.v ===== *)
(** * Checkpoints (riscv_cpu.cpp: create_boot_rom, riscv_cpu_serialize, riscv_cpu_deserialize)

    A checkpoint is the contents of main memory and of a boot ROM that, run by a
    hart after reset, restores the registers.  [Rom] is the ROM under construction
    with its two write positions; [None] is a write outside the array, [exit] or a
    failed assertion.  The text file of the registers, which nothing reads back,
    is left out, as is the cache warm-up loop of LIVECACHE builds. *)

From S2P Require Import Prelude Riscv CpuState IoMem Mmu Csr Machine Virtio VirtMachine.

(** ** The instructions of the ROM *)

Definition create_csrrw (rs csrn : Z) : Z := 0x1073 .| ((csrn .& 0xFFF) << 20) .| ((rs .& 0x1F) << 15).
Definition create_csrrs (rd csrn : Z) : Z := 0x2073 .| ((csrn .& 0xFFF) << 20) .| ((rd .& 0x1F) << 7).
Definition create_auipc (rd addr : Z) : Z :=
  let addr := if tst (addr .& 0x800) then u32 (addr + 0x800) else addr in
  0x17 .| ((rd .& 0x1F) << 7) .| ((addr >> 12) << 12).
Definition create_addi (rd addr : Z) : Z :=
  let pos := addr .& 0xFFF in
  0x13 .| ((rd .& 0x1F) << 7) .| ((rd .& 0x1F) << 15) .| ((pos .& 0xFFF) << 20).
Definition create_seti (rd data : Z) : Z := 0x13 .| ((rd .& 0x1F) << 7) .| ((data .& 0xFFF) << 20).
Definition create_ld (rd rs1 : Z) : Z := 3 .| ((rd .& 0x1F) << 7) .| (3 << 12) .| ((rs1 .& 0x1F) << 15).
Definition create_sd (rs1 rs2 : Z) : Z := 0x23 .| ((rs2 .& 0x1F) << 20) .| (3 << 12) .| ((rs1 .& 0x1F) << 15).
Definition create_fld (rd rs1 : Z) : Z := 7 .| ((rd .& 0x1F) << 7) .| (0x3 << 12) .| ((rs1 .& 0x1F) << 15).

(** ** The ROM under construction *)

Record Rom := mkRom { rom : list Z; code_pos : Z; data_pos : Z }.
Definition rom_words : Z := ROM_SIZE / 4.

(** [rom[code_pos++] = w] and [rom[data_pos++] = w] *)
Definition code (w : Z) (r : Rom) : option Rom :=
  if code_pos r <? rom_words then Some (mkRom (<[Z.to_nat (code_pos r) := w]> (rom r)) (code_pos r + 1) (data_pos r)) else None.
Definition data (w : Z) (r : Rom) : option Rom :=
  if data_pos r <? rom_words then Some (mkRom (<[Z.to_nat (data_pos r) := w]> (rom r)) (code_pos r) (data_pos r + 1)) else None.
Definition data64 (v : Z) (r : Rom) : option Rom := r ← data (v .& 0xFFFFFFFF) r; data (v >> 32) r.

(** [sizeof(uint32_t) * (data_pos - code_pos)] *)
Definition data_off (r : Rom) : Z := u32 (4 * (data_pos r - code_pos r)).

(** the address of the next data word into [rd] *)
Definition code_addr (rd off : Z) (r : Rom) : option Rom := r ← code (create_auipc rd off) r; code (create_addi rd off) r.

Definition create_csr12_recovery (csrn val : Z) (r : Rom) : option Rom :=
  r ← code (create_seti 1 (u16 val .& 0xFFF)) r; code (create_csrrw 1 csrn) r.

Definition create_csr64_recovery (csrn val : Z) (r : Rom) : option Rom :=
  r ← code_addr 1 (data_off r) r;
  r ← code (create_ld 1 1) r;
  r ← code (create_csrrw 1 csrn) r;
  data64 val r.

Definition create_reg_recovery (rn val : Z) (r : Rom) : option Rom :=
  r ← code_addr rn (data_off r) r;
  r ← code (create_ld rn rn) r;
  data64 val r.

Definition create_io64_recovery (addr val : Z) (r : Rom) : option Rom :=
  r ← code_addr 1 (data_off r) r;
  r ← code (create_ld 1 1) r;
  r ← data64 addr r;
  r ← code_addr 2 (data_off r) r;
  r ← code (create_ld 2 2) r;
  r ← code (create_sd 1 2) r;
  data64 val r.

(** csrr a0, mhartid; beqz a0, 1f; 0: wfi; j 0b; 1: *)
Definition create_hang_nonzero_hart (r : Rom) : option Rom :=
  r ← code 0xf1402573 r; r ← code 0x00050663 r; r ← code 0x10500073 r; code 0xffdff06f r.

(** one floating-point register; the upper half is that of the integer
    register of the same number *)
Definition create_freg_recovery (s : RISCVCPUState) (i : Z) (r : Rom) : option Rom :=
  r ← code_addr 1 (data_off r) r;
  r ← code (create_fld i 1) r;
  r ← data (u32 (rd (fp_reg s) i)) r;
  data (rd (reg s) i >> 32) r.

(** a loop of the generator *)
Definition each (f : Z -> Rom -> option Rom) (l : list Z) (r : Rom) : option Rom :=
  foldl (fun acc i => r ← acc; f i r) (Some r) l.

Definition recover_fp (s : RISCVCPUState) (r : Rom) : option Rom :=
  if fs s =? 0 then Some r
  else
    r ← create_csr12_recovery 0x001 (fflags s) r;
    r ← create_csr12_recovery 0x002 (frm s) r;
    r ← create_csr12_recovery 0x003 (fflags s .| (frm s << 5)) r;
    each (create_freg_recovery s) (seqZ 0 32) r.

Definition recover_counters (s : RISCVCPUState) (r : Rom) : option Rom :=
  r ← each (fun i r =>
      r ← create_csr12_recovery (0xb00 + i) 0 r;
      create_csr64_recovery (0x320 + i) (rd (mhpmevent s) i) r) (seqZ 3 29) r;
  create_csr64_recovery 0x7a0 (tselect s) r.

(** CSRs in the order in which they are written *)
Definition recover_traps (s : RISCVCPUState) (r : Rom) : option Rom :=
  r ← create_csr64_recovery 0x302 (medeleg s) r;
  r ← create_csr64_recovery 0x303 (mideleg s) r;
  r ← create_csr64_recovery 0x304 (mie s) r;
  r ← create_csr64_recovery 0x305 (mtvec s) r;
  r ← create_csr64_recovery 0x105 (stvec s) r;
  r ← create_csr12_recovery 0x320 (mcountinhibit s) r;
  r ← create_csr12_recovery 0x306 (mcounteren s) r;
  create_csr12_recovery 0x106 (scounteren s) r.

Definition recover_pmp (s : RISCVCPUState) (r : Rom) : option Rom :=
  r ← each (fun i => create_csr64_recovery (CSR_PMPADDR i) (rd (csr_pmpaddr s) i)) (seqZ 0 16) r;
  each (fun i => create_csr64_recovery (CSR_PMPCFG i) (rd (csr_pmpcfg s) i)) [0; 2] r.

Definition recover_status (s : RISCVCPUState) (r : Rom) : option Rom :=
  r ← create_csr64_recovery 0x340 (mscratch s) r;
  r ← create_csr64_recovery 0x341 (mepc s) r;
  r ← create_csr64_recovery 0x342 (mcause s) r;
  r ← create_csr64_recovery 0x343 (mtval s) r;
  r ← create_csr64_recovery 0x140 (sscratch s) r;
  r ← create_csr64_recovery 0x141 (sepc s) r;
  r ← create_csr64_recovery 0x142 (scause s) r;
  r ← create_csr64_recovery 0x143 (stval s) r;
  create_csr64_recovery 0x344 (mip s) r.

Definition recover_reg (s : RISCVCPUState) (i : Z) : Rom -> option Rom := create_reg_recovery i (rd (reg s) i).

Definition recover_clint (s : RISCVCPUState) (clint_base_addr : Z) (r : Rom) : option Rom :=
  r ← create_io64_recovery (u64 (clint_base_addr + 0x4000)) (timecmp s) r;
  r ← create_csr64_recovery 0xb02 (minstret s) r;
  r ← create_csr64_recovery 0xb00 (mcycle s) r;
  create_io64_recovery (u64 (clint_base_addr + 0xbff8)) (mcycle s / RTC_FREQ_DIV) r.

(** satp last, with x1 kept in dscratch; then dret *)
Definition recover_satp (s : RISCVCPUState) (r : Rom) : option Rom :=
  r ← code (create_csrrw 1 0x7b2) r;
  r ← create_csr64_recovery 0x180 (satp s) r;
  r ← code (create_csrrs 1 0x7b2) r;
  code 0x7b200073 r.

Definition data_pos_start : Z := 0xB00 / 4.
Definition empty_rom : Rom := mkRom (replicate (Z.to_nat rom_words) 0) ((BOOT_BASE_ADDR - ROM_BASE_ADDR) / 4) data_pos_start.

(** the code and data of the ROM; privilege level 2 ends the program *)
Definition boot_rom_body (ncpus clint_base_addr : Z) (s : RISCVCPUState) : option Rom :=
  r ← (if ncpus =? 1 then create_hang_nonzero_hart empty_rom else Some empty_rom);
  r ← create_csr64_recovery 0x7b1 (pc s) r;
  if priv s =? 2 then None
  else
    r ← create_csr12_recovery 0x7b0 (0x600 .| priv s) r;
    r ← create_csr64_recovery 0x300 (get_mstatus s (u64 (-1))) r;
    r ← create_csr64_recovery 0x301 (misa s .| u64 (2 << 62)) r;
    r ← recover_fp s r;
    r ← recover_counters s r;
    r ← recover_traps s r;
    r ← recover_pmp s r;
    r ← recover_status s r;
    r ← each (recover_reg s) (seqZ 3 29) r;
    r ← recover_clint s clint_base_addr r;
    r ← each (recover_reg s) (seqZ 1 2) r;
    recover_satp s r.

(** too small a ROM ends the program, too *)
Definition create_boot_rom (ncpus clint_base_addr : Z) (s : RISCVCPUState) : option (list Z) :=
  r ← boot_rom_body ncpus clint_base_addr s;
  if (rom_words <=? data_pos r) || (data_pos_start <=? code_pos r) then None else Some (rom r).

(** the file is the array's bytes, little endian *)
Definition word_bytes (w : Z) : list Z := [u8 w; u8 (w >> 8); u8 (w >> 16); u8 (w >> 24)].
Definition rom_bytes (l : list Z) : list Z := mbind word_bytes l.

(** ** Saving and loading *)

(** the two files *)
Record Snapshot := mkSnapshot { bootram : list Z; mainram : list Z }.

(** the RAM range among those a test picks; a second one fails the assertion *)
Definition only_ram (f : PhysMemoryRange -> bool) (m : PhysMemoryMap) : option PhysMemoryRange :=
  match filter (fun pr => pr_is_ram pr && f pr = true) m with
  | [pr] => Some pr
  | _ => None
  end.
Definition is_rom (pr : PhysMemoryRange) : bool := pr_addr pr =? ROM_BASE_ADDR.
Definition is_main (ram_base_addr : Z) (pr : PhysMemoryRange) : bool := negb (is_rom pr) && (pr_addr pr =? ram_base_addr).

Definition range_bytes (pr : PhysMemoryRange) (h : HostMem) : list Z := hm_bytes (pr_phys_mem pr) (pr_size pr) h.

Definition riscv_cpu_serialize (ncpus ram_base_addr clint_base_addr : Z) (s : RISCVCPUState) (m : PhysMemoryMap) (h : HostMem)
  : option Snapshot :=
  boot_ram ← only_ram is_rom m;
  main_ram ← only_ram (is_main ram_base_addr) m;
  let main := range_bytes main_ram h in
  if negb (priv s =? 3) || (ROM_BASE_ADDR + ROM_SIZE <? pc s) then
    r ← create_boot_rom ncpus clint_base_addr s; Some (mkSnapshot (rom_bytes r) main)
  else if BOOT_BASE_ADDR <? pc s then None
  else if pc s =? BOOT_BASE_ADDR then Some (mkSnapshot (range_bytes boot_ram h) main)
  else None.

(** [read] stops at [size] bytes; fewer end the program *)
Definition deserialize_memory (base size : Z) (file : list Z) (h : HostMem) : option HostMem :=
  if Z.of_nat (length file) <? size then None else Some (hm_copy base (take (Z.to_nat size) file) h).

Definition deserialize_range (ram_base_addr : Z) (f : Snapshot) (pr : PhysMemoryRange) (h : HostMem) : option HostMem :=
  if pr_is_ram pr && is_rom pr then deserialize_memory (pr_phys_mem pr) (pr_size pr) (bootram f) h
  else if pr_is_ram pr && is_main ram_base_addr pr then deserialize_memory (pr_phys_mem pr) (pr_size pr) (mainram f) h
  else Some h.

Definition riscv_cpu_deserialize (ram_base_addr : Z) (f : Snapshot) (m : PhysMemoryMap) (h : HostMem) : option HostMem :=
  foldr (fun pr acc => h ← acc; deserialize_range ram_base_addr f pr h) (Some h) m.
