(* ===== verification/CheckpointProps.v ===== *)
(** * What checkpoints restore *)

From S2P Require Import Prelude Riscv CpuState IoMem Mmu Csr Trap Insn IntArith SoftFp Exec FpExec Interp Uart Machine MachineProps Fdt FdtProps Virtio VirtMachine VirtProps Checkpoint.

(** ** The ROM is large enough *)

(** [c] words of code and [d] words of data are written, if there is room *)
Definition grows (r : Rom) (res : option Rom) (c d : Z) : Prop :=
  0 <= c /\ 0 <= d /\
  (code_pos r + c <= rom_words -> data_pos r + d <= rom_words ->
   exists r', res = Some r' /\ code_pos r' = code_pos r + c /\ data_pos r' = data_pos r + d
     /\ length (rom r') = length (rom r)).

Lemma grows_code w r : grows r (code w r) 1 0.
Proof.
  unfold grows; split_and!; [lia..|]. intros Hc Hd. unfold code. rewrite (proj2 (Z.ltb_lt _ _)) by lia.
  eexists. split; [reflexivity|cbn; rewrite ?length_insert; lia].
Qed.
Lemma grows_data w r : grows r (data w r) 0 1.
Proof.
  unfold grows; split_and!; [lia..|]. intros Hc Hd. unfold data. rewrite (proj2 (Z.ltb_lt _ _)) by lia.
  eexists. split; [reflexivity|cbn; rewrite ?length_insert; lia].
Qed.
Lemma grows_none r : grows r (Some r) 0 0.
Proof. unfold grows; split_and!; [lia..|]. intros Hc Hd. eexists. split; [reflexivity|lia]. Qed.

Lemma grows_bind r x g c d c' d' :
  grows r x c d -> (forall r1, grows r1 (g r1) c' d') -> grows r (r1 ← x; g r1) (c + c') (d + d').
Proof.
  intros (H1 & H2 & Hx) Hg. assert (0 <= c' /\ 0 <= d') as [H3 H4] by (destruct (Hg r) as (? & ? & _); lia).
  unfold grows; split_and!; [lia..|]. intros Hc Hd. destruct Hx as (r1 & -> & Hc1 & Hd1 & Hl1); [lia..|]. cbn.
  destruct (Hg r1) as (_ & _ & Hr). destruct Hr as (r2 & -> & Hc2 & Hd2 & Hl2); [lia..|]. exists r2. split_and!; [done|lia..].
Qed.

Lemma grows_each f l c d r :
  (forall i r, grows r (f i r) c d) -> grows r (each f l r) (Z.of_nat (length l) * c) (Z.of_nat (length l) * d).
Proof.
  intros Hf. destruct (Hf 0 r) as (H1 & H2 & _). unfold grows; split_and!; [lia..|]. unfold each.
  induction l as [|i l IH] using rev_ind; intros Hc Hd; [cbn; eexists; split; [reflexivity|lia]|].
  rewrite length_app in *. cbn [length] in *. destruct IH as (r1 & E & Hc1 & Hd1 & Hl1); [lia..|].
  rewrite foldl_app. cbn [foldl]. rewrite E. cbn.
  destruct (Hf i r1) as (_ & _ & Hr). destruct Hr as (r2 & E2 & Hc2 & Hd2 & Hl2); [lia..|]. exists r2. split_and!; [done|lia..].
Qed.

Lemma grows_eq r x c d c' d' : grows r x c d -> c = c' -> d = d' -> grows r x c' d'.
Proof. by intros ? <- <-. Qed.

Create HintDb grows discriminated.
#[export] Hint Resolve grows_code grows_data grows_none : grows.

(** the sizes of a sequence of commands, by the sizes of each *)
Ltac grows := cbv beta; first
  [ solve [eauto 2 with grows]
  | eapply grows_bind; [grows|intros ?; grows]
  | eapply grows_each; intros ? ?; grows ].
Ltac grows_by f := intros; eapply grows_eq; [unfold f; grows|reflexivity..].

Lemma grows_data64 v r : grows r (data64 v r) 0 2. Proof. grows_by data64. Qed.
Lemma grows_addr x off r : grows r (code_addr x off r) 2 0. Proof. grows_by code_addr. Qed.
#[export] Hint Resolve grows_data64 grows_addr : grows.
Lemma grows_csr12 n v r : grows r (create_csr12_recovery n v r) 2 0. Proof. grows_by create_csr12_recovery. Qed.
Lemma grows_csr64 n v r : grows r (create_csr64_recovery n v r) 4 2. Proof. grows_by create_csr64_recovery. Qed.
Lemma grows_reg n v r : grows r (create_reg_recovery n v r) 3 2. Proof. grows_by create_reg_recovery. Qed.
Lemma grows_io64 a v r : grows r (create_io64_recovery a v r) 7 4. Proof. grows_by create_io64_recovery. Qed.
Lemma grows_hang r : grows r (create_hang_nonzero_hart r) 4 0. Proof. grows_by create_hang_nonzero_hart. Qed.
Lemma grows_freg s i r : grows r (create_freg_recovery s i r) 3 2. Proof. grows_by create_freg_recovery. Qed.
#[export] Hint Resolve grows_csr12 grows_csr64 grows_reg grows_io64 grows_hang grows_freg : grows.
Lemma grows_counters s r : grows r (recover_counters s r) 178 60. Proof. grows_by recover_counters. Qed.
Lemma grows_traps s r : grows r (recover_traps s r) 26 10. Proof. grows_by recover_traps. Qed.
Lemma grows_pmp s r : grows r (recover_pmp s r) 72 36. Proof. grows_by recover_pmp. Qed.
Lemma grows_status s r : grows r (recover_status s r) 36 18. Proof. grows_by recover_status. Qed.
Lemma grows_regs s l r : grows r (each (recover_reg s) l r) (Z.of_nat (length l) * 3) (Z.of_nat (length l) * 2).
Proof. unfold recover_reg. grows. Qed.
Lemma grows_clint s a r : grows r (recover_clint s a r) 22 12. Proof. grows_by recover_clint. Qed.
Lemma grows_satp s r : grows r (recover_satp s r) 7 2. Proof. grows_by recover_satp. Qed.
#[export] Hint Resolve grows_counters grows_traps grows_pmp grows_status grows_regs grows_clint grows_satp : grows.

Lemma grows_fp s r : grows r (recover_fp s r) (if fs s =? 0 then 0 else 102) (if fs s =? 0 then 0 else 64).
Proof. destruct (fs s =? 0) eqn:E; intros; (eapply grows_eq; [unfold recover_fp; rewrite E; grows|reflexivity..]). Qed.
Lemma grows_prologue (n : Z) :
  grows empty_rom (if n =? 1 then create_hang_nonzero_hart empty_rom else Some empty_rom) (if n =? 1 then 4 else 0) 0.
Proof. destruct (n =? 1); auto with grows. Qed.
#[export] Hint Resolve grows_fp grows_prologue : grows.

Lemma grows_body ncpus clint_base_addr s :
  priv s <> 2 ->
  grows empty_rom (boot_rom_body ncpus clint_base_addr s)
    ((if ncpus =? 1 then 4 else 0) + (448 + (if fs s =? 0 then 0 else 102)))
    (206 + (if fs s =? 0 then 0 else 64)).
Proof.
  intros Hp. eapply grows_eq; [unfold boot_rom_body; rewrite (proj2 (Z.eqb_neq _ _) Hp); grows|..].
  all: cbn [length seqZ]; change (length (seqZ 3 29)) with 29%nat; change (length (seqZ 1 2)) with 2%nat; lia.
Qed.

Lemma length_rom_bytes l : length (rom_bytes l) = (4 * length l)%nat.
Proof. induction l as [|w l IH]; [done|]. change (rom_bytes (w :: l)) with (word_bytes w ++ rom_bytes l). rewrite length_app, IH. cbn [length word_bytes]. lia. Qed.

Lemma boot_rom_some ncpus clint_base_addr s :
  priv s <> 2 -> exists l, create_boot_rom ncpus clint_base_addr s = Some l /\ length (rom_bytes l) = Z.to_nat ROM_SIZE.
Proof.
  intros Hp. destruct (grows_body ncpus clint_base_addr s Hp) as (_ & _ & H).
  destruct H as (r & E & Hc & Hd & Hl); [destruct (ncpus =? 1), (fs s =? 0); vm_compute; discriminate..|].
  exists (rom r). split.
  - unfold create_boot_rom. rewrite E. cbn [mbind option_bind]. rewrite Hc, Hd.
    destruct (ncpus =? 1), (fs s =? 0); reflexivity.
  - by rewrite length_rom_bytes, Hl.
Qed.

Lemma boot_rom_length ncpus clint_base_addr s l :
  create_boot_rom ncpus clint_base_addr s = Some l -> length (rom_bytes l) = Z.to_nat ROM_SIZE.
Proof.
  intros H. destruct (Z.eq_dec (priv s) 2) as [Hp|Hp].
  - exfalso. unfold create_boot_rom, boot_rom_body in H. rewrite Hp in H. cbn [Z.eqb] in H.
    destruct (if ncpus =? 1 then _ else _) as [r|]; [|done]. cbn [mbind option_bind] in H. by destruct (create_csr64_recovery _ _ r).
  - destruct (boot_rom_some ncpus clint_base_addr s Hp) as (l' & E & Hl). by simplify_eq.
Qed.

(** C37: the boot ROM of a checkpoint can be made for every hart (privilege
    level 2 does not exist): no write is outside the array, code and data do not
    meet, and the result has the size of the ROM. *)
Theorem boot_rom_fits ncpus clint_base_addr s :
  priv s <> 2 -> exists l, create_boot_rom ncpus clint_base_addr s = Some l /\ length (rom_bytes l) = Z.to_nat ROM_SIZE.
Proof. apply boot_rom_some. Qed.

(** ** The memory *)

Lemma filter_orb_nil {A} (P Q : A -> bool) l :
  filter (fun x => P x = true) l = [] -> filter (fun x => P x || Q x = true) l = filter (fun x => Q x = true) l.
Proof.
  induction l as [|x l IH]; [done|]. rewrite !filter_cons. destruct (P x) eqn:E; [by rewrite decide_True|].
  rewrite (decide_False (P := false = true)) by done. cbn [orb]. intros H. destruct (Q x); repeat case_decide; rewrite IH; done.
Qed.

(** where exactly one element passes each of two exclusive tests, exactly
    these two pass one of them, in one order or the other *)
Lemma filter_two {A} (P Q : A -> bool) l a b :
  filter (fun x => P x = true) l = [a] -> filter (fun x => Q x = true) l = [b] -> (forall x, P x = true -> Q x = false) ->
  filter (fun x => P x || Q x = true) l = [a; b] \/ filter (fun x => P x || Q x = true) l = [b; a].
Proof.
  intros HP HQ Hx. induction l as [|x l IH]; [done|]. rewrite filter_cons in HP, HQ |- *.
  specialize (Hx x). destruct (P x) eqn:EP, (Q x) eqn:EQ; cbn [orb] in *; repeat case_decide; try done.
  - by specialize (Hx eq_refl).
  - injection HP as -> HP. left. by rewrite filter_orb_nil, HQ.
  - injection HQ as -> HQ. right. f_equal. rewrite <- HP, <- (filter_orb_nil Q P l HQ).
    apply list_filter_iff. intros y. by rewrite orb_comm.
  - auto.
Qed.

Definition touched (base : Z) (pr : PhysMemoryRange) : bool := pr_is_ram pr && is_rom pr || pr_is_ram pr && is_main base pr.

Lemma deserialize_filter base f m h :
  riscv_cpu_deserialize base f m h = riscv_cpu_deserialize base f (filter (fun pr => touched base pr = true) m) h.
Proof.
  unfold riscv_cpu_deserialize, PhysMemoryMap in *. induction m as [|pr m IH]; [done|]. rewrite filter_cons.
  case_decide as Ht; cbn [foldr]; rewrite IH; [done|].
  assert (forall h', deserialize_range base f pr h' = Some h') as Hn.
  { intros h'. unfold touched in Ht. unfold deserialize_range. by destruct (pr_is_ram pr && is_rom pr), (pr_is_ram pr && is_main base pr). }
  destruct (foldr _ _ (filter _ m)) as [h1|]; [apply (Hn h1)|done].
Qed.

(** the effect on one range *)
Lemma deserialize_ok base size file h :
  size <= len file -> 0 <= size ->
  exists h1, deserialize_memory base size file h = Some h1 /\ holds h1 base (take (Z.to_nat size) file)
    /\ (forall a, ~ (base <= a < base + size) -> hm_byte h1 a = hm_byte h a).
Proof.
  intros Hs H0. unfold deserialize_memory, len in *. rewrite (proj2 (Z.ltb_ge _ _)) by lia.
  eexists. split; [done|]. split; [apply hm_copy_holds|]. intros a Ha. rewrite hm_copy_byte. unfold len.
  rewrite length_take_le, Z2Nat.id by lia. by replace ((base <=? a) && (a <? base + size)) with false by lia.
Qed.

Lemma holds_kept h h' b l :
  (forall i, (i < length l)%nat -> hm_byte h' (b + Z.of_nat i) = hm_byte h (b + Z.of_nat i)) -> holds h b l -> holds h' b l.
Proof. intros He Hh i Hi. rewrite He by done. by apply Hh. Qed.

(** two files into disjoint ranges *)
Lemma deserialize_two a1 s1 f1 a2 s2 f2 h :
  s1 = len f1 -> s2 = len f2 -> a1 + s1 <= a2 \/ a2 + s2 <= a1 ->
  exists h1, (x ← deserialize_memory a1 s1 f1 h; deserialize_memory a2 s2 f2 x) = Some h1
    /\ holds h1 a1 f1 /\ holds h1 a2 f2
    /\ (forall a, ~ (a1 <= a < a1 + s1) -> ~ (a2 <= a < a2 + s2) -> hm_byte h1 a = hm_byte h a).
Proof.
  intros -> -> Hd. pose proof (len_nonneg f1). pose proof (len_nonneg f2).
  destruct (deserialize_ok a1 (len f1) f1 h) as (x & -> & Hx & Ox); [lia..|]. cbn.
  destruct (deserialize_ok a2 (len f2) f2 x) as (y & -> & Hy & Oy); [lia..|].
  unfold len in *. rewrite Nat2Z.id, firstn_all in *. exists y. split; [done|]. split; [|split; [done|]].
  - eapply holds_kept, Hx. intros i Hi. apply Oy. lia.
  - intros a H1 H2. by rewrite Oy, Ox.
Qed.

Lemma only_ram_spec p m pr : only_ram p m = Some pr -> filter (fun x => pr_is_ram x && p x = true) (m : list PhysMemoryRange) = [pr].
Proof. unfold only_ram. destruct (filter _ m) as [|x [|]] eqn:E; [done| |done]. by intros [= ->]. Qed.

(** ** Saving, resetting, restoring *)

(** a hart at [pc0] with privilege [p], floating-point state [f] and address
    translation [tr], other registers numbered *)
Definition saved_hart (p f tr : Z) : RISCVCPUState :=
  let s := riscv_cpu_init BOOT_BASE_ADDR 0 false false in
  let s := with_priv p (with_fs f (with_pc 0x80001236 s)) in
  let s := with_reg (0 :: map (fun i => 0x8000000100000000 + i * 0x1000000010001) (seqZ 1 31)) s in
  let s := with_fp_reg (map (fun i => 0x7000000200000000 + i * 0x2000000020002) (seqZ 0 32)) s in
  let s := with_fflags 0x15 (with_frm 3 s) in
  let s := with_mstatus (mstatus s .| 0x80000) s in
  let s := with_satp tr (with_mtvec 0x80000100 (with_stvec 0x80000200 s)) in
  let s := with_medeleg 0xb109 (with_mideleg 0x222 (with_mie 0xaaa s)) in
  let s := with_mscratch 0x11 (with_mepc 0x80000022 (with_mcause 2 (with_mtval 0x33 s))) in
  let s := with_sscratch 0x44 (with_sepc 0x80000054 (with_scause 5 (with_stval 0x66 s))) in
  let s := with_mcounteren 7 (with_scounteren 5 (with_mcountinhibit 0x5 s)) in
  let s := with_mcycle 4000 (with_minstret 777 (with_timecmp 123456 s)) in
  let s := with_csr_pmpaddr (map (fun i => 0x20000000 + i) (seqZ 0 8) ++ replicate 8 0) (with_csr_pmpcfg [0x0f0f; 0; 0; 0] s) in
  with_mip 2 s.

Definition fresh_world : option (World (Board unit)) :=
  match virt_machine_init spaced (mkConfig 0x2000 RAM_BASE_ADDR PLIC_BASE_ADDR PLIC_SIZE CLINT_BASE_ADDR CLINT_SIZE 0 None BOOT_BASE_ADDR false false false) 1 56 boot_software tt with
  | Done (m, s) => boot_world m s 0
  | _ => None
  end.

(** the hart runs until it leaves debug mode *)
Fixpoint run_rom (fuel : nat) (w : World (Board unit)) : option (World (Board unit)) :=
  match fuel with
  | O => None
  | S fuel =>
      match riscv_cpu_interp 1000 w with
      | Executed _ w => if debug_mode (cpu w) then run_rom fuel w else Some w
      | _ => None
      end
  end.

Definition restored (s : RISCVCPUState) : option (World (Board unit)) :=
  w ← fresh_world;
  f ← riscv_cpu_serialize 1 RAM_BASE_ADDR CLINT_BASE_ADDR s (mem_map w) (hmem w);
  h ← riscv_cpu_deserialize RAM_BASE_ADDR f (mem_map w) (hmem w);
  run_rom 10 (with_hmem h w).

Lemma boot_rom_fits_witness :
  exists l, create_boot_rom 1 CLINT_BASE_ADDR (saved_hart PRV_S 3 0) = Some l /\ length (rom_bytes l) = Z.to_nat ROM_SIZE.
Proof. apply (boot_rom_fits 1 CLINT_BASE_ADDR (saved_hart PRV_S 3 0)). discriminate. Defined.

(** a ROM and a page of main memory *)
Definition small_map : PhysMemoryMap :=
  match default_register_ram [] RAM_BASE_ADDR 0x1000 0 0x100000 ∅ with
  | Some (_, m, _) => match default_register_ram m ROM_BASE_ADDR ROM_SIZE 0 0x200000 ∅ with Some (_, m, _) => m | None => [] end
  | None => []
  end.


(** the CSRs a checkpoint does not bring back exactly: the debug registers its
    own code uses and the counters, which run on *)
Definition not_restored (csr : Z) : bool :=
  bool_decide (csr ∈ [0x7b0; 0x7b1; 0x7b2; 0xb00; 0xb02; 0xc00; 0xc02]).

(** the low half of a floating-point register and the high half of the integer
    register of the same number *)
Definition mixed_fp (s : RISCVCPUState) : list Z :=
  zip_with (fun f x => u32 f .| ((x >> 32) << 32)) (fp_reg s) (reg s).

Definition restores (p f tr : Z) : bool :=
  let s := saved_hart p f tr in
  match restored s with
  | Some w =>
      (pc (cpu w) =? pc s) && (priv (cpu w) =? p) && negb (debug_mode (cpu w)) && negb (crashed (dev w))
      && bool_decide (reg (cpu w) = reg s) && (timecmp (cpu w) =? timecmp s)
      && bool_decide (fp_reg (cpu w) = if f =? 0 then replicate 32 0 else mixed_fp s)
      && forallb (fun csr => not_restored csr || bool_decide (csr_value (cpu w) csr = csr_value s csr)) (seqZ 0 4096)
  | None => false
  end.

(** A hart that is reset with a checkpoint's boot ROM runs into the state
    saved, for each privilege level, with the floating-point unit on and off and
    with and without address translation: program counter, privilege, integer
    registers, timer comparator and every CSR but the counters and the debug
    registers are back.  The floating-point registers are not: each gets its upper
    half from an integer register. *)
Theorem checkpoint_restores :
  Forall (fun c => restores c.1.1 c.1.2 c.2 = true)
    [(0, 0, 8 << 60); (1, 3, 0); (3, 3, 9 << 60)].
Proof. do 3 (apply Forall_cons; split; [vm_compute; reflexivity|]). by apply Forall_nil. Qed.
