(* ===== verification/Json.v ===== *)
(** * The JSON reader (json.cpp, json.h)

    The text is a C string: the list of its bytes without the final NUL, and a
    [const char *] into it the rest of the list, where reading behind the end gives
    the NUL.  A [JSONValue] is the tree its pointers make.  An error value carries
    which error it is instead of the message; allocation is left out.

    The parser recurses on the text it has left: its fuel is a bound on the
    calls, and [None] says that it ran out. *)

From S2P Require Import Prelude.

(** ** Values *)

Inductive JSONError :=
| UnterminatedString | InvalidHexDigit | UnknownEscape | StringTooLong | UnexpectedEof | InvalidPropertyName
| ColonExpected | CommaOrBraceExpected | CommaOrBracketExpected | UnknownIdentifier | UnexpectedCharacter | TrailingCharacters.

Inductive JSONValue :=
| JSON_STR (data : list Z)
| JSON_INT (v : Z)
| JSON_OBJ (props : list (list Z * JSONValue))
| JSON_ARRAY (tab : list JSONValue)
| JSON_BOOL (b : bool)
| JSON_NULL
| JSON_UNDEFINED
| JSON_EXCEPTION (e : JSONError).

Definition json_is_error (v : JSONValue) : bool := match v with JSON_EXCEPTION _ => true | _ => false end.
Definition json_is_undefined (v : JSONValue) : bool := match v with JSON_UNDEFINED => true | _ => false end.

(** a NUL ends a string *)
Fixpoint cstr (s : list Z) : list Z :=
  match s with [] => [] | c :: s => if c =? 0 then [] else c :: cstr s end.
Definition json_string_new (s : list Z) : JSONValue := JSON_STR (cstr s).

Fixpoint json_object_get2 (props : list (list Z * JSONValue)) (name : list Z) : option JSONValue :=
  match props with
  | [] => None
  | (n, v) :: props => if bool_decide (n = name) then Some v else json_object_get2 props name
  end.

Definition json_object_get (val : JSONValue) (name : list Z) : JSONValue :=
  match val with JSON_OBJ props => default JSON_UNDEFINED (json_object_get2 props name) | _ => JSON_UNDEFINED end.

(** the property keeps its place, a new one goes to the end *)
Fixpoint set_prop (props : list (list Z * JSONValue)) (name : list Z) (v : JSONValue) : list (list Z * JSONValue) :=
  match props with
  | [] => [(name, v)]
  | (n, x) :: props => if bool_decide (n = name) then (n, v) :: props else (n, x) :: set_prop props name v
  end.
Definition json_object_set (val : JSONValue) (name : list Z) (v : JSONValue) : Z * JSONValue :=
  match val with JSON_OBJ props => (0, JSON_OBJ (set_prop props name v)) | _ => (-1, val) end.

(** a negative index reads in front of the array: [None] *)
Definition json_array_get (val : JSONValue) (idx : Z) : option JSONValue :=
  match val with
  | JSON_ARRAY tab =>
      if idx <? Z.of_nat (length tab) then (if idx <? 0 then None else tab !! Z.to_nat idx) else Some JSON_UNDEFINED
  | _ => Some JSON_UNDEFINED
  end.
Definition json_array_set (val : JSONValue) (idx : Z) (v : JSONValue) : option (Z * JSONValue) :=
  match val with
  | JSON_ARRAY tab =>
      if idx <? Z.of_nat (length tab) then
        if idx <? 0 then None else Some (0, JSON_ARRAY (<[Z.to_nat idx := v]> tab))
      else if idx =? Z.of_nat (length tab) then Some (0, JSON_ARRAY (tab ++ [v]))
      else Some (-1, val)
  | _ => Some (-1, val)
  end.

Definition json_get_str (val : JSONValue) : option (list Z) := match val with JSON_STR s => Some s | _ => None end.
Definition json_get_error (val : JSONValue) : option JSONError := match val with JSON_EXCEPTION e => Some e | _ => None end.

(** ** Characters and numbers *)

(** [*p] and [p[1]] *)
Definition char (p : list Z) : Z := hd 0 p.
Definition char1 (p : list Z) : Z := hd 0 (tl p).

Definition isspace (c : Z) : bool := (c =? 32) || ((9 <=? c) && (c <=? 13)).
Definition isdigit (c : Z) : bool := (48 <=? c) && (c <=? 57).
Definition is_ident_first (c : Z) : bool :=
  ((97 <=? c) && (c <=? 122)) || ((65 <=? c) && (c <=? 90)) || (c =? 95) || (c =? 36).

Definition from_hex (c : Z) : Z :=
  if (48 <=? c) && (c <=? 57) then c - 48
  else if (65 <=? c) && (c <=? 70) then c - 65 + 10
  else if (97 <=? c) && (c <=? 102) then c - 97 + 10
  else -1.

(** strtoll of the C library: blanks, a sign, the prefix of base 0 and 16, digits
    as long as they are digits of the base, the result clamped to 64 bits *)
Definition digit_value (c : Z) : Z :=
  if isdigit c then c - 48
  else if (97 <=? c) && (c <=? 122) then c - 97 + 10
  else if (65 <=? c) && (c <=? 90) then c - 65 + 10
  else 99.
Fixpoint digits (base acc : Z) (p : list Z) : Z * list Z :=
  match p with
  | [] => (acc, p)
  | c :: q => if digit_value c <? base then digits base (acc * base + digit_value c) q else (acc, p)
  end.
Fixpoint skip_blanks (p : list Z) : list Z :=
  match p with [] => [] | c :: q => if isspace c then skip_blanks q else p end.
Definition hex_prefix (p : list Z) : bool :=
  (char p =? 48) && ((char1 p =? 120) || (char1 p =? 88)) && (digit_value (hd 0 (drop 2 p)) <? 16).
Definition strtoll (p0 : list Z) (base : Z) : Z * list Z :=
  let p := skip_blanks p0 in
  let neg := char p =? 45 in
  let p := if (char p =? 45) || (char p =? 43) then tl p else p in
  let hex := ((base =? 0) || (base =? 16)) && hex_prefix p in
  let base := if base =? 0 then (if hex then 16 else if char p =? 48 then 8 else 10) else base in
  let p := if hex then drop 2 p else p in
  if digit_value (char p) <? base then
    let '(v, p) := digits base 0 p in
    let v := if neg then - v else v in
    (Z.max (- 2 ^ 63) (Z.min (2 ^ 63 - 1) v), p)
  else (0, p0).

(** ** Tokens *)

(** blanks and comments; the newline that ends a line comment is a blank *)
Fixpoint skip_spaces (p : list Z) : list Z :=
  match p with
  | [] => []
  | c :: q =>
      if isspace c then skip_spaces q
      else if c =? 47 then
        match q with
        | c1 :: r => if c1 =? 47 then skip_line r else if c1 =? 42 then skip_comment r else p
        | [] => p
        end
      else p
  end
with skip_line (p : list Z) : list Z :=
  match p with [] => [] | c :: q => if c =? 10 then skip_spaces q else skip_line q end
with skip_comment (p : list Z) : list Z :=
  match p with
  | [] => []
  | c :: q =>
      if (c =? 42) && (char q =? 47) then match q with _ :: r => skip_spaces r | [] => [] end
      else skip_comment q
  end.

(** the characters in the buffer, and the text behind the closing quote *)
Fixpoint string_loop (p buf : list Z) : JSONError + (list Z * list Z) :=
  let add_char c q := if (4095 <=? length buf)%nat then inl StringTooLong else string_loop q (buf ++ [c]) in
  match p with
  | [] => inl UnterminatedString
  | c :: q =>
      if (c =? 0) || (c =? 10) then inl UnterminatedString
      else if c =? 34 then inr (buf, q)
      else if c =? 92 then
        match q with
        | [] => inl UnknownEscape
        | e :: q =>
            if (e =? 39) || (e =? 34) || (e =? 92) then add_char e q
            else if e =? 110 then add_char 10 q
            else if e =? 114 then add_char 13 q
            else if e =? 116 then add_char 9 q
            else if e =? 120 then
              match q with
              | [] => inl InvalidHexDigit
              | x1 :: q =>
                  if from_hex x1 <? 0 then inl InvalidHexDigit
                  else
                    match q with
                    | [] => inl InvalidHexDigit
                    | x0 :: q => if from_hex x0 <? 0 then inl InvalidHexDigit else add_char ((from_hex x1 << 4) .| from_hex x0) q
                    end
              end
            else inl UnknownEscape
        end
      else add_char c q
  end.
(** [json_string_new] copies up to a NUL *)
Definition parse_string (p : list Z) : JSONError + (list Z * list Z) :=
  match string_loop (tl p) [] with inl e => inl e | inr (buf, p) => inr (cstr buf, p) end.

(** [None] is the result -1: more characters than the buffer holds *)
Fixpoint ident_loop (buf_size : nat) (p buf : list Z) : option (list Z * list Z) :=
  match p with
  | [] => Some (buf, [])
  | c :: q =>
      if is_ident_first c || isdigit c then
        if (buf_size - 1 <=? length buf)%nat then None else ident_loop buf_size q (buf ++ [c])
      else Some (buf, p)
  end.
Definition parse_ident (p : list Z) : option (list Z * list Z) := ident_loop 128 (tl p) [char p].

(** ** The parser *)

Definition k_null : list Z := [110; 117; 108; 108].
Definition k_true : list Z := [116; 114; 117; 101].
Definition k_false : list Z := [102; 97; 108; 115; 101].

Definition parse_tag (p : list Z) : JSONError + (list Z * list Z) :=
  let t :=
    if char p =? 34 then parse_string p
    else if is_ident_first (char p) then
      match parse_ident p with Some r => inr r | None => inl InvalidPropertyName end
    else inl InvalidPropertyName in
  match t with inr ([], _) => inl InvalidPropertyName | _ => t end.

(** the value and the text behind it; where the function returns an error by
    [return], the caller's pointer stays where it was *)
Fixpoint json_parse_value2 (fuel : nat) (p0 : list Z) : option (JSONValue * list Z) :=
  match fuel with
  | O => None
  | S fuel =>
      let p := skip_spaces p0 in
      let error e := Some (JSON_EXCEPTION e, p0) in
      if char p =? 0 then error UnexpectedEof
      else if (char p =? 48) && (char1 p =? 120) then
        let '(v, p) := strtoll (drop 2 p) 16 in Some (JSON_INT v, p)
      else if isdigit (char p) then
        let '(v, p) := strtoll p 0 in Some (JSON_INT v, p)
      else if char p =? 34 then
        match parse_string p with inl e => Some (JSON_EXCEPTION e, p) | inr (s, p) => Some (JSON_STR s, p) end
      else if char p =? 123 then
        r ← object_loop fuel [] (tl p);
        match r with inl e => error e | inr (props, p) => Some (JSON_OBJ props, p) end
      else if char p =? 91 then
        r ← array_loop fuel [] (tl p);
        match r with inl e => error e | inr (tab, p) => Some (JSON_ARRAY tab, p) end
      else if is_ident_first (char p) then
        match parse_ident p with
        | None => error UnknownIdentifier
        | Some (buf, p) =>
            if bool_decide (buf = k_null) then Some (JSON_NULL, p)
            else if bool_decide (buf = k_true) then Some (JSON_BOOL true, p)
            else if bool_decide (buf = k_false) then Some (JSON_BOOL false, p)
            else error UnknownIdentifier
        end
      else error UnexpectedCharacter
  end
with object_loop (fuel : nat) (props : list (list Z * JSONValue)) (p : list Z)
  : option (JSONError + (list (list Z * JSONValue) * list Z)) :=
  match fuel with
  | O => None
  | S fuel =>
      let p := skip_spaces p in
      if char p =? 125 then Some (inr (props, tl p))
      else
        match parse_tag p with
        | inl e => Some (inl e)
        | inr (tag, p) =>
            let p := skip_spaces p in
            if negb (char p =? 58) then Some (inl ColonExpected)
            else
              r ← json_parse_value2 fuel (tl p);
              let props := set_prop props tag r.1 in
              let p := skip_spaces r.2 in
              if char p =? 44 then object_loop fuel props (tl p)
              else if negb (char p =? 125) then Some (inl CommaOrBraceExpected)
              else object_loop fuel props p
        end
  end
with array_loop (fuel : nat) (tab : list JSONValue) (p : list Z) : option (JSONError + (list JSONValue * list Z)) :=
  match fuel with
  | O => None
  | S fuel =>
      let p := skip_spaces p in
      if char p =? 93 then Some (inr (tab, tl p))
      else
        r ← json_parse_value2 fuel p;
        let tab := tab ++ [r.1] in
        let p := skip_spaces r.2 in
        if char p =? 44 then array_loop fuel tab (tl p)
        else if negb (char p =? 93) then Some (inl CommaOrBracketExpected)
        else array_loop fuel tab p
  end.

Definition json_parse_value (fuel : nat) (p : list Z) : option JSONValue :=
  r ← json_parse_value2 fuel p;
  if json_is_error r.1 then Some r.1
  else if char (skip_spaces r.2) =? 0 then Some r.1
  else Some (JSON_EXCEPTION TrailingCharacters).

(** the text is copied and ended by a NUL *)
Definition json_parse_value_len (fuel : nat) (p : list Z) (n : Z) : option JSONValue :=
  json_parse_value fuel (cstr (take (Z.to_nat n) p)).
