(* ===== verification/JsonProps.v ===== *)
(** * What the JSON reader accepts

    The parser always returns ([json_parse_total]) and reads every text of the
    grammar below as the value it stands for ([json_reads]).  The grammar is
    JSON's with the extensions of json.cpp: comments, identifiers as keys,
    hexadecimal and octal numbers, a comma behind the last element. *)

From S2P Require Import Prelude Json.

(** ** The parser returns *)

Lemma skip_spaces_len p : (length (skip_spaces p) <= length p)%nat.
Proof.
  assert (forall n, (forall q, (length q <= n)%nat ->
    (length (skip_spaces q) <= length q)%nat /\ (length (skip_line q) <= length q)%nat /\ (length (skip_comment q) <= length q)%nat)) as H.
  { induction n as [|n IH]; intros [|c q] Hq; cbn in Hq; try (cbn; lia).
    destruct (IH q) as (H1 & H2 & H3); [lia|]. cbn [skip_spaces skip_line skip_comment length]. split_and!.
    - destruct (isspace c); [lia|]. destruct (c =? 47); [|cbn; lia]. destruct q as [|c1 r]; [cbn; lia|].
      destruct (IH r) as (_ & H4 & H5); [cbn in *; lia|]. cbn [length] in *.
      destruct (c1 =? 47); [lia|]. destruct (c1 =? 42); cbn [length]; lia.
    - destruct (c =? 10); lia.
    - destruct (_ && _); [|lia]. destruct q as [|c1 r]; [cbn; lia|]. destruct (IH r) as (H4 & _); cbn in *; lia. }
  by destruct (H (length p) p (le_n _)).
Qed.

Lemma string_loop_len p buf s q : string_loop p buf = inr (s, q) -> (length q < length p)%nat.
Proof.
  revert buf. assert (forall n p, (length p <= n)%nat -> forall buf, string_loop p buf = inr (s, q) -> (length q < length p)%nat) as H;
    [|intros buf; by apply (H (length p))].
  clear p. induction n as [|n IH]; intros [|c p] Hp buf; cbn [length] in *; try done; [lia|].
  assert (forall c p' buf, (length p' <= length p)%nat ->
    (if (4095 <=? length buf)%nat then inl StringTooLong else string_loop p' (buf ++ [c])) = inr (s, q) -> (length q < S (length p))%nat) as Hadd.
  { intros x p' b Hl. destruct (_ <=? _)%nat; [done|]. intros Hr%IH; lia. }
  cbn [string_loop]. destruct (_ || _); [done|]. destruct (c =? 34); [intros [= _ <-]; lia|]. destruct (c =? 92); [|by apply Hadd].
  destruct p as [|e p]; [done|]. cbn [length] in *. destruct (_ || _); [apply Hadd; lia|].
  do 3 (destruct (_ =? _); [apply Hadd; lia|]). destruct (_ =? _); [|done].
  destruct p as [|x1 p]; [done|]. destruct (_ <? _); [done|]. destruct p as [|x0 p]; [done|]. destruct (_ <? _); [done|].
  apply Hadd. cbn [length]. lia.
Qed.

Lemma parse_string_len p s q : parse_string p = inr (s, q) -> p <> [] -> (length q < length p)%nat.
Proof.
  unfold parse_string. destruct (string_loop (tl p) []) as [|[buf r]] eqn:E; [done|]. intros [= _ <-] Hp.
  apply string_loop_len in E. destruct p; [done|]. cbn in *. lia.
Qed.

Lemma ident_loop_len n p buf s q : ident_loop n p buf = Some (s, q) -> (length q <= length p)%nat.
Proof.
  revert buf. induction p as [|c p IH]; intros buf; cbn [ident_loop]; [by intros [= _ <-]|].
  repeat case_match; try done; [intros Hr%IH; cbn; lia|by intros [= _ <-]].
Qed.

Lemma parse_ident_len p s q : parse_ident p = Some (s, q) -> p <> [] -> (length q < length p)%nat.
Proof. unfold parse_ident. intros H%ident_loop_len Hp. destruct p; [done|]. cbn in *. lia. Qed.

Lemma char_nonnil p c : char p = c -> c <> 0 -> p <> [].
Proof. by intros <- ? ->. Qed.

Lemma is_ident_first_nonnil p : is_ident_first (char p) = true -> p <> [].
Proof. by intros H ->. Qed.

Lemma parse_tag_len p s q : parse_tag p = inr (s, q) -> (length q < length p)%nat.
Proof.
  unfold parse_tag. destruct (char p =? 34) eqn:E.
  - destruct (parse_string p) as [|[[|] r]] eqn:Ep; [done..|]. intros [= _ <-].
    eapply parse_string_len; [done|]. by apply Z.eqb_eq in E; apply (char_nonnil p 34).
  - destruct (is_ident_first (char p)) eqn:Ei; [|done]. destruct (parse_ident p) as [[[|] r]|] eqn:Ep; [done| |done].
    intros [= _ <-]. eapply parse_ident_len; [done|]. by apply is_ident_first_nonnil.
Qed.

Lemma digits_len b a p : (length (digits b a p).2 <= length p)%nat.
Proof. revert a. induction p as [|c p IH]; intros a; cbn; [done|]. case_match; cbn; [specialize (IH (a * b + digit_value c))|]; lia. Qed.

Lemma digits_len_lt b a p : digit_value (char p) < b -> p <> [] -> (length (digits b a p).2 < length p)%nat.
Proof.
  destruct p as [|c p]; [done|]. cbn. intros H _. rewrite (proj2 (Z.ltb_lt _ _) H).
  pose proof (digits_len b (a * b + digit_value c) p). lia.
Qed.

Lemma skip_blanks_len p : (length (skip_blanks p) <= length p)%nat.
Proof. induction p as [|c p IH]; cbn; [done|]. case_match; cbn; lia. Qed.

Lemma strtoll_len p b : (length (strtoll p b).2 <= length p)%nat.
Proof.
  unfold strtoll. cbv zeta. pose proof (skip_blanks_len p) as Hb. set (p1 := skip_blanks p) in *.
  set (p2 := if (char p1 =? 45) || (char p1 =? 43) then tl p1 else p1). assert (length p2 <= length p1)%nat as H2.
  { subst p2. destruct ((char p1 =? 45) || (char p1 =? 43)); [|lia]. destruct p1; cbn; lia. }
  set (p3 := if _ && hex_prefix p2 then drop 2 p2 else p2). assert (length p3 <= length p2)%nat as H3.
  { subst p3. case_match; [rewrite length_drop; lia|lia]. }
  case_match; [|cbn; lia]. match goal with |- context [digits ?b 0 p3] => pose proof (digits_len b 0 p3) as H4; destruct (digits b 0 p3) as [v q] end.
  cbn in *. lia.
Qed.

(** what [n] characters of text need in fuel, for a value and for the two loops *)
Definition value_ok (n : nat) : Prop := forall p f, (length p <= n)%nat -> (2 * n + 1 <= f)%nat ->
  exists v q, json_parse_value2 f p = Some (v, q) /\ (length q <= length p)%nat.
Definition loop_ok {A} (loop : nat -> A -> list Z -> option (JSONError + (A * list Z))) (n : nat) : Prop :=
  forall p x f, (length p <= n)%nat -> (2 * n + 2 <= f)%nat ->
  exists r, loop f x p = Some r /\ forall t q, r = inr (t, q) -> (length q <= length p)%nat.

Lemma tl_len p c : char p = c -> c <> 0 -> (S (length (tl p)) = length p)%nat.
Proof. intros H Hc. destruct p as [|x p]; [cbn in H; congruence|done]. Qed.

Lemma value_ok_S n :
  (forall m, S m = n -> loop_ok array_loop m /\ loop_ok object_loop m) -> value_ok n.
Proof.
  intros Hl p [|f] Hp Hf; [lia|]. cbn [json_parse_value2]. pose proof (skip_spaces_len p) as Hs. set (p1 := skip_spaces p) in *.
  assert (forall e, exists v q, Some (JSON_EXCEPTION e, p) = Some (v, q) /\ (length q <= length p)%nat) as He by eauto.
  destruct (char p1 =? 0) eqn:E0; [eauto|].
  destruct (_ && _); [pose proof (strtoll_len (drop 2 p1) 16) as H; destruct (strtoll _ _) as [v q]; cbn in H;
    rewrite length_drop in H; do 2 eexists; split; [done|lia]|].
  destruct (isdigit _); [pose proof (strtoll_len p1 0) as H; destruct (strtoll _ _) as [v q]; cbn in H; do 2 eexists; (split; [done|lia])|].
  assert (forall c, char p1 =? c = true -> c <> 0 -> exists m, S m = n /\ (length (tl p1) <= m)%nat) as Hm.
  { intros c Hc%Z.eqb_eq Hc0. pose proof (tl_len p1 c Hc Hc0). exists (n - 1)%nat. lia. }
  destruct (char p1 =? 34) eqn:E34.
  { destruct (parse_string p1) as [|[s q]] eqn:E; [eauto|]. apply parse_string_len in E; [|by apply Z.eqb_eq in E34; apply (char_nonnil p1 34)].
    do 2 eexists. split; [done|lia]. }
  destruct (char p1 =? 123) eqn:E123.
  { destruct (Hm 123) as (m & <- & Hq); [done..|]. destruct (Hl m eq_refl) as [_ Ho].
    destruct (Ho (tl p1) [] f) as (r & -> & Hr); [lia..|]. cbn. destruct r as [|[props q]]; [eauto|].
    specialize (Hr _ _ eq_refl). pose proof (tl_len p1 123) as Ht. apply Z.eqb_eq in E123. do 2 eexists. split; [done|]. lia. }
  destruct (char p1 =? 91) eqn:E91.
  { destruct (Hm 91) as (m & <- & Hq); [done..|]. destruct (Hl m eq_refl) as [Ha _].
    destruct (Ha (tl p1) [] f) as (r & -> & Hr); [lia..|]. cbn. destruct r as [|[tab q]]; [eauto|].
    specialize (Hr _ _ eq_refl). pose proof (tl_len p1 91) as Ht. apply Z.eqb_eq in E91. do 2 eexists. split; [done|]. lia. }
  destruct (is_ident_first _) eqn:Ei; [|eauto]. destruct (parse_ident p1) as [[buf q]|] eqn:E; [|eauto].
  apply parse_ident_len in E; [|by apply is_ident_first_nonnil].
  repeat case_match; try (by eauto); do 2 eexists; (split; [done|lia]).
Qed.

Lemma skip_spaces_at c q : isspace c = false -> c <> 47 -> skip_spaces (c :: q) = c :: q.
Proof. intros H1 H2. cbn [skip_spaces]. rewrite H1. by rewrite (proj2 (Z.eqb_neq _ _) H2). Qed.
Lemma array_loop_end f tab q : array_loop (S f) tab (93 :: q) = Some (inr (tab, q)).
Proof. cbn [array_loop]. by rewrite skip_spaces_at. Qed.
Lemma object_loop_end f props q : object_loop (S f) props (125 :: q) = Some (inr (props, q)).
Proof. cbn [object_loop]. by rewrite skip_spaces_at. Qed.

(** the loops, behind their elements: a comma, or the closing character *)
Lemma array_ok n : value_ok n -> (forall m, S m = n -> loop_ok array_loop m) -> loop_ok array_loop n.
Proof.
  intros Hv Hl p x [|f] Hp Hf; [lia|]. cbn [array_loop]. pose proof (skip_spaces_len p) as Hs. set (p1 := skip_spaces p) in *.
  destruct (char p1 =? 93) eqn:E93.
  { eexists. split; [done|]. intros t q [= _ <-]. pose proof (tl_len p1 93). apply Z.eqb_eq in E93. lia. }
  destruct (Hv p1 f) as (v & q & -> & Hq); [lia..|]. cbn. pose proof (skip_spaces_len q) as Hs2. set (q1 := skip_spaces q) in *.
  destruct (char q1 =? 44) eqn:E44.
  { pose proof (tl_len q1 44) as Ht. apply Z.eqb_eq in E44. specialize (Ht E44 ltac:(lia)).
    destruct (Hl (n - 1)%nat) with (p := tl q1) (x := x ++ [v]) (f := f) as (r & -> & Hr); [lia..|].
    eexists. split; [done|]. intros t s ->. specialize (Hr _ _ eq_refl). lia. }
  destruct (char q1 =? 93) eqn:E93'; cbn [negb]; [|eexists; split; [done|]; intros ? ? [=]].
  destruct f as [|f]; [lia|]. destruct q1 as [|c q1]; [done|]. cbn in E93'. apply Z.eqb_eq in E93' as ->.
  rewrite array_loop_end. eexists. split; [done|]. intros t s [= _ <-]. cbn [length] in *. lia.
Qed.

Lemma object_ok n : value_ok n -> (forall m, S m = n -> loop_ok object_loop m) -> loop_ok object_loop n.
Proof.
  intros Hv Hl p x [|f] Hp Hf; [lia|]. cbn [object_loop]. pose proof (skip_spaces_len p) as Hs. set (p1 := skip_spaces p) in *.
  destruct (char p1 =? 125) eqn:E93.
  { eexists. split; [done|]. intros t q [= _ <-]. pose proof (tl_len p1 125). apply Z.eqb_eq in E93. lia. }
  destruct (parse_tag p1) as [e|[tag p2]] eqn:Et; [eexists; split; [done|]; intros ? ? [=]|].
  apply parse_tag_len in Et. pose proof (skip_spaces_len p2) as Hs2. set (p3 := skip_spaces p2) in *.
  destruct (char p3 =? 58) eqn:E58; cbn [negb]; [|eexists; split; [done|]; intros ? ? [=]].
  pose proof (tl_len p3 58) as Ht3. apply Z.eqb_eq in E58. specialize (Ht3 E58 ltac:(lia)).
  destruct (Hv (tl p3) f) as (v & q & -> & Hq); [lia..|]. cbn. pose proof (skip_spaces_len q) as Hs3. set (q1 := skip_spaces q) in *.
  destruct (char q1 =? 44) eqn:E44.
  { pose proof (tl_len q1 44) as Ht. apply Z.eqb_eq in E44. specialize (Ht E44 ltac:(lia)).
    destruct (Hl (n - 1)%nat) with (p := tl q1) (x := set_prop x tag v) (f := f) as (r & -> & Hr); [lia..|].
    eexists. split; [done|]. intros t s ->. specialize (Hr _ _ eq_refl). lia. }
  destruct (char q1 =? 125) eqn:E93'; cbn [negb]; [|eexists; split; [done|]; intros ? ? [=]].
  destruct f as [|f]; [lia|]. destruct q1 as [|c q1]; [done|]. cbn in E93'. apply Z.eqb_eq in E93' as ->.
  rewrite object_loop_end. eexists. split; [done|]. intros t s [= _ <-]. cbn [length] in *. lia.
Qed.

Lemma all_ok n : value_ok n /\ loop_ok array_loop n /\ loop_ok object_loop n.
Proof.
  induction n as [|n (Hv & Ha & Ho)].
  - assert (value_ok 0) as Hv by (apply value_ok_S; by intros).
    split; [done|]. split; [apply array_ok|apply object_ok]; by intros.
  - assert (value_ok (S n)) as Hv' by (apply value_ok_S; intros m [= ->]; done).
    split; [done|]. split; [apply array_ok|apply object_ok]; try done; by intros m [= ->].
Qed.

Lemma bind_mono {A B} (x y : option A) (k k' : A -> option B) r :
  x ≫= k = Some r -> (forall z, x = Some z -> y = Some z) -> (forall z, k z = Some r -> k' z = Some r) -> y ≫= k' = Some r.
Proof. destruct x as [z|]; [|done]. intros H Hx Hk. rewrite (Hx z eq_refl). by apply Hk. Qed.

(** more fuel changes nothing *)
Lemma parse_mono f :
  (forall p r g, json_parse_value2 f p = Some r -> (f <= g)%nat -> json_parse_value2 g p = Some r)
  /\ (forall x p r g, array_loop f x p = Some r -> (f <= g)%nat -> array_loop g x p = Some r)
  /\ (forall x p r g, object_loop f x p = Some r -> (f <= g)%nat -> object_loop g x p = Some r).
Proof.
  induction f as [|f (Hv & Ha & Ho)]; [split_and!; by intros|]. split_and!.
  - intros p r [|g] H Hg; [lia|]. cbn [json_parse_value2] in *.
    repeat (case_match; try done); (eapply bind_mono; [exact H| |done]; intros z Hz; (apply Ho || apply Ha); [done|lia]).
  - intros x p r [|g] H Hg; [lia|]. cbn [array_loop] in *. case_match; [done|].
    eapply bind_mono; [exact H|intros z Hz; apply Hv; [done|lia]|]. intros z Hz. cbv beta zeta in Hz |- *.
    repeat case_match; first [exact Hz|apply Ha; [exact Hz|lia]].
  - intros x p r [|g] H Hg; [lia|]. cbn [object_loop] in *. case_match; [done|]. case_match; [done|]. case_match. cbv beta zeta in *.
    case_match; [done|]. eapply bind_mono; [exact H|intros z Hz; apply Hv; [done|lia]|]. intros z Hz. cbv beta zeta in Hz |- *.
    repeat case_match; first [exact Hz|apply Ho; [exact Hz|lia]].
Qed.

(** The parser returns a value or an error on every text; fuel of twice its
    length is enough. *)
Theorem json_parse_total p fuel : (2 * length p + 1 <= fuel)%nat -> exists v, json_parse_value fuel p = Some v.
Proof.
  intros Hf. destruct (all_ok (length p)) as (Hv & _ & _). unfold json_parse_value.
  destruct (Hv p fuel) as (v & q & -> & _); [lia..|]. cbn. repeat case_match; eauto.
Qed.

Lemma json_parse_total_witness : exists v, json_parse_value 7 [91; 44; 93] = Some v.
Proof. apply (json_parse_total [91; 44; 93] 7). cbn. lia. Defined.

(** ** The grammar *)

(** a comment body that holds no end of a comment *)
Fixpoint open_comment (l : list Z) : bool :=
  match l with [] => true | c :: l => negb ((c =? 42) && (char l =? 47)) && open_comment l end.

Inductive blanks : list Z -> Prop :=
| blanks_nil : blanks []
| blanks_space c b : isspace c = true -> blanks b -> blanks (c :: b)
| blanks_line l b : Forall (fun c => c <> 10) l -> blanks b -> blanks (47 :: 47 :: l ++ 10 :: b)
| blanks_comment l b : open_comment (l ++ [42]) = true -> blanks b -> blanks (47 :: 42 :: l ++ 42 :: 47 :: b).

(** [c] is the digit [d] of a base: 0123456789abcdef and 0123456789ABCDEF *)
Definition numerals : list Z := [48; 49; 50; 51; 52; 53; 54; 55; 56; 57].
Definition digit (base d c : Z) : Prop :=
  0 <= d < base /\ ((numerals ++ [97; 98; 99; 100; 101; 102]) !! Z.to_nat d = Some c \/
                    (numerals ++ [65; 66; 67; 68; 69; 70]) !! Z.to_nat d = Some c).

(** the characters of a string and their spelling *)
Definition escapes : list (Z * Z) := [(39, 39); (34, 34); (92, 92); (110, 10); (114, 13); (116, 9)].
Inductive chars : list Z -> list Z -> Prop :=
| chars_nil : chars [] []
| chars_plain c s t : c ∉ [0; 10; 34; 92] -> chars s t -> chars (c :: s) (c :: t)
| chars_escape e c s t : (e, c) ∈ escapes -> chars s t -> chars (c :: s) (92 :: e :: t)
| chars_hex d1 d0 x1 x0 s t : digit 16 d1 x1 -> digit 16 d0 x0 -> 16 * d1 + d0 <> 0 -> chars s t ->
    chars (16 * d1 + d0 :: s) (92 :: 120 :: x1 :: x0 :: t).

Inductive str : list Z -> list Z -> Prop :=
| str_quoted s t : chars s t -> (length s <= 4095)%nat -> str s (34 :: t ++ [34]).

Definition ident (s : list Z) : bool :=
  is_ident_first (char s) && forallb (fun c => is_ident_first c || isdigit c) s && (length s <=? 127)%nat.

(** digits, the most significant first, and the number they stand for *)
Definition positional (base : Z) (ds : list Z) : Z := foldl (fun a d => a * base + d) 0 ds.
Inductive number : Z -> list Z -> Prop :=
| number_decimal ds c t : Forall2 (digit 10) ds (c :: t) -> c <> 48 -> positional 10 ds < 2 ^ 63 -> number (positional 10 ds) (c :: t)
| number_octal ds t : Forall2 (digit 8) ds t -> positional 8 ds < 2 ^ 63 -> number (positional 8 ds) (48 :: t)
| number_hex ds t : ds <> [] -> Forall2 (digit 16) ds t -> positional 16 ds < 2 ^ 63 -> number (positional 16 ds) (48 :: 120 :: t).

(** the members of an object: each name once, where it first occurs, with its last value *)
Fixpoint last_value (kvs : list (list Z * JSONValue)) (k : list Z) : option JSONValue :=
  match kvs with
  | [] => None
  | (n, v) :: kvs => match last_value kvs k with Some x => Some x | None => if bool_decide (n = k) then Some v else None end
  end.
Definition names (kvs : list (list Z * JSONValue)) : list (list Z) := reverse (remove_dups (reverse (map fst kvs))).
Definition object_of (kvs : list (list Z * JSONValue)) : list (list Z * JSONValue) :=
  map (fun k => (k, default JSON_UNDEFINED (last_value kvs k))) (names kvs).

(** a value; the elements of an array and the members of an object with the
    closing bracket *)
Inductive value : JSONValue -> list Z -> Prop :=
| value_str s t : str s t -> value (JSON_STR s) t
| value_num n t : number n t -> value (JSON_INT n) t
| value_null : value JSON_NULL k_null
| value_bool (b : bool) : value (JSON_BOOL b) (if b then k_true else k_false)
| value_array vs t : elements vs t -> value (JSON_ARRAY vs) (91 :: t)
| value_object kvs t : members kvs t -> value (JSON_OBJ (object_of kvs)) (123 :: t)
with elements : list JSONValue -> list Z -> Prop :=
| elements_nil b : blanks b -> elements [] (b ++ [93])
| elements_last v b t b' : blanks b -> value v t -> blanks b' -> elements [v] (b ++ t ++ b' ++ [93])
| elements_cons v vs b t b' u : blanks b -> value v t -> blanks b' -> elements vs u -> elements (v :: vs) (b ++ t ++ b' ++ 44 :: u)
with members : list (list Z * JSONValue) -> list Z -> Prop :=
| members_nil b : blanks b -> members [] (b ++ [125])
| members_last k v m : member k v m -> members [(k, v)] (m ++ [125])
| members_cons k v kvs m u : member k v m -> members kvs u -> members ((k, v) :: kvs) (m ++ 44 :: u)
with member : list Z -> JSONValue -> list Z -> Prop :=
| member_quoted s k b b1 b2 t b3 v : str s k -> s <> [] -> blanks b -> blanks b1 -> blanks b2 -> value v t -> blanks b3 ->
    member s v (b ++ k ++ b1 ++ 58 :: b2 ++ t ++ b3)
| member_ident k b b1 b2 t b3 v : ident k = true -> blanks b -> blanks b1 -> blanks b2 -> value v t -> blanks b3 ->
    member k v (b ++ k ++ b1 ++ 58 :: b2 ++ t ++ b3).

Scheme value_mut := Induction for value Sort Prop
with elements_mut := Induction for elements Sort Prop
with members_mut := Induction for members Sort Prop
with member_mut := Induction for member Sort Prop.
Combined Scheme grammar_mut from value_mut, elements_mut, members_mut, member_mut.

(** ** Digits *)

Lemma digit_values base d c : base <= 16 -> digit base d c -> digit_value c = d /\ from_hex c = d.
Proof.
  intros Hb [Hd Hc]. assert (In d (seqZ 0 16)) as Hin by (apply list_elem_of_In, elem_of_seqZ; lia).
  cbn in Hin. repeat (destruct Hin as [<-|Hin]; [by destruct Hc as [[= <-]|[= <-]]|]). done.
Qed.

Definition in_base (b : Z) (ds : list Z) : bool := forallb (fun c => digit_value c <? b) ds.
Definition number_of (b : Z) (ds : list Z) : Z := foldl (fun a c => a * b + digit_value c) 0 ds.

Lemma digits_in_base b ds t : b <= 16 -> Forall2 (digit b) ds t -> in_base b t = true /\ number_of b t = positional b ds.
Proof.
  intros Hb H. unfold number_of, positional. generalize 0 at 1 2. induction H as [|d c ds t Hc _ IH]; intros a; [done|].
  destruct (digit_values b d c Hb Hc) as [E _]. destruct Hc as [Hd _]. cbn [foldl]. rewrite E.
  destruct (IH (a * b + d)) as [H1 H2]. split; [|done]. cbn [in_base forallb]. rewrite E, (proj2 (Z.ltb_lt d b)) by lia. done.
Qed.

Lemma hex_pair d1 d0 : 0 <= d0 < 16 -> (d1 << 4) .| d0 = 16 * d1 + d0.
Proof. intros H. rewrite lor_disjoint_add by (lia || (unfold in_u; lia)). lia. Qed.

(** ** Objects *)

Lemma last_value_snoc kvs n v k : last_value (kvs ++ [(n, v)]) k = if bool_decide (n = k) then Some v else last_value kvs k.
Proof.
  induction kvs as [|[n' v'] kvs IH]; [done|]. cbn [app last_value]. rewrite IH. by case_bool_decide.
Qed.

Lemma names_snoc kvs n v : names (kvs ++ [(n, v)]) = if decide (n ∈ names kvs) then names kvs else names kvs ++ [n].
Proof.
  unfold names. rewrite map_app. cbn [map fst]. rewrite reverse_snoc. cbn [remove_dups].
  destruct (decide_rel elem_of n (reverse (map fst kvs))) as [H|H].
  - rewrite decide_True; [done|]. by rewrite elem_of_reverse, elem_of_remove_dups.
  - rewrite decide_False; [by rewrite reverse_cons|]. by rewrite elem_of_reverse, elem_of_remove_dups.
Qed.

Lemma set_prop_map (f : list Z -> JSONValue) l n v : NoDup l ->
  set_prop (map (fun k => (k, f k)) l) n v
    = map (fun k => (k, if bool_decide (n = k) then v else f k)) (if decide (n ∈ l) then l else l ++ [n]).
Proof.
  induction 1 as [|k l Hk Hl IH]; cbn [map set_prop].
  - rewrite decide_False by (by intros ?%elem_of_nil). cbn. by rewrite bool_decide_eq_true_2.
  - destruct (decide (k = n)) as [->|Hne].
    + rewrite bool_decide_eq_true_2 by done. rewrite decide_True by constructor. cbn [map]. rewrite bool_decide_eq_true_2 by done.
      f_equal. apply map_ext_in. intros k' Hk'%list_elem_of_In. rewrite bool_decide_eq_false_2 by congruence. done.
    + rewrite bool_decide_eq_false_2 by done. rewrite IH.
      destruct (decide (n ∈ l)) as [Hn|Hn]; [rewrite decide_True by (by constructor)|rewrite decide_False by (rewrite elem_of_cons; naive_solver)];
        cbn [app map]; by rewrite bool_decide_eq_false_2 by congruence.
Qed.

Lemma object_of_fold kvs : foldl (fun ps kv => set_prop ps kv.1 kv.2) [] kvs = object_of kvs.
Proof.
  induction kvs as [|[n v] kvs IH] using rev_ind; [done|]. rewrite foldl_app, IH. cbn [foldl fst snd]. unfold object_of.
  rewrite (set_prop_map (fun k => default JSON_UNDEFINED (last_value kvs k))), names_snoc
    by (unfold names; rewrite reverse_Permutation; apply NoDup_remove_dups).
  apply map_ext. intros k. rewrite last_value_snoc. by case_bool_decide.
Qed.

(** ** Tokens *)

(** the next token starts here *)
Definition token (p : list Z) : bool := negb (isspace (char p)) && negb (char p =? 47).

Lemma skip_token p : token p = true -> skip_spaces p = p.
Proof.
  destruct p as [|c p]; [done|]. unfold token. cbn [char hd]. rewrite andb_true_iff, !negb_true_iff.
  intros [H1 H2%Z.eqb_neq]. by apply skip_spaces_at.
Qed.

Lemma skip_line_of l q : Forall (fun c => c <> 10) l -> skip_line (l ++ 10 :: q) = skip_spaces q.
Proof. induction 1 as [|c l Hc Hl IH]; [done|]. cbn [app skip_line]. by rewrite (proj2 (Z.eqb_neq _ _) Hc). Qed.

Lemma skip_comment_of l q : open_comment (l ++ [42]) = true -> skip_comment (l ++ 42 :: 47 :: q) = skip_spaces q.
Proof.
  induction l as [|c l IH]; [done|]. cbn [app open_comment skip_comment]. rewrite andb_true_iff, negb_true_iff. intros [Hc Hl].
  assert (char (l ++ 42 :: 47 :: q) = char (l ++ [42])) as -> by (by destruct l).
  rewrite Hc. by apply IH.
Qed.

Lemma skip_blanks_of b p : blanks b -> token p = true -> skip_spaces (b ++ p) = p.
Proof.
  intros Hb Hp. induction Hb as [|c b Hc Hb IH|l b Hl Hb IH|l b Hl Hb IH]; [by apply skip_token|..].
  - cbn [app skip_spaces]. by rewrite Hc.
  - cbn [app]. change (skip_spaces (47 :: 47 :: (l ++ 10 :: b) ++ p)) with (skip_line ((l ++ 10 :: b) ++ p)).
    by rewrite <- app_assoc, <- app_comm_cons, skip_line_of.
  - cbn [app]. change (skip_spaces (47 :: 42 :: (l ++ 42 :: 47 :: b) ++ p)) with (skip_comment ((l ++ 42 :: 47 :: b) ++ p)).
    by rewrite <- app_assoc, <- !app_comm_cons, skip_comment_of.
Qed.

Lemma string_loop_of s t buf p :
  chars s t -> (length buf + length s <= 4095)%nat -> string_loop (t ++ 34 :: p) buf = inr (buf ++ s, p).
Proof.
  intros Hs. revert buf. induction Hs as [|c s t Hc Hs IH|e c s t He Hs IH|d1 d0 x1 x0 s t H1 H0 Hn Hs IH]; intros buf Hl; cbn [length] in Hl.
  - by rewrite app_nil_r.
  - assert (c <> 0 /\ c <> 10 /\ c <> 34 /\ c <> 92) as (N0 & N1 & N2 & N3) by (rewrite !not_elem_of_cons in Hc; tauto).
    cbn [app string_loop]. rewrite !(proj2 (Z.eqb_neq _ _)) by done. cbn [orb]. rewrite (proj2 (Nat.leb_gt _ _)) by lia.
    rewrite IH by (rewrite length_app; cbn; lia). by rewrite <- app_assoc.
  - assert (string_loop ((92 :: e :: t) ++ 34 :: p) buf = string_loop (t ++ 34 :: p) (buf ++ [c])) as ->.
    { unfold escapes in He. repeat (apply elem_of_cons in He as [[= -> ->]|He];
        [cbn [app string_loop Z.eqb Pos.eqb orb]; by rewrite (proj2 (Nat.leb_gt _ _)) by lia|]). by apply elem_of_nil in He. }
    rewrite IH by (rewrite length_app; cbn; lia). by rewrite <- app_assoc.
  - destruct (digit_values 16 d1 x1 (Z.le_refl _) H1) as [_ E1]. destruct (digit_values 16 d0 x0 (Z.le_refl _) H0) as [_ E0].
    destruct H1 as [H1 _]. destruct H0 as [H0 _].
    cbn [app string_loop Z.eqb Pos.eqb orb]. rewrite E1, E0, hex_pair by lia. rewrite !(proj2 (Z.ltb_ge _ _)) by lia. rewrite (proj2 (Nat.leb_gt _ _)) by lia.
    rewrite IH by (rewrite length_app; cbn; lia). by rewrite <- app_assoc.
Qed.

Lemma cstr_chars s t : chars s t -> cstr s = s.
Proof.
  induction 1 as [|c s t Hc Hs IH|e c s t He Hs IH|d1 d0 x1 x0 s t H1 H0 Hn Hs IH]; [done|..]; cbn [cstr]; rewrite IH.
  - rewrite (proj2 (Z.eqb_neq _ _)); [done|]. intros ->. apply Hc. set_solver.
  - rewrite (proj2 (Z.eqb_neq _ _)); [done|]. intros ->. unfold escapes in He. set_solver.
  - by rewrite (proj2 (Z.eqb_neq _ _)).
Qed.

Lemma parse_string_of s t p : str s t -> parse_string (t ++ p) = inr (s, p).
Proof.
  intros [s' t' Hs Hl]. unfold parse_string. cbn [app tl]. rewrite <- app_assoc. cbn [app].
  rewrite (string_loop_of s' t' [] p Hs) by (cbn; lia). cbn [app]. by rewrite (cstr_chars _ _ Hs).
Qed.

(** no identifier, keyword or number runs on into the text *)
Definition stops (p : list Z) : bool := negb (is_ident_first (char p) || isdigit (char p)).

Lemma ident_loop_of l buf p :
  forallb (fun c => is_ident_first c || isdigit c) l = true -> stops p = true -> (length buf + length l <= 127)%nat ->
  ident_loop 128 (l ++ p) buf = Some (buf ++ l, p).
Proof.
  intros Hl Hp. revert buf Hl. induction l as [|c l IH]; intros buf Hl Hn; cbn [app].
  - rewrite app_nil_r. destruct p as [|c p]; [done|]. unfold stops in Hp. cbn [char hd] in Hp. apply negb_true_iff in Hp.
    cbn [ident_loop]. by rewrite Hp.
  - cbn [forallb] in Hl. apply andb_true_iff in Hl as [Hc Hl]. cbn [ident_loop length] in *. rewrite Hc.
    change (128 - 1)%nat with 127%nat. rewrite (proj2 (Nat.leb_gt _ _)) by lia.
    rewrite IH by (done || rewrite length_app; cbn; lia). by rewrite <- app_assoc.
Qed.

Lemma parse_ident_of k p : ident k = true -> stops p = true -> parse_ident (k ++ p) = Some (k, p).
Proof.
  unfold ident. rewrite !andb_true_iff. intros [[Hc Hk] Hl%Nat.leb_le] Hp. destruct k as [|c k]; [done|].
  cbn [forallb length] in *. apply andb_true_iff in Hk as [_ Hk]. unfold parse_ident. cbn [app tl char hd].
  by rewrite (ident_loop_of k [c] p) by (done || cbn; lia).
Qed.

(** ** Numbers *)

Lemma digit_value_nonneg c : 0 <= digit_value c.
Proof. unfold digit_value, isdigit. repeat case_match; lia. Qed.

Lemma stops_digit p b : stops p = true -> b <= 16 -> b <= digit_value (char p).
Proof.
  unfold stops, is_ident_first, digit_value. rewrite negb_true_iff, !orb_false_iff. intros ((((H1 & H2) & _) & _) & ->) Hb.
  rewrite H1, H2. lia.
Qed.

Lemma digits_of b ds p a :
  in_base b ds = true -> stops p = true -> b <= 16 -> digits b a (ds ++ p) = (foldl (fun a c => a * b + digit_value c) a ds, p).
Proof.
  intros Hd Hp Hb. revert a Hd. induction ds as [|c ds IH]; intros a Hd; cbn [app foldl].
  - destruct p as [|c p]; [done|]. cbn [digits]. pose proof (stops_digit _ b Hp Hb). cbn in *. by rewrite (proj2 (Z.ltb_ge _ _)).
  - cbn [in_base forallb] in Hd. apply andb_true_iff in Hd as [Hc Hd]. cbn [digits]. rewrite Hc. by apply IH.
Qed.

Lemma number_of_nonneg b ds : 0 <= b -> 0 <= number_of b ds.
Proof.
  intros Hb. unfold number_of. assert (forall a, 0 <= a -> 0 <= foldl (fun a c => a * b + digit_value c) a ds) as H; [|by apply H].
  induction ds as [|c ds IH]; intros a Ha; cbn; [done|]. apply IH. pose proof (digit_value_nonneg c). nia.
Qed.

(** neither a digit nor what stops a number is the [x] of a prefix *)
Lemma no_prefix b ds p : in_base b ds = true -> stops p = true -> b <= 16 -> char (ds ++ p) <> 120 /\ char (ds ++ p) <> 88.
Proof.
  intros Hd Hp Hb. destruct ds as [|c ds]; cbn [app].
  - pose proof (stops_digit _ 16 Hp ltac:(lia)) as H. unfold stops, is_ident_first in Hp.
    split; intros E; rewrite E in Hp; vm_compute in Hp; discriminate.
  - cbn [in_base forallb] in Hd. apply andb_true_iff in Hd as [Hc%Z.ltb_lt _]. cbn [char hd].
    split; intros ->; change (33 < b) in Hc; lia.
Qed.

(** digits only: no blank, no sign, no prefix *)
Lemma strtoll_of base b c ds p :
  digit_value c < b -> in_base b ds = true -> stops p = true -> b <= 16 -> number_of b (c :: ds) < 2 ^ 63 ->
  (if base =? 0 then b = if c =? 48 then 8 else 10 else base = b) ->
  strtoll (c :: ds ++ p) base = (number_of b (c :: ds), p).
Proof.
  intros Hc Hd Hp Hb Hn Hbase. assert (0 <= b) as Hb0 by (pose proof (digit_value_nonneg c); lia).
  assert ((48 <= c <= 57) \/ (97 <= c <= 122) \/ (65 <= c <= 90)) as Hcc.
  { unfold digit_value, isdigit in Hc. repeat case_match; lia. }
  assert (isspace c = false) as Hs by (unfold isspace; lia).
  destruct (no_prefix b ds p Hd Hp Hb) as [X1 X2].
  assert (hex_prefix (c :: ds ++ p) = false) as Hx.
  { unfold hex_prefix, char1. cbn [tl]. unfold char in X1, X2. rewrite (proj2 (Z.eqb_neq _ _) X1), (proj2 (Z.eqb_neq _ _) X2).
    cbn [orb]. by rewrite andb_false_r. }
  unfold strtoll. cbn [skip_blanks]. rewrite Hs. cbv zeta. cbn [char hd].
  rewrite (proj2 (Z.eqb_neq c 45)), (proj2 (Z.eqb_neq c 43)) by lia. cbn [orb]. rewrite Hx, andb_false_r. cbv iota. change (char (c :: ds ++ p)) with c.
  assert ((if base =? 0 then if c =? 48 then 8 else 10 else base) = b) as -> by (destruct (base =? 0); congruence).
  rewrite (proj2 (Z.ltb_lt _ _) Hc). change (c :: ds ++ p) with ((c :: ds) ++ p).
  rewrite digits_of by (done || cbn [in_base forallb]; by rewrite (proj2 (Z.ltb_lt _ _) Hc)).
  fold (number_of b (c :: ds)). pose proof (number_of_nonneg b (c :: ds) Hb0). f_equal. lia.
Qed.

Lemma decimal_digit ds c t : Forall2 (digit 10) ds (c :: t) -> c <> 48 -> 49 <= c <= 57.
Proof.
  intros H Hc. inversion H as [|d c' ds' t' Hd _]; subst. destruct (digit_values 10 d c ltac:(lia) Hd) as [E _]. destruct Hd as [Hd _].
  unfold digit_value, isdigit in E. repeat case_match; lia.
Qed.

Lemma number_start n t : number n t -> exists c u, t = c :: u /\ isdigit c = true.
Proof. destruct 1 as [ds c t Hd Hc _| |]; [pose proof (decimal_digit _ _ _ Hd Hc)|..]; do 2 eexists; (split; [done|]); unfold isdigit; lia. Qed.

Lemma parse_number n t b p fuel :
  number n t -> blanks b -> stops p = true -> json_parse_value2 (S fuel) (b ++ t ++ p) = Some (JSON_INT n, p).
Proof.
  intros Hn Hb Hp. cbn [json_parse_value2].
  assert (token (t ++ p) = true) as Ht.
  { destruct (number_start n t Hn) as (c & u & -> & Hc). unfold token, isspace, isdigit in *. cbn [app char hd]. lia. }
  rewrite (skip_blanks_of b _ Hb Ht).
  destruct Hn as [ns d ds Hd Hz Hlt|ns ds Hds Hlt|ns ds Hne Hds Hlt].
  - destruct (digits_in_base 10 ns (d :: ds) ltac:(lia) Hd) as [Hds E]. rewrite <- E in *. pose proof (decimal_digit _ _ _ Hd Hz) as Hr.
    cbn [in_base forallb] in Hds. apply andb_true_iff in Hds as [_ Hds].
    cbn [app char hd char1 tl]. replace (d =? 0) with false by lia. replace (d =? 48) with false by lia. cbn [andb].
    assert (isdigit d = true) as -> by (unfold isdigit; lia).
    rewrite (strtoll_of 0 10 d ds p); [done|unfold digit_value, isdigit; by replace (_ && _) with true by lia; lia|done..|].
    cbn. by replace (d =? 48) with false by lia.
  - destruct (digits_in_base 8 ns ds ltac:(lia) Hds) as [Hb8 E]. rewrite <- E in *. clear Hds. rename Hb8 into Hds.
    destruct (no_prefix 8 ds p Hds Hp ltac:(lia)) as [X1 _].
    change (char ((48 :: ds) ++ p)) with 48. change (char1 ((48 :: ds) ++ p)) with (char (ds ++ p)).
    change (48 =? 0) with false. change (48 =? 48) with true.
    rewrite (proj2 (Z.eqb_neq _ _) X1). cbn [andb]. change (isdigit 48) with true. cbv iota. rewrite <- app_comm_cons.
    by rewrite (strtoll_of 0 8 48 ds p).
  - destruct (digits_in_base 16 ns ds ltac:(lia) Hds) as [H16 E]. rewrite <- E in *.
    assert (ds <> []) as Hne' by (by destruct Hds). clear Hds. rename H16 into Hds.
    destruct ds as [|c ds]; [done|]. cbn [app char hd char1 tl drop]. change (48 =? 0) with false. change (48 =? 48) with true.
    change (120 =? 120) with true. cbn [andb]. cbn [in_base forallb] in Hds. apply andb_true_iff in Hds as [Hc%Z.ltb_lt Hds].
    by rewrite (strtoll_of 16 16 c ds p).
Qed.

(** ** Values *)

(** the first character of a value *)
Definition starter (c : Z) : bool := (c =? 34) || isdigit c || is_ident_first c || (c =? 91) || (c =? 123).

Lemma value_start v t : value v t -> exists c u, t = c :: u /\ starter c = true.
Proof.
  destruct 1 as [s t [s' t' _ _]|n t Hn| |b|vs t _|kvs t _]; try (by do 2 eexists).
  - destruct (number_start n t Hn) as (c & u & -> & Hc). do 2 eexists. split; [done|]. unfold starter. rewrite Hc. by destruct (c =? 34).
  - destruct b; by do 2 eexists.
Qed.

Lemma starter_token c p : starter c = true -> token (c :: p) = true /\ c <> 93 /\ c <> 125 /\ c <> 44 /\ c <> 58 /\ c <> 0.
Proof. unfold starter, token, isdigit, is_ident_first, isspace. cbn [char hd]. intros H. split_and!; lia. Qed.

(** blanks or a closing character stop a number and an identifier *)
Lemma blanks_stop b c p : blanks b -> stops (c :: p) = true -> stops (b ++ c :: p) = true.
Proof. intros [|x b' Hx _|l b' _ _|l b' _ _] Hc; [done| |done|done]. unfold stops, isspace, is_ident_first, isdigit in *. cbn [app char hd]. lia. Qed.

Definition reads (v : JSONValue) (t : list Z) : Prop := exists f0, forall f b p, (f0 <= f)%nat -> blanks b -> stops p = true ->
  json_parse_value2 f (b ++ t ++ p) = Some (v, p).

Lemma reads_keyword v k : value v k -> ident k = true -> (k = k_null /\ v = JSON_NULL \/ k = k_true /\ v = JSON_BOOL true \/ k = k_false /\ v = JSON_BOOL false) -> reads v k.
Proof.
  intros Hv Hk Hc. exists 1%nat. intros [|f] b p Hf Hb Hp; [lia|]. cbn [json_parse_value2].
  destruct (value_start _ _ Hv) as (c & u & E & Hs). destruct (starter_token c (u ++ p) Hs) as [Ht _].
  rewrite skip_blanks_of by (done || by rewrite E).
  assert (char (k ++ p) = char k) as -> by (by rewrite E). rewrite (parse_ident_of k p Hk Hp).
  by destruct Hc as [[-> ->]|[[-> ->]|[-> ->]]].
Qed.

Lemma reads_str s t : str s t -> reads (JSON_STR s) t.
Proof.
  intros Hs. exists 1%nat. intros [|f] b p Hf Hb Hp; [lia|]. cbn [json_parse_value2].
  assert (exists u, t = 34 :: u) as [u E] by (destruct Hs; eauto). rewrite skip_blanks_of by (done || by rewrite E).
  assert (char (t ++ p) = 34) as -> by (by rewrite E). cbn [Z.eqb Pos.eqb andb]. change (isdigit 34) with false. cbv iota.
  by rewrite (parse_string_of s t p Hs).
Qed.

Definition reads_elements (vs : list JSONValue) (t : list Z) : Prop := exists f0, forall f tab p, (f0 <= f)%nat ->
  array_loop f tab (t ++ p) = Some (inr (tab ++ vs, p)).
Definition reads_members (kvs : list (list Z * JSONValue)) (t : list Z) : Prop := exists f0, forall f ps p, (f0 <= f)%nat ->
  object_loop f ps (t ++ p) = Some (inr (foldl (fun ps kv => set_prop ps kv.1 kv.2) ps kvs, p)).
(** behind a member: a comma or the closing brace *)
Definition reads_member (k : list Z) (v : JSONValue) (m : list Z) : Prop := exists f0, forall f ps p, (f0 <= f)%nat ->
  object_loop (S f) ps (m ++ 44 :: p) = object_loop f (set_prop ps k v) p
  /\ object_loop (S f) ps (m ++ 125 :: p) = object_loop f (set_prop ps k v) (125 :: p).

Lemma token_close c p : c = 44 \/ c = 93 \/ c = 125 \/ c = 58 -> token (c :: p) = true /\ stops (c :: p) = true.
Proof. by intros [->|[->|[->| ->]]]. Qed.

(** a value in an array, and what is behind it *)
Lemma array_step f0 v b t b' c p :
  (forall f b p, (f0 <= f)%nat -> blanks b -> stops p = true -> json_parse_value2 f (b ++ t ++ p) = Some (v, p)) ->
  value v t -> blanks b -> blanks b' -> c = 44 \/ c = 93 ->
  forall f tab, (f0 <= f)%nat ->
  array_loop (S f) tab (b ++ t ++ b' ++ c :: p) = array_loop f (tab ++ [v]) (if c =? 44 then p else c :: p).
Proof.
  intros Hr Hv Hb Hb' Hc f tab Hf. destruct (value_start v t Hv) as (x & u & E & Hs).
  destruct (starter_token x (u ++ b' ++ c :: p) Hs) as (Ht & N1 & _).
  destruct (token_close c p ltac:(tauto)) as [Htc Hsc]. cbn [array_loop]. rewrite skip_blanks_of by (done || by rewrite E).
  assert (char (t ++ b' ++ c :: p) = x) as Hx by (by rewrite E). rewrite Hx, (proj2 (Z.eqb_neq _ _) N1).
  pose proof (Hr f [] (b' ++ c :: p) Hf blanks_nil (blanks_stop b' c p Hb' Hsc)) as Hv'. cbn [app] in Hv'. rewrite Hv'.
  cbn [mbind option_bind fst snd].
  rewrite skip_blanks_of by done. by destruct Hc as [-> | ->].
Qed.

Lemma member_step f0 k v tag b b1 b2 t b3 c p :
  (forall q, stops q = true -> parse_tag (tag ++ q) = inr (k, q)) -> (exists x u, tag = x :: u /\ token (x :: u) = true /\ x <> 125) ->
  (forall f b p, (f0 <= f)%nat -> blanks b -> stops p = true -> json_parse_value2 f (b ++ t ++ p) = Some (v, p)) ->
  blanks b -> blanks b1 -> blanks b2 -> blanks b3 -> c = 44 \/ c = 125 ->
  forall f ps, (f0 <= f)%nat ->
  object_loop (S f) ps ((b ++ tag ++ b1 ++ 58 :: b2 ++ t ++ b3) ++ c :: p)
    = object_loop f (set_prop ps k v) (if c =? 44 then p else c :: p).
Proof.
  intros Hk (x & u & E & Hx & N) Hr Hb Hb1 Hb2 Hb3 Hc f ps Hf. destruct (token_close c p ltac:(tauto)) as [Htc Hsc].
  rewrite <- !app_assoc, <- app_comm_cons, <- !app_assoc. set (q := b2 ++ t ++ b3 ++ c :: p).
  cbn [object_loop]. rewrite skip_blanks_of by (done || by rewrite E).
  assert (char (tag ++ b1 ++ 58 :: q) = x) as -> by (by rewrite E). rewrite (proj2 (Z.eqb_neq _ _) N).
  rewrite Hk by (by apply blanks_stop). rewrite skip_blanks_of by done. cbn [char hd tl]. change (negb (58 =? 58)) with false. cbv iota.
  subst q. rewrite (Hr f b2 (b3 ++ c :: p) Hf Hb2) by (by apply blanks_stop). cbn [mbind option_bind fst snd].
  rewrite skip_blanks_of by done. by destruct Hc as [-> | ->].
Qed.

Lemma parse_tag_str s k q : str s k -> s <> [] -> parse_tag (k ++ q) = inr (s, q).
Proof.
  intros Hk Hs. unfold parse_tag. assert (char (k ++ q) = 34) as -> by (by destruct Hk). change (34 =? 34) with true. cbv iota.
  rewrite (parse_string_of s k q Hk). by destruct s.
Qed.
Lemma parse_tag_ident k q : ident k = true -> stops q = true -> parse_tag (k ++ q) = inr (k, q).
Proof.
  intros Hk Hq. unfold parse_tag. rewrite (parse_ident_of k q Hk Hq). unfold ident in Hk. rewrite !andb_true_iff in Hk.
  destruct Hk as [[Hc _] _]. destruct k as [|c k]; [done|]. change (char ((c :: k) ++ q)) with c. cbn [char hd] in Hc. rewrite Hc.
  by replace (c =? 34) with false by (unfold is_ident_first in Hc; lia).
Qed.

Lemma grammar_reads :
  (forall v t, value v t -> reads v t) /\ (forall vs t, elements vs t -> reads_elements vs t)
  /\ (forall kvs t, members kvs t -> reads_members kvs t) /\ (forall k v m, member k v m -> reads_member k v m).
Proof.
  apply grammar_mut.
  - intros s t Hs. by apply reads_str.
  - intros n t Hn. exists 1%nat. intros [|f] b p Hf Hb Hp; [lia|]. by apply parse_number.
  - apply reads_keyword; [constructor|done|auto].
  - intros b. apply reads_keyword; [constructor|by destruct b|destruct b; auto].
  - intros vs t Ht [f0 IH]. exists (S f0). intros [|f] b p Hf Hb Hp; [lia|]. cbn [json_parse_value2 app].
    rewrite skip_blanks_of by done. cbn. by rewrite IH by lia.
  - intros kvs t Ht [f0 IH]. exists (S f0). intros [|f] b p Hf Hb Hp; [lia|]. cbn [json_parse_value2 app].
    rewrite skip_blanks_of by done. cbn. rewrite IH by lia. cbn. by rewrite object_of_fold.
  - intros b Hb. exists 1%nat. intros [|f] tab p Hf; [lia|]. rewrite <- app_assoc. cbn [array_loop app].
    rewrite skip_blanks_of by done. cbn. by rewrite app_nil_r.
  - intros v b t b' Hb Hv [f0 IH] Hb'. exists (2 + f0)%nat. intros [|[|f]] tab p Hf; [lia..|]. rewrite <- !app_assoc. cbn [app].
    rewrite (array_step f0 v b t b' 93 p) by (done || tauto || lia). by apply array_loop_end.
  - intros v vs b t b' u Hb Hv [f0 IH] Hb' Hu [f1 IH']. exists (S (f0 + f1)). intros [|f] tab p Hf; [lia|].
    rewrite <- !app_assoc. cbn [app]. rewrite (array_step f0 v b t b' 44 (u ++ p)) by (done || tauto || lia). cbn [Z.eqb Pos.eqb].
    rewrite IH' by lia. by rewrite <- app_assoc.
  - intros b Hb. exists 1%nat. intros [|f] ps p Hf; [lia|]. rewrite <- app_assoc. cbn [object_loop app].
    by rewrite skip_blanks_of.
  - intros k v m Hm [f0 IH]. exists (2 + f0)%nat. intros [|[|f]] ps p Hf; [lia..|]. rewrite <- app_assoc. cbn [app].
    destruct (IH (S f) ps p ltac:(lia)) as [_ ->]. by apply object_loop_end.
  - intros k v kvs m u Hm [f0 IH] Hu [f1 IH']. exists (S (f0 + f1)). intros [|f] ps p Hf; [lia|].
    rewrite <- app_assoc. cbn [app]. destruct (IH f ps (u ++ p) ltac:(lia)) as [-> _]. by rewrite IH' by lia.
  - intros s k b b1 b2 t b3 v Hk Hs Hb Hb1 Hb2 Hv [f0 IH] Hb3. exists f0. intros f ps p Hf.
    assert (exists x u, k = x :: u /\ token (x :: u) = true /\ x <> 125) as Hx by (destruct Hk; by do 2 eexists).
    split; rewrite (member_step f0 s v k b b1 b2 t b3); try done; try tauto; intros q _; by apply parse_tag_str.
  - intros k b b1 b2 t b3 v Hk Hb Hb1 Hb2 Hv [f0 IH] Hb3. exists f0. intros f ps p Hf.
    assert (exists x u, k = x :: u /\ token (x :: u) = true /\ x <> 125) as Hx.
    { unfold ident in Hk. rewrite !andb_true_iff in Hk. destruct Hk as [[Hc _] _]. destruct k as [|x u]; [done|].
      do 2 eexists. split; [done|]. unfold token, isspace, is_ident_first in *. cbn [char hd] in *. lia. }
    split; rewrite (member_step f0 k v k b b1 b2 t b3); try done; try tauto; intros q Hq; by apply parse_tag_ident.
Qed.

(** C22: the parser reads every text of the grammar, blanks and comments around it
    included, as the value it stands for. *)
Theorem json_reads v t b b' fuel :
  value v t -> blanks b -> blanks b' -> (2 * length (b ++ t ++ b') + 1 <= fuel)%nat ->
  json_parse_value fuel (b ++ t ++ b') = Some v.
Proof.
  intros Hv Hb Hb' Hf. destruct (proj1 grammar_reads v t Hv) as [f0 Hr]. set (p := b ++ t ++ b') in *.
  assert (stops b' = true) as Hs.
  { destruct Hb' as [|c b0 Hc _|l b0 _ _|l b0 _ _]; [done| |done|done]. unfold stops, isspace, is_ident_first, isdigit in *. cbn [char hd]. lia. }
  destruct (all_ok (length p)) as (Ht & _ & _). destruct (Ht p fuel (le_n _) Hf) as (v' & q & E & _).
  pose proof (proj1 (parse_mono fuel) p _ (max f0 fuel) E ltac:(lia)) as E'.
  pose proof (Hr (max f0 fuel) b b' ltac:(lia) Hb Hs) as E''. fold p in E''. rewrite E'' in E'. injection E' as <- <-.
  unfold json_parse_value. rewrite E. cbn. pose proof (skip_blanks_of b' [] Hb' eq_refl) as Hk. rewrite app_nil_r in Hk. rewrite Hk.
  by destruct Hv.
Qed.

(** {"a": [1, 0x10,], b : true} with a comment and a newline behind it *)
Definition sample_text : list Z := [123; 34; 97; 34; 58; 32; 91; 49; 44; 32; 48; 120; 49; 48; 44; 93; 44; 32; 98; 32; 58; 32; 116; 114; 117; 101; 125].
Definition sample_tail : list Z := [47; 42; 99; 42; 47; 10].
Definition sample_value : JSONValue :=
  JSON_OBJ [([97], JSON_ARRAY [JSON_INT 1; JSON_INT 16]); ([98], JSON_BOOL true)].

Lemma sample_blank : blanks [32].
Proof. by repeat constructor. Qed.

Lemma sample_array : value (JSON_ARRAY [JSON_INT 1; JSON_INT 16]) [91; 49; 44; 32; 48; 120; 49; 48; 44; 93].
Proof.
  apply value_array. apply (elements_cons (JSON_INT 1) [JSON_INT 16] [] [49] [] [32; 48; 120; 49; 48; 44; 93]); [constructor| |constructor|].
  - apply value_num, (number_decimal [1]); [by repeat constructor; lia || auto|done|done].
  - apply (elements_cons (JSON_INT 16) [] [32] [48; 120; 49; 48] [] [93]); [apply sample_blank| |constructor|].
    + apply value_num, (number_hex [1; 0]); [done|by repeat constructor; lia || auto|done].
    + apply (elements_nil []). constructor.
Qed.

Lemma sample_reads : value sample_value sample_text.
Proof.
  apply (value_object [([97], JSON_ARRAY [JSON_INT 1; JSON_INT 16]); ([98], JSON_BOOL true)] (tl sample_text)).
  apply (members_cons [97] _ [([98], JSON_BOOL true)] [34; 97; 34; 58; 32; 91; 49; 44; 32; 48; 120; 49; 48; 44; 93] [32; 98; 32; 58; 32; 116; 114; 117; 101; 125]).
  - apply (member_quoted [97] [34; 97; 34] [] [] [32] [91; 49; 44; 32; 48; 120; 49; 48; 44; 93] []); [|done|constructor..|apply sample_blank|apply sample_array|constructor].
    apply (str_quoted [97] [97]); [|cbn; lia]. apply chars_plain; [set_solver|constructor].
  - apply (members_last [98] (JSON_BOOL true) [32; 98; 32; 58; 32; 116; 114; 117; 101]), (member_ident [98] [32] [32] [32] k_true []); try done; try apply sample_blank;
      [apply (value_bool true)|constructor].
Qed.

Lemma json_reads_witness : json_parse_value 200 ([] ++ sample_text ++ sample_tail) = Some sample_value.
Proof.
  apply (json_reads sample_value sample_text [] sample_tail 200).
  - apply sample_reads.
  - constructor.
  - apply (blanks_comment [99] [10]); [done|]. by repeat constructor.
  - cbn. lia.
Defined.

(** an error inside an array or an object does not reach the caller: the comma
    is read as an element that is an error value *)
Example comma_is_an_element : json_parse_value 10 [91; 44; 93] = Some (JSON_ARRAY [JSON_EXCEPTION UnexpectedCharacter]).
Proof. reflexivity. Qed.
