(* ===== verification/Config.v ===== *)
(** * The machine's configuration file (machine.cpp)

    What [virt_machine_parse_config] reads from the JSON value of the file, the
    command line and the file names.  An error ends the program and is [None];
    its message is left out.  A C string is the list of its bytes, NULL is
    [None].  The local time zone and the files' contents are parameters. *)

From Stdlib Require Import String.
From S2P Require Import Prelude Fdt Json.

Definition MAX_DRIVE_DEVICE : Z := 4.
Definition MAX_ETH_DEVICE : Z := 1.
Definition VM_CONFIG_VERSION : Z := 1.

(** ** Properties of an object *)

Definition vm_get_int (obj : JSONValue) (name : list Z) : option Z :=
  match json_object_get obj name with JSON_INT v => Some v | _ => None end.

(** a property of another type leaves the value *)
Definition vm_get_uint64_opt (obj : JSONValue) (name : list Z) (pval : Z) : Z :=
  match json_object_get obj name with JSON_INT v => u64 v | _ => pval end.

Definition vm_get_str2 (obj : JSONValue) (name : list Z) (is_opt : bool) : option (option (list Z)) :=
  match json_object_get obj name with
  | JSON_UNDEFINED => if is_opt then Some None else None
  | JSON_STR s => Some (Some s)
  | _ => None
  end.
Definition vm_get_str (obj : JSONValue) (name : list Z) : option (list Z) := s ← vm_get_str2 obj name false; s.
Definition vm_get_str_opt (obj : JSONValue) (name : list Z) : option (option (list Z)) := vm_get_str2 obj name true.

(** ** The command line *)

(** printf's %d and %02d of a number that is not negative *)
Fixpoint decimal_loop (fuel : nat) (n : Z) (acc : list Z) : list Z :=
  match fuel with
  | O => acc
  | S fuel => if n <? 10 then (48 + n) :: acc else decimal_loop fuel (n / 10) ((48 + n mod 10) :: acc)
  end.
Definition decimal (n : Z) : list Z := decimal_loop 20 n [].
Definition decimal2 (n : Z) : list Z := if n <? 10 then 48 :: decimal n else decimal n.

(** the offset to UTC in seconds *)
Definition utc_offset (tm_gmtoff : Z) : list Z :=
  let n := Z.quot tm_gmtoff 60 in
  let sg := if n <? 0 then 43 else 45 in
  let n := Z.abs n in
  str "UTC" ++ [sg] ++ decimal2 (Z.quot n 60) ++ [58] ++ decimal2 (Z.rem n 60).

(** the value of a variable: only TZ has one *)
Definition subst_var (tm_gmtoff : Z) (var_name : list Z) : list Z :=
  if bool_decide (var_name = str "TZ") then utc_offset tm_gmtoff else [].

(** [var]: the name read so far, inside ${...}; it is cut at 31 characters *)
Fixpoint subst_loop (tm_gmtoff : Z) (var : option (list Z)) (p : list Z) : list Z :=
  match var, p with
  | None, [] => []
  | None, c :: q =>
      if c =? 36 then
        match q with
        | c1 :: r => if c1 =? 123 then subst_loop tm_gmtoff (Some []) r else c :: subst_loop tm_gmtoff None q
        | [] => [c]
        end
      else c :: subst_loop tm_gmtoff None q
  | Some name, [] => subst_var tm_gmtoff name
  | Some name, c :: q =>
      if c =? 125 then subst_var tm_gmtoff name ++ subst_loop tm_gmtoff None q
      else subst_loop tm_gmtoff (Some (if (List.length name <? 31)%nat then name ++ [c] else name)) q
  end.
Definition cmdline_subst (tm_gmtoff : Z) (cmdline : list Z) : list Z := subst_loop tm_gmtoff None cmdline.

Definition vm_add_cmdline (old_cmdline : option (list Z)) (cmdline : list Z) : list Z :=
  match cmdline with
  | c :: rest => if c =? 33 then rest else default [] old_cmdline ++ [32] ++ cmdline
  | [] => default [] old_cmdline ++ [32]
  end.

(** ** Parameters *)

Record VMDriveEntry := mkDrive { drive_device : option (list Z); drive_filename : list Z }.
Record VMFSEntry := mkFS { fs_tag : list Z; fs_filename : list Z }.
Record VMEthEntry := mkEth { eth_driver : list Z; eth_ifname : option (list Z) }.
(** VM_FILE_BIOS to VM_FILE_INITRD: the names *)
Record VMFiles := mkFiles { file_bios : option (list Z); file_vga_bios : option (list Z); file_kernel : option (list Z); file_initrd : option (list Z) }.
Record VMDisplay := mkDisplay { display_device : list Z; width : Z; height : Z }.

(** the fields the configuration file sets; the others keep their defaults *)
Record VirtMachineParams := mkParams {
  p_ram_base_addr : Z;
  p_ram_size : Z;
  files : VMFiles;
  p_cmdline : option (list Z);
  htif_base_addr : Z;
  p_maxinsns : Z;
  snapshot_load_name : option (list Z);
  tab_drive : list VMDriveEntry;
  tab_fs : list VMFSEntry;
  tab_eth : list VMEthEntry;
  display : option VMDisplay;
  input_device : option (list Z);
  accel_enable : bool;
  rtc_local_time : bool;
  ncpus : Z;
  p_physical_addr_len : Z;
  logfile : option (list Z);
  bootrom_name : option (list Z)
}.

(** the loops over [drive0], [drive1], ...: an undefined property ends them, one
    more than the table holds is an error *)
Fixpoint numbered {A} (fuel : nat) (max : Z) (prefix : list Z) (get : Z -> JSONValue -> option A) (cfg : JSONValue) (tab : list A)
  : option (list A) :=
  match fuel with
  | O => None
  | S fuel =>
      let count := Z.of_nat (length tab) in
      let obj := json_object_get cfg (prefix ++ decimal count) in
      if json_is_undefined obj then Some tab
      else if max <=? count then None
      else x ← get count obj; numbered fuel max prefix get cfg (tab ++ [x])
  end.

Definition get_drive (_ : Z) (obj : JSONValue) : option VMDriveEntry :=
  f ← vm_get_str obj (str "file"); d ← vm_get_str_opt obj (str "device"); Some (mkDrive d f).
(** the loop over the file systems has the drives' bound, which is the same *)
Definition get_fs (count : Z) (obj : JSONValue) : option VMFSEntry :=
  f ← vm_get_str obj (str "file");
  t ← vm_get_str_opt obj (str "tag");
  Some (mkFS (default (if count =? 0 then str "/dev/root" else str "/dev/root" ++ decimal count) t) f).
Definition get_eth (_ : Z) (obj : JSONValue) : option VMEthEntry :=
  d ← vm_get_str obj (str "driver");
  i ← (if bool_decide (d = str "tap") then i ← vm_get_str obj (str "ifname"); Some (Some i) else Some None);
  Some (mkEth d i).
Definition get_display (cfg : JSONValue) (vga : option (list Z)) : option (option VMDisplay * option (list Z)) :=
  let obj := json_object_get cfg (str "display0") in
  if json_is_undefined obj then Some (None, vga)
  else
    d ← vm_get_str obj (str "device");
    w ← vm_get_int obj (str "width");
    h ← vm_get_int obj (str "height");
    v ← vm_get_str_opt obj (str "vga_bios");
    Some (Some (mkDisplay d w h), v).

Definition get_accel (cfg : JSONValue) (old : bool) : option bool :=
  s ← vm_get_str_opt cfg (str "accel");
  match s with
  | None => Some old
  | Some s => if bool_decide (s = str "none") then Some false else if bool_decide (s = str "auto") then Some true else None
  end.

Definition get_rtc (cfg : JSONValue) (old : bool) : option bool :=
  match json_object_get cfg (str "rtc_local_time") with
  | JSON_UNDEFINED => Some old
  | JSON_BOOL b => Some b
  | _ => None
  end.

(** version and machine name *)
Definition check_header (cfg : JSONValue) : option unit :=
  version ← vm_get_int cfg (str "version");
  if negb (version =? VM_CONFIG_VERSION) then None
  else
    m ← vm_get_str cfg (str "machine");
    if bool_decide (m = str "riscv64") then Some tt else None.

Definition read_config (tm_gmtoff : Z) (p : VirtMachineParams) (cfg : JSONValue) : option VirtMachineParams :=
  _ ← check_header cfg;
  val ← vm_get_int cfg (str "memory_size");
  bios ← vm_get_str_opt cfg (str "bios");
  kernel ← vm_get_str_opt cfg (str "kernel");
  initrd ← vm_get_str_opt cfg (str "initrd");
  cmdline ← vm_get_str_opt cfg (str "cmdline");
  load ← vm_get_str_opt cfg (str "load");
  drives ← numbered 6 MAX_DRIVE_DEVICE (str "drive") get_drive cfg (tab_drive p);
  fss ← numbered 6 MAX_DRIVE_DEVICE (str "fs") get_fs cfg (tab_fs p);
  eths ← numbered 6 MAX_ETH_DEVICE (str "eth") get_eth cfg (tab_eth p);
  dv ← get_display cfg (file_vga_bios (files p));
  input ← vm_get_str_opt cfg (str "input_device");
  accel ← get_accel cfg (accel_enable p);
  rtc ← get_rtc cfg (rtc_local_time p);
  log ← vm_get_str_opt cfg (str "logfile");
  bootrom ← vm_get_str_opt cfg (str "bootrom");
  Some {|
    p_ram_base_addr := vm_get_uint64_opt cfg (str "memory_base_addr") (p_ram_base_addr p);
    p_ram_size := u64 (u64 val << 20);
    files := mkFiles bios dv.2 kernel initrd;
    p_cmdline := match cmdline with Some s => Some (cmdline_subst tm_gmtoff s) | None => p_cmdline p end;
    htif_base_addr := vm_get_uint64_opt cfg (str "htif_base_addr") (htif_base_addr p);
    p_maxinsns := vm_get_uint64_opt cfg (str "maxinsns") 0;
    snapshot_load_name := load;
    tab_drive := drives; tab_fs := fss; tab_eth := eths;
    display := dv.1;
    input_device := input;
    accel_enable := accel; rtc_local_time := rtc;
    ncpus := vm_get_uint64_opt cfg (str "ncpus") (ncpus p);
    p_physical_addr_len := vm_get_uint64_opt cfg (str "physical_addr_len") (p_physical_addr_len p);
    logfile := log; bootrom_name := bootrom |}.

(** [None] inside: the parser ran out of fuel *)
Definition virt_machine_parse_config (fuel : nat) (tm_gmtoff : Z) (p : VirtMachineParams) (config_file_str : list Z) (n : Z)
  : option (option VirtMachineParams) :=
  cfg ← json_parse_value_len fuel config_file_str n;
  Some (if json_is_error cfg then None else read_config tm_gmtoff p cfg).

(** ** Files *)

(** [strrchr(s, '/')]: the text up to the last slash, the slash included *)
Fixpoint dir_part (s : list Z) : option (list Z) :=
  match s with
  | [] => None
  | c :: s =>
      match dir_part s with
      | Some d => Some (c :: d)
      | None => if c =? 47 then Some [c] else None
      end
  end.

Definition get_file_path (base_filename : option (list Z)) (filename : list Z) : list Z :=
  match base_filename with
  | None => filename
  | Some base =>
      if bool_decide (58 ∈ filename) then filename
      else if char filename =? 47 then filename
      else match dir_part base with Some d => d ++ filename | None => filename end
  end.

(** the additional files, in the order of their kinds; [load_file] ends the
    program ([None]) where a file cannot be read *)
Definition load_additional (load_file : list Z -> option (list Z)) (cfg_filename : option (list Z)) (f : option (list Z))
  : option (option (list Z)) :=
  match f with
  | None => Some None
  | Some f => buf ← load_file (get_file_path cfg_filename f); Some (Some buf)
  end.
Definition config_additional_file_load (load_file : list Z -> option (list Z)) (cfg_filename : option (list Z)) (p : VirtMachineParams)
  : option (list (option (list Z))) :=
  mapM (load_additional load_file cfg_filename)
    [file_bios (files p); file_vga_bios (files p); file_kernel (files p); file_initrd (files p)].
