(* ===== verification/ConfigProps.v ===== *)
(** * What the configuration reader does

    The tables of drives, file systems and network interfaces hold exactly the
    properties that are numbered without a gap; the command line has its variables
    replaced; relative file names are relative to the configuration file. *)

From Stdlib Require Import String.
From S2P Require Import Prelude Fdt Json Config.

(** entry [i] of a table, read from its property *)
Definition entry_read {A} (prefix : list Z) (get : Z -> JSONValue -> option A) (cfg : JSONValue) (i : nat) : option A :=
  let obj := json_object_get cfg (prefix ++ decimal (Z.of_nat i)) in
  if json_is_undefined obj then None else get (Z.of_nat i) obj.

(** [tab] is what the numbered properties say *)
Definition table {A} (max : Z) (prefix : list Z) (get : Z -> JSONValue -> option A) (cfg : JSONValue) (tab : list A) : Prop :=
  Z.of_nat (length tab) <= max
  /\ json_is_undefined (json_object_get cfg (prefix ++ decimal (Z.of_nat (length tab)))) = true
  /\ forall i, (i < length tab)%nat -> entry_read prefix get cfg i = tab !! i.

Lemma numbered_sound {A} fuel max prefix (get : Z -> JSONValue -> option A) cfg tab l :
  Z.of_nat (length tab) <= max -> (forall i, (i < length tab)%nat -> entry_read prefix get cfg i = tab !! i) ->
  numbered fuel max prefix get cfg tab = Some l -> table max prefix get cfg l.
Proof.
  revert tab. induction fuel as [|fuel IH]; intros tab Hn Ht; cbn [numbered]; [done|].
  destruct (json_is_undefined _) eqn:Eu; [intros [= <-]; by split_and!|].
  destruct (Z.leb_spec max (Z.of_nat (length tab))); [done|].
  destruct (get _ _) as [x|] eqn:Eg; [|done]. cbn. apply IH; rewrite length_app; cbn [length]; [lia|].
  intros i Hi. destruct (decide (i = length tab)) as [->|Hne].
  - unfold entry_read. by rewrite Eu, Eg, lookup_app_r, Nat.sub_diag by lia.
  - rewrite lookup_app_l by lia. apply Ht. lia.
Qed.

Lemma numbered_complete {A} fuel max prefix (get : Z -> JSONValue -> option A) cfg l n :
  table max prefix get cfg l -> (n <= length l)%nat -> (length l - n < fuel)%nat ->
  numbered fuel max prefix get cfg (take n l) = Some l.
Proof.
  intros (Hm & Hu & Ht). revert n. induction fuel as [|fuel IH]; intros n Hn Hf; [lia|]. cbn [numbered].
  rewrite length_take_le by lia. destruct (decide (n = length l)) as [->|Hne].
  - by rewrite Hu, firstn_all.
  - specialize (Ht n ltac:(lia)) as He. destruct (lookup_lt_is_Some_2 l n) as [x Hx]; [lia|]. unfold entry_read in He. rewrite Hx in He. cbv zeta in He.
    destruct (json_is_undefined _) eqn:Eu in He |- *; [done|]. rewrite (proj2 (Z.leb_gt _ _)) by lia. rewrite He. cbn [mbind option_bind].
    rewrite <- (take_S_r l n x Hx). apply IH; lia.
Qed.

Lemma numbered_table {A} max prefix (get : Z -> JSONValue -> option A) cfg l :
  0 <= max <= 5 -> numbered 6 max prefix get cfg [] = Some l <-> table max prefix get cfg l.
Proof.
  intros Hm. split.
  - apply numbered_sound; cbn; lia || done.
  - intros H. apply (numbered_complete 6 max prefix get cfg l 0 H); [lia|]. destruct H as [H _]. lia.
Qed.


(** ** The command line and file names *)

Lemma subst_plain g a p : 36 ∉ a -> subst_loop g None (a ++ p) = a ++ subst_loop g None p.
Proof.
  induction a as [|c a IH]; intros Ha; [done|]. rewrite not_elem_of_cons in Ha. destruct Ha as [Hc Ha]. cbn [app subst_loop].
  rewrite (proj2 (Z.eqb_neq c 36)) by congruence. by rewrite IH.
Qed.

Lemma subst_name g v name p :
  125 ∉ v -> (List.length name + List.length v <= 31)%nat ->
  subst_loop g (Some name) (v ++ 125 :: p) = subst_var g (name ++ v) ++ subst_loop g None p.
Proof.
  revert name. induction v as [|c v IH]; intros name Hv Hn; cbn [app subst_loop]; [by rewrite app_nil_r|].
  rewrite not_elem_of_cons in Hv. destruct Hv as [Hc Hv]. rewrite (proj2 (Z.eqb_neq c 125)) by congruence. cbn [List.length] in Hn.
  rewrite (proj2 (Nat.ltb_lt _ _)) by lia. rewrite IH by (done || rewrite length_app; cbn; lia). by rewrite <- app_assoc.
Qed.

(** a variable in the command line is replaced by its value, the text in front
    of it stays, and so on behind it *)
Theorem cmdline_subst_var g a v p :
  36 ∉ a -> 125 ∉ v -> (List.length v <= 31)%nat ->
  cmdline_subst g (a ++ [36; 123] ++ v ++ [125] ++ p) = a ++ subst_var g v ++ cmdline_subst g p.
Proof.
  intros Ha Hv Hn. unfold cmdline_subst. rewrite subst_plain by done. cbn [app subst_loop Z.eqb Pos.eqb].
  by rewrite (subst_name g v [] p) by (done || cbn; lia).
Qed.

Lemma dir_part_of d f : 47 ∉ f -> dir_part (d ++ 47 :: f) = Some (d ++ [47]).
Proof.
  intros Hf. assert (dir_part f = None) as Hn.
  { induction f as [|c f IH]; [done|]. rewrite not_elem_of_cons in Hf. destruct Hf as [Hc Hf]. cbn [dir_part]. rewrite IH by done.
    by rewrite (proj2 (Z.eqb_neq c 47)) by congruence. }
  induction d as [|c d IH]; cbn [app dir_part]; [by rewrite Hn|by rewrite IH].
Qed.

(** a relative name is put behind the directory of the configuration file *)
Theorem file_path_relative d base f :
  47 ∉ base -> 58 ∉ f -> char f <> 47 -> get_file_path (Some (d ++ 47 :: base)) f = d ++ [47] ++ f.
Proof.
  intros Hb Hc Hf. unfold get_file_path. rewrite bool_decide_eq_false_2 by done. rewrite (proj2 (Z.eqb_neq _ _) Hf).
  by rewrite dir_part_of, <- app_assoc.
Qed.

(** ** An example *)

Definition no_params : VirtMachineParams :=
  mkParams 0 0 (mkFiles None None None None) None 0 0 None [] [] [] None None false false 0 0 None None.
Definition drive_object (f : list Z) : JSONValue := JSON_OBJ [(str "file", JSON_STR f)].
Definition sample_config : JSONValue :=
  JSON_OBJ [(str "version", JSON_INT 1); (str "machine", JSON_STR (str "riscv64")); (str "memory_size", JSON_INT 256);
            (str "drive0", drive_object (str "a.img")); (str "drive1", drive_object (str "b.img"));
            (str "drive3", drive_object (str "d.img"))].

