(* ===== verification/Pci.v ===== *)
(** * The PCI bus and the i440FX bridge (pci.cpp, pci.h)

    A device has 256 bytes of configuration space and up to seven regions that
    base address registers map.  What a region's [bar_set] callback does and the
    interrupt controller's inputs are the class [PciEnv]; a region is known there
    by its device's number and its own.  [None] is a failed assertion, an abort or
    an access outside an array.  One assertion every caller here violates,
    [irq_init]'s: [ndebug] says that assertions are compiled out, as in a release
    build.  Names of devices are left out. *)

From S2P Require Import Prelude CpuState Cutils IoMem.

Definition PCI_ADDRESS_SPACE_MEM : Z := 0x00.
Definition PCI_ADDRESS_SPACE_IO : Z := 0x01.
Definition PCI_ADDRESS_SPACE_MEM_PREFETCH : Z := 0x08.
Definition PCI_ROM_SLOT : Z := 6.
Definition PCI_NUM_REGIONS : Z := 7.
Definition PCI_COMMAND : Z := 0x04.
Definition PCI_COMMAND_IO : Z := 1 << 0.
Definition PCI_COMMAND_MEMORY : Z := 1 << 1.
Definition PCI_STATUS : Z := 0x06.
Definition PCI_STATUS_CAP_LIST : Z := 1 << 4.
Definition PCI_SUBSYSTEM_VENDOR_ID : Z := 0x2c.
Definition PCI_SUBSYSTEM_ID : Z := 0x2e.
Definition PCI_CAPABILITY_LIST : Z := 0x34.
Definition PCI_INTERRUPT_LINE : Z := 0x3c.
Definition PCI_INTERRUPT_PIN : Z := 0x3d.

Record PCIIORegion := mkRegion { r_size : Z; r_type : Z; r_enabled : bool }.
Record PCIDevice := mkDev { devfn : Z; d_config : list Z; next_cap_offset : Z; io_regions : list PCIIORegion }.
Record PCIBus := mkBus { bus_num : Z; device : list (option PCIDevice); irq_state : list (list Z) }.
Record I440FXState := mkI440FX { pci_bus : PCIBus; piix3_devfn : Z; config_reg : Z; pic_irq_state : list Z }.

Definition set_config (c : list Z) (d : PCIDevice) : PCIDevice := mkDev (devfn d) c (next_cap_offset d) (io_regions d).
Definition set_region (i : Z) (f : PCIIORegion -> PCIIORegion) (d : PCIDevice) : PCIDevice :=
  mkDev (devfn d) (d_config d) (next_cap_offset d) (alter f (Z.to_nat i) (io_regions d)).
Definition region (d : PCIDevice) (i : Z) : PCIIORegion := nth (Z.to_nat i) (io_regions d) (mkRegion 0 0 false).
Definition set_device (n : Z) (d : option PCIDevice) (b : PCIBus) : PCIBus :=
  mkBus (bus_num b) (<[Z.to_nat n := d]> (device b)) (irq_state b).
Definition get_device (b : PCIBus) (n : Z) : option PCIDevice := nth (Z.to_nat n) (device b) None.
Definition set_bus (b : PCIBus) (s : I440FXState) : I440FXState := mkI440FX b (piix3_devfn s) (config_reg s) (pic_irq_state s).

(** bytes of configuration space, stored at and read from an offset *)
Fixpoint put (a : Z) (l : list Z) (c : list Z) : list Z :=
  match l with [] => c | x :: l => put (a + 1) l (wr c a x) end.
Definition cfg8 (d : PCIDevice) (a : Z) : Z := rd (d_config d) a.
Definition cfg16 (d : PCIDevice) (a : Z) : Z := get_le16 (drop (Z.to_nat a) (d_config d)).
Definition cfg32 (d : PCIDevice) (a : Z) : Z := get_le32 (drop (Z.to_nat a) (d_config d)).
Definition put_cfg (a : Z) (l : list Z) (d : PCIDevice) : PCIDevice := set_config (put a l (d_config d)) d.

Class PciEnv (E : Type) : Type := {
  bar_set : Z -> Z -> Z -> bool -> E -> E;
  set_pic_irq : Z -> bool -> E -> E
}.

(** ** Registration *)

Fixpoint devfn_alloc (n : nat) (b : PCIBus) : Z :=
  match n with
  | O => -1
  | S n => let d := 256 - 8 * Z.of_nat (S n) in match get_device b d with None => d | Some _ => devfn_alloc n b end
  end.

(** the assertion of iomem.cpp: an interrupt's number is not 0 *)
Definition irq_init_ok (ndebug : bool) (irq_num : Z) : bool := ndebug || negb (irq_num =? 0).

(** the number of the new device; [Some None] is the result NULL *)
Definition pci_register_device (ndebug : bool) (b : PCIBus) (dfn vendor_id device_id revision class_id : Z) : option (option Z * PCIBus) :=
  let dfn := if dfn <? 0 then devfn_alloc 32 b else dfn in
  if dfn <? 0 then Some (None, b)
  else if 256 <=? dfn then None
  else
    match get_device b dfn with
    | Some _ => Some (None, b)
    | None =>
        let c := replicate 256 0 in
        let c := put 0x00 (put_le16 vendor_id) c in
        let c := put 0x02 (put_le16 device_id) c in
        let c := wr c 0x08 (u8 revision) in
        let c := put 0x0a (put_le16 class_id) c in
        let c := wr c 0x0e 0x00 in
        let d := mkDev dfn c 0x40 (replicate (Z.to_nat PCI_NUM_REGIONS) (mkRegion 0 0 false)) in
        if forallb (irq_init_ok ndebug) (seqZ 0 4) then Some (Some dfn, set_device dfn (Some d) b) else None
    end.

Definition pci_register_bar (bar_num size type : Z) (d : PCIDevice) : option PCIDevice :=
  if (bar_num <? PCI_NUM_REGIONS) && ((size .& u32 (size - 1)) =? 0) && (4 <=? size) && (r_size (region d bar_num) =? 0) then
    let d := set_region bar_num (fun _ => mkRegion size (u8 type) false) d in
    let '(config_addr, val) := if bar_num =? PCI_ROM_SLOT then (0x30, 0) else (0x10 + 4 * bar_num, u8 type) in
    Some (put_cfg config_addr (put_le32 val) d)
  else None.

(** [None]: the assertion on the number of the interrupt *)
Definition pci_device_get_irq (irq_num : Z) : option Z := if irq_num <? 4 then Some irq_num else None.

Definition pci_device_set_config8 (addr val : Z) (d : PCIDevice) : PCIDevice := set_config (wr (d_config d) (u8 addr) (u8 val)) d.
Definition pci_device_set_config16 (addr val : Z) (d : PCIDevice) : PCIDevice := put_cfg (u8 addr) (put_le16 (u16 val)) d.

(** the offset of the capability, negative where it does not fit;
    [next_cap_offset] is a byte *)
Definition pci_add_capability (buf : list Z) (d : PCIDevice) : Z * PCIDevice :=
  let offset := next_cap_offset d in
  let size := Z.of_nat (length buf) in
  if 256 <? offset + size then (-1, d)
  else
    let c := wr (d_config d) PCI_STATUS (cfg8 d PCI_STATUS .| PCI_STATUS_CAP_LIST) in
    let c := put offset buf c in
    let c := wr c (offset + 1) (rd c PCI_CAPABILITY_LIST) in
    let c := wr c PCI_CAPABILITY_LIST offset in
    (offset, mkDev (devfn d) c (u8 (offset + size)) (io_regions d)).

Definition pci_device_get_dma_ptr (mem_map : PhysMemoryMap) (addr : Z) : Z :=
  match get_phys_mem_range mem_map addr with
  | Some (_, pr) => if pr_is_ram pr then u64 (pr_phys_mem pr + (addr - pr_addr pr)) else 0
  | None => 0
  end.

(** ** Configuration space *)

Section Pci.
Context {E : Type} {env : PciEnv E}.

Definition pci_device_config_read (d : PCIDevice) (addr size_log2 : Z) : option Z :=
  if size_log2 =? 0 then Some (cfg8 d addr)
  else if size_log2 =? 1 then Some (if addr <=? 0xfe then cfg16 d addr else cfg8 d addr)
  else if size_log2 =? 2 then (if addr <=? 0xfc then Some (cfg32 d addr) else None)
  else None.

Definition bar_offset (i : Z) : Z := if i =? PCI_ROM_SLOT then 0x30 else 0x10 + i * 4.

(** the address region [i] is mapped at; [None]: the mapping is off *)
Definition decoded (d : PCIDevice) (i : Z) : option Z :=
  let cmd := cfg16 d PCI_COMMAND in
  let r := region d i in
  let new_addr := cfg32 d (bar_offset i) in
  let new_enabled :=
    if negb (r_size r =? 0) then
      if tst (r_type r .& PCI_ADDRESS_SPACE_IO) && tst (cmd .& PCI_COMMAND_IO) then true
      else if tst (cmd .& PCI_COMMAND_MEMORY) then (if i =? PCI_ROM_SLOT then tst (new_addr .& 1) else true)
      else false
    else false in
  if new_enabled then Some (new_addr .& u32 (~~ (r_size r - 1))) else None.

Definition set_enabled (b : bool) (r : PCIIORegion) : PCIIORegion := mkRegion (r_size r) (r_type r) b.

Definition update_mapping (p : PCIDevice * E) (i : Z) : PCIDevice * E :=
  let '(d, e) := p in
  match decoded d i with
  | Some addr => (set_region i (set_enabled true) d, bar_set (devfn d) i addr true e)
  | None =>
      if r_enabled (region d i) then (set_region i (set_enabled false) d, bar_set (devfn d) i 0 false e) else (d, e)
  end.
Definition pci_update_mappings (d : PCIDevice) (e : E) : PCIDevice * E := foldl update_mapping (d, e) (seqZ 0 PCI_NUM_REGIONS).

(** nonzero: not handled *)
Definition pci_write_bar (addr val : Z) (d : PCIDevice) (e : E) : Z * (PCIDevice * E) :=
  let reg := if addr =? 0x30 then PCI_ROM_SLOT else (addr - 0x10) >> 2 in
  let r := region d reg in
  if r_size r =? 0 then (-1, (d, e))
  else
    let mask := u32 (~~ (r_size r - 1)) in
    let val := if reg =? PCI_ROM_SLOT then val .& (mask .| 1) else (val .& mask) .| r_type r in
    (0, pci_update_mappings (put_cfg addr (put_le32 val) d) e).

Definition read_only (header_type addr : Z) : bool :=
  let common := existsb (Z.eqb addr) [0x00; 0x01; 0x02; 0x03; 0x08; 0x09; 0x0a; 0x0b; 0x0e; 0x3d] in
  if (header_type =? 0x00) || (header_type =? 0x80) then
    common || ((0x10 <=? addr) && (addr <=? 0x27)) || ((0x30 <=? addr) && (addr <=? 0x33))
  else common || ((0x38 <=? addr) && (addr <=? 0x3b)).

Definition pci_device_config_write8 (addr data : Z) (d : PCIDevice) : PCIDevice :=
  if (addr =? PCI_STATUS) || (addr =? PCI_STATUS + 1) then set_config (wr (d_config d) addr (cfg8 d addr .& u8 (~~ data))) d
  else if read_only (cfg8 d 0x0e) addr then d
  else set_config (wr (d_config d) addr (u8 data)) d.

Definition write_bytes (addr data size : Z) (d : PCIDevice) : PCIDevice :=
  foldl (fun d i => let addr1 := u32 (addr + i) in
    if addr1 <=? 0xff then pci_device_config_write8 addr1 ((data >> (i * 8)) .& 0xff) d else d) d (seqZ 0 size).

Definition pci_device_config_write (addr data size_log2 : Z) (d : PCIDevice) (e : E) : PCIDevice * E :=
  let bar := (size_log2 =? 2) && (((0x10 <=? addr) && (addr <? 0x10 + 4 * 6)) || (addr =? 0x30)) in
  let '(ret, p) := if bar then pci_write_bar addr data d e else (-1, (d, e)) in
  if ret =? 0 then p
  else
    let size := 1 << size_log2 in
    let d := write_bytes addr data size d in
    if (addr <=? PCI_COMMAND) && (PCI_COMMAND <? addr + size) then pci_update_mappings d e else (d, e).

Definition pci_data_write (b : PCIBus) (addr data size_log2 : Z) (e : E) : PCIBus * E :=
  if negb (((addr >> 16) .& 0xff) =? bus_num b) then (b, e)
  else
    let n := (addr >> 8) .& 0xff in
    match get_device b n with
    | None => (b, e)
    | Some d =>
        let '(d, e) := pci_device_config_write (addr .& 0xff) data size_log2 d e in
        (set_device n (Some d) b, e)
    end.

Definition val_ones (size_log2 : Z) : option Z := nth_error [0xff; 0xffff; 0xffffffff] (Z.to_nat size_log2).

Definition pci_data_read (b : PCIBus) (addr size_log2 : Z) : option Z :=
  if negb (((addr >> 16) .& 0xff) =? bus_num b) then val_ones size_log2
  else
    match get_device b ((addr >> 8) .& 0xff) with
    | None => val_ones size_log2
    | Some d => pci_device_config_read d (addr .& 0xff) size_log2
    end.

(** ** The bridge *)

Definition i440fx_write_addr (data : Z) (s : I440FXState) : I440FXState :=
  mkI440FX (pci_bus s) (piix3_devfn s) data (pic_irq_state s).
Definition i440fx_read_addr (s : I440FXState) : Z := config_reg s.

Definition config_address (s : I440FXState) (offset size_log2 : Z) : Z :=
  if size_log2 =? 2 then config_reg s .& u32 (~~ 3) else config_reg s .| offset.

Definition i440fx_write_data (offset data size_log2 : Z) (s : I440FXState) (e : E) : I440FXState * E :=
  if tst (config_reg s .& 0x80000000) then
    let '(b, e) := pci_data_write (pci_bus s) (config_address s offset size_log2) data size_log2 e in (set_bus b s, e)
  else (s, e).
Definition i440fx_read_data (offset size_log2 : Z) (s : I440FXState) : option Z :=
  if tst (config_reg s .& 0x80000000) then pci_data_read (pci_bus s) (config_address s offset size_log2) size_log2
  else val_ones size_log2.

(** ** Interrupts *)

Definition bus_map_irq (dfn irq_num : Z) : Z := (irq_num + ((dfn >> 3) - 1)) .& 3.

(** the bridge routes line [irq_num] of the bus to the input of the interrupt
    controller its configuration space names *)
Definition i440fx_set_irq (irq_num : Z) (level : bool) (s : I440FXState) (e : E) : option (I440FXState * E) :=
  hd ← get_device (pci_bus s) (piix3_devfn s);
  let hd := set_config (wr (d_config hd) (0x60 + irq_num) (cfg8 hd (0x60 + irq_num) .& u8 (~~ 0x80))) hd in
  let pic_irq := cfg8 hd (0x60 + irq_num) in
  let s := set_bus (set_device (piix3_devfn s) (Some hd) (pci_bus s)) s in
  if pic_irq <? 16 then
    let old := rd (pic_irq_state s) pic_irq in
    let new := if level then old .| u8 (1 << irq_num) else old .& u8 (~~ (1 << irq_num)) in
    Some (mkI440FX (pci_bus s) (piix3_devfn s) (config_reg s) (wr (pic_irq_state s) pic_irq new),
          set_pic_irq pic_irq (negb (new =? 0)) e)
  else Some (s, e).

(** one bit per device and line; the line is high while a bit is set *)
Definition pci_set_line (dfn irq_num : Z) (level : bool) (b : PCIBus) : Z * bool * PCIBus :=
  let irq_num := bus_map_irq dfn irq_num in
  let mask := u32 (1 << (dfn .& 0x1f)) in
  let words := nth (Z.to_nat irq_num) (irq_state b) [] in
  let old := rd words (dfn >> 5) in
  let words := wr words (dfn >> 5) (if level then old .| mask else old .& u32 (~~ mask)) in
  let irq_level := negb (foldl (fun m i => m .| rd words i) 0 (seqZ 0 8) =? 0) in
  (irq_num, irq_level, mkBus (bus_num b) (device b) (<[Z.to_nat irq_num := words]> (irq_state b))).

Definition pci_device_set_irq (dfn irq_num : Z) (level : bool) (s : I440FXState) (e : E) : option (I440FXState * E) :=
  let '(line, irq_level, b) := pci_set_line dfn irq_num level (pci_bus s) in
  i440fx_set_irq line irq_level (set_bus b s) e.

Definition empty_bus : PCIBus := mkBus 0 (replicate 256 None) (replicate 4 (replicate 8 0)).

Definition i440fx_init (ndebug : bool) : option I440FXState :=
  _ ← (if forallb (irq_init_ok ndebug) (seqZ 0 4) then Some tt else None);
  r ← pci_register_device ndebug empty_bus 0 0x8086 0x1237 0x02 0x0600;
  d ← get_device r.2 0;
  let d := put_cfg PCI_SUBSYSTEM_VENDOR_ID (put_le16 0x1af4) d in
  let d := put_cfg PCI_SUBSYSTEM_ID (put_le16 0x1100) d in
  r ← pci_register_device ndebug (set_device 0 (Some d) r.2) 8 0x8086 0x7000 0x00 0x0601;
  p ← get_device r.2 8;
  Some (mkI440FX (set_device 8 (Some (pci_device_set_config8 0x0e 0x80 p)) r.2) 8 0 (replicate 16 0)).

(** without a BIOS: the default routing; [elcr] has two bytes *)
Definition route_line (pci_irqs : list Z) (p : option (PCIDevice * list Z)) (i : Z) : option (PCIDevice * list Z) :=
  '(hd, elcr) ← p;
  let irq_num := rd pci_irqs i in
  if 16 <=? irq_num then None
  else Some (set_config (wr (d_config hd) (0x60 + i) irq_num) hd,
             wr elcr (irq_num >> 3) (rd elcr (irq_num >> 3) .| (1 << (irq_num .& 7)))).
Definition route_device (hd : PCIDevice) (b : PCIBus) (n : Z) : PCIBus :=
  match get_device b n with
  | None => b
  | Some d =>
      if negb (cfg8 d PCI_INTERRUPT_PIN =? 0) then
        let pic_irq := cfg8 hd (0x60 + bus_map_irq n 0) in
        if pic_irq <? 16 then set_device n (Some (set_config (wr (d_config d) PCI_INTERRUPT_LINE pic_irq) d)) b else b
      else b
  end.
Definition i440fx_map_interrupts (pci_irqs : list Z) (s : I440FXState) : option (I440FXState * list Z) :=
  hd ← get_device (pci_bus s) (piix3_devfn s);
  '(hd, elcr) ← foldl (route_line pci_irqs) (Some (hd, [0; 0])) (seqZ 0 4);
  let b := set_device (piix3_devfn s) (Some hd) (pci_bus s) in
  Some (set_bus (foldl (route_device hd) b (seqZ 0 256)) s, elcr).

End Pci.
