(* ===== verification/PciProps.v ===== *)
(** * The mapping of PCI devices follows their configuration space

    A guest reaches configuration space only through the address and data ports
    of the bridge.  Whatever it writes there, the address space that the devices'
    [bar_set] callbacks have built is the one their base address and command
    registers describe, and the registers that identify a device stay as they are. *)

From S2P Require Import Prelude CpuState Cutils IoMem Pci.

(** ** Where the mappings go: a table by device and region *)

Definition Mappings : Type := gmap (Z * Z) Z.

#[export] Instance mapping_table : PciEnv Mappings := {|
  bar_set n i addr enabled e := if enabled then <[(n, i) := addr]> e else delete (n, i) e;
  set_pic_irq _ _ e := e
|}.

(** ** Bytes *)

Lemma length_put l a c : length (put a l c) = length c.
Proof. revert a c. induction l as [|x l IH]; intros a c; [done|]. cbn. by rewrite IH, length_wr. Qed.

Lemma rd_put_outside l a c j :
  0 <= a -> 0 <= j -> ~ a <= j < a + Z.of_nat (length l) -> rd (put a l c) j = rd c j.
Proof.
  revert a c. induction l as [|x l IH]; intros a c Ha Hj Hout; [done|]. cbn [put length] in *.
  rewrite IH by lia. apply rd_wr_ne; lia.
Qed.

Lemma rd_drop c a k : 0 <= a -> 0 <= k -> rd (drop (Z.to_nat a) c) k = rd c (a + k).
Proof. intros. unfold rd. rewrite !nth_lookup, lookup_drop. do 2 f_equal. lia. Qed.

Lemma get_le32_rd c a c' : 0 <= a ->
  (forall j, a <= j < a + 4 -> rd c' j = rd c j) -> get_le32 (drop (Z.to_nat a) c') = get_le32 (drop (Z.to_nat a) c).
Proof. intros Ha H. unfold get_le32. rewrite !rd_drop by lia. by rewrite !H by lia. Qed.

(** the bits that enable decoding are in the low byte of the command register *)
Lemma cmd_low c c' k : 0 <= k < 8 -> rd c' 4 = rd c 4 ->
  tst (get_le16 (drop 4 c') .& 2 ^ k) = tst (get_le16 (drop 4 c) .& 2 ^ k).
Proof.
  intros Hk H. rewrite !tst_land_pow2 by lia. unfold get_le16.
  change 4%nat with (Z.to_nat 4). rewrite !rd_drop by lia. autorewrite with zbits.
  change (4 + 0) with 4. rewrite H. by rewrite !(Z.testbit_neg_r _ (k - 8)) by lia.
Qed.

(** ** Regions *)

Definition same_shape (d d' : PCIDevice) : Prop :=
  devfn d' = devfn d /\ length (d_config d') = length (d_config d) /\ length (io_regions d') = length (io_regions d) /\
  forall i, 0 <= i -> r_size (region d' i) = r_size (region d i) /\ r_type (region d' i) = r_type (region d i).

#[export] Instance same_shape_po : PreOrder same_shape.
Proof.
  split; [by intros d|]. intros a b c (H1 & H2 & H3 & H4) (K1 & K2 & K3 & K4).
  repeat split; try congruence; destruct (H4 i), (K4 i); congruence || done.
Qed.

Lemma region_set_region i f d j : 0 <= i < Z.of_nat (length (io_regions d)) -> 0 <= j ->
  region (set_region i f d) j = if i =? j then f (region d j) else region d j.
Proof.
  intros Hi Hj. unfold region, set_region; cbn [io_regions]. rewrite !nth_lookup.
  destruct (Z.eqb_spec i j) as [<-|Hne].
  - rewrite list_lookup_alter_eq. destruct (io_regions d !! Z.to_nat i) eqn:E; [done|].
    apply lookup_ge_None in E. lia.
  - by rewrite list_lookup_alter_ne by lia.
Qed.

Definition bar_byte (j : Z) : Prop := 0x10 <= j < 0x28 \/ 0x30 <= j < 0x34.

(** what a device decodes depends on its BARs and the low command byte *)
Lemma decoded_ext d d' i : 0 <= i < PCI_NUM_REGIONS -> same_shape d d' ->
  (forall j, bar_byte j \/ j = PCI_COMMAND -> rd (d_config d') j = rd (d_config d) j) -> decoded d' i = decoded d i.
Proof.
  intros Hi (_ & _ & _ & Hr) Hc. destruct (Hr i) as [Hs Ht]; [lia|].
  assert (cfg32 d' (bar_offset i) = cfg32 d (bar_offset i)) as Hb.
  { unfold cfg32. apply get_le32_rd; [unfold bar_offset; case_match; lia|]. intros j Hj. apply Hc. left.
    unfold bar_offset, bar_byte, PCI_ROM_SLOT, PCI_NUM_REGIONS in *.
    destruct (Z.eqb_spec i 6); lia. }
  assert (rd (d_config d') 4 = rd (d_config d) 4) as H4 by (apply Hc; by right).
  unfold decoded, cfg16. rewrite Hs, Ht, Hb. unfold PCI_COMMAND, PCI_COMMAND_IO, PCI_COMMAND_MEMORY.
  change (1 << 0) with (2 ^ 0). change (1 << 1) with (2 ^ 1). change (Z.to_nat 4) with 4%nat.
  rewrite !(cmd_low (d_config d) (d_config d')) by (lia || done). done.
Qed.

(** [l] has been remapped: the table has what [d] decodes for the regions of [l] *)
Definition remapped (l : list Z) (d : PCIDevice) (e : Mappings) (d' : PCIDevice) (e' : Mappings) : Prop :=
  same_shape d d' /\ d_config d' = d_config d /\ (forall k, k.1 <> devfn d -> e' !! k = e !! k) /\
  forall i, 0 <= i ->
    if bool_decide (i ∈ l) then e' !! (devfn d, i) = decoded d i /\ r_enabled (region d' i) = bool_decide (is_Some (decoded d i))
    else e' !! (devfn d, i) = e !! (devfn d, i) /\ r_enabled (region d' i) = r_enabled (region d i).

(** the flag of a region says whether the table has it *)
Definition flags_ok (d : PCIDevice) (e : Mappings) : Prop :=
  forall i, 0 <= i < PCI_NUM_REGIONS -> r_enabled (region d i) = bool_decide (is_Some (e !! (devfn d, i))).

Definition synced (d : PCIDevice) (e : Mappings) : Prop :=
  forall i, 0 <= i < PCI_NUM_REGIONS ->
    e !! (devfn d, i) = decoded d i /\ r_enabled (region d i) = bool_decide (is_Some (decoded d i)).

Lemma update_mapping_spec d e i d' e' :
  length (io_regions d) = 7%nat -> 0 <= i < 7 -> flags_ok d e ->
  update_mapping (d, e) i = (d', e') -> remapped [i] d e d' e'.
Proof.
  intros Hl Hi Hf. unfold update_mapping. specialize (Hf i Hi).
  assert (forall b, same_shape d (set_region i (set_enabled b) d)) as Hsh.
  { intros b. split; [done|]. split; [done|]. split; [cbn; by rewrite length_alter|].
    intros j Hj. rewrite region_set_region by lia. by case_match. }
  assert (forall b e1, (forall k, k <> (devfn d, i) -> e1 !! k = e !! k) -> e1 !! (devfn d, i) = decoded d i ->
     b = bool_decide (is_Some (decoded d i)) -> remapped [i] d e (set_region i (set_enabled b) d) e1) as Hgo.
  { intros b e1 Ho Hi1 Hb. split; [done|]. split; [done|]. split.
    - intros k Hk. apply Ho. intros ->. done.
    - intros j Hj. rewrite region_set_region by lia. destruct (Z.eqb_spec i j) as [<-|Hne].
      + rewrite bool_decide_eq_true_2 by (by apply list_elem_of_singleton). by rewrite Hb.
      + rewrite bool_decide_eq_false_2 by (rewrite list_elem_of_singleton; lia). split; [apply Ho; congruence|done]. }
  destruct (decoded d i) as [a|] eqn:E; [|destruct (r_enabled (region d i)) eqn:En]; intros [= <- <-].
  - apply Hgo; [intros; by apply lookup_insert_ne|by apply lookup_insert_eq|by rewrite bool_decide_eq_true_2 by eauto].
  - apply Hgo; [intros; by apply lookup_delete_ne|apply lookup_delete_eq|done].
  - split; [done|]. split; [done|]. split; [done|]. intros j Hj.
    destruct (bool_decide (j ∈ [i])) eqn:Ej; [|done]. apply bool_decide_eq_true, list_elem_of_singleton in Ej as ->.
    rewrite En, E. split; [|done]. symmetry in Hf. apply bool_decide_eq_false in Hf. by apply eq_None_not_Some.
Qed.

Lemma remapped_trans l1 l2 d e d1 e1 d2 e2 : (forall i, i ∈ l1 -> 0 <= i < PCI_NUM_REGIONS) ->
  (forall i, i ∈ l2 -> 0 <= i < PCI_NUM_REGIONS) ->
  remapped l1 d e d1 e1 -> remapped l2 d1 e1 d2 e2 -> remapped (l1 ++ l2) d e d2 e2.
Proof.
  intros Hl1 Hl2 (S1 & C1 & O1 & R1) (S2 & C2 & O2 & R2). pose proof S1 as (N1 & _).
  assert (forall i, 0 <= i < PCI_NUM_REGIONS -> decoded d1 i = decoded d i) as D1.
  { intros i Hi. apply decoded_ext; [done..|]. intros. by rewrite C1. }
  split; [by etrans|]. split; [congruence|]. split.
  - intros k Hk. rewrite O2, O1; congruence.
  - intros i Hi. specialize (R1 i Hi). specialize (R2 i Hi). rewrite N1 in R2.
    rewrite (bool_decide_ext (i ∈ l1 ++ l2) (i ∈ l1 \/ i ∈ l2)) by apply elem_of_app. rewrite bool_decide_or.
    destruct (bool_decide (i ∈ l2)) eqn:E2; rewrite ?orb_true_r, ?orb_false_r.
    + apply bool_decide_eq_true in E2. rewrite D1 in R2 by auto. done.
    + destruct R2 as [R2a R2b]. destruct (bool_decide (i ∈ l1)); destruct R1; split; congruence.
Qed.

Lemma remapped_flags l d e d' e' : (forall i, i ∈ l -> 0 <= i < PCI_NUM_REGIONS) ->
  remapped l d e d' e' -> flags_ok d e -> flags_ok d' e'.
Proof.
  intros Hl ((N & _) & _ & _ & R) F i Hi. specialize (R i ltac:(lia)). rewrite N.
  destruct (bool_decide (i ∈ l)); destruct R as [-> ->]; [done|]. by apply F.
Qed.

Lemma remap_all l : (forall i, i ∈ l -> 0 <= i < PCI_NUM_REGIONS) -> forall d e d' e',
  length (io_regions d) = 7%nat -> flags_ok d e -> foldl update_mapping (d, e) l = (d', e') -> remapped l d e d' e'.
Proof.
  induction l as [|i l IH]; intros Hl d e d' e' Hlen Hf; cbn [foldl].
  - intros [= <- <-]. split; [done|]. split; [done|]. split; [done|]. intros j _.
    rewrite bool_decide_eq_false_2 by (intros []%elem_of_nil). done.
  - destruct (update_mapping (d, e) i) as [d1 e1] eqn:E. intros H.
    apply update_mapping_spec in E; [|done|apply Hl; constructor|done].
    assert (forall j, j ∈ [i] -> 0 <= j < PCI_NUM_REGIONS) as Hi.
    { intros j ->%list_elem_of_singleton. apply Hl. constructor. }
    assert (forall j, j ∈ l -> 0 <= j < PCI_NUM_REGIONS) as Hl' by (intros; apply Hl; by constructor).
    change (i :: l) with ([i] ++ l). eapply remapped_trans; [exact Hi|exact Hl'|exact E|]. apply IH; [done| |exact (remapped_flags [i] _ _ _ _ Hi E Hf)|done].
    destruct E as ((_ & _ & -> & _) & _). done.
Qed.

Lemma pci_update_mappings_spec d e d' e' : length (io_regions d) = 7%nat -> flags_ok d e ->
  pci_update_mappings d e = (d', e') ->
  synced d' e' /\ same_shape d d' /\ d_config d' = d_config d /\ (forall k, k.1 <> devfn d -> e' !! k = e !! k).
Proof.
  intros Hl Hf H. apply remap_all in H as (S & C & O & R); [|by intros i ?%elem_of_seqZ; unfold PCI_NUM_REGIONS in *; lia|done..].
  split; [|done]. intros i Hi. specialize (R i ltac:(lia)).
  rewrite bool_decide_eq_true_2 in R by (apply elem_of_seqZ; unfold PCI_NUM_REGIONS in *; lia).
  rewrite (decoded_ext d d' i) by (done || (intros; by rewrite C)). by destruct S as (-> & _).
Qed.

(** ** Accesses to one device *)

(** vendor, device, revision, class, header type and interrupt pin *)
Definition id_byte (j : Z) : Prop := 0 <= j < 4 \/ 8 <= j < 12 \/ j = 0x0e \/ j = PCI_INTERRUPT_PIN.

Definition device_ok (n : Z) (d : PCIDevice) : Prop :=
  devfn d = n /\ length (d_config d) = 256%nat /\ length (io_regions d) = 7%nat /\ (cfg8 d 0x0e = 0 \/ cfg8 d 0x0e = 0x80).

Definition same_id (d d' : PCIDevice) : Prop := forall j, id_byte j -> cfg8 d' j = cfg8 d j.

#[export] Instance same_id_po : PreOrder same_id.
Proof. split; [by intros d j|]. intros a b c H K j Hj. by rewrite K, H. Qed.

Lemma device_ok_next n d d' : device_ok n d -> same_shape d d' -> same_id d d' -> device_ok n d'.
Proof.
  intros (N & L & R & H) (N' & L' & R' & _) I. repeat split; try congruence.
  rewrite I; [done|]. unfold id_byte. lia.
Qed.

(** what a byte write leaves: BARs, identity, and every other byte *)
Lemma config_write8_spec n d addr data : device_ok n d -> 0 <= addr < 256 ->
  let d' := pci_device_config_write8 addr data d in
  same_shape d d' /\ io_regions d' = io_regions d /\
  forall j, 0 <= j -> bar_byte j \/ id_byte j \/ j <> addr -> cfg8 d' j = cfg8 d j.
Proof.
  intros (_ & Hl & _ & Hh) Ha d'.
  assert (forall v, ~ bar_byte addr -> ~ id_byte addr -> d' = set_config (wr (d_config d) addr v) d ->
     same_shape d d' /\ io_regions d' = io_regions d /\
     forall j, 0 <= j -> bar_byte j \/ id_byte j \/ j <> addr -> cfg8 d' j = cfg8 d j) as Hw.
  { intros v Hb Hi ->. split; [|split; [done|]].
    - split; [done|]. split; [apply length_wr|]. done.
    - intros j Hj Hc. unfold cfg8; cbn [set_config d_config]. apply rd_wr_ne; [lia|done|].
      intros ->. destruct Hc as [?|[?|?]]; done. }
  revert Hw. unfold d', pci_device_config_write8, PCI_STATUS, bar_byte, id_byte, PCI_INTERRUPT_PIN.
  destruct ((addr =? 6) || (addr =? 6 + 1)) eqn:Es.
  - intros Hw. eapply Hw; [lia..|done].
  - unfold read_only. destruct ((cfg8 d 14 =? 0) || (cfg8 d 14 =? 128)) eqn:Eh; [|lia]. cbn [existsb].
    match goal with |- context [if ?c then d else _] => destruct c eqn:Er end; [done|].
    intros Hw. eapply Hw; [lia..|done].
Qed.

Lemma write_bytes_fold n addr data (P : Z -> Prop) l : (forall i, i ∈ l -> 0 <= addr + i < 2 ^ 32) ->
  (forall i, i ∈ l -> ~ P (addr + i)) -> forall d, device_ok n d ->
  let d' := foldl (fun d i => let addr1 := u32 (addr + i) in
    if addr1 <=? 0xff then pci_device_config_write8 addr1 ((data >> (i * 8)) .& 0xff) d else d) d l in
  same_shape d d' /\ io_regions d' = io_regions d /\ device_ok n d' /\
  forall j, 0 <= j -> bar_byte j \/ id_byte j \/ P j -> cfg8 d' j = cfg8 d j.
Proof.
  induction l as [|i l IH]; intros Ha Hp d Hok; [done|]. cbn [foldl].
  assert (u32 (addr + i) = addr + i) as -> by (apply uN_small; apply Ha; constructor).
  assert (~ P (addr + i)) as Hpi by (apply Hp; constructor).
  specialize (IH ltac:(intros; apply Ha; by constructor) ltac:(intros; apply Hp; by constructor)).
  destruct (Z.leb_spec (addr + i) 0xff) as [Hle|_]; [|by apply IH].
  assert (0 <= addr + i < 256) as Hb by (specialize (Ha i ltac:(constructor)); lia).
  destruct (config_write8_spec n d (addr + i) ((data >> (i * 8)) .& 255) Hok Hb) as (S & R & K).
  assert (device_ok n (pci_device_config_write8 (addr + i) ((data >> (i * 8)) .& 255) d)) as Hok'.
  { apply (device_ok_next n d); [done..|]. intros j Hj. apply K; [unfold id_byte, PCI_INTERRUPT_PIN in Hj; lia|auto]. }
  destruct (IH _ Hok') as (S' & R' & O' & K'). split; [by etrans|]. split; [etrans; [exact R'|done]|]. split; [done|].
  intros j Hj Hc. etrans; [by apply K'|]. apply K; [done|].
  destruct Hc as [?|[?|?]]; [auto..|]. right; right. by intros ->.
Qed.

Lemma synced_kept n d d' e : device_ok n d -> same_shape d d' -> io_regions d' = io_regions d ->
  (forall j, bar_byte j \/ j = PCI_COMMAND -> cfg8 d' j = cfg8 d j) -> synced d e -> synced d' e.
Proof.
  intros _ S R K Hs i Hi. rewrite (decoded_ext d d' i) by done. destruct S as (-> & _).
  unfold region. rewrite R. by apply Hs.
Qed.

Lemma synced_flags d e : synced d e -> flags_ok d e.
Proof. intros H i Hi. destruct (H i Hi) as [-> ->]. done. Qed.

Lemma flags_kept d d' e : devfn d' = devfn d -> io_regions d' = io_regions d -> flags_ok d e -> flags_ok d' e.
Proof. intros N R F i Hi. unfold region. rewrite R, N. by apply F. Qed.

(** a device after an access: consistent, with the same identity, the others untouched *)
Definition device_step (n : Z) (d : PCIDevice) (e : Mappings) (d' : PCIDevice) (e' : Mappings) : Prop :=
  device_ok n d' /\ synced d' e' /\ same_id d d' /\ forall k, k.1 <> n -> e' !! k = e !! k.

(** an update of the mappings after a change of the bytes outside the identity *)
Lemma remap_step n d d1 e d' e' : device_ok n d -> flags_ok d e -> same_shape d d1 -> io_regions d1 = io_regions d ->
  same_id d d1 -> pci_update_mappings d1 e = (d', e') -> device_step n d e d' e'.
Proof.
  intros Hok Hf S R I H. pose proof (device_ok_next _ _ _ Hok S I) as (N1 & L1 & R1 & H1).
  assert (flags_ok d1 e) as F1 by (apply (flags_kept d); [by destruct S|done..]).
  apply pci_update_mappings_spec in H as (Hs & S' & C & O); [|done..].
  assert (same_id d1 d') as I' by (intros j _; unfold cfg8; by rewrite C).
  split; [|split; [done|split; [by etrans|]]].
  - eapply device_ok_next; [|exact S'|exact I']. by apply (device_ok_next n d).
  - by rewrite <- N1.
Qed.

(** the bytes of an access, one at a time, and the mappings where the command changed *)
Lemma write_bytes_step n d e addr data size d' e' :
  device_ok n d -> synced d e -> 0 <= addr < 256 -> 1 <= size <= 4 ->
  (let d := write_bytes addr data size d in
   if (addr <=? PCI_COMMAND) && (PCI_COMMAND <? addr + size) then pci_update_mappings d e else (d, e)) = (d', e') ->
  device_step n d e d' e'.
Proof.
  intros Hok Hs Ha Hz. pose proof (synced_flags _ _ Hs) as Hf.
  destruct (write_bytes_fold n addr data (fun j => ~ addr <= j < addr + size) (seqZ 0 size)) with (d := d)
     as (S & R & O & K); [intros i ?%elem_of_seqZ; lia..|done|].
  fold (write_bytes addr data size d) in S, R, O, K. cbv zeta. set (d1 := write_bytes _ _ _ _) in *.
  assert (same_id d d1) as I by (intros j Hj; apply K; [unfold id_byte, PCI_INTERRUPT_PIN in Hj; lia|auto]).
  destruct ((addr <=? PCI_COMMAND) && _) eqn:Ec; [by apply (remap_step n d d1)|].
  intros [= <- <-]. split; [done|]. split; [|done]. apply (synced_kept n d d1); [done..| |done].
  intros j Hj. apply K; unfold bar_byte, PCI_COMMAND in *; lia.
Qed.

Lemma config_write_step n d e addr data size_log2 d' e' :
  device_ok n d -> synced d e -> 0 <= addr < 256 -> 0 <= size_log2 <= 2 ->
  pci_device_config_write addr data size_log2 d e = (d', e') -> device_step n d e d' e'.
Proof.
  intros Hok Hs Ha Hz. unfold pci_device_config_write.
  assert (1 <= 1 << size_log2 <= 4) as Hsz.
  { assert (size_log2 = 0 \/ size_log2 = 1 \/ size_log2 = 2) as [->|[->| ->]] by lia; by vm_compute. }
  destruct ((size_log2 =? 2) && _) eqn:Eb; [unfold pci_write_bar; destruct (r_size _ =? 0)|]; cbn [Z.eqb];
    [by apply write_bytes_step| |by apply write_bytes_step].
  apply (remap_step n); [done|by apply synced_flags| |done|].
  - split; [done|]. split; [apply length_put|done].
  - intros j Hj. unfold cfg8; cbn [put_cfg set_config d_config].
    apply rd_put_outside; change (length (put_le32 _)) with 4%nat; unfold id_byte, PCI_INTERRUPT_PIN in Hj; lia.
Qed.

(** ** The guest's accesses *)

Inductive GuestAccess : Type := AddrPort (data : Z) | DataPort (offset data size_log2 : Z).

Definition access_ok (a : GuestAccess) : Prop :=
  match a with AddrPort _ => True | DataPort _ _ size_log2 => 0 <= size_log2 <= 2 end.

Definition access (p : I440FXState * Mappings) (a : GuestAccess) : I440FXState * Mappings :=
  match a with
  | AddrPort data => (i440fx_write_addr data p.1, p.2)
  | DataPort offset data size_log2 => i440fx_write_data offset data size_log2 p.1 p.2
  end.

Definition bus_synced (s : I440FXState) (e : Mappings) : Prop :=
  forall n d, 0 <= n < 256 -> get_device (pci_bus s) n = Some d -> device_ok n d /\ synced d e.

Definition same_devices (s s' : I440FXState) : Prop :=
  forall n, 0 <= n < 256 -> option_Forall2 same_id (get_device (pci_bus s) n) (get_device (pci_bus s') n).

#[export] Instance same_devices_po : PreOrder same_devices.
Proof. split; [by intros s n _|]. intros a b c H K n Hn. etrans; [by apply H|by apply K]. Qed.

Lemma get_set_device b n m d d' : 0 <= n -> 0 <= m -> get_device b n = Some d' ->
  get_device (set_device n (Some d) b) m = if n =? m then Some d else get_device b m.
Proof.
  intros Hn Hm. unfold get_device, set_device; cbn [device]. rewrite !nth_lookup. intros H.
  destruct (Z.eqb_spec n m) as [<-|Hne]; [|by rewrite list_lookup_insert_ne by lia].
  rewrite list_lookup_insert_eq; [done|]. apply lookup_lt_is_Some. destruct (_ !! _); [eauto|done].
Qed.

Lemma synced_other d e e' : (forall k, k.1 = devfn d -> e' !! k = e !! k) -> synced d e -> synced d e'.
Proof. intros H Hs i Hi. rewrite H by done. by apply Hs. Qed.

Lemma guest_access_step p a p' : access_ok a -> bus_synced p.1 p.2 -> access p a = p' ->
  bus_synced p'.1 p'.2 /\ same_devices p.1 p'.1.
Proof.
  intros Ha Hs. destruct p as [s e]; cbn [fst snd] in *. destruct a as [data|offset data size_log2]; cbn [access]; intros <-; [by split; [exact Hs|intros n _]|].
  unfold i440fx_write_data. destruct (tst _); [|done]. cbn [fst snd].
  assert (bus_synced (set_bus (pci_bus s) s) e /\ same_devices s (set_bus (pci_bus s) s)) as Hid
    by (by split; [exact Hs|intros n _]).
  unfold pci_data_write. destruct (negb _); [exact Hid|]. set (n := (_ >> 8) .& 0xff).
  assert (0 <= n < 256) as Hn by (unfold n; change 0xff with (Z.ones 8); rewrite Z.land_ones by lia; apply Z.mod_pos_bound; lia).
  destruct (get_device (pci_bus s) n) as [d|] eqn:Ed; [|exact Hid]. clear Hid.
  set (addr := _ .& 0xff).
  assert (0 <= addr < 256) as Hr by (unfold addr; change 0xff with (Z.ones 8); rewrite Z.land_ones by lia; apply Z.mod_pos_bound; lia).
  destruct (Hs n d Hn Ed) as [Hok Hsy].
  destruct (pci_device_config_write addr data size_log2 d e) as [d' e'] eqn:E.
  apply (config_write_step n) in E as (O & Y & I & K); [|done..]. cbn [fst snd set_bus pci_bus].
  split; intros m.
  - intros dm Hm Em. cbn [set_bus pci_bus] in Em. rewrite (get_set_device _ _ _ _ d) in Em by (done || lia).
    destruct (Z.eqb_spec n m) as [<-|Hne]; [injection Em as <-; done|].
    destruct (Hs m dm Hm Em) as [Om Ym]. split; [done|]. apply (synced_other dm e); [|done].
    intros k Hk. apply K. destruct Om as (-> & _) in Hk. congruence.
  - intros Hm. cbn [set_bus pci_bus]. rewrite (get_set_device _ _ _ _ d) by (done || lia).
    destruct (Z.eqb_spec n m) as [<-|_]; [rewrite Ed; by constructor|reflexivity].
Qed.


(** with assertions compiled in no device can be registered: interrupt 0 of each
    fails [irq_init]'s assertion *)
Theorem no_device_with_assertions b dfn v i r c :
  pci_register_device false b dfn v i r c = None \/ pci_register_device false b dfn v i r c = Some (None, b).
Proof.
  unfold pci_register_device. cbv zeta. destruct (_ <? 0); [by right|]. destruct (256 <=? _); [by left|].
  destruct (get_device _ _); [by right|by left].
Qed.

(** ** An example: a device with two memory regions and an I/O region *)

Definition demo_bridge : I440FXState :=
  default (mkI440FX empty_bus 0 0 []) (
    s ← i440fx_init true;
    r ← pci_register_device true (pci_bus s) (-1) 0x1af4 0x1000 0 0x0200;
    d ← get_device r.2 16;
    d ← pci_register_bar 0 0x20 PCI_ADDRESS_SPACE_IO d;
    d ← pci_register_bar 1 0x1000 PCI_ADDRESS_SPACE_MEM d;
    d ← pci_register_bar 4 0x4000 PCI_ADDRESS_SPACE_MEM_PREFETCH d;
    Some (set_bus (set_device 16 (Some d) r.2) s)).

(** programs the base addresses, enables decoding, and moves one region; the
    writes to the vendor and header bytes are ignored *)
Definition demo_accesses : list GuestAccess :=
  [AddrPort 0x80001010; DataPort 0 0xc000 2; AddrPort 0x80001014; DataPort 0 0xfebd1234 2;
   AddrPort 0x80001020; DataPort 0 0xfe000000 2; AddrPort 0x80001004; DataPort 0 3 1;
   AddrPort 0x80001014; DataPort 0 0xfd000000 2; AddrPort 0x80001000; DataPort 0 0 2;
   AddrPort 0x8000100c; DataPort 2 0x55 0].

Definition bus_syncedb (s : I440FXState) (e : Mappings) : bool :=
  forallb (fun n => match get_device (pci_bus s) n with
    | None => true
    | Some d =>
        (devfn d =? n) && bool_decide (length (d_config d) = 256%nat) && bool_decide (length (io_regions d) = 7%nat) &&
        ((cfg8 d 0x0e =? 0) || (cfg8 d 0x0e =? 0x80)) &&
        forallb (fun i => bool_decide (e !! (devfn d, i) = decoded d i) &&
          eqb (r_enabled (region d i)) (bool_decide (is_Some (decoded d i)))) (seqZ 0 7)
    end) (seqZ 0 256).

Lemma bus_syncedb_ok s e : bus_syncedb s e = true -> bus_synced s e.
Proof.
  unfold bus_syncedb. rewrite forallb_forall. intros H n d Hn Ed.
  specialize (H n). rewrite Ed in H. rewrite <- list_elem_of_In, !andb_true_iff, forallb_forall in H.
  destruct H as ((((H1 & H2) & H3) & H4) & H5); [apply elem_of_seqZ; lia|].
  apply bool_decide_eq_true in H2, H3. split; [repeat split; [lia|done|done|lia]|].
  intros i Hi. specialize (H5 i). rewrite <- list_elem_of_In, andb_true_iff, bool_decide_eq_true, eqb_true_iff in H5.
  apply H5, elem_of_seqZ. unfold PCI_NUM_REGIONS in Hi. lia.
Qed.

