(* ===== verification/Virtio9P.v ===== *)
(** * The virtio 9P device (virtio.cpp, fs.h)

    The server side of the 9P2000.L protocol: requests are read from a descriptor
    chain, the file system's operations do the work, replies are written behind.
    The file system is a structure of function pointers: the class [FSDevice],
    whose state is [FS] and whose open files are [F] (FSFile pointers).  [Undef] is
    a failed assertion or what C leaves undefined.  A string ends at its first NUL;
    memory the device does not free is left out. *)

From S2P Require Import Prelude Cutils IoMem Fdt VirtMachine Virtio VirtioBlock.

Definition P9_EPROTO : Z := 71.
Definition P9_ENOTSUP : Z := 524.

Record FSStatFS := mkStatFS {
  f_bsize : Z; f_blocks : Z; f_bfree : Z; f_bavail : Z; f_files : Z; f_ffree : Z
}.
Record FSQID := mkQID { qid_type : Z; version : Z; path : Z }.
Record FSStat := mkStat {
  st_qid : FSQID; st_mode : Z; st_uid : Z; st_gid : Z; st_nlink : Z; st_rdev : Z; st_size : Z; st_blksize : Z; st_blocks : Z;
  st_atime_sec : Z; st_atime_nsec : Z; st_mtime_sec : Z; st_mtime_nsec : Z; st_ctime_sec : Z; st_ctime_nsec : Z
}.
Record FSLock := mkLock { lock_type : Z; lock_flags : Z; lock_start : Z; lock_length : Z; proc_id : Z; client_id : list Z }.

(** what the completion of an open needs of its request *)
Record P9OpenInfo := mkOpenInfo { oi_queue_idx : Z; oi_desc_idx : Z; oi_tag : Z }.

(** results come before the new state; a result that the operation did not set
    because it failed has any value.  [fs_read], [fs_readdir] and [fs_readlink]
    are given the buffer and return it filled; [fs_open] is also given what its
    callback receives *)
Class FSDevice (FS F : Type) := {
  fs_delete : F -> FS -> FS;
  fs_statfs : FS -> FSStatFS * FS;
  fs_attach : Z -> list Z -> list Z -> FS -> Z * F * FSQID * FS;
  fs_walk : F -> list (list Z) -> FS -> Z * F * list FSQID * FS;
  fs_mkdir : F -> list Z -> Z -> Z -> FS -> Z * FSQID * FS;
  fs_open : F -> Z -> P9OpenInfo -> FS -> Z * FSQID * FS;
  fs_create : F -> list Z -> Z -> Z -> Z -> FS -> Z * FSQID * FS;
  fs_stat : F -> FS -> Z * FSStat * FS;
  fs_setattr : F -> Z -> Z -> Z -> Z -> Z -> Z -> Z -> Z -> Z -> FS -> Z * FS;
  fs_readdir : F -> Z -> list Z -> Z -> FS -> Z * list Z * FS;
  fs_read : F -> Z -> list Z -> Z -> FS -> Z * list Z * FS;
  fs_write : F -> Z -> list Z -> Z -> FS -> Z * FS;
  fs_link : F -> F -> list Z -> FS -> Z * FS;
  fs_symlink : F -> list Z -> list Z -> Z -> FS -> Z * FSQID * FS;
  fs_mknod : F -> list Z -> Z -> Z -> Z -> Z -> FS -> Z * FSQID * FS;
  fs_readlink : list Z -> Z -> F -> FS -> Z * list Z * FS;
  fs_renameat : F -> list Z -> F -> list Z -> FS -> Z * FS;
  fs_unlinkat : F -> list Z -> FS -> Z * FS;
  fs_lock : F -> FSLock -> FS -> Z * FS;
  fs_getlock : F -> FSLock -> FS -> Z * FSLock * FS
}.

Record VIRTIO9PDevice (FS F : Type) := mk9P { fs : FS; msize : Z; fid_list : list (Z * F); p9_in_progress : bool }.
#[global] Arguments mk9P {FS F}.
#[global] Arguments fs {FS F}.
#[global] Arguments msize {FS F}.
#[global] Arguments fid_list {FS F}.
#[global] Arguments p9_in_progress {FS F}.

(** the characters up to the NUL *)
Fixpoint c_string (s : list Z) : list Z := match s with [] => [] | c :: s => if c =? 0 then [] else c :: c_string s end.

(** ** Messages *)

(** a letter of the format of [marshall] with its argument *)
Inductive Item := B (v : Z) | H (v : Z) | W (v : Z) | D (v : Z) | S (str : list Z) | Q (qid : FSQID).

Definition item_bytes (i : Item) : list Z :=
  match i with
  | B v => [u8 v]
  | H v => put_le16 (u16 v)
  | W v => put_le32 (u32 v)
  | D v => put_le64 (u64 v)
  | S str => put_le16 (u16 (len str)) ++ str
  | Q qid => u8 (qid_type qid) :: put_le32 (u32 (version qid)) ++ put_le64 (u64 (path qid))
  end.

Definition item_ok (i : Item) : bool := match i with S str => len str <=? 65535 | _ => true end.

Fixpoint marshall (max_len : Z) (fmt : list Item) : run (list Z) :=
  match fmt with
  | [] => Finished []
  | i :: fmt =>
      let b := item_bytes i in
      if item_ok i && (len b <=? max_len) then run! bs := marshall (max_len - len b) fmt in Finished (b ++ bs) else Undef
  end.

Section Messages.
Context {X : Type} {alloc : Allocator}.
Variables (fuel : nat) (s : VState X) (queue_idx desc_idx : Z).

(** [unmarshall] as a reader: from an offset, the values and the next offset;
    [None]: the chain ends first *)
Definition Rd (A : Type) : Type := Z -> run (option (A * Z)).
Definition rd_ret {A} (a : A) : Rd A := fun offset => Finished (Some (a, offset)).
Definition rd_bind {A B} (r : Rd A) (k : A -> Rd B) : Rd B := fun offset =>
  run! x := r offset in match x with Some (a, offset) => k a offset | None => Finished None end.

Definition un_bytes (n : Z) : Rd (list Z) := fun offset =>
  run! r := memcpy_from_queue fuel s (fresh n) queue_idx desc_idx offset n in
  if r.1 =? 0 then Finished (Some (r.2, offset + n)) else Finished None.
Definition un_b : Rd Z := rd_bind (un_bytes 1) (fun b => rd_ret (rd b 0)).
Definition un_h : Rd Z := rd_bind (un_bytes 2) (fun b => rd_ret (get_le16 b)).
Definition un_w : Rd Z := rd_bind (un_bytes 4) (fun b => rd_ret (get_le32 b)).
Definition un_d : Rd Z := rd_bind (un_bytes 8) (fun b => rd_ret (get_le64 b)).
Definition un_s : Rd (list Z) := rd_bind un_h (fun n => rd_bind (un_bytes n) (fun b => rd_ret (c_string b))).

(** the names of a walk *)
Fixpoint un_names (n : nat) : Rd (list (list Z)) :=
  match n with
  | O => rd_ret []
  | Datatypes.S n => rd_bind un_s (fun x => rd_bind (un_names n) (fun xs => rd_ret (x :: xs)))
  end.
End Messages.

Notation "'un!' x ':=' r 'in' k" := (rd_bind r (fun x => k)) (at level 10, x name, r at level 200, k at level 200) : mach_scope.

(** ** File identifiers *)

Section Device.
Context {FS F : Type} {alloc : Allocator} {fsd : FSDevice FS F}.
Abbreviation P9State := (VState (VIRTIO9PDevice FS F)).
Implicit Types s : P9State.

Definition set_fs (f : FS) s : P9State := let x := vext s in set_vext (mk9P f (msize x) (fid_list x) (p9_in_progress x)) s.
Definition set_msize (n : Z) s : P9State := let x := vext s in set_vext (mk9P (fs x) n (fid_list x) (p9_in_progress x)) s.
Definition set_fid_list (l : list (Z * F)) s : P9State := let x := vext s in set_vext (mk9P (fs x) (msize x) l (p9_in_progress x)) s.
Definition set_p9_in_progress (b : bool) s : P9State := let x := vext s in set_vext (mk9P (fs x) (msize x) (fid_list x) b) s.

Fixpoint find_fid (fid : Z) (l : list (Z * F)) : option F :=
  match l with [] => None | (n, f) :: l => if n =? fid then Some f else find_fid fid l end.
Definition fid_find s (fid : Z) : option F := find_fid fid (fid_list (vext s)).

Fixpoint remove_fid (fid : Z) (l : list (Z * F)) : list (Z * F) :=
  match l with [] => [] | (n, f) :: l => if n =? fid then l else (n, f) :: remove_fid fid l end.
Definition fid_delete (fid : Z) s : P9State :=
  match fid_find s fid with
  | Some f => set_fid_list (remove_fid fid (fid_list (vext s))) (set_fs (fs_delete f (fs (vext s))) s)
  | None => s
  end.

Fixpoint replace_fid (fid : Z) (fd : F) (l : list (Z * F)) : list (Z * F) :=
  match l with [] => [] | (n, f) :: l => if n =? fid then (n, fd) :: l else (n, f) :: replace_fid fid fd l end.
Definition fid_set (fid : Z) (fd : F) s : P9State :=
  match fid_find s fid with
  | Some f => set_fid_list (replace_fid fid fd (fid_list (vext s))) (set_fs (fs_delete f (fs (vext s))) s)
  | None => set_fid_list ((fid, fd) :: fid_list (vext s)) s
  end.

(** ** Replies *)

Section Request.
Variables (fuel : nat) (queue_idx desc_idx : Z).

Definition virtio_9p_send_reply (id tag : Z) (buf : list Z) s : run P9State :=
  let n := len buf + 7 in
  if 2 ^ 31 <=? n then Undef
  else
    let buf1 := put_le32 n ++ [u8 (id + 1)] ++ put_le16 tag ++ buf in
    run! r := memcpy_to_queue fuel queue_idx desc_idx 0 buf1 n s in
    Finished (virtio_consume_desc queue_idx desc_idx n r.2).

Definition virtio_9p_send_error (tag error : Z) s : run P9State :=
  run! buf := marshall 4 [W (- error)] in
  virtio_9p_send_reply 6 tag buf s.

(** a reply of a request's handler, whose buffer has 1024 bytes *)
Definition fmt_reply (id tag : Z) (fmt : list Item) s : run P9State :=
  run! buf := marshall 1024 fmt in
  virtio_9p_send_reply id tag buf s.

Definition virtio_9p_open_reply (qid : FSQID) (err tag : Z) s : run P9State :=
  if err <? 0 then virtio_9p_send_error tag err s
  else
    run! buf := marshall 32 [Q qid; W (msize (vext s) - 24)] in
    virtio_9p_send_reply 12 tag buf s.

(** the labels [error], [protocol_error] and [fid_not_found] *)
Definition error (tag err : Z) s : run P9State := virtio_9p_send_error tag err s.
Definition protocol_error (tag : Z) s : run P9State := error tag (- P9_EPROTO) s.

(** the arguments of a request, at the offset; a chain too short is an error *)
Definition args {A} (r : Rd A) (offset tag : Z) s (k : A -> run P9State) : run P9State :=
  run! x := r offset in
  match x with Some (a, _) => k a | None => protocol_error tag s end.

(** the file of an identifier; none is an error *)
Definition with_fid (fid tag : Z) s (k : F -> run P9State) : run P9State :=
  match fid_find s fid with Some f => k f | None => protocol_error tag s end.

Abbreviation u_b s := (un_b fuel s queue_idx desc_idx).
Abbreviation u_h s := (un_h fuel s queue_idx desc_idx).
Abbreviation u_w s := (un_w fuel s queue_idx desc_idx).
Abbreviation u_d s := (un_d fuel s queue_idx desc_idx).
Abbreviation u_s s := (un_s fuel s queue_idx desc_idx).

(** an operation that gives an error or a qid *)
Definition qid_reply (id tag : Z) (r : Z * FSQID * FS) s : run P9State :=
  let s := set_fs r.2 s in
  if negb (r.1.1 =? 0) then error tag r.1.1 s else fmt_reply id tag [Q r.1.2] s.
(** an operation that gives an error or nothing *)
Definition empty_reply (id tag : Z) (r : Z * FS) s : run P9State :=
  let s := set_fs r.2 s in
  if negb (r.1 =? 0) then error tag r.1 s else virtio_9p_send_reply id tag [] s.

(** ** The requests *)

(** the zero of the [d] after [f_ffree] is passed as an int *)
Definition p9_statfs (id tag : Z) s : run P9State :=
  let r := fs_statfs (fs (vext s)) in
  let st := r.1 in
  fmt_reply id tag [W 0; W (f_bsize st); D (f_blocks st); D (f_bfree st); D (f_bavail st); D (f_files st); D (f_ffree st); D 0; W 256]
    (set_fs r.2 s).

Definition p9_lopen (id tag offset : Z) s : run P9State :=
  args (un! fid := u_w s in un! flags := u_w s in rd_ret (fid, flags)) offset tag s (fun '(fid, flags) =>
  with_fid fid tag s (fun f =>
    let r := fs_open f flags (mkOpenInfo queue_idx desc_idx tag) (fs (vext s)) in
    let s := set_fs r.2 s in
    if r.1.1 <=? 0 then virtio_9p_open_reply r.1.2 r.1.1 tag s else Finished (set_p9_in_progress true s))).

Definition p9_lcreate (id tag offset : Z) s : run P9State :=
  args (un! fid := u_w s in un! name := u_s s in un! flags := u_w s in un! mode := u_w s in un! gid := u_w s in
        rd_ret (fid, name, flags, mode, gid)) offset tag s (fun '(fid, name, flags, mode, gid) =>
  with_fid fid tag s (fun f =>
    let r := fs_create f name flags mode gid (fs (vext s)) in
    let s := set_fs r.2 s in
    if negb (r.1.1 =? 0) then error tag r.1.1 s else fmt_reply id tag [Q r.1.2; W (msize (vext s) - 24)] s)).

Definition p9_symlink (id tag offset : Z) s : run P9State :=
  args (un! fid := u_w s in un! name := u_s s in un! symgt := u_s s in un! gid := u_w s in
        rd_ret (fid, name, symgt, gid)) offset tag s (fun '(fid, name, symgt, gid) =>
  with_fid fid tag s (fun f => qid_reply id tag (fs_symlink f name symgt gid (fs (vext s))) s)).

Definition p9_mknod (id tag offset : Z) s : run P9State :=
  args (un! fid := u_w s in un! name := u_s s in un! mode := u_w s in un! major := u_w s in un! minor := u_w s in un! gid := u_w s in
        rd_ret (fid, name, mode, major, minor, gid)) offset tag s (fun '(fid, name, mode, major, minor, gid) =>
  with_fid fid tag s (fun f => qid_reply id tag (fs_mknod f name mode major minor gid (fs (vext s))) s)).

Definition p9_readlink (id tag offset : Z) s : run P9State :=
  args (u_w s) offset tag s (fun fid =>
  with_fid fid tag s (fun f =>
    let r := fs_readlink (fresh 1024) 1024 f (fs (vext s)) in
    let s := set_fs r.2 s in
    if negb (r.1.1 =? 0) then error tag r.1.1 s else fmt_reply id tag [S (c_string r.1.2)] s)).

Definition p9_getattr (id tag offset : Z) s : run P9State :=
  args (un! fid := u_w s in un! mask := u_d s in rd_ret (fid, mask)) offset tag s (fun '(fid, mask) =>
  with_fid fid tag s (fun f =>
    let r := fs_stat f (fs (vext s)) in
    let s := set_fs r.2 s in
    let st := r.1.2 in
    if negb (r.1.1 =? 0) then error tag r.1.1 s
    else fmt_reply id tag
      [D mask; Q (st_qid st); W (st_mode st); W (st_uid st); W (st_gid st); D (st_nlink st); D (st_rdev st); D (st_size st);
       D (st_blksize st); D (st_blocks st); D (st_atime_sec st); D (st_atime_nsec st); D (st_mtime_sec st);
       D (st_mtime_nsec st); D (st_ctime_sec st); D (st_ctime_nsec st); D 0; D 0; D 0; D 0] s)).

Definition p9_setattr (id tag offset : Z) s : run P9State :=
  args (un! fid := u_w s in un! mask := u_w s in un! mode := u_w s in un! uid := u_w s in un! gid := u_w s in
        un! size := u_d s in un! atime_sec := u_d s in un! atime_nsec := u_d s in un! mtime_sec := u_d s in un! mtime_nsec := u_d s in
        rd_ret (fid, mask, mode, uid, gid, size, atime_sec, atime_nsec, mtime_sec, mtime_nsec)) offset tag s
  (fun '(fid, mask, mode, uid, gid, size, atime_sec, atime_nsec, mtime_sec, mtime_nsec) =>
  with_fid fid tag s (fun f =>
    empty_reply id tag
      (fs_setattr f mask mode uid gid size atime_sec atime_nsec mtime_sec mtime_nsec (fs (vext s))) s)).

(** the buffer has [count + 4] bytes, in 32 bits; four are written even so *)
Definition data_reply (id tag count : Z) (op : list Z -> Z -> FS -> Z * list Z * FS) s : run P9State :=
  let size := u32 (count + 4) in
  if size <? 4 then Undef
  else
    let r := op (fresh (size - 4)) (s32 count) (fs (vext s)) in
    let s := set_fs r.2 s in
    let n := r.1.1 in
    if n <? 0 then error tag n s
    else
      run! buf := buf_slice r.1.2 0 n in
      virtio_9p_send_reply id tag (put_le32 n ++ buf) s.

Definition p9_readdir (id tag offset : Z) s : run P9State :=
  args (un! fid := u_w s in un! offs := u_d s in un! count := u_w s in rd_ret (fid, offs, count)) offset tag s (fun '(fid, offs, count) =>
  with_fid fid tag s (fun f => data_reply id tag count (fs_readdir f offs) s)).

Definition p9_fsync (id tag offset : Z) s : run P9State :=
  args (u_w s) offset tag s (fun _ => virtio_9p_send_reply id tag [] s).

Definition p9_lock (id tag offset : Z) s : run P9State :=
  args (un! fid := u_w s in un! type := u_b s in un! flags := u_w s in un! start := u_d s in un! length := u_d s in
        un! proc_id := u_w s in un! client_id := u_s s in
        rd_ret (fid, mkLock type flags start length proc_id client_id)) offset tag s (fun '(fid, lock) =>
  with_fid fid tag s (fun f =>
    let r := fs_lock f lock (fs (vext s)) in
    let s := set_fs r.2 s in
    if r.1 <? 0 then error tag r.1 s else fmt_reply id tag [B r.1] s)).

(** the reply is given the addresses of the fields for their values *)
Definition p9_getlock (id tag offset : Z) s : run P9State :=
  args (un! fid := u_w s in un! type := u_b s in un! start := u_d s in un! length := u_d s in
        un! proc_id := u_w s in un! client_id := u_s s in
        rd_ret (fid, mkLock type 0 start length proc_id client_id)) offset tag s (fun '(fid, lock) =>
  with_fid fid tag s (fun f =>
    let r := fs_getlock f lock (fs (vext s)) in
    if r.1.1 <? 0 then error tag r.1.1 (set_fs r.2 s) else Undef)).

Definition p9_link (id tag offset : Z) s : run P9State :=
  args (un! dfid := u_w s in un! fid := u_w s in un! name := u_s s in rd_ret (dfid, fid, name)) offset tag s (fun '(dfid, fid, name) =>
  with_fid dfid tag s (fun df => with_fid fid tag s (fun f => empty_reply id tag (fs_link df f name (fs (vext s))) s))).

Definition p9_mkdir (id tag offset : Z) s : run P9State :=
  args (un! fid := u_w s in un! name := u_s s in un! mode := u_w s in un! gid := u_w s in
        rd_ret (fid, name, mode, gid)) offset tag s (fun '(fid, name, mode, gid) =>
  with_fid fid tag s (fun f => qid_reply id tag (fs_mkdir f name mode gid (fs (vext s))) s)).

Definition p9_renameat (id tag offset : Z) s : run P9State :=
  args (un! fid := u_w s in un! name := u_s s in un! new_fid := u_w s in un! new_name := u_s s in
        rd_ret (fid, name, new_fid, new_name)) offset tag s (fun '(fid, name, new_fid, new_name) =>
  with_fid fid tag s (fun f => with_fid new_fid tag s (fun new_f =>
    empty_reply id tag (fs_renameat f name new_f new_name (fs (vext s))) s))).

Definition p9_unlinkat (id tag offset : Z) s : run P9State :=
  args (un! fid := u_w s in un! name := u_s s in un! flags := u_w s in rd_ret (fid, name, flags)) offset tag s (fun '(fid, name, _) =>
  with_fid fid tag s (fun f => empty_reply id tag (fs_unlinkat f name (fs (vext s))) s)).

(** "9P2000.L" *)
Definition protocol_version : list Z := [57; 80; 50; 48; 48; 48; 46; 76].
Definition p9_version (id tag offset : Z) s : run P9State :=
  args (un! msize := u_w s in un! version := u_s s in rd_ret msize) offset tag s (fun n =>
    let s := set_msize (s32 n) s in
    fmt_reply id tag [W (msize (vext s)); S protocol_version] s).

Definition p9_attach (id tag offset : Z) s : run P9State :=
  args (un! fid := u_w s in un! afid := u_w s in un! uname := u_s s in un! aname := u_s s in un! uid := u_w s in
        rd_ret (fid, uname, aname, uid)) offset tag s (fun '(fid, uname, aname, uid) =>
    let r := fs_attach uid uname aname (fs (vext s)) in
    let s := set_fs r.2 s in
    let err := r.1.1.1 in
    if negb (err =? 0) then error tag err s
    else fmt_reply id tag [Q r.1.2] (fid_set fid r.1.1.2 s)).

Definition p9_flush (id tag offset : Z) s : run P9State :=
  args (u_h s) offset tag s (fun _ => virtio_9p_send_reply id tag [] s).

(** the qids walked over, [err] of them *)
Definition p9_walk (id tag offset : Z) s : run P9State :=
  args (un! fid := u_w s in un! newfid := u_w s in un! nwname := u_h s in
        fun offset => Finished (Some (fid, newfid, nwname, offset, offset))) offset tag s (fun '(fid, newfid, nwname, offset) =>
  with_fid fid tag s (fun f =>
  args (un_names fuel s queue_idx desc_idx (Z.to_nat nwname)) offset tag s (fun names =>
    let r := fs_walk f names (fs (vext s)) in
    let s := set_fs r.2 s in
    let err := r.1.1.1 in
    if err <? 0 then error tag err s
    else if Z.of_nat (length r.1.2) <? err then Undef
    else
      run! buf := marshall 1024 (H err :: map Q (take (Z.to_nat err) r.1.2)) in
      virtio_9p_send_reply id tag buf (fid_set newfid r.1.1.2 s)))).

Definition p9_read (id tag offset : Z) s : run P9State :=
  args (un! fid := u_w s in un! offs := u_d s in un! count := u_w s in rd_ret (fid, offs, count)) offset tag s (fun '(fid, offs, count) =>
  with_fid fid tag s (fun f => data_reply id tag count (fs_read f offs) s)).

Definition p9_write (id tag offset : Z) s : run P9State :=
  args (un! fid := u_w s in un! offs := u_d s in un! count := u_w s in
        fun offset => Finished (Some (fid, offs, count, offset, offset))) offset tag s (fun '(fid, offs, count, offset) =>
  with_fid fid tag s (fun f =>
    run! rb := memcpy_from_queue fuel s (fresh count) queue_idx desc_idx offset (s32 count) in
    if negb (rb.1 =? 0) then protocol_error tag s
    else
      let r := fs_write f offs rb.2 (s32 count) (fs (vext s)) in
      let s := set_fs r.2 s in
      if r.1 <? 0 then error tag r.1 s else fmt_reply id tag [W r.1] s)).

Definition p9_clunk (id tag offset : Z) s : run P9State :=
  args (u_w s) offset tag s (fun fid => virtio_9p_send_reply id tag [] (fid_delete fid s)).

Definition p9_request (id tag offset : Z) s : run P9State :=
  if id =? 8 then p9_statfs id tag s
  else if id =? 12 then p9_lopen id tag offset s
  else if id =? 14 then p9_lcreate id tag offset s
  else if id =? 16 then p9_symlink id tag offset s
  else if id =? 18 then p9_mknod id tag offset s
  else if id =? 22 then p9_readlink id tag offset s
  else if id =? 24 then p9_getattr id tag offset s
  else if id =? 26 then p9_setattr id tag offset s
  else if id =? 30 then error tag (- P9_ENOTSUP) s
  else if id =? 40 then p9_readdir id tag offset s
  else if id =? 50 then p9_fsync id tag offset s
  else if id =? 52 then p9_lock id tag offset s
  else if id =? 54 then p9_getlock id tag offset s
  else if id =? 70 then p9_link id tag offset s
  else if id =? 72 then p9_mkdir id tag offset s
  else if id =? 74 then p9_renameat id tag offset s
  else if id =? 76 then p9_unlinkat id tag offset s
  else if id =? 100 then p9_version id tag offset s
  else if id =? 104 then p9_attach id tag offset s
  else if id =? 108 then p9_flush id tag offset s
  else if id =? 110 then p9_walk id tag offset s
  else if id =? 116 then p9_read id tag offset s
  else if id =? 118 then p9_write id tag offset s
  else if id =? 120 then p9_clunk id tag offset s
  else protocol_error tag s.

Definition header_len : Z := 4 + 1 + 2.

End Request.

Definition virtio_9p_recv_request (fuel : nat) (queue_idx desc_idx read_size write_size : Z) s : run (Z * P9State) :=
  if negb (queue_idx =? 0) then Finished (0, s)
  else if p9_in_progress (vext s) then Finished (-1, s)
  else
    run! rh := memcpy_from_queue fuel s (fresh header_len) queue_idx desc_idx 0 header_len in
    run! s := (if negb (rh.1 =? 0) then protocol_error fuel queue_idx desc_idx 0 s
               else p9_request fuel queue_idx desc_idx (rd rh.2 4) (get_le16 (drop 5 rh.2)) header_len s) in
    Finished (0, s).

#[export] Instance p9_ops : VirtioOps (VIRTIO9PDevice FS F) := {|
  device_recv := virtio_9p_recv_request;
  config_write := Finished
|}.

(** the file system's completion of an open, with its state then *)
Definition virtio_9p_open_cb (fuel : nat) (oi : P9OpenInfo) (qid : FSQID) (err : Z) (f : FS) s : run P9State :=
  run! s := virtio_9p_open_reply fuel (oi_queue_idx oi) (oi_desc_idx oi) qid err (oi_tag oi) (set_fs f s) in
  queue_notify fuel (oi_queue_idx oi) (set_p9_in_progress false s).

Definition virtio_9p_init (addr opaque : Z) (mount_tag : list Z) (m : Mem) (f : FS) : run P9State :=
  let n := len mount_tag in
  if MAX_CONFIG_SPACE_SIZE <? 2 + n then Undef
  else
    run! s := virtio_init addr opaque 9 (2 + n) m (mk9P f 8192 [] false) in
    let s := upd_vdev (set_device_features (1 << 0)) s in
    Finished (upd_vdev (config_put 0 ([u8 n; u8 (n >> 8)] ++ mount_tag)) s).

End Device.
