(* ===== verification/Virtio9PProps.v ===== *)
(** * The 9P device keeps its files

    Whatever a guest puts into the request ring, the device hands the file system
    only files that are open, and the files that are open are those its table of
    identifiers holds: none leaks and none is closed twice. *)

From S2P Require Import Prelude Cutils IoMem Fdt VirtMachine Virtio VirtioBlock VirtioQueue VirtioProps Virtio9P.

Create HintDb p9.

(** ** Invariants of the request handlers

    A property of the device's state that transfers, completions and the four
    ways in which a request changes the table preserve is preserved by every
    request. *)

Section Invariants.
Context {FS F : Type} {alloc : Allocator} {fsd : FSDevice FS F}.
Abbreviation P9State := (VState (VIRTIO9PDevice FS F)).
Implicit Types s : P9State.

(** the file system's states an operation on files of the table leads to *)
Inductive operated s : FS -> Prop :=
| op_statfs : operated s (fs_statfs (fs (vext s))).2
| op_mkdir i f n m g : fid_find s i = Some f -> operated s (fs_mkdir f n m g (fs (vext s))).2
| op_open i f fl oi : fid_find s i = Some f -> operated s (fs_open f fl oi (fs (vext s))).2
| op_create i f n fl m g : fid_find s i = Some f -> operated s (fs_create f n fl m g (fs (vext s))).2
| op_stat i f : fid_find s i = Some f -> operated s (fs_stat f (fs (vext s))).2
| op_setattr i f a b c d e g h j k : fid_find s i = Some f -> operated s (fs_setattr f a b c d e g h j k (fs (vext s))).2
| op_readdir i f o b c : fid_find s i = Some f -> operated s (fs_readdir f o b c (fs (vext s))).2
| op_read i f o b c : fid_find s i = Some f -> operated s (fs_read f o b c (fs (vext s))).2
| op_write i f o b c : fid_find s i = Some f -> operated s (fs_write f o b c (fs (vext s))).2
| op_link i f j f' n : fid_find s i = Some f -> fid_find s j = Some f' -> operated s (fs_link f f' n (fs (vext s))).2
| op_symlink i f n t g : fid_find s i = Some f -> operated s (fs_symlink f n t g (fs (vext s))).2
| op_mknod i f n m a b g : fid_find s i = Some f -> operated s (fs_mknod f n m a b g (fs (vext s))).2
| op_readlink i f b n : fid_find s i = Some f -> operated s (fs_readlink b n f (fs (vext s))).2
| op_renameat i f n j f' n' : fid_find s i = Some f -> fid_find s j = Some f' ->
    operated s (fs_renameat f n f' n' (fs (vext s))).2
| op_unlinkat i f n : fid_find s i = Some f -> operated s (fs_unlinkat f n (fs (vext s))).2
| op_lock i f l : fid_find s i = Some f -> operated s (fs_lock f l (fs (vext s))).2
| op_getlock i f l : fid_find s i = Some f -> operated s (fs_getlock f l (fs (vext s))).2.

Record p9_invariant (Inv : P9State -> Prop) : Prop := {
  pi_heap s s' : heap_only s s' -> Inv s -> Inv s';
  pi_consume q idx n s : Inv s -> Inv (virtio_consume_desc q idx n s);
  pi_msize n s : Inv s -> Inv (set_msize n s);
  pi_progress b s : Inv s -> Inv (set_p9_in_progress b s);
  pi_operated s fs' : Inv s -> operated s fs' -> Inv (set_fs fs' s);
  pi_attach fid a b c s : Inv s ->
    let r := fs_attach a b c (fs (vext s)) in
    if r.1.1.1 =? 0 then Inv (fid_set fid r.1.1.2 (set_fs r.2 s)) else Inv (set_fs r.2 s);
  pi_walk fid i f names s : Inv s -> fid_find s i = Some f ->
    let r := fs_walk f names (fs (vext s)) in
    if r.1.1.1 <? 0 then Inv (set_fs r.2 s) else Inv (fid_set fid r.1.1.2 (set_fs r.2 s));
  pi_clunk fid s : Inv s -> Inv (fid_delete fid s)
}.

Context (Inv : P9State -> Prop) (HI : p9_invariant Inv).

Lemma inv_operated s fs' : Inv s -> operated s fs' -> Inv (set_fs fs' s).
Proof. exact (pi_operated _ HI s fs'). Qed.
Lemma inv_msize n s : Inv s -> Inv (set_msize n s).
Proof. exact (pi_msize _ HI n s). Qed.
Lemma inv_progress b s : Inv s -> Inv (set_p9_in_progress b s).
Proof. exact (pi_progress _ HI b s). Qed.
Lemma inv_clunk fid s : Inv s -> Inv (fid_delete fid s).
Proof. exact (pi_clunk _ HI fid s). Qed.

(** a computation that ends in a state with the invariant, if it ends *)
Definition kept (m : run P9State) : Prop := forall s', m = Finished s' -> Inv s'.

Lemma kept_finished s : Inv s -> kept (Finished s).
Proof. by intros H s' [= <-]. Qed.
Lemma kept_undef : kept Undef.
Proof. done. Qed.
Lemma kept_bind {A} (m : run A) k : (forall a, m = Finished a -> kept (k a)) -> kept (andThen m k).
Proof. intros H s'. destruct m; cbn [andThen]; [by apply H|done..]. Qed.

Section Request.
Context (fuel : nat) (q idx : Z).

Lemma kept_send id tag buf s : Inv s -> kept (virtio_9p_send_reply fuel q idx id tag buf s).
Proof.
  intros Hs. unfold virtio_9p_send_reply. destruct (2 ^ 31 <=? len buf + 7); [apply kept_undef|]. apply kept_bind. intros [r s1] E. apply kept_finished. cbn [snd].
  apply memcpy_to_queue_heap in E. apply (pi_consume _ HI), (pi_heap _ HI s); done.
Qed.

Lemma kept_send_error tag err s : Inv s -> kept (virtio_9p_send_error fuel q idx tag err s).
Proof. intros Hs. apply kept_bind. intros. by apply kept_send. Qed.
Lemma kept_error tag err s : Inv s -> kept (error fuel q idx tag err s).
Proof. apply kept_send_error. Qed.
Lemma kept_protocol_error tag s : Inv s -> kept (protocol_error fuel q idx tag s).
Proof. apply kept_error. Qed.

Lemma kept_reply id tag fmt s : Inv s -> kept (fmt_reply fuel q idx id tag fmt s).
Proof. intros Hs. apply kept_bind. intros. by apply kept_send. Qed.

Lemma kept_open_reply qid err tag s : Inv s -> kept (virtio_9p_open_reply fuel q idx qid err tag s).
Proof. intros Hs. unfold virtio_9p_open_reply. destruct (err <? 0); [by apply kept_send_error|]. apply kept_bind. intros. by apply kept_send. Qed.

Lemma kept_args {A} (r : Rd A) offset tag s k :
  Inv s -> (forall a, kept (k a)) -> kept (args fuel q idx r offset tag s k).
Proof.
  intros Hs Hk. apply kept_bind. intros [[a o]|] _; [apply Hk|]. by apply kept_protocol_error.
Qed.

Lemma kept_fid fid tag s k :
  Inv s -> (forall f, fid_find s fid = Some f -> kept (k f)) -> kept (with_fid fuel q idx fid tag s k).
Proof. intros Hs Hk. unfold with_fid. destruct (fid_find s fid) eqn:E; [by apply Hk|by apply kept_protocol_error]. Qed.

Lemma kept_qid_reply id tag r s : Inv (set_fs r.2 s) -> kept (qid_reply fuel q idx id tag r s).
Proof. intros Hs. unfold qid_reply. cbv zeta. destruct (negb _); [by apply kept_error|by apply kept_reply]. Qed.

Lemma kept_empty_reply id tag r s : Inv (set_fs r.2 s) -> kept (empty_reply fuel q idx id tag r s).
Proof. intros Hs. unfold empty_reply. cbv zeta. destruct (negb _); [by apply kept_error|by apply kept_send]. Qed.

Lemma kept_data_reply id tag count op s :
  (forall b n, Inv (set_fs (op b n (fs (vext s))).2 s)) -> kept (data_reply fuel q idx id tag count op s).
Proof.
  intros Hop. unfold data_reply. cbv zeta. destruct (_ <? 4); [apply kept_undef|]. destruct (_ <? 0); [by apply kept_error|].
  apply kept_bind. intros. by apply kept_send.
Qed.

Hint Resolve inv_operated inv_msize inv_progress inv_clunk : p9.
Hint Constructors operated : p9.
Hint Resolve kept_send kept_error kept_protocol_error kept_reply kept_open_reply kept_qid_reply kept_empty_reply kept_data_reply kept_finished kept_undef : p9.

Ltac p9_step := match goal with
  | |- kept (args _ _ _ _ _ _ _ _) => apply kept_args; [done|]
  | |- kept (with_fid _ _ _ _ _ _ _) => apply kept_fid; [done|]
  | |- kept (andThen _ _) => apply kept_bind; intros ? _
  | |- kept (if ?b then _ else _) => destruct b
  | |- forall x : _ * _, _ => intros [??]
  | |- forall _, _ => intro
  | |- kept (let '(_, _) := ?p in _) => destruct p
  end.
Ltac p9_tac := repeat (cbv beta zeta; p9_step); eauto 6 with p9.

Lemma kept_attach id tag offset s : Inv s -> kept (p9_attach fuel q idx id tag offset s).
Proof.
  intros Hs. unfold p9_attach. apply kept_args; [done|]. intros [[[fid uname] aname] uid]. cbv zeta.
  pose proof (pi_attach _ HI fid uid uname aname s Hs) as H. cbv zeta in H.
  destruct (_ =? 0); cbn [negb]; eauto with p9.
Qed.

Lemma kept_walk id tag offset s : Inv s -> kept (p9_walk fuel q idx id tag offset s).
Proof.
  intros Hs. unfold p9_walk. apply kept_args; [done|]. intros [[[fid newfid] nwname] o].
  apply kept_fid; [done|]. intros f Hf. apply kept_args; [done|]. intros names. cbv zeta.
  pose proof (pi_walk _ HI newfid fid f names s Hs Hf) as H. cbv zeta in H.
  destruct (_ <? 0); [by apply kept_error|]. destruct (_ <? _); [apply kept_undef|]. apply kept_bind. intros. by apply kept_send.
Qed.

Lemma kept_statfs id tag s : Inv s -> kept (p9_statfs fuel q idx id tag s).
Proof. intros Hs. unfold p9_statfs. p9_tac. Qed.
Lemma kept_lopen id tag offset s : Inv s -> kept (p9_lopen fuel q idx id tag offset s).
Proof. intros Hs. unfold p9_lopen. p9_tac. Qed.
Lemma kept_lcreate id tag offset s : Inv s -> kept (p9_lcreate fuel q idx id tag offset s).
Proof. intros Hs. unfold p9_lcreate. p9_tac. Qed.
Lemma kept_symlink id tag offset s : Inv s -> kept (p9_symlink fuel q idx id tag offset s).
Proof. intros Hs. unfold p9_symlink. p9_tac. Qed.
Lemma kept_mknod id tag offset s : Inv s -> kept (p9_mknod fuel q idx id tag offset s).
Proof. intros Hs. unfold p9_mknod. p9_tac. Qed.
Lemma kept_readlink id tag offset s : Inv s -> kept (p9_readlink fuel q idx id tag offset s).
Proof. intros Hs. unfold p9_readlink. p9_tac. Qed.
Lemma kept_getattr id tag offset s : Inv s -> kept (p9_getattr fuel q idx id tag offset s).
Proof. intros Hs. unfold p9_getattr. p9_tac. Qed.
Lemma kept_setattr id tag offset s : Inv s -> kept (p9_setattr fuel q idx id tag offset s).
Proof. intros Hs. unfold p9_setattr. p9_tac. Qed.
Lemma kept_readdir id tag offset s : Inv s -> kept (p9_readdir fuel q idx id tag offset s).
Proof. intros Hs. unfold p9_readdir. p9_tac. Qed.
Lemma kept_fsync id tag offset s : Inv s -> kept (p9_fsync fuel q idx id tag offset s).
Proof. intros Hs. unfold p9_fsync. p9_tac. Qed.
Lemma kept_lock id tag offset s : Inv s -> kept (p9_lock fuel q idx id tag offset s).
Proof. intros Hs. unfold p9_lock. p9_tac. Qed.
Lemma kept_getlock id tag offset s : Inv s -> kept (p9_getlock fuel q idx id tag offset s).
Proof. intros Hs. unfold p9_getlock. p9_tac. Qed.
Lemma kept_link id tag offset s : Inv s -> kept (p9_link fuel q idx id tag offset s).
Proof. intros Hs. unfold p9_link. p9_tac. Qed.
Lemma kept_mkdir id tag offset s : Inv s -> kept (p9_mkdir fuel q idx id tag offset s).
Proof. intros Hs. unfold p9_mkdir. p9_tac. Qed.
Lemma kept_renameat id tag offset s : Inv s -> kept (p9_renameat fuel q idx id tag offset s).
Proof. intros Hs. unfold p9_renameat. p9_tac. Qed.
Lemma kept_unlinkat id tag offset s : Inv s -> kept (p9_unlinkat fuel q idx id tag offset s).
Proof. intros Hs. unfold p9_unlinkat. p9_tac. Qed.
Lemma kept_version id tag offset s : Inv s -> kept (p9_version fuel q idx id tag offset s).
Proof. intros Hs. unfold p9_version. p9_tac. Qed.
Lemma kept_flush id tag offset s : Inv s -> kept (p9_flush fuel q idx id tag offset s).
Proof. intros Hs. unfold p9_flush. p9_tac. Qed.
Lemma kept_read id tag offset s : Inv s -> kept (p9_read fuel q idx id tag offset s).
Proof. intros Hs. unfold p9_read. p9_tac. Qed.
Lemma kept_write id tag offset s : Inv s -> kept (p9_write fuel q idx id tag offset s).
Proof. intros Hs. unfold p9_write. p9_tac. Qed.
Lemma kept_clunk id tag offset s : Inv s -> kept (p9_clunk fuel q idx id tag offset s).
Proof. intros Hs. unfold p9_clunk. p9_tac. Qed.

Ltac request_of L := match goal with |- kept (if ?b then _ else _) => destruct b; [apply L; assumption|] end.
Lemma kept_request id tag offset s : Inv s -> kept (p9_request fuel q idx id tag offset s).
Proof.
  intros Hs. unfold p9_request.
  request_of kept_statfs.
  request_of kept_lopen.
  request_of kept_lcreate.
  request_of kept_symlink.
  request_of kept_mknod.
  request_of kept_readlink.
  request_of kept_getattr.
  request_of kept_setattr.
  request_of kept_error.
  request_of kept_readdir.
  request_of kept_fsync.
  request_of kept_lock.
  request_of kept_getlock.
  request_of kept_link.
  request_of kept_mkdir.
  request_of kept_renameat.
  request_of kept_unlinkat.
  request_of kept_version.
  request_of kept_attach.
  request_of kept_flush.
  request_of kept_walk.
  request_of kept_read.
  request_of kept_write.
  request_of kept_clunk.
  by apply kept_protocol_error.
Qed.
End Request.

Lemma recv_kept fuel q idx r w s ret s' :
  Inv s -> virtio_9p_recv_request fuel q idx r w s = Finished (ret, s') -> Inv s'.
Proof.
  intros Hs. unfold virtio_9p_recv_request. destruct (negb (q =? 0)); [by intros [= <- <-]|].
  destruct (p9_in_progress (vext s)); [by intros [= <- <-]|].
  destruct (memcpy_from_queue _ _ _ _ _ _ _) as [rh| |]; cbn [andThen]; [|done..].
  destruct (negb (rh.1 =? 0)).
  - destruct (protocol_error _ _ _ _ _) as [s1| |] eqn:E; cbn [andThen]; [|done..]. intros [= <- <-]. exact (kept_protocol_error _ _ _ _ _ Hs _ E).
  - destruct (p9_request _ _ _ _ _ _ _) as [s1| |] eqn:E; cbn [andThen]; [|done..]. intros [= <- <-]. exact (kept_request _ _ _ _ _ _ _ Hs _ E).
Qed.
End Invariants.

(** ** The device keeps the register file's invariant *)

#[export] Instance p9_wf {FS F} {alloc : Allocator} {fsd : FSDevice FS F} : WfVirtioOps (VIRTIO9PDevice FS F).
Proof.
  split; [|by intros s s' Hs [= <-]].
  intros fuel q idx r w s ret s' Hs _ H. refine (recv_kept (handled s) _ _ _ _ _ _ _ _ _ (handled_refl s Hs) H). split.
  - intros s1 s2 Hh. by apply handled_heap.
  - intros. by apply handled_consume.
  - intros n s1 H1. by apply handled_vext.
  - intros b s1 H1. by apply handled_vext.
  - intros s1 f H1 _. by apply handled_vext.
  - intros fid a b c s1 H1. cbv zeta. assert (forall f, handled s (set_fs f s1)) as Hf by (intros; by apply handled_vext).
    destruct (_ =? 0); [|done]. unfold fid_set. destruct (fid_find _ _); repeat apply handled_vext; done.
  - intros fid i f names s1 H1 _. cbv zeta. assert (forall f, handled s (set_fs f s1)) as Hf by (intros; by apply handled_vext).
    destruct (_ <? 0); [done|]. unfold fid_set. destruct (fid_find _ _); repeat apply handled_vext; done.
  - intros fid s1 H1. unfold fid_delete. destruct (fid_find _ _); [|done]. by do 2 apply handled_vext.
Qed.

(** ** A ledger of open files

    Any file system, with a record of the files it has handed out: each gets a
    number of its own when an attach or a walk opens it and loses it when it is
    deleted; [sound] turns false when an operation is given a file that is not
    open. *)

Section Ledger.
Context {FS F : Type} {fsd : FSDevice FS F}.

Record Ledger : Type := mkLedger { under : FS; next_file : Z; opened : list Z; sound : bool }.
Abbreviation File := (Z * F)%type.

Definition with_under (u : FS) (l : Ledger) : Ledger := mkLedger u (next_file l) (opened l) (sound l).
Definition used (h : File) (u : FS) (l : Ledger) : Ledger :=
  mkLedger u (next_file l) (opened l) (sound l && bool_decide (h.1 ∈ opened l)).
Definition issued (u : FS) (l : Ledger) : Ledger := mkLedger u (next_file l + 1) (next_file l :: opened l) (sound l).
Definition released (h : File) (u : FS) (l : Ledger) : Ledger :=
  mkLedger u (next_file l) (filter (fun i => i <> h.1) (opened l)) (sound l && bool_decide (h.1 ∈ opened l)).

Definition on {A} (h : File) (op : F -> FS -> A * FS) (l : Ledger) : A * Ledger :=
  let r := op h.2 (under l) in (r.1, used h r.2 l).

#[export] Instance ledger : FSDevice Ledger File := {|
  fs_delete h l := released h (fs_delete h.2 (under l)) l;
  fs_statfs l := let r := fs_statfs (under l) in (r.1, with_under r.2 l);
  fs_attach uid uname aname l :=
    let r := fs_attach uid uname aname (under l) in
    (r.1.1.1, (next_file l, r.1.1.2), r.1.2, if r.1.1.1 =? 0 then issued r.2 l else with_under r.2 l);
  fs_walk h names l :=
    let r := fs_walk h.2 names (under l) in
    (r.1.1.1, (next_file l, r.1.1.2), r.1.2, if r.1.1.1 <? 0 then used h r.2 l else issued r.2 (used h r.2 l));
  fs_mkdir h n m g := on h (fun f => fs_mkdir f n m g);
  fs_open h fl oi := on h (fun f => fs_open f fl oi);
  fs_create h n fl m g := on h (fun f => fs_create f n fl m g);
  fs_stat h := on h fs_stat;
  fs_setattr h a b c d e i j k m := on h (fun f => fs_setattr f a b c d e i j k m);
  fs_readdir h o b c := on h (fun f => fs_readdir f o b c);
  fs_read h o b c := on h (fun f => fs_read f o b c);
  fs_write h o b c := on h (fun f => fs_write f o b c);
  fs_link h h' n l := let r := fs_link h.2 h'.2 n (under l) in (r.1, used h r.2 (used h' r.2 l));
  fs_symlink h n t g := on h (fun f => fs_symlink f n t g);
  fs_mknod h n m a b g := on h (fun f => fs_mknod f n m a b g);
  fs_readlink b n h := on h (fs_readlink b n);
  fs_renameat h n h' n' l := let r := fs_renameat h.2 n h'.2 n' (under l) in (r.1, used h r.2 (used h' r.2 l));
  fs_unlinkat h n := on h (fun f => fs_unlinkat f n);
  fs_lock h k := on h (fun f => fs_lock f k);
  fs_getlock h k := on h (fun f => fs_getlock f k)
|}.

(** the open files are those of the table, each once, and none was misused *)
Record balanced (x : VIRTIO9PDevice Ledger File) : Prop := {
  ba_sound : sound (fs x) = true;
  ba_fids : NoDup (map fst (fid_list x));
  ba_opened : NoDup (opened (fs x));
  ba_next : Forall (fun i => i < next_file (fs x)) (opened (fs x));
  ba_table : opened (fs x) ≡ₚ map (fun p => p.2.1) (fid_list x)
}.

Lemma find_fid_split fid (l : list (Z * File)) f : find_fid fid l = Some f -> exists l1 l2,
  l = l1 ++ (fid, f) :: l2 /\ remove_fid fid l = l1 ++ l2 /\ forall g, replace_fid fid g l = l1 ++ (fid, g) :: l2.
Proof.
  induction l as [|[n h] l IH]; [done|]. cbn [find_fid remove_fid replace_fid]. destruct (Z.eqb_spec n fid) as [->|Hne].
  - intros [= ->]. by exists [], l.
  - intros (l1 & l2 & -> & Hr & Hp)%IH. exists ((n, h) :: l1), l2. rewrite Hr. split_and!; [done..|]. intros g. by rewrite Hp.
Qed.

Lemma find_fid_none fid (l : list (Z * File)) : find_fid fid l = None -> fid ∉ map fst l.
Proof.
  induction l as [|[n h] l IH]; cbn [find_fid map fst]; [by intros _ ?%elem_of_nil|].
  destruct (Z.eqb_spec n fid); [done|]. intros H%IH. rewrite not_elem_of_cons. split; [congruence|done].
Qed.

Lemma balanced_open x fid f : balanced x -> find_fid fid (fid_list x) = Some f -> f.1 ∈ opened (fs x).
Proof.
  intros [] (l1 & l2 & E & _)%find_fid_split. rewrite ba_table0, E, map_app, elem_of_app. right. constructor.
Qed.

Lemma balanced_with_under u x : balanced x -> balanced (mk9P (with_under u (fs x)) (msize x) (fid_list x) (p9_in_progress x)).
Proof. intros []. by split. Qed.

Lemma balanced_used u x h : balanced x -> h.1 ∈ opened (fs x) ->
  balanced (mk9P (used h u (fs x)) (msize x) (fid_list x) (p9_in_progress x)).
Proof. intros [] Hh. split; try done. cbn [fs used sound]. by rewrite ba_sound0, bool_decide_eq_true_2. Qed.

Lemma opened_but (i : Z) l rest : NoDup l -> l ≡ₚ i :: rest -> filter (fun j => j <> i) l ≡ₚ rest.
Proof.
  intros Hn Hp. rewrite Hp in Hn. apply NoDup_cons in Hn as [Hi _]. rewrite Hp, filter_cons_False by (intros H; by apply H).
  clear Hp. induction rest as [|j rest IH]; [done|]. apply not_elem_of_cons in Hi as [Hne Hi].
  rewrite filter_cons_True by congruence. by rewrite IH.
Qed.

Lemma Forall_but (P : Z -> Prop) i l : Forall P l -> Forall P (filter (fun j => j <> i) l).
Proof. rewrite !Forall_forall. intros H j [_ Hj]%list_elem_of_filter. auto. Qed.

Lemma split_ids (l1 l2 : list (Z * File)) n f :
  map (fun p => p.2.1) (l1 ++ (n, f) :: l2) ≡ₚ f.1 :: map (fun p => p.2.1) (l1 ++ l2).
Proof. rewrite !map_app. cbn [map snd]. by rewrite Permutation_middle. Qed.

(** an identifier is given a file just opened; the file it had is closed *)
Lemma balanced_fid_set (s : VState (VIRTIO9PDevice Ledger File)) fid u f :
  balanced (vext s) -> balanced (vext (fid_set fid (next_file (fs (vext s)), f) (set_fs (issued u (fs (vext s))) s))).
Proof.
  intros Hb. pose proof Hb as []. set (x := vext s) in *. set (n := next_file (fs x)).
  assert (n ∉ opened (fs x)) as Hn by (intros Hi; rewrite Forall_forall in ba_next0; specialize (ba_next0 n Hi); unfold n in *; lia).
  assert (Forall (fun i => i < n + 1) (n :: opened (fs x))) as Hlt.
  { constructor; [lia|]. eapply Forall_impl; [exact ba_next0|]. cbn. unfold n. lia. }
  unfold fid_set, fid_find, set_fid_list. cbn [vext set_fs set_vext fid_list fs msize p9_in_progress]. fold x.
  destruct (find_fid fid (fid_list x)) as [g|] eqn:E; cbn [vext set_vext].
  - pose proof (balanced_open _ _ _ Hb E) as Hg. destruct (find_fid_split _ _ _ E) as (l1 & l2 & El & _ & Hr).
    rewrite El, split_ids in ba_table0. assert (g.1 <> n) as Hgn by congruence.
    assert (filter (fun i => i <> g.1) (n :: opened (fs x)) ≡ₚ n :: map (fun p => p.2.1) (l1 ++ l2)) as Hp.
    { rewrite filter_cons_True by congruence. by rewrite (opened_but g.1 _ _ ba_opened0 ba_table0). }
    split; cbn [fs fid_list fs_delete ledger released issued sound opened next_file].
    + rewrite ba_sound0. by rewrite bool_decide_eq_true_2 by (right; done).
    + rewrite Hr, map_app. rewrite El, map_app in ba_fids0. done.
    + apply NoDup_filter. by constructor.
    + by apply Forall_but.
    + etrans; [exact Hp|]. by rewrite Hr, split_ids.
  - split; cbn [fs fid_list issued sound opened next_file map fst snd]; try done.
    + constructor; [by apply find_fid_none|done].
    + by constructor.
    + by rewrite ba_table0.
Qed.

Lemma balanced_fid_delete (s : VState (VIRTIO9PDevice Ledger File)) fid : balanced (vext s) -> balanced (vext (fid_delete fid s)).
Proof.
  intros Hb. pose proof Hb as []. unfold fid_delete, fid_find. destruct (find_fid fid (fid_list (vext s))) as [g|] eqn:E; [|done].
  pose proof (balanced_open _ _ _ Hb E) as Hg. destruct (find_fid_split _ _ _ E) as (l1 & l2 & El & Hr & _).
  set (x := vext s) in *. rewrite El, split_ids in ba_table0.
  split; cbn [vext set_fid_list set_fs set_vext fs fid_list fs_delete ledger released sound opened next_file].
  - rewrite ba_sound0. by rewrite bool_decide_eq_true_2.
  - fold x. rewrite Hr, map_app. rewrite El, map_app in ba_fids0. apply NoDup_app in ba_fids0 as (H1 & H2 & H3).
    apply NoDup_cons in H3 as [_ H3]. apply NoDup_app. split_and!; [done| |done]. intros i Hi Hj. apply (H2 i Hi). by right.
  - by apply NoDup_filter.
  - by apply Forall_but.
  - fold x. rewrite Hr. by apply opened_but.
Qed.

Lemma heap_only_vext {X} (s s' : VState X) : heap_only s s' -> vext s' = vext s.
Proof. by intros [h ->]. Qed.

Lemma consume_vext {X} q idx n (s : VState X) : vext (virtio_consume_desc q idx n s) = vext s.
Proof.
  unfold virtio_consume_desc. cbn [vext set_virq upd_vdev set_vdev].
  rewrite !(heap_only_vext _ _ (virtio_write32_heap _ _ _)). apply heap_only_vext, virtio_write16_heap.
Qed.

Context {alloc : Allocator}.

Lemma balanced_invariant : p9_invariant (fun s : VState (VIRTIO9PDevice Ledger File) => balanced (vext s)).
Proof.
  split.
  - intros s s' H. by rewrite (heap_only_vext _ _ H).
  - intros q idx n s H. by rewrite consume_vext.
  - intros n s []. by split.
  - intros b s []. by split.
  - intros s f' H Ho. destruct Ho; cbn [fs_statfs fs_mkdir fs_open fs_create fs_stat fs_setattr fs_readdir fs_read fs_write fs_link
      fs_symlink fs_mknod fs_readlink fs_renameat fs_unlinkat fs_lock fs_getlock ledger on snd vext set_fs set_vext].
    all: try (by apply balanced_with_under). all: try (apply balanced_used; [done|by eapply balanced_open]).
    all: apply (balanced_used _ (mk9P _ (msize (vext s)) (fid_list (vext s)) (p9_in_progress (vext s))));
      [apply balanced_used; [done|by eapply balanced_open]|by eapply (balanced_open (vext s))].
  - intros fid a b c s H. cbv zeta. cbn [fs_attach ledger fst snd]. destruct (_ =? 0); [by apply balanced_fid_set|by apply balanced_with_under].
  - intros fid i f names s H Hf. cbv zeta. cbn [fs_walk ledger fst snd]. pose proof (balanced_open _ _ _ H Hf) as Ho.
    destruct (_ <? 0); [by apply balanced_used|].
    apply (balanced_fid_set (set_fs (used f _ (fs (vext s))) s)). by apply balanced_used.
  - intros fid s. apply balanced_fid_delete.
Qed.

(** ** What happens to the device *)

Abbreviation LedgerState := (VState (VIRTIO9PDevice Ledger File)).

(** the guest stores to a register; the guest changes its memory; an open
    completes, the file system being then in the state [u] *)
Inductive Event :=
| Store (offset val size_log2 : Z)
| Memory (h : HostMem)
| OpenDone (oi : P9OpenInfo) (qid : FSQID) (err : Z) (u : FS).

Definition run_event (fuel : nat) (e : Event) (s : LedgerState) : run LedgerState :=
  match e with
  | Store offset val size_log2 => virtio_mmio_write fuel offset val size_log2 s
  | Memory h => Finished (with_heap h s)
  | OpenDone oi qid err u => virtio_9p_open_cb fuel oi qid err (with_under u (fs (vext s))) s
  end.
Fixpoint run_events (fuel : nat) (l : list Event) (s : LedgerState) : run LedgerState :=
  match l with [] => Finished s | e :: l => run! s := run_event fuel e s in run_events fuel l s end.

Lemma notify_balanced fuel q (s s' : LedgerState) : balanced (vext s) -> queue_notify fuel q s = Finished s' -> balanced (vext s').
Proof.
  unfold queue_notify. destruct (manual_recv _); [by intros H [= <-]|]. generalize (avail_idx s q) as a. generalize (Z.to_nat 65536) as n.
  intros n a. revert s. induction n as [|n IH]; intros s H; cbn [notify_loop]; (destruct (_ =? a); [by intros [= <-]|]); [done|].
  destruct (get_desc_rw_size _ _ _ _) as [[[r w]|]| |]; cbn [andThen]; [|by apply IH|done..].
  destruct (device_recv _ _ _ _ _ _) as [[ret s1]| |] eqn:E; cbn [andThen]; [|done..].
  pose proof (recv_kept _ balanced_invariant fuel q (avail_entry s q) r w s ret s1 H E) as H1. cbn [fst snd]. destruct (ret <? 0); [by intros [= <-]|]. by apply IH.
Qed.

Lemma config_write_vext offset val size_log2 (s s' : LedgerState) :
  virtio_config_write offset val size_log2 s = Finished s' -> vext s' = vext s.
Proof.
  unfold virtio_config_write.
  repeat match goal with |- context [if ?b then _ else _] => destruct b end; by intros [= <-].
Qed.

Lemma store_balanced fuel offset val size_log2 (s s' : LedgerState) :
  balanced (vext s) -> virtio_mmio_write fuel offset val size_log2 s = Finished s' -> balanced (vext s').
Proof.
  intros Hs. unfold virtio_mmio_write, write_queue_num, write_status, write_interrupt_ack.
  destruct (VIRTIO_MMIO_CONFIG <=? offset); [by intros ->%config_write_vext|].
  repeat match goal with |- context [if ?b then _ else _] => destruct b end; try (by apply notify_balanced); by intros [= <-].
Qed.

(** C24: over every file system, whatever the driver stores to the registers and
    puts into the rings and requests, and in whatever order requests and
    completions come: from its creation on the device hands the file system only
    open files - to operate on and to close -, closes none twice, and the files
    that are open are exactly those its table of identifiers holds, each under one
    identifier. *)
Theorem p9_files_balanced (fuel : nat) (l : list Event) addr opaque mount_tag m u (s s' : LedgerState)
    (Hi : virtio_9p_init addr opaque mount_tag m (mkLedger u 0 [] true) = Finished s)
    (Hr : run_events fuel l s = Finished s') : balanced (vext s').
Proof.
  assert (balanced (vext s)) as Hs.
  { revert Hi. unfold virtio_9p_init, virtio_init. destruct (_ <? _); [done|]. destruct (cpu_register_device _ _ _ _ _) as [[x mm]|]; [|done].
    cbn [andThen]. intros [= <-]. by split; try constructor. }
  clear Hi. revert s Hs Hr. induction l as [|e l IH]; intros s Hs; cbn [run_events]; [by intros [= <-]|].
  destruct (run_event fuel e s) as [s1| |] eqn:E; cbn [andThen]; [|done..]. apply IH. destruct e as [o v z|h|oi qid err u']; cbn [run_event] in E.
  - by eapply store_balanced.
  - by injection E as <-.
  - unfold virtio_9p_open_cb in E. destruct (virtio_9p_open_reply _ _ _ _ _ _ _) as [s2| |] eqn:E2; cbn [andThen] in E; [|done..].
    apply (kept_open_reply _ balanced_invariant) in E2; [|by apply balanced_with_under].
    eapply notify_balanced; [|exact E]. by destruct E2.
Qed.
End Ledger.

(** ** An example: attach, walk, close *)

(** a file system of one directory, which counts its operations *)
Definition one_directory : FSDevice Z Z :=
  let qid := mkQID 0x80 0 1 in
  let no_qid n := (- P9_ENOTSUP, qid, n + 1) in
  let no n := (- P9_ENOTSUP, n + 1) in
  {| fs_delete _ n := n + 1;
     fs_statfs n := (mkStatFS 4096 0 0 0 1 0, n + 1);
     fs_attach _ _ _ n := (0, 1, qid, n + 1);
     fs_walk f names n := (if (length names =? 0)%nat then 0 else - P9_ENOTSUP, f, [], n + 1);
     fs_mkdir _ _ _ _ := no_qid; fs_open _ _ _ n := (0, qid, n + 1); fs_create _ _ _ _ _ := no_qid;
     fs_stat _ n := (0, mkStat qid 0x4000 0 0 1 0 0 4096 0 0 0 0 0 0 0, n + 1);
     fs_setattr _ _ _ _ _ _ _ _ _ _ := no;
     fs_readdir _ _ buf _ n := (0, buf, n + 1); fs_read _ _ buf _ n := (- P9_ENOTSUP, buf, n + 1); fs_write _ _ _ _ := no;
     fs_link _ _ _ := no; fs_symlink _ _ _ _ := no_qid; fs_mknod _ _ _ _ _ _ := no_qid;
     fs_readlink buf _ _ n := (- P9_ENOTSUP, buf, n + 1); fs_renameat _ _ _ _ := no; fs_unlinkat _ _ := no; fs_lock _ _ := no;
     fs_getlock _ k n := (- P9_ENOTSUP, k, n + 1) |}.

Definition request_bytes (id : Z) (fmt : list Item) : list Z :=
  let body := concat (map item_bytes fmt) in put_le32 (len body + 7) ++ [id] ++ put_le16 1 ++ body.
Definition attach_bytes : list Z := request_bytes 104 [W 1; W 0xffffffff; S []; S []; W 0].
Definition walk_bytes : list Z := request_bytes 110 [W 1; W 2; H 0].
Definition clunk_bytes : list Z := request_bytes 120 [W 1].

(** three requests, each a readable descriptor and a writable one *)
Definition p9_heap : HostMem :=
  hm_copy 0x100000 (concat (map put_desc
      [mkDesc 0x4000 (len attach_bytes) 1 1; mkDesc 0x5000 256 2 0; mkDesc 0x4100 (len walk_bytes) 1 3; mkDesc 0x5100 256 2 0;
       mkDesc 0x4200 (len clunk_bytes) 1 5; mkDesc 0x5200 256 2 0]))
    (hm_copy 0x101000 [0; 0; 3; 0; 0; 0; 2; 0; 4; 0]
    (hm_copy 0x103000 attach_bytes (hm_copy 0x103100 walk_bytes (hm_copy 0x103200 clunk_bytes ∅)))).

(** the driver sets the queue up and notifies it *)
Definition p9_events : list (Event (FS := Z)) :=
  [Memory p9_heap; Store VIRTIO_MMIO_QUEUE_DESC_LOW 0x1000 2; Store VIRTIO_MMIO_QUEUE_AVAIL_LOW 0x2000 2;
   Store VIRTIO_MMIO_QUEUE_USED_LOW 0x3000 2; Store VIRTIO_MMIO_QUEUE_READY 1 2; Store VIRTIO_MMIO_QUEUE_NOTIFY 0 2].

(** the state after the events: the table, the open files and the operations *)
Definition p9_summary (r : run (VState (VIRTIO9PDevice (Ledger (FS := Z)) (Z * Z)))) : option (list (Z * (Z * Z)) * list Z * Z) :=
  match r with Finished s => Some (fid_list (vext s), opened (fs (vext s)), under (fs (vext s))) | _ => None end.
Definition p9_start := virtio_9p_init (F := Z * Z) 0x10000 0 [104] (example_map, ∅) (mkLedger (FS := Z) 0 0 [] true).

Lemma p9_runs :
  p9_summary (run! s := p9_start in run_events (fsd := one_directory) (alloc := zeroed) 4 p9_events s) = Some ([(2, (1, 1))], [1], 3).
Proof. vm_compute. reflexivity. Qed.

Lemma p9_summary_steps {X} (m : run X) k x : p9_summary (andThen m k) = Some x ->
  exists s s', m = Finished s /\ k s = Finished s' /\ p9_summary (Finished s') = Some x.
Proof. destruct m as [s| |]; cbn [andThen]; [|done..]. destruct (k s) as [s'| |] eqn:E; [|done..]. by exists s, s'. Qed.

Lemma p9_files_balanced_witness : exists s s',
  p9_start = Finished s /\ run_events (fsd := one_directory) (alloc := zeroed) 4 p9_events s = Finished s'
  /\ p9_summary (Finished s') = Some ([(2, (1, 1))], [1], 3) /\ balanced (vext s').
Proof.
  destruct (p9_summary_steps _ _ _ p9_runs) as (s & s' & E & E' & H). exists s, s'.
  split; [exact E|]. split; [exact E'|]. split; [exact H|].
  exact (p9_files_balanced (fsd := one_directory) (alloc := zeroed) 4 p9_events _ _ _ _ _ s s' E E').
Defined.
