(* ===== verification/VirtioPci.v ===== *)
(** * virtio devices on the PCI bus (virtio.cpp: virtio_init)

    The PCI case of [virtio_init]: a device of the bus whose vendor capabilities
    tell the driver where in its memory region the four groups of registers are. *)

From S2P Require Import Prelude CpuState Cutils IoMem Fdt VirtMachine Virtio Pci PciProps.

Definition virtio_add_pci_capability (cfg_type bar offset length mult : Z) (d : PCIDevice) : PCIDevice :=
  let cap_len := if cfg_type =? 2 then 20 else 16 in
  let cap := [0x09; 0; u8 cap_len; u8 cfg_type; u8 bar; 0; 0; 0] ++ put_le32 offset ++ put_le32 length ++
             (if cfg_type =? 2 then put_le32 mult else []) in
  (pci_add_capability cap d).2.

(** a device's range; it is never RAM, for which the map's function is the same *)
Definition phys_mem_set_addr {O : Type} (flush : Z -> Z -> O -> O) (pr : PhysMemoryRange) (addr : Z) (enabled : bool) (o : O)
  : PhysMemoryRange * O := default_set_addr flush pr addr enabled o.

Definition virtio_pci_bar_set {O : Type} (flush : Z -> Z -> O -> O) (mem_range : nat) (addr : Z) (enabled : bool)
    (m : PhysMemoryMap) (o : O) : PhysMemoryMap * O :=
  match m !! mem_range with
  | Some pr => let r := phys_mem_set_addr flush pr addr enabled o in (<[mem_range := r.1]> m, r.2)
  | None => (m, o)
  end.

(** the PCI device number and class; another kind aborts *)
Definition virtio_pci_ids (device_id : Z) : option (Z * Z) :=
  if device_id =? 1 then Some (0x1000, 0x0200)
  else if device_id =? 2 then Some (0x1001, 0x0100)
  else if device_id =? 3 then Some (0x1003, 0x0780)
  else if device_id =? 9 then Some (0x1040 + device_id, 0x2)
  else if device_id =? 18 then Some (0x1040 + device_id, 0x0980)
  else None.

Record VirtioPciDevice := mkVirtioPci { vp_dev : VIRTIODevice; vp_devfn : Z; vp_irq : Z; vp_mem_range : nat }.

(** [None] also where the bus has no number left, whose NULL is dereferenced *)
Definition virtio_init_pci (ndebug : bool) (device_id config_space_size opaque : Z) (b : PCIBus) (m : PhysMemoryMap)
  : option (VirtioPciDevice * PCIBus * PhysMemoryMap) :=
  '(pci_device_id, class_id) ← virtio_pci_ids device_id;
  r ← pci_register_device ndebug b (-1) 0x1af4 pci_device_id 0x00 class_id;
  n ← r.1;
  d ← get_device r.2 n;
  let d := pci_device_set_config16 0x2c 0x1af4 d in
  let d := pci_device_set_config16 0x2e device_id d in
  let d := pci_device_set_config8 PCI_INTERRUPT_PIN 1 d in
  let bar_num := 4 in
  let d := virtio_add_pci_capability 1 bar_num VIRTIO_PCI_CFG_OFFSET 0x1000 0 d in
  let d := virtio_add_pci_capability 3 bar_num VIRTIO_PCI_ISR_OFFSET 0x1000 0 d in
  let d := virtio_add_pci_capability 4 bar_num VIRTIO_PCI_CONFIG_OFFSET 0x1000 0 d in
  let d := virtio_add_pci_capability 2 bar_num VIRTIO_PCI_NOTIFY_OFFSET 0x1000 0 d in
  irq ← pci_device_get_irq 0;
  rm ← cpu_register_device m 0 0x4000 opaque (DEVIO_SIZE8 .| DEVIO_SIZE16 .| DEVIO_SIZE32 .| DEVIO_DISABLED);
  d ← pci_register_bar bar_num 0x4000 PCI_ADDRESS_SPACE_MEM d;
  Some (mkVirtioPci (virtio_dev_init device_id config_space_size) n irq rm.1, set_device n (Some d) r.2, rm.2).

(** ** What a driver finds *)

(** the walk over the capabilities: type, region and offset of the vendor's *)
Fixpoint capabilities (n : nat) (d : PCIDevice) (ptr : Z) : list (Z * Z * Z) :=
  match n with
  | O => []
  | S n =>
      if ptr =? 0 then []
      else (if cfg8 d ptr =? 0x09 then [(cfg8 d (ptr + 3), cfg8 d (ptr + 4), cfg32 d (ptr + 8))] else []) ++
           capabilities n d (cfg8 d (ptr + 1))
  end.

Definition windows (device_id : Z) : option (list (Z * Z * Z) * Z * Z) :=
  '(v, b, _) ← virtio_init_pci true device_id 8 0 empty_bus [];
  d ← get_device b (vp_devfn v);
  Some (capabilities 48 d (cfg8 d PCI_CAPABILITY_LIST), cfg8 d PCI_STATUS .& PCI_STATUS_CAP_LIST, r_size (region d 4)).

(** a driver that follows the capability list of any of the five kinds of device
    finds the notification, configuration, interrupt and common registers, each
    once and in region 4, which holds them all *)
Theorem virtio_windows_found :
  Forall (fun device_id => windows device_id =
    Some ([(2, 4, VIRTIO_PCI_NOTIFY_OFFSET); (4, 4, VIRTIO_PCI_CONFIG_OFFSET); (3, 4, VIRTIO_PCI_ISR_OFFSET);
           (1, 4, VIRTIO_PCI_CFG_OFFSET)], PCI_STATUS_CAP_LIST, 0x4000)) [1; 2; 3; 9; 18].
Proof. repeat constructor. Qed.
